(* ===== verification/_CoqProject ===== *)
-Q . S2P
Prelude.v
Mundo.v
Peca.v
Fila.v
Pilha.v
Troca.v
Menu.v
Maquina.v
Contador.v
Completo.v
Exibicao.v
Saida.v
Entrada.v
Jogo.v
Sessao.v
Texto.v
