(* ===== verification/Prelude.v ===== *)
(** * Tetris Stack: a verification development for [src/tetris.c]

    ** The program

    [src/tetris.c] is a terminal simulator of the "next pieces" queue and the
    "hold" stack of a block game.  It has five parts:

    - the piece generator [gerarPeca] (a [static int proxId] counter and the
      libc [rand]);
    - a circular queue [Fila] of capacity [MAX_FILA = 5] ([inicializarFila],
      [filaVazia], [filaCheia], [enqueue], [dequeue], [filaAt],
      [reabastecerFila]);
    - a linear stack [Pilha] of capacity [MAX_PILHA = 3] ([inicializarPilha],
      [pilhaVazia], [pilhaCheia], [push], [pop], [topoPilha]);
    - the two swaps [trocarFrenteComTopo] and [trocarTres];
    - [main]: the menu loop, whose [switch] composes the operations above, and
      the display and input helpers ([mostrarFila], [mostrarPilha],
      [mostrarEstado], [limparEntrada], [pausaEnter]).

    Between two choices the queue is always full: every case that takes a
    piece from it calls [reabastecerFila] before it ends.

    ** How the C is modelled

    The embedding is shallow and executable.

    - An [int] is a [Z]; every arithmetic operation of the source is a checked
      operation ([int_add], [int_sub], [int_rem]) that returns [Err IntOverflow]
      or [Err DivByZero] where C has undefined behaviour.  [%] is [Z.rem].
    - An array is a [list]; a read or a write is [arr_get] or [arr_set], which
      return [Err OutOfBounds] outside [0 .. length).  Arrays are never
      initialised by the source, so the initial contents are arbitrary.
      Reading a local that was never written is [Err UninitRead].
    - A computation that can be undefined is a [Res A]; a computation that
      also touches the process state (the [static] counter, the state of
      [rand], standard output) is a [Prog S A := S -> Res (A * S)].
    - A struct passed by pointer is passed and returned by value
      ([enqueue : Fila -> Peca -> Res (bool * Fila)]).  A C [int] used as a
      truth value is a [bool].  An out-parameter [Peca *out] is a [bool]
      (is the pointer non-NULL) and the value stored through it comes back as
      an [option Peca].
    - A [while] loop is a [Fixpoint] on fuel that returns [Err OutOfFuel] when
      the fuel runs out; a [for] loop whose bound does not change in its
      body is an iteration of a fixed number of steps ([for_range],
      [for_prog]).  The loop on fuel comes with a theorem that a stated
      amount of fuel is enough.

    ** Files

    - [Prelude] (this file): [Res], the checked [int] operations, arrays, the
      [Prog] monad with its weakest-precondition predicates ([res_wp], [wp],
      and [wpe], which allows a set of errors) and their rules, the loop combinators [for_range] and [for_prog], the
      circular view [circ] of a list with its lemmas, the [Proper]
      instances that let a goal on a list be rewritten with [⊆+], the
      [printf] conversions, the tactics ([wp_step], [int_lia],
      [by_compute], [str_assoc]) and the hint databases.
    - [Mundo]: the interface [Rand] of the libc generator (a class, with a
      linear congruential instance and a scripted one), the process state
      [Mundo] (the counter [proxId] of [gerarPeca], the state of [rand],
      standard output as a string), [rand], [srand] and [printf].
    - [Peca]: [TIPOS], [QTD_TIPOS], [Peca] and [gerarPeca].  Theorems: the
      piece returned and the state left ([gerarPeca_spec]); identifiers are
      consecutive from the counter ([gerarPecas_spec]); the call at
      [proxId = INT_MAX] is undefined ([gerarPeca_overflow]).
    - [Fila]: the circular queue, lines 46-82.  Invariant [fila_wf];
      abstraction [conteudo] (front to back); the list queue [FilaSpec];
      [enqueue] and [dequeue] refine it ([enqueue_refines],
      [dequeue_refines]); [filaAt]; the order of service ([fila_fifo]);
      [reabastecerFila] ([reabastecerFila_spec]) and its fuel
      ([reabastecerFila_fuel_enough], [reabastecerFila_fuel_short]).
    - [Pilha]: the stack, lines 85-107.  Invariant [pilha_wf]; abstraction
      [pilha_conteudo] (base to top); the list stack [PilhaSpec];
      [push_refines], [pop_refines], [topoPilha_spec], [pilha_lifo].
    - [Troca]: [trocarFrenteComTopo] and [trocarTres], lines 137-173.  The
      swaps on the contents are [TrocaSpec]; [troca_post] is what a swap
      promises; [trocarFrenteComTopo_spec] and [trocarTres_spec] show that
      a failed test writes nothing and prints its message, and that a
      success exchanges exactly the pieces the code's loop pairs (front of
      the queue with base of the stack for [trocarTres]).
    - [Menu]: of [main], the initialisation (lines 194-200, [iniciar]) and
      the [switch] (lines 226-281, [menu_switch] and one definition per
      [case]) on the state [Jogo] of [main]'s two locals.  [MenuSpec] gives
      cases 1-3 on the contents; [caso_jogar_spec], [caso_reservar_spec],
      [caso_usar_spec], [caso_trocar_spec] and [caso_trocar_tres_spec] are
      the behaviour of each case with what it prints; [menu_switch_wf]
      shows that every choice keeps [jogo_wf] (both invariants and a
      full queue); [menu_lista_safe] and [main_safe] extend it to runs
      ([menu_lista] runs the switch over a list of choices);
      [cenario_reserva] is the end-to-end scenario of the specification.
    - [Maquina]: the loop of [main] as a state machine.  [passo] is the
      graph of [menu_switch] on the states [Estado] (the locals of [main]
      and the process state) and [alcancavel] the inductive set of the
      states after the initial fill and after each run of the [switch],
      from any memory of the two structs and any seed; it is exactly the
      set of the ends of the runs [estado_apos]
      ([estado_apos_alcancavel], [alcancavel_estado_apos]), and a little
      more than the states of the loop, which leaves after the choice 0
      and prints the menu and the display as well.  The abstract
      machine is the one the specification describes: a state [Abs] is the
      queue front to back, the stack base to top and the next number;
      [efeito] computes what a choice does to the two lists, from
      [MenuSpec] and [TrocaSpec]; [abs_passo] is its step relation (a
      refill adds one piece of any type, numbered with the next number) and
      [abs_alcancavel] its reachable states, with the invariant [abs_inv]
      proved by rule induction.  [abs] is the abstraction function.
      [maquina_refina] is the forward simulation; [alcancavel_inv] the
      invariant of the reachable states, where the distinctness of the
      numbers in play is proved on the abstract machine and carried over
      by the simulation; [passo_existe] says which choices have a next
      state.  [abs_exec] is the abstract step as a function of the type
      drawn: [passo_executa] shows that a turn of the code is that step
      on the type [rand() % 7] selects, and [representacao] that the
      states that hold the same game ([mesmo_estado]: the same pieces in
      the same order, the same counter and generator) are bisimilar,
      whatever their arrays.
    - [Contador]: the counter of a session.  [sorteios] counts the pieces
      a run of choices draws, from the height of the stack alone;
      [contador_exato] shows that the counter after a run is the counter
      before it plus [sorteios], and that the run is undefined exactly
      when that is not an [int]; [jogadas_limite] that a process can play
      [INT_MAX - 6] pieces and not one more.
    - [Completo]: the converse of the simulation of [Maquina].  Under the
      generator that replays a script ([rand_script]), [roteiro] is the
      script that makes [gerarPeca] draw given pieces; [abs_completo]
      shows that every state the abstract machine reaches with a counter
      in the range of [int] is the abstraction of a state [main] reaches,
      and [maquina_exata] that the abstractions of the reachable states
      are exactly those states: the abstract machine allows nothing the
      code cannot do.
    - [Exibicao]: [mostrarFila], [mostrarPilha] and [mostrarEstado], lines
      110-134, with their loops.  [texto_fila], [texto_pilha] and
      [texto_estado] are the texts as functions of the contents;
      [mostrarFila_spec], [mostrarPilha_spec] and [mostrarEstado_spec] show
      that the display prints exactly these and reads no slot outside the
      live range.

    - [Saida]: a helper library.  The output is only written, so a rule
      proved from one process state holds from every state that differs
      from it in the output only ([mesmo_jogo], an equivalence).  [Cego m]
      says so of the program [m]; it is a class with one instance per
      construct of the monad and per function the [switch] calls, found by
      instance resolution.  [escrito m w] is the text [m] appends.
    - [Entrada]: standard input as the string of the characters not yet
      read, and the process state [Proc] (a [Mundo], the input and the
      clock); of the libc, [getchar], [scanf("%d")] after the C standard
      ([scanf_d]) and [time(NULL)] ([time_null]); of the source,
      [limparEntrada] and [pausaEnter], lines 176-188.
      [limparEntrada_spec] and [pausaEnter_spec] show that both always end
      and what they leave of the input; [ler_numero_spec] that a number
      printed with [%d] is read back; [leitura_consome] that a read
      followed by [limparEntrada] consumes a character unless the input
      is at its end.
    - [Jogo]: the whole of [main], lines 191-291: [mostrarMenu] (the title,
      the state, the menu), [corpo] (the body of the [do ... while]), [laco]
      (the loop, with the local [opcao] as an option that is [None] until a
      value is stored) and [main], which starts with
      [srand((unsigned)time(NULL))].  [main_seguro] classifies the runs of
      [main] on every input, from every memory and seed and with every
      fuel: exit status 0, or one of the errors of [erros_main] (the
      uninitialised read of [opcao], an overflow, the end of the fuel),
      never an access outside an array.  [laco_termina] and [main_termina] show
      that a session of lines ending with a line 0 is read to its end with
      no undefined behaviour and exit status 0; [laco_refina] that the
      loop ends it with the locals, the counter and the generator of the
      run [menu_lista] of the same choices, so that the loop with its
      input and its display goes through the states of [Maquina]
      ([laco_alcancavel]); [main_uninit] that a first
      read that fails makes the test of the loop read the uninitialised
      [opcao]; [laco_eof] that at the end of the input the loop runs for
      ever; [corpo_overflow] that a number outside [int] is undefined.
    - [Sessao]: the loop on any input.  [analisa] is the loop as far as it
      reads: a function of the input alone that returns the events of the
      iterations ([Escolha v], a choice that reaches the [switch];
      [Invalida], a line that is not a number), how the loop ends and the
      input it leaves.  [sessao] runs events on the game, with everything
      an iteration prints, and [corre] is the loop as an analysis says.
      [laco_corre] is the equation [laco n j opcao s = corre (analisa n
      (entrada s) opcao) j s], with no hypothesis.  [sessao_refina] shows
      that the events end with the locals, the counter and the generator
      of [menu_lista] on their choices and print [texto_sessao];
      [main_analisa] that [main] on any input exits in a state of the
      machine of [Maquina] or ends with the error of the analysis;
      [analisa_basta] and [main_classifica] that the input, analysed in
      one iteration more than it has characters, decides whether [main]
      exits, stops on an error or runs for ever.
    - [Texto]: what [main] prints, as a function on lists and strings.  A
      [Partida] is the game a player sees (the abstract state and the
      generator); [partida_passo] is a turn on it, [partida_inicial] the
      game after the initial fill, [mensagem] the message of a choice on
      the contents and [texto_partida] the text of a list of events.
      [menu_switch_mensagem] shows that a turn of the code prints
      [mensagem] and leaves [partida_passo]; [sessao_texto] that a session
      prints [texto_partida]; [main_texto] that [main], on an input whose
      analysis exits, prints [texto_programa] of the input and of the seed;
      [corpos_eof] that the loop at the end of the input prints the menu
      and the report of an invalid line once per iteration.  Its examples
      are outputs of the program itself, with a [rand] that replays a
      script: [main_mensagens_ex] compares the wording of every message
      [main] can reach with them.

    In each file the lemmas named [wp_...] are the rules the other proofs
    use (a rule takes the continuation's postcondition [Q]); the theorems
    state the same facts in closed form and are used by no other proof.

    ** Bounds and fuel

    Three loops of the source are not bounded by a constant; each is a
    [Fixpoint] on fuel with a theorem that says how much is enough.

    - [reabastecerFila] is [reabastecerFila_fuel], run with fuel
      [MAX_FILA]: on a well-formed queue it needs exactly
      [MAX_FILA - total] iterations ([reabastecerFila_fuel_enough],
      [reabastecerFila_fuel_short]).  On a queue that is not well formed
      (a negative [total], say) the C loop would go on where the model
      stops with [Err OutOfFuel]; [main] only calls it on queues that
      [inicializarFila] initialised, which are well formed
      ([menu_switch_wf], [alcancavel_inv]).
    - [limparEntrada] is [limparEntrada_fuel], run with one more than the
      length of the input: it reads a character per iteration, so this is
      enough for every input ([limparEntrada_spec] has no hypothesis).
    - The [do ... while] of [main] is [laco], whose fuel is a parameter of
      [main]: on a session of [k] lines before the line 0, any fuel above
      [k] gives the result ([main_termina]); at the end of the input no
      fuel does ([laco_eof]), which is the non-termination of the source,
      not a limit of the model.  On any input, every iteration but those
      at the end of the input consumes a character, so fuel above the
      length of the input gives the result whenever there is one, and the
      loop that runs out of that much fuel runs out of every fuel
      ([analisa_basta], [main_classifica]).

    [gerarPeca] is undefined when [proxId = INT_MAX]; the theorems about
    runs carry the hypothesis that the counter has room for the pieces
    drawn, at most one per choice, which holds for the first [INT_MAX - 7]
    choices of a process, and so for every input of less than
    [INT_MAX - 5] characters (the [switch] runs at most once per
    character, [escolhas_analisa]).  [contador_exato] gives the exact
    condition.  The theorems of [Maquina] need no such
    hypothesis: a state is reachable only through defined turns, and
    [passo_existe] says exactly which turns are defined.  The abstract
    machine has an unbounded counter; the simulation relates it to the
    turns the code defines, and [abs_completo] realises its states up to
    the counter [INT_MAX], the last a state of [main] can hold.

    ** Not modelled

    - The value of the clock and the generator behind [rand] and [srand]:
      both are parameters (any time, any instance of [Rand]), and every
      theorem holds for all of them.  That [time] can fail is covered by
      the conversion [to_unsigned] of any integer.
    - Of [scanf], only the conversion [%d]; of the terminal, nothing: the
      input is a finite string, so a read never blocks, and an
      interactive session that waits for ever for its user is not a run
      of the model.
    - What a run that stops on undefined behaviour had printed before
      it: an error value carries no process state, and C promises nothing
      of such a run.  [main_texto] gives the output of the runs that exit
      and [corpos_eof] that of the loop that runs for ever at the end of
      the input, iteration by iteration; the theorems on the runs that
      stop ([main_uninit], [corpo_overflow], [main_classifica]) give the
      error alone.
    - An input of [INT_MAX - 5] characters or more: [laco_corre] and
      [main_seguro] cover it, the classification of [main_classifica]
      does not, since the counter could then overflow. *)

From Stdlib Require Import ZArith String Ascii DecimalString.
From stdpp Require Import base tactics option list numbers.

#[local] Open Scope Z_scope.

(** * Results of computations that may be undefined *)

(** Why a computation has no result: the undefined behaviours the source
    can reach, and the exhaustion of a loop's fuel. *)
Inductive Erro : Type :=
  | OutOfBounds
  | IntOverflow
  | DivByZero
  | UninitRead
  | OutOfFuel.

Inductive Res (A : Type) : Type :=
  | Ok (a : A)
  | Err (e : Erro).
Arguments Ok {A} a.
Arguments Err {A} e.

#[export] Instance Erro_eq_dec : EqDecision Erro.
Proof. solve_decision. Defined.

#[export] Instance Res_eq_dec {A} `{EqDecision A} : EqDecision (Res A).
Proof. solve_decision. Defined.

#[export] Instance res_ret : MRet Res := fun A a => Ok a.
#[export] Instance res_bind : MBind Res :=
  fun A B f m => match m with Ok a => f a | Err e => Err e end.
#[export] Instance res_fmap : FMap Res :=
  fun A B f m => match m with Ok a => Ok (f a) | Err e => Err e end.

Definition is_ok {A} (r : Res A) : bool :=
  match r with Ok _ => true | Err _ => false end.

(** [res_wp r Q]: [r] is defined and its value satisfies [Q]. *)
Definition res_wp {A} (r : Res A) (Q : A -> Prop) : Prop :=
  match r with Ok a => Q a | Err _ => False end.

(** * The C type [int] *)

Definition INT_MAX : Z := 2147483647.
Definition INT_MIN : Z := -2147483648.

Definition in_int (z : Z) : Prop := INT_MIN <= z <= INT_MAX.

#[export] Instance in_int_dec z : Decision (in_int z).
Proof. unfold in_int. apply _. Defined.

(** The value of an [int] expression whose mathematical value is [z]. *)
Definition int_of (z : Z) : Res Z :=
  if decide (in_int z) then Ok z else Err IntOverflow.

Definition int_add (a b : Z) : Res Z := int_of (a + b).
Definition int_sub (a b : Z) : Res Z := int_of (a - b).

(** [a % b]: undefined when [b = 0] and when the quotient overflows. *)
Definition int_rem (a b : Z) : Res Z :=
  if decide (b = 0) then Err DivByZero
  else if decide (in_int (Z.quot a b)) then Ok (Z.rem a b)
  else Err IntOverflow.

(** * Arrays *)

Definition arr_get {A} (l : list A) (i : Z) : Res A :=
  if decide (0 <= i) then
    match l !! Z.to_nat i with
    | Some x => Ok x
    | None => Err OutOfBounds
    end
  else Err OutOfBounds.

Definition arr_set {A} (l : list A) (i : Z) (x : A) : Res (list A) :=
  if decide (0 <= i < Z.of_nat (length l)) then Ok (<[Z.to_nat i := x]> l)
  else Err OutOfBounds.

(** [&l[i]]: forming the address is defined up to one past the end; the
    address is modelled by the index. *)
Definition arr_ptr {A} (l : list A) (i : Z) : Res Z :=
  if decide (0 <= i <= Z.of_nat (length l)) then Ok i else Err OutOfBounds.

(** The value of a local variable that was declared without initialiser and
    is [Some x] once [x] has been stored in it. *)
Definition ler_local {A} (o : option A) : Res A :=
  match o with Some x => Ok x | None => Err UninitRead end.

(** * Programs over a process state *)

Definition Prog (S A : Type) : Type := S -> Res (A * S).

#[export] Instance prog_ret {S} : MRet (Prog S) := fun A a s => Ok (a, s).
#[export] Instance prog_bind {S} : MBind (Prog S) :=
  fun A B f m s => match m s with Ok (a, s') => f a s' | Err e => Err e end.

Definition lift {S A} (r : Res A) : Prog S A :=
  fun s => match r with Ok a => Ok (a, s) | Err e => Err e end.
Definition gets {S A} (f : S -> A) : Prog S A := fun s => Ok (f s, s).
Definition modify {S} (f : S -> S) : Prog S unit := fun s => Ok (tt, f s).

(** [wp m s Q]: from state [s], [m] is defined and its value and final
    state satisfy [Q]. *)
Definition wp {S A} (m : Prog S A) (s : S) (Q : A -> S -> Prop) : Prop :=
  match m s with Ok (a, s') => Q a s' | Err _ => False end.

(** [wpe E m s Q]: from state [s], [m] fails with an error of [E] or
    returns a value and a final state that satisfy [Q]. *)
Definition wpe {S A} (E : Erro -> Prop) (m : Prog S A) (s : S)
    (Q : A -> S -> Prop) : Prop :=
  match m s with Ok (a, s') => Q a s' | Err e => E e end.

(** * Loops *)

(** [for (int i = lo; i < lo + n; i++) x = body(i, x);] *)
Fixpoint for_range {X} (lo : Z) (n : nat) (body : Z -> X -> Res X) (x : X)
  : Res X :=
  match n with
  | O => Ok x
  | S n' => x' ← body lo x; for_range (lo + 1) n' body x'
  end.

(** [for (int i = lo; i < lo + n; i++) body(i);] in a program. *)
Fixpoint for_prog {St} (lo : Z) (n : nat) (body : Z -> Prog St unit)
  : Prog St unit :=
  match n with
  | O => mret tt
  | S n' => body lo;; for_prog (lo + 1) n' body
  end.

(** * [printf] conversions *)

(** The new-line character of a C string literal. *)
Definition nl : string := String "010"%char EmptyString.

(** [%d] *)
Definition fmt_d (z : Z) : string := NilZero.string_of_int (Z.to_int z).
(** [%c] *)
Definition fmt_c (c : ascii) : string := String c EmptyString.

(** * The circular view of an array *)

(** The [n] elements of [l] from index [i] on, wrapping around the end. *)
Definition circ {A} (l : list A) (i n : nat) : list A :=
  take n (drop i (l ++ l)).

(** * Lemmas *)

Create Rewrite HintDb cint.
Create HintDb tetris discriminated.

(** Closes a decidable goal on closed terms by evaluation. *)
Ltac by_compute := apply (bool_decide_unpack _); vm_compute; exact I.

Ltac int_unfold := unfold in_int, INT_MAX, INT_MIN in *.
Ltac int_lia := int_unfold; lia.

Section res.
Context {A B : Type}.
Implicit Types (r : Res A) (f : A -> Res B).

Lemma res_bind_ok r f b :
  r ≫= f = Ok b <-> exists a, r = Ok a /\ f a = Ok b.
Proof.
  destruct r as [a|e]; simpl; split.
  - eauto.
  - by intros (? & [= ->] & ?).
  - done.
  - by intros (? & ? & ?).
Qed.

Lemma res_wp_ok r Q : res_wp r Q <-> exists a, r = Ok a /\ Q a.
Proof.
  destruct r; simpl; split; try done; eauto.
  - by intros (? & [= ->] & ?).
  - by intros (? & ? & ?).
Qed.

Lemma res_wp_mono r (Q Q' : A -> Prop) :
  res_wp r Q -> (forall a, Q a -> Q' a) -> res_wp r Q'.
Proof. destruct r; simpl; eauto. Qed.

Lemma res_wp_bind r f (Q : B -> Prop) :
  res_wp r (fun a => res_wp (f a) Q) -> res_wp (r ≫= f) Q.
Proof. by destruct r. Qed.

Lemma res_wp_is_ok r Q : res_wp r Q -> is_ok r = true.
Proof. by destruct r. Qed.
End res.

Section cint.
Implicit Types (a b z : Z).

Lemma int_of_ok z : in_int z -> int_of z = Ok z.
Proof. intros. unfold int_of. by rewrite decide_True. Qed.

Lemma int_of_err z : ~ in_int z -> int_of z = Err IntOverflow.
Proof. intros. unfold int_of. by rewrite decide_False. Qed.

Lemma int_add_ok a b : in_int (a + b) -> int_add a b = Ok (a + b).
Proof. apply int_of_ok. Qed.

Lemma int_sub_ok a b : in_int (a - b) -> int_sub a b = Ok (a - b).
Proof. apply int_of_ok. Qed.

(** On a non-negative dividend and a positive divisor [%] is [mod]. *)
Lemma int_rem_ok a b :
  0 <= a <= INT_MAX -> 0 < b -> int_rem a b = Ok (a mod b).
Proof.
  intros Ha Hb. unfold int_rem.
  rewrite decide_False by lia.
  rewrite Z.rem_mod_nonneg by lia.
  rewrite decide_True; [done|].
  assert (0 <= Z.quot a b <= a); [|int_lia].
  rewrite Z.quot_div_nonneg by lia.
  split; [apply Z.div_pos; lia|apply Z.div_le_upper_bound; nia].
Qed.

Lemma int_add_inv a b z : int_add a b = Ok z -> z = a + b /\ in_int z.
Proof.
  unfold int_add, int_of. case_decide; [|done]. by intros [= <-].
Qed.

Lemma int_sub_inv a b z : int_sub a b = Ok z -> z = a - b /\ in_int z.
Proof.
  unfold int_sub, int_of. case_decide; [|done]. by intros [= <-].
Qed.
End cint.

Section arrays.
Context {A : Type}.
Implicit Types (l : list A) (i : Z) (x : A).

Lemma arr_get_ok l i x :
  0 <= i -> l !! Z.to_nat i = Some x -> arr_get l i = Ok x.
Proof. intros ? Hl. unfold arr_get. rewrite decide_True by done. by rewrite Hl. Qed.

Lemma arr_get_inv l i x :
  arr_get l i = Ok x -> 0 <= i < Z.of_nat (length l) /\ l !! Z.to_nat i = Some x.
Proof.
  unfold arr_get. case_decide; [|done].
  destruct (l !! Z.to_nat i) eqn:E; [|done]. intros [= ->].
  apply lookup_lt_Some in E as ?. split; [lia|done].
Qed.

Lemma arr_get_oob l i :
  ~ (0 <= i < Z.of_nat (length l)) -> arr_get l i = Err OutOfBounds.
Proof.
  intros. unfold arr_get. case_decide; [|done].
  rewrite lookup_ge_None_2; [done|lia].
Qed.

Lemma arr_set_ok l i x :
  0 <= i < Z.of_nat (length l) -> arr_set l i x = Ok (<[Z.to_nat i := x]> l).
Proof. intros. unfold arr_set. by rewrite decide_True. Qed.

Lemma arr_ptr_ok l i : 0 <= i <= Z.of_nat (length l) -> arr_ptr l i = Ok i.
Proof. intros. unfold arr_ptr. by rewrite decide_True. Qed.

Lemma arr_set_oob l i x :
  ~ (0 <= i < Z.of_nat (length l)) -> arr_set l i x = Err OutOfBounds.
Proof. intros. unfold arr_set. by rewrite decide_False. Qed.
End arrays.

#[export] Hint Rewrite int_add_ok int_sub_ok int_of_ok using int_lia : cint.
#[export] Hint Rewrite int_rem_ok using int_lia : cint.
#[export] Hint Rewrite @arr_set_ok using (simpl; lia) : cint.

Section prog.
Context {S A B : Type}.
Implicit Types (m : Prog S A) (k : A -> Prog S B) (s : S).

Lemma prog_bind_ok m k s b s' :
  (m ≫= k) s = Ok (b, s') <->
  exists a s1, m s = Ok (a, s1) /\ k a s1 = Ok (b, s').
Proof.
  unfold mbind, prog_bind. destruct (m s) as [[a s1]|e]; split.
  - eauto.
  - by intros (? & ? & [= -> ->] & ?).
  - done.
  - by intros (? & ? & ? & ?).
Qed.

(** Running a sequence whose first part is known. *)
Lemma prog_bind_eq m k s :
  (m ≫= k) s = match m s with Ok (a, s') => k a s' | Err e => Err e end.
Proof. done. Qed.

Lemma prog_bind_run m k s a s' :
  m s = Ok (a, s') -> (m ≫= k) s = k a s'.
Proof. intros H. unfold mbind, prog_bind. by rewrite H. Qed.

Lemma prog_bind_err m k s e : m s = Err e -> (m ≫= k) s = Err e.
Proof. intros H. unfold mbind, prog_bind. by rewrite H. Qed.

Lemma wp_ok m s (Q : A -> S -> Prop) :
  wp m s Q <-> exists a s', m s = Ok (a, s') /\ Q a s'.
Proof.
  unfold wp. destruct (m s) as [[a s1]|e]; split; try done; eauto.
  - by intros (? & ? & [= -> ->] & ?).
  - by intros (? & ? & ? & ?).
Qed.

Lemma wp_mono m s (Q Q' : A -> S -> Prop) :
  wp m s Q -> (forall a s', Q a s' -> Q' a s') -> wp m s Q'.
Proof. unfold wp. destruct (m s) as [[]|]; eauto. Qed.

Lemma wp_ret (a : A) s (Q : A -> S -> Prop) : Q a s -> wp (mret a) s Q.
Proof. done. Qed.

Lemma wp_bind m k s (Q : B -> S -> Prop) :
  wp m s (fun a s1 => wp (k a) s1 Q) -> wp (m ≫= k) s Q.
Proof. unfold wp, mbind, prog_bind. by destruct (m s) as [[]|]. Qed.

Lemma wp_lift (r : Res A) s (Q : A -> S -> Prop) :
  res_wp r (fun a => Q a s) -> wp (lift r) s Q.
Proof. by destruct r. Qed.

Lemma wp_gets (f : S -> A) s (Q : A -> S -> Prop) :
  Q (f s) s -> wp (gets f) s Q.
Proof. done. Qed.

Lemma wp_and m s (Q Q' : A -> S -> Prop) :
  wp m s Q -> wp m s Q' -> wp m s (fun a s' => Q a s' /\ Q' a s').
Proof. unfold wp. by destruct (m s) as [[]|]. Qed.

(** A rule read at a run: what the rule promises holds of the result. *)
Lemma wp_run m s (Q : A -> S -> Prop) a s' :
  wp m s Q -> m s = Ok (a, s') -> Q a s'.
Proof. unfold wp. intros H E. by rewrite E in H. Qed.

(** The rules of [wpe]: a rule of [wp] is a rule of [wpe] for every set
    of errors, and [wpe] composes as [wp] does. *)
Lemma wp_wpe E m s (Q : A -> S -> Prop) : wp m s Q -> wpe E m s Q.
Proof. unfold wp, wpe. by destruct (m s) as [[]|]. Qed.

Lemma wpe_mono E m s (Q Q' : A -> S -> Prop) :
  wpe E m s Q -> (forall a s', Q a s' -> Q' a s') -> wpe E m s Q'.
Proof. unfold wpe. destruct (m s) as [[]|]; eauto. Qed.

Lemma wpe_bind E m k s (Q : B -> S -> Prop) :
  wpe E m s (fun a s' => wpe E (k a) s' Q) -> wpe E (m ≫= k) s Q.
Proof. unfold wpe, mbind, prog_bind. by destruct (m s) as [[a s']|]. Qed.

Lemma wpe_lift E (r : Res A) s (Q : A -> S -> Prop) :
  match r with Ok a => Q a s | Err e => E e end -> wpe E (lift r) s Q.
Proof. unfold wpe, lift. by destruct r. Qed.

(** A run that can only fail with [e]. *)
Lemma wpe_err e m s :
  wpe (eq e) m s (fun (_ : A) _ => False) <-> m s = Err e.
Proof.
  unfold wpe. destruct (m s) as [[]|e']; split; try done.
  - by intros ->.
  - by intros [= ->].
Qed.

(** A rule promises a result. *)
Lemma wp_is_ok m s (Q : A -> S -> Prop) :
  wp m s Q -> exists a s', m s = Ok (a, s').
Proof. intros H. apply wp_ok in H as (a & s' & ? & _). eauto. Qed.
End prog.

Lemma lift_ok {S A} (r : Res A) (s s' : S) a :
  lift r s = Ok (a, s') <-> r = Ok a /\ s' = s.
Proof. destruct r; simpl; split; (by intros [= -> ->]) || (by intros [[= ->] ->]) || by intros []. Qed.

Lemma wp_modify {S} (f : S -> S) s (Q : unit -> S -> Prop) :
  Q tt (f s) -> wp (modify f) s Q.
Proof. done. Qed.

(** One step of a weakest-precondition proof, by the shape of the program. *)
Ltac wp_step :=
  lazymatch goal with
  | |- wp (_ ≫= _) _ _ => apply wp_bind
  | |- wp (mret _) _ _ => apply wp_ret
  | |- wp (lift _) _ _ => apply wp_lift
  | |- wp (gets _) _ _ => apply wp_gets
  | |- wp (modify _) _ _ => apply wp_modify
  | |- res_wp (_ ≫= _) _ => apply res_wp_bind
  end.

Section for_range.
Context {X : Type}.
Implicit Types (body : Z -> X -> Res X) (x : X).

(** The loop rule: an invariant indexed by the loop counter. *)
Lemma for_range_wp (I : Z -> X -> Prop) lo n body x :
  I lo x ->
  (forall i y, lo <= i < lo + Z.of_nat n -> I i y ->
               res_wp (body i y) (I (i + 1))) ->
  res_wp (for_range lo n body x) (I (lo + Z.of_nat n)).
Proof.
  revert lo x. induction n as [|n IH]; intros lo x HI Hbody; simpl.
  - by rewrite Z.add_0_r.
  - apply res_wp_bind. eapply res_wp_mono; [apply Hbody; [lia|done]|].
    intros x' HI'. simpl.
    replace (lo + Z.of_nat (Datatypes.S n)) with (lo + 1 + Z.of_nat n) by lia.
    apply IH; [done|]. intros i y ? ?. apply Hbody; [lia|done].
Qed.
End for_range.

(** The same rule for a loop in a program. *)
Lemma for_prog_wp {St} (I : Z -> St -> Prop) lo n (body : Z -> Prog St unit) s :
  I lo s ->
  (forall i s1, lo <= i < lo + Z.of_nat n -> I i s1 ->
                wp (body i) s1 (fun _ => I (i + 1))) ->
  wp (for_prog lo n body) s (fun _ => I (lo + Z.of_nat n)).
Proof.
  revert lo s. induction n as [|n IH]; intros lo s HI Hbody; simpl.
  - apply wp_ret. by rewrite Z.add_0_r.
  - apply wp_bind. eapply wp_mono; [apply Hbody; [lia|done]|].
    intros [] s1 HI1.
    replace (lo + Z.of_nat (Datatypes.S n)) with (lo + 1 + Z.of_nat n) by lia.
    apply IH; [done|]. intros i y ? ?. apply Hbody; [lia|done].
Qed.

Section strings.
Implicit Types (a b c : string).

Lemma string_app_assoc a b c : (a ++ (b ++ c) = (a ++ b) ++ c)%string.
Proof. induction a as [|x a IH]; simpl; [done|]. by rewrite IH. Qed.

Lemma string_app_nil_r a : (a ++ "" = a)%string.
Proof. induction a as [|x a IH]; simpl; [done|]. by rewrite IH. Qed.
End strings.

(** Brings every concatenation of strings to its right-nested form. *)
Ltac str_assoc := repeat rewrite <- string_app_assoc in *.

Section lists.
Context {A : Type}.
Implicit Types (l k : list A) (x : A).
#[local] Open Scope nat_scope.

(** Replacing position [i] of [k] by position [i] of [l], for [i] from 0
    on, turns a prefix of [k] into the prefix of [l]. *)
Lemma insert_take_drop l k i x :
  l !! i = Some x -> i < length k ->
  <[i := x]> (take i l ++ drop i k) = take (S i) l ++ drop (S i) k.
Proof.
  intros Hx Hi. apply lookup_lt_Some in Hx as Hl.
  destruct (lookup_lt_is_Some_2 k i Hi) as [y Hy].
  rewrite (take_S_r l i x), (drop_S k y i) by done.
  rewrite insert_app_r_alt by (rewrite length_take; lia).
  rewrite length_take, Nat.min_l, Nat.sub_diag by lia. simpl.
  by rewrite <- app_assoc.
Qed.

Lemma lookup_take_drop l k i :
  i <= length l -> (take i l ++ drop i k) !! i = k !! i.
Proof.
  intros. rewrite lookup_app_r by (rewrite length_take; lia).
  rewrite length_take, Nat.min_l, Nat.sub_diag, lookup_drop by lia.
  by rewrite Nat.add_0_r.
Qed.

(** What holds of a list holds of the lists with fewer elements: a goal on
    [l] is rewritten with [l ⊆+ k] into the goal on [k]. *)
#[export] Instance NoDup_submseteq_proper :
  Proper (submseteq ==> flip impl) (@NoDup A).
Proof.
  intros l k Hsub Hk. apply submseteq_Permutation in Hsub as [k' Hsub].
  rewrite Hsub in Hk. by apply list.NoDup_app in Hk as [? _].
Qed.

#[export] Instance Forall_submseteq_proper (P : A -> Prop) :
  Proper (submseteq ==> flip impl) (Forall P).
Proof.
  intros l k Hsub. unfold flip, impl. rewrite !list.Forall_forall.
  intros Hk x Hx. by eapply Hk, elem_of_submseteq.
Qed.
End lists.

Lemma seqZ_3 (m : Z) : seqZ m 3 = [m; m + 1; m + 2].
Proof.
  rewrite (seqZ_cons m 3), (seqZ_cons _ 2), (seqZ_cons _ 1) by lia. simpl.
  rewrite seqZ_nil by lia. repeat f_equal. lia.
Qed.

Section circ_lemmas.
Context {A : Type}.
Implicit Types (l : list A) (i n k : nat) (x : A).
#[local] Open Scope nat_scope.

(** Two offsets below the length that reach the same slot are equal. *)
Lemma circ_index_inj (L i j k : nat) :
  j < L -> k < L -> (i + j) mod L = (i + k) mod L -> j = k.
Proof.
  intros Hj Hk Heq.
  pose proof (Nat.div_mod_eq (i + j) L) as H1.
  pose proof (Nat.div_mod_eq (i + k) L) as H2.
  rewrite Heq in H1.
  assert ((i + j) / L = (i + k) / L) by nia. nia.
Qed.

Lemma length_circ l i n : i + n <= 2 * length l -> length (circ l i n) = n.
Proof.
  intros. unfold circ. rewrite length_take, length_drop, length_app. lia.
Qed.

Lemma lookup_circ l i n k :
  i < length l -> k < n -> n <= length l ->
  circ l i n !! k = l !! ((i + k) mod length l).
Proof.
  intros Hi Hk Hn. unfold circ.
  rewrite lookup_take_lt by done. rewrite lookup_drop.
  destruct (decide (i + k < length l)) as [Hlt|Hge].
  - rewrite lookup_app_l by done. by rewrite Nat.mod_small.
  - rewrite lookup_app_r by lia. f_equal.
    apply Nat.mod_unique with 1; lia.
Qed.

Lemma lookup_circ_ge l i n k :
  i + n <= 2 * length l -> n <= k -> circ l i n !! k = None.
Proof. intros. apply lookup_ge_None_2. rewrite length_circ; lia. Qed.

(** Reading the front and advancing the start. *)
Lemma circ_cons l i n x :
  i < length l -> n < length l -> l !! i = Some x ->
  circ l i (S n) = x :: circ l (S i mod length l) n.
Proof.
  intros Hi Hn Hx. apply list_eq. intros [|k].
  - rewrite lookup_circ by lia. simpl. by rewrite Nat.add_0_r, Nat.mod_small.
  - simpl. destruct (decide (k < n)).
    + rewrite !lookup_circ by (try apply Nat.mod_upper_bound; lia).
      f_equal. rewrite Nat.Div0.add_mod_idemp_l. f_equal. lia.
    + rewrite !lookup_circ_ge; [done| |lia|lia|lia].
      pose proof (Nat.mod_upper_bound (S i) (length l)). lia.
Qed.

(** Writing inside the view is an update of the view. *)
Lemma circ_insert l i n k x :
  i < length l -> k < n -> n <= length l ->
  circ (<[(i + k) mod length l := x]> l) i n = <[k := x]> (circ l i n).
Proof.
  intros Hi Hk Hn. apply list_eq. intros j.
  assert (Hm : forall a, a mod length l < length l)
    by (intros; apply Nat.mod_upper_bound; lia).
  destruct (decide (j < n)) as [Hj|Hj].
  - rewrite lookup_circ by (rewrite ?length_insert; lia).
    rewrite length_insert. destruct (decide (j = k)) as [->|Hne].
    + rewrite !list_lookup_insert_eq; [done|rewrite length_circ; lia|done].
    + rewrite !list_lookup_insert_ne; [by rewrite lookup_circ|done|].
      intros Heq. apply circ_index_inj in Heq; lia.
  - rewrite lookup_circ_ge by (rewrite ?length_insert; lia).
    symmetry. apply lookup_ge_None_2. rewrite length_insert, length_circ; lia.
Qed.

(** Writing just after the view extends the view. *)
Lemma circ_snoc l i n x :
  i < length l -> n < length l ->
  circ (<[(i + n) mod length l := x]> l) i (S n) = circ l i n ++ [x].
Proof.
  intros Hi Hn. apply list_eq. intros k.
  assert (Hm : forall j, j mod length l < length l)
    by (intros; apply Nat.mod_upper_bound; lia).
  destruct (decide (k < n)); [|destruct (decide (k = n)) as [->|]].
  - rewrite lookup_app_l by (rewrite length_circ; lia).
    rewrite !lookup_circ by (rewrite ?length_insert; lia).
    rewrite length_insert. apply list_lookup_insert_ne.
    intros Heq. apply circ_index_inj in Heq; lia.
  - rewrite lookup_app_r by (rewrite length_circ; lia).
    rewrite length_circ by lia. rewrite Nat.sub_diag. simpl.
    rewrite lookup_circ by (rewrite ?length_insert; lia).
    rewrite length_insert. by apply list_lookup_insert_eq.
  - rewrite lookup_circ_ge by (rewrite ?length_insert; lia).
    symmetry. apply lookup_ge_None_2.
    rewrite length_app, length_circ; simpl; lia.
Qed.
End circ_lemmas.

Lemma Z_to_nat_mod_add (a b m : Z) :
  0 <= a -> 0 <= b -> 0 < m ->
  Z.to_nat ((a + b) mod m) = ((Z.to_nat a + Z.to_nat b) mod Z.to_nat m)%nat.
Proof.
  intros. rewrite Z2Nat.inj_mod by lia. by rewrite Z2Nat.inj_add by lia.
Qed.
