(* ===== verification/Mundo.v ===== *)
(** * Mundo: the process state around the data structures

    What [src/tetris.c] keeps outside its two structs: the [static int proxId]
    of [gerarPeca] (line 38), the hidden state of the libc generator [rand]
    (seeded at line 192) and what has been written to standard output.

    The libc is an interface here: [Rand] states what the C standard
    promises of [rand] (a value in [0 .. RAND_MAX], [RAND_MAX >= 32767]) and
    of [srand] (the state of the generator is a function of the seed), and
    the theorems of the development hold for every instance.  Two instances
    make the definitions executable: [rand_lcg], the sample generator of
    the C standard, and [rand_script], which replays a list of values. *)

From Stdlib Require Import ZArith String Ascii.
From stdpp Require Import base tactics option list numbers strings.
From S2P Require Import Prelude.

#[local] Open Scope Z_scope.

(** ** The libc generator *)

Class Rand : Type := {
  rand_state : Type;
  RAND_MAX : Z;
  rand_step : rand_state -> Z * rand_state;
  rand_seed : Z -> rand_state;
  RAND_MAX_range : 32767 <= RAND_MAX <= INT_MAX;
  rand_step_range : forall s, 0 <= (rand_step s).1 <= RAND_MAX
}.

(** The portable generator given as an example by the C standard. *)
Definition lcg_step (s : Z) : Z * Z :=
  let s' := (s * 1103515245 + 12345) mod 4294967296 in
  ((s' / 65536) mod 32768, s').

(** [srand] of the same example: [next = seed]. *)
Definition lcg_seed (u : Z) : Z := u.

(** A generator that replays a script, then returns 0 for ever. *)
Definition script_step (l : list nat) : Z * list nat :=
  match l with
  | [] => (0, [])
  | n :: l' => (Z.of_nat n mod 32768, l')
  end.

#[export, refine] Instance rand_lcg : Rand :=
  {| rand_state := Z; RAND_MAX := 32767; rand_step := lcg_step;
     rand_seed := lcg_seed |}.
Proof.
- int_lia.
- intros s. unfold lcg_step. simpl.
  pose proof (Z.mod_pos_bound ((s * 1103515245 + 12345) mod 4294967296 / 65536) 32768).
  lia.
Defined.

(** Every seed starts the script [l]. *)
#[export, refine] Instance rand_script (l : list nat) : Rand :=
  {| rand_state := list nat; RAND_MAX := 32767; rand_step := script_step;
     rand_seed := fun _ => l |}.
Proof.
- int_lia.
- intros [|n k]; simpl; [lia|].
  pose proof (Z.mod_pos_bound (Z.of_nat n) 32768). lia.
Defined.

(** ** The process state *)

Section mundo.
Context `{R : Rand}.

Record Mundo : Type := {
  proxId : Z;            (* static int proxId, line 38 *)
  semente : rand_state;  (* the state of rand() *)
  saida : string         (* standard output so far *)
}.

Definition set_proxId (n : Z) (w : Mundo) : Mundo :=
  {| proxId := n; semente := semente w; saida := saida w |}.
Definition set_semente (s : rand_state) (w : Mundo) : Mundo :=
  {| proxId := proxId w; semente := s; saida := saida w |}.
Definition set_saida (o : string) (w : Mundo) : Mundo :=
  {| proxId := proxId w; semente := semente w; saida := o |}.

(** The state when [main] starts: [proxId = 1], nothing printed, and the
    generator in the state [s] the libc starts it in. *)
Definition mundo_inicial (s : rand_state) : Mundo :=
  {| proxId := 1; semente := s; saida := "" |}.

(** The conversion [(unsigned)] of an integer value: its residue modulo
    [UINT_MAX + 1]. *)
Definition to_unsigned (z : Z) : Z := z mod 4294967296.

(** [srand(u)] *)
Definition srand (u : Z) : Prog Mundo unit :=
  modify (set_semente (rand_seed u)).

(** [rand()] *)
Definition rand : Prog Mundo Z :=
  s ← gets semente;
  modify (set_semente (rand_step s).2);;
  mret (rand_step s).1.

(** [printf] of an already formatted text. *)
Definition printf (t : string) : Prog Mundo unit :=
  modify (fun w => set_saida (saida w ++ t)%string w).

(** ** Lemmas *)

Lemma rand_run w :
  rand w = Ok ((rand_step (semente w)).1, set_semente (rand_step (semente w)).2 w).
Proof. done. Qed.

Lemma rand_in_int w : 0 <= (rand_step (semente w)).1 <= INT_MAX.
Proof.
  pose proof (rand_step_range (semente w)). pose proof RAND_MAX_range. lia.
Qed.

Lemma printf_run t w : printf t w = Ok (tt, set_saida (saida w ++ t)%string w).
Proof. done. Qed.

Lemma wp_rand w (Q : Z -> Mundo -> Prop) :
  (forall r s, rand_step (semente w) = (r, s) -> 0 <= r <= INT_MAX ->
               Q r (set_semente s w)) ->
  wp rand w Q.
Proof.
  intros HQ. unfold wp. rewrite rand_run.
  apply HQ; [by destruct (rand_step _)|apply rand_in_int].
Qed.

Lemma wp_srand u w (Q : unit -> Mundo -> Prop) :
  Q tt (set_semente (rand_seed u) w) -> wp (srand u) w Q.
Proof. done. Qed.

Lemma wp_printf t w (Q : unit -> Mundo -> Prop) :
  Q tt (set_saida (saida w ++ t)%string w) -> wp (printf t) w Q.
Proof. done. Qed.
End mundo.

Arguments Mundo {R}.
