(* ===== verification/Peca.v ===== *)
(** * Peca: pieces and their generator

    Models lines 15-16 ([TIPOS], [QTD_TIPOS]), 19-22 ([Peca]) and 37-43
    ([gerarPeca]) of [src/tetris.c].  [gerarPeca] draws the type with
    [rand() % QTD_TIPOS] and numbers the piece with the static counter, which
    it then increments: the increment is undefined when the counter is
    [INT_MAX]. *)

From Stdlib Require Import ZArith String Ascii.
From stdpp Require Import base tactics option list numbers strings.
From S2P Require Import Prelude Mundo.

#[local] Open Scope Z_scope.

(** [static const char TIPOS[] = {'I','O','T','S','Z','J','L'};] *)
Definition TIPOS : list ascii := ["I"; "O"; "T"; "S"; "Z"; "J"; "L"]%char.

(** [(int)(sizeof(TIPOS)/sizeof(TIPOS[0]))] *)
Definition QTD_TIPOS : Z := Z.of_nat (length TIPOS).

Record Peca : Type := {
  tipo : ascii;  (* 'I','O','T','S','Z','J','L' *)
  id : Z         (* sequential *)
}.

#[export] Instance Peca_eq_dec : EqDecision Peca.
Proof. solve_decision. Defined.

(** [printf("[%c#%d]", p.tipo, p.id)], the rendering every message uses. *)
Definition fmt_peca (p : Peca) : string :=
  ("[" ++ fmt_c (tipo p) ++ "#" ++ fmt_d (id p) ++ "]")%string.

(** ** Process states for the examples *)

(** The state at the start of [main], seeded with 2024. *)
Definition mundo_ex : Mundo (R := rand_lcg) :=
  mundo_inicial (R := rand_lcg) 2024.

(** A state in which the counter has reached [INT_MAX]. *)
Definition mundo_max_ex : Mundo (R := rand_lcg) :=
  @Build_Mundo rand_lcg INT_MAX 2024 "".

Section gerar.
Context `{R : Rand}.

Definition gerarPeca : Prog Mundo Peca :=
  r ← rand;
  i ← lift (int_rem r QTD_TIPOS);
  t ← lift (arr_get TIPOS i);
  n ← gets proxId;
  n' ← lift (int_add n 1);
  modify (set_proxId n');;
  mret {| tipo := t; id := n |}.

(** [n] calls in a row, the pieces in the order of the calls. *)
Fixpoint gerarPecas (n : nat) : Prog Mundo (list Peca) :=
  match n with
  | O => mret []
  | S n' => p ← gerarPeca; ps ← gerarPecas n'; mret (p :: ps)
  end.

(** The type [gerarPeca] draws in state [w]. *)
Definition tipo_sorteado (w : Mundo) : option ascii :=
  TIPOS !! Z.to_nat ((rand_step (semente w)).1 mod QTD_TIPOS).

(** The state [gerarPeca] leaves. *)
Definition apos_gerar (w : Mundo) : Mundo :=
  set_proxId (proxId w + 1) (set_semente (rand_step (semente w)).2 w).

(** ** Lemmas *)

Lemma tipo_sorteado_some w : exists t, tipo_sorteado w = Some t /\ t ∈ TIPOS.
Proof.
  unfold tipo_sorteado.
  pose proof (Z.mod_pos_bound (rand_step (semente w)).1 QTD_TIPOS eq_refl).
  destruct (TIPOS !! _) as [t|] eqn:E.
  - exists t. split; [done|]. by eapply list_elem_of_lookup_2.
  - apply lookup_ge_None_1 in E. unfold QTD_TIPOS in *. lia.
Qed.

(** The run of [gerarPeca] while the counter is below [INT_MAX]. *)
Lemma gerarPeca_run w t :
  in_int (proxId w + 1) -> tipo_sorteado w = Some t ->
  gerarPeca w = Ok ({| tipo := t; id := proxId w |}, apos_gerar w).
Proof.
  intros Hid Ht. unfold gerarPeca, mbind, prog_bind. rewrite rand_run.
  pose proof (rand_in_int w) as Hr.
  rewrite int_rem_ok by done. simpl.
  pose proof (Z.mod_pos_bound (rand_step (semente w)).1 QTD_TIPOS eq_refl).
  rewrite (arr_get_ok _ _ t) by (done || lia). simpl.
  by rewrite int_add_ok.
Qed.

(** C33: While the counter is below [INT_MAX], [gerarPeca] is defined and returns
    the piece numbered with the counter and typed with the letter at index
    [rand() % 7] of [TIPOS], one of the seven; it advances the generator,
    increments the counter and prints nothing. *)
Theorem gerarPeca_spec w :
  in_int (proxId w + 1) ->
  wp gerarPeca w (fun p w' =>
    tipo_sorteado w = Some (tipo p) /\ tipo p ∈ TIPOS /\ id p = proxId w /\
    w' = apos_gerar w).
Proof.
  intros Hid. destruct (tipo_sorteado_some w) as (t & Ht & Hin).
  unfold wp. by rewrite (gerarPeca_run w t).
Qed.

(** A counter with no room for the increment: [proxId++] overflows. *)
Lemma gerarPeca_err w :
  ~ in_int (proxId w + 1) -> gerarPeca w = Err IntOverflow.
Proof.
  intros Hid. destruct (tipo_sorteado_some w) as (t & Ht & _).
  unfold gerarPeca, mbind, prog_bind. rewrite rand_run.
  pose proof (rand_in_int w) as Hr.
  rewrite int_rem_ok by done. simpl.
  pose proof (Z.mod_pos_bound (rand_step (semente w)).1 QTD_TIPOS eq_refl).
  rewrite (arr_get_ok _ _ t) by (done || lia). simpl.
  unfold int_add. by rewrite int_of_err.
Qed.

(** C31: The counter at [INT_MAX]: the call that would return the piece
    numbered [INT_MAX] is undefined, because the increment that follows the
    read of the counter overflows. *)
Theorem gerarPeca_overflow w :
  proxId w = INT_MAX -> gerarPeca w = Err IntOverflow.
Proof. intros Hid. apply gerarPeca_err. rewrite Hid. by_compute. Qed.

(** A call that returns drew the type [tipo_sorteado] gives. *)
Lemma gerarPeca_ok w p w' :
  gerarPeca w = Ok (p, w') ->
  exists t, tipo_sorteado w = Some t /\
    p = {| tipo := t; id := proxId w |} /\ w' = apos_gerar w.
Proof.
  intros Hrun. destruct (tipo_sorteado_some w) as (t & Ht & _).
  destruct (decide (in_int (proxId w + 1))) as [Hid|Hid].
  - rewrite (gerarPeca_run w t Hid Ht) in Hrun. injection Hrun as <- <-.
    by exists t.
  - by rewrite gerarPeca_err in Hrun.
Qed.

Lemma gerarPecas_um w ps w' :
  gerarPecas 1 w = Ok (ps, w') ->
  exists t, tipo_sorteado w = Some t /\
    ps = [{| tipo := t; id := proxId w |}] /\ w' = apos_gerar w.
Proof.
  intros Hrun. simpl in Hrun.
  apply prog_bind_ok in Hrun as (p & w1 & Hg & [= <- <-]).
  apply gerarPeca_ok in Hg as (t & Ht & -> & ->). by exists t.
Qed.

Lemma wp_gerarPeca w (Q : Peca -> Mundo -> Prop) :
  in_int (proxId w + 1) ->
  (forall t, t ∈ TIPOS -> Q {| tipo := t; id := proxId w |} (apos_gerar w)) ->
  wp gerarPeca w Q.
Proof.
  intros Hid HQ. destruct (tipo_sorteado_some w) as (t & Ht & Hin).
  unfold wp. rewrite (gerarPeca_run w t) by done. by apply HQ.
Qed.

(** The rule of [gerarPecas]: [n] calls return pieces numbered
    consecutively from the counter, each typed with a letter of [TIPOS]; the
    counter advances by [n] and nothing is printed. *)
Lemma wp_gerarPecas n w (Q : list Peca -> Mundo -> Prop) :
  1 <= proxId w -> proxId w + Z.of_nat n <= INT_MAX ->
  (forall ps w',
     id <$> ps = seqZ (proxId w) (Z.of_nat n) ->
     Forall (fun p => tipo p ∈ TIPOS) ps ->
     proxId w' = proxId w + Z.of_nat n -> saida w' = saida w -> Q ps w') ->
  wp (gerarPecas n) w Q.
Proof.
  revert w Q. induction n as [|n IH]; intros w Q Hlo Hhi HQ.
  - simpl. apply wp_ret, HQ; try done. by rewrite Z.add_0_r.
  - simpl. wp_step. apply wp_gerarPeca; [int_lia|]. intros t Ht.
    wp_step. apply IH; [simpl; lia..|].
    intros ps w' Hids Hts Hid Hout. wp_step. simpl in Hids, Hid, Hout.
    apply HQ; [|by constructor|lia|done].
    rewrite fmap_cons, Hids, (seqZ_cons (proxId w)) by lia.
    simpl. do 2 f_equal; lia.
Qed.

(** C32: Id monotonicity: [n] calls of [gerarPeca] return the ids
    [proxId, proxId + 1, ..., proxId + n - 1] in that order, whatever letters
    the generator draws, each letter being one of [TIPOS]; the counter ends
    [n] higher and nothing is printed. *)
Theorem gerarPecas_spec n w :
  1 <= proxId w -> proxId w + Z.of_nat n <= INT_MAX ->
  wp (gerarPecas n) w (fun ps w' =>
    id <$> ps = seqZ (proxId w) (Z.of_nat n) /\
    Forall (fun p => tipo p ∈ TIPOS) ps /\
    proxId w' = proxId w + Z.of_nat n /\
    saida w' = saida w).
Proof. intros Hlo Hhi. by apply wp_gerarPecas. Qed.
End gerar.

Lemma gerarPeca_spec_witness :
  in_int (proxId mundo_ex + 1) /\
  wp gerarPeca mundo_ex (fun p w' =>
    tipo_sorteado mundo_ex = Some (tipo p) /\ tipo p ∈ TIPOS /\
    id p = proxId mundo_ex /\ w' = apos_gerar mundo_ex).
Proof. split; [|apply gerarPeca_spec]; by_compute. Defined.

Lemma gerarPeca_overflow_witness :
  proxId mundo_max_ex = INT_MAX /\ gerarPeca mundo_max_ex = Err IntOverflow.
Proof. split; [|apply gerarPeca_overflow]; by_compute. Defined.

Lemma gerarPecas_spec_witness :
  1 <= proxId mundo_ex /\ proxId mundo_ex + Z.of_nat 7 <= INT_MAX /\
  wp (gerarPecas 7) mundo_ex (fun ps w' =>
    id <$> ps = seqZ (proxId mundo_ex) (Z.of_nat 7) /\
    Forall (fun p => tipo p ∈ TIPOS) ps /\
    proxId w' = proxId mundo_ex + Z.of_nat 7 /\
    saida w' = saida mundo_ex).
Proof. split; [|split; [|apply gerarPecas_spec]]; by_compute. Defined.
