(* ===== verification/Fila.v ===== *)
(** * Fila: the circular queue of capacity [MAX_FILA]

    Models lines 11, 24-29 and 46-82 of [src/tetris.c]: the struct [Fila] and
    [inicializarFila], [filaVazia], [filaCheia], [enqueue], [dequeue], [filaAt]
    and [reabastecerFila].

    The invariant [fila_wf] says that the indices are in range and that
    [fim] is [total] slots after [inicio]; the abstraction [conteudo] reads the
    [total] live slots from [inicio] on, wrapping around.  Every operation is
    shown to preserve the invariant and to implement the operation of
    [FilaSpec], a queue that is a list of at most [MAX_FILA] pieces. *)

From Stdlib Require Import ZArith String Ascii.
From stdpp Require Import base tactics option list numbers strings.
From S2P Require Import Prelude Mundo Peca.

#[local] Open Scope Z_scope.

(** [#define MAX_FILA 5] *)
Definition MAX_FILA : Z := 5.

Record Fila : Type := {
  fila_itens : list Peca;  (* Peca itens[MAX_FILA] *)
  inicio : Z;              (* index of the first element *)
  fim : Z;                 (* next free position *)
  total : Z                (* number of elements *)
}.

Definition inicializarFila (f : Fila) : Fila :=
  {| fila_itens := fila_itens f; inicio := 0; fim := 0; total := 0 |}.

Definition filaVazia (f : Fila) : bool := bool_decide (total f = 0).
Definition filaCheia (f : Fila) : bool := bool_decide (total f = MAX_FILA).

Definition enqueue (f : Fila) (p : Peca) : Res (bool * Fila) :=
  if filaCheia f then mret (false, f) else
  its ← arr_set (fila_itens f) (fim f) p;
  s ← int_add (fim f) 1;
  fim' ← int_rem s MAX_FILA;
  tot ← int_add (total f) 1;
  mret (true, {| fila_itens := its; inicio := inicio f; fim := fim'; total := tot |}).

Definition dequeue (f : Fila) (out : bool) : Res (bool * option Peca * Fila) :=
  if filaVazia f then mret (false, None, f) else
  o ← (if out then Some <$> arr_get (fila_itens f) (inicio f) else mret None);
  s ← int_add (inicio f) 1;
  ini ← int_rem s MAX_FILA;
  tot ← int_sub (total f) 1;
  mret (true, o,
        {| fila_itens := fila_itens f; inicio := ini; fim := fim f; total := tot |}).

(** The result is the index of the slot the returned pointer designates,
    [None] for [NULL]. *)
Definition filaAt (f : Fila) (i : Z) : Res (option Z) :=
  if decide (i < 0 \/ i >= total f) then mret None else
  s ← int_add (inicio f) i;
  idx ← int_rem s MAX_FILA;
  Some <$> arr_ptr (fila_itens f) idx.

Section reabastecer.
Context `{R : Rand}.

(** [while (!filaCheia(f)) enqueue(f, gerarPeca());] with at most [n]
    iterations. *)
Fixpoint reabastecerFila_fuel (n : nat) (f : Fila) : Prog Mundo Fila :=
  if filaCheia f then mret f else
  match n with
  | O => lift (Err OutOfFuel)
  | S n' =>
      p ← gerarPeca;
      r ← lift (enqueue f p);
      reabastecerFila_fuel n' r.2
  end.

Definition reabastecerFila (f : Fila) : Prog Mundo Fila :=
  reabastecerFila_fuel (Z.to_nat MAX_FILA) f.
End reabastecer.

(** ** Sequences of calls, to state the order of service *)

Fixpoint enqueue_lista (f : Fila) (ps : list Peca) : Res Fila :=
  match ps with
  | [] => mret f
  | p :: ps' => r ← enqueue f p; enqueue_lista r.2 ps'
  end.

Fixpoint dequeue_n (n : nat) (f : Fila) : Res (list (option Peca) * Fila) :=
  match n with
  | O => mret ([], f)
  | S n' =>
      r ← dequeue f true;
      r' ← dequeue_n n' r.2;
      mret (r.1.2 :: r'.1, r'.2)
  end.

(** The number of iterations the loop of [reabastecerFila] needs. *)
Definition faltam (f : Fila) : nat := Z.to_nat (MAX_FILA - total f).

(** ** Invariant and abstraction *)

Definition fila_wf (f : Fila) : Prop :=
  length (fila_itens f) = Z.to_nat MAX_FILA /\
  0 <= inicio f < MAX_FILA /\
  0 <= total f <= MAX_FILA /\
  fim f = (inicio f + total f) mod MAX_FILA.

#[export] Instance fila_wf_dec f : Decision (fila_wf f).
Proof. unfold fila_wf. apply _. Defined.

(** The pieces of the queue, front to back. *)
Definition conteudo (f : Fila) : list Peca :=
  circ (fila_itens f) (Z.to_nat (inicio f)) (Z.to_nat (total f)).

(** ** The abstract queue *)

Module FilaSpec.
Definition vazia (q : list Peca) : bool := bool_decide (q = []).
Definition cheia (q : list Peca) : bool :=
  bool_decide (length q = Z.to_nat MAX_FILA).
Definition snoc (q : list Peca) (p : Peca) : bool * list Peca :=
  if cheia q then (false, q) else (true, q ++ [p]).
Definition uncons (q : list Peca) : bool * option Peca * list Peca :=
  match q with
  | [] => (false, None, [])
  | x :: q' => (true, Some x, q')
  end.
End FilaSpec.

(** ** A queue that wraps around, for the examples *)

(** The queue as [main] declares it: the struct holds whatever the stack
    held. *)
Definition fila_lixo_ex : Fila :=
  {| fila_itens := replicate 5 (Build_Peca "?" (-1));
     inicio := 7; fim := -3; total := 99 |}.

(** The same after [inicializarFila]. *)
Definition fila_vazia_ex : Fila := inicializarFila fila_lixo_ex.

(** A queue whose next free slot is the last of the array. *)
Definition fila_fim_ex : Fila :=
  {| fila_itens := [Build_Peca "I" 4; Build_Peca "O" 5; Build_Peca "T" 1;
                    Build_Peca "S" 2; Build_Peca "Z" 3];
     inicio := 1; fim := 4; total := 3 |}.

Definition fila_ex : Fila :=
  {| fila_itens := [Build_Peca "I" 4; Build_Peca "O" 5; Build_Peca "T" 1;
                    Build_Peca "S" 2; Build_Peca "Z" 3];
     inicio := 2; fim := 0; total := 3 |}.

(** ** Lemmas *)

Lemma length_conteudo f : fila_wf f -> length (conteudo f) = Z.to_nat (total f).
Proof.
  intros (Hl & Hi & Ht & _). unfold conteudo, MAX_FILA in *.
  rewrite length_circ; lia.
Qed.

Lemma filaVazia_spec f : fila_wf f -> filaVazia f = FilaSpec.vazia (conteudo f).
Proof.
  intros Hwf. pose proof (length_conteudo f Hwf). destruct Hwf as (_ & _ & ? & _).
  unfold filaVazia, FilaSpec.vazia. apply bool_decide_ext.
  rewrite <- length_zero_iff_nil. lia.
Qed.

Lemma filaCheia_spec f : fila_wf f -> filaCheia f = FilaSpec.cheia (conteudo f).
Proof.
  intros Hwf. pose proof (length_conteudo f Hwf). destruct Hwf as (_ & _ & ? & _).
  unfold filaCheia, FilaSpec.cheia. apply bool_decide_ext. unfold MAX_FILA in *. lia.
Qed.

Lemma inicializarFila_wf f :
  length (fila_itens f) = Z.to_nat MAX_FILA -> fila_wf (inicializarFila f).
Proof. intros. unfold fila_wf, MAX_FILA. simpl. repeat split; done || lia. Qed.

Lemma inicializarFila_conteudo f : conteudo (inicializarFila f) = [].
Proof. done. Qed.

(** The slot of the array behind position [i] of the contents. *)
Lemma lookup_conteudo f i :
  fila_wf f -> 0 <= i < total f ->
  conteudo f !! Z.to_nat i = fila_itens f !! Z.to_nat ((inicio f + i) mod MAX_FILA).
Proof.
  intros (Hl & Hi & Ht & _) Hlt. unfold conteudo.
  rewrite lookup_circ by lia. rewrite Hl. f_equal.
  by rewrite Z_to_nat_mod_add by lia.
Qed.

Lemma enqueue_run f p :
  fila_wf f -> total f <> MAX_FILA ->
  enqueue f p =
    Ok (true, {| fila_itens := <[Z.to_nat (fim f) := p]> (fila_itens f);
                 inicio := inicio f;
                 fim := (fim f + 1) mod MAX_FILA;
                 total := total f + 1 |}).
Proof.
  intros (Hl & Hi & Ht & Hf) Hne. unfold enqueue, filaCheia.
  rewrite bool_decide_eq_false_2 by done.
  pose proof (Z.mod_pos_bound (inicio f + total f) MAX_FILA eq_refl).
  unfold MAX_FILA in *. autorewrite with cint. simpl.
  autorewrite with cint. simpl. by autorewrite with cint.
Qed.

Lemma enqueue_full f p : filaCheia f = true -> enqueue f p = Ok (false, f).
Proof. intros H. unfold enqueue. by rewrite H. Qed.

Lemma total_conteudo f : fila_wf f -> total f = Z.of_nat (length (conteudo f)).
Proof. intros Hwf. rewrite length_conteudo by done. destruct Hwf as (_ & _ & ? & _). lia. Qed.

Lemma conteudo_nil_iff f : fila_wf f -> conteudo f = [] <-> total f = 0.
Proof.
  intros Hwf. pose proof (total_conteudo f Hwf).
  rewrite <- length_zero_iff_nil. lia.
Qed.

(** [enqueue] on a queue with room: the piece is the new last element. *)
Lemma enqueue_snoc f p :
  fila_wf f -> total f < MAX_FILA ->
  exists f1, enqueue f p = Ok (true, f1) /\
    fila_wf f1 /\ conteudo f1 = conteudo f ++ [p] /\ total f1 = total f + 1.
Proof.
  intros Hwf Hlt. eexists. split; [apply enqueue_run; [done|lia]|].
  destruct Hwf as (Hl & Hi & Ht & Hf). unfold fila_wf, conteudo. simpl.
  rewrite length_insert. split_and!; try done || lia.
  - rewrite Hf. unfold MAX_FILA in *.
    rewrite Z.add_mod_idemp_l by done. f_equal. lia.
  - rewrite Hf, Z_to_nat_mod_add by lia. rewrite <- Hl.
    replace (Z.to_nat (total f + 1)) with (S (Z.to_nat (total f))) by lia.
    apply circ_snoc; unfold MAX_FILA in *; lia.
Qed.

(** C1: [enqueue] implements [FilaSpec.snoc] and keeps the invariant: on a full
    queue it changes nothing and returns 0, otherwise it returns 1 and the
    piece is the new last element. *)
Theorem enqueue_refines f p :
  fila_wf f ->
  res_wp (enqueue f p) (fun r =>
    fila_wf r.2 /\ (r.1, conteudo r.2) = FilaSpec.snoc (conteudo f) p).
Proof.
  intros Hwf. unfold FilaSpec.snoc. rewrite <- filaCheia_spec by done.
  destruct (filaCheia f) eqn:Hc; [by rewrite enqueue_full|].
  apply bool_decide_eq_false in Hc.
  destruct (enqueue_snoc f p Hwf) as (f1 & -> & Hwf1 & Hq & _).
  { destruct Hwf as (_ & _ & ? & _). lia. }
  simpl. by rewrite Hq.
Qed.

Lemma dequeue_empty f out : filaVazia f = true -> dequeue f out = Ok (false, None, f).
Proof. intros H. unfold dequeue. by rewrite H. Qed.

Lemma dequeue_run f out x :
  fila_wf f -> total f <> 0 -> fila_itens f !! Z.to_nat (inicio f) = Some x ->
  dequeue f out =
    Ok (true, if out then Some x else None,
        {| fila_itens := fila_itens f;
           inicio := (inicio f + 1) mod MAX_FILA;
           fim := fim f;
           total := total f - 1 |}).
Proof.
  intros (Hl & Hi & Ht & Hf) Hne Hx. unfold dequeue, filaVazia.
  rewrite bool_decide_eq_false_2 by done.
  rewrite (arr_get_ok _ _ x) by (done || lia).
  unfold MAX_FILA in *. destruct out; simpl; autorewrite with cint; simpl;
    autorewrite with cint; simpl; by autorewrite with cint.
Qed.

(** The front slot of a non-empty well-formed queue holds the head of the
    contents. *)
Lemma conteudo_cons f :
  fila_wf f -> total f <> 0 ->
  exists x, fila_itens f !! Z.to_nat (inicio f) = Some x /\
    conteudo f =
      x :: circ (fila_itens f) (Z.to_nat ((inicio f + 1) mod MAX_FILA))
             (Z.to_nat (total f - 1)).
Proof.
  intros (Hl & Hi & Ht & Hf) Hne.
  destruct (lookup_lt_is_Some_2 (fila_itens f) (Z.to_nat (inicio f))) as [x Hx];
    [unfold MAX_FILA in *; lia|].
  exists x. split; [done|]. unfold conteudo.
  replace (Z.to_nat (total f)) with (S (Z.to_nat (total f - 1))) by lia.
  rewrite (circ_cons _ _ _ x) by (done || unfold MAX_FILA in *; lia).
  do 2 f_equal. rewrite Hl, Z_to_nat_mod_add by lia. f_equal. lia.
Qed.

Lemma dequeue_nil f out :
  fila_wf f -> conteudo f = [] -> dequeue f out = Ok (false, None, f).
Proof.
  intros Hwf Hq. apply dequeue_empty, bool_decide_eq_true.
  by apply conteudo_nil_iff.
Qed.

(** [dequeue] on a queue that holds [x :: q]: [x] leaves, [q] stays. *)
Lemma dequeue_cons f out x q :
  fila_wf f -> conteudo f = x :: q ->
  exists f1, dequeue f out = Ok (true, if out then Some x else None, f1) /\
    fila_wf f1 /\ conteudo f1 = q /\ total f1 = total f - 1.
Proof.
  intros Hwf Hq.
  assert (Hv : total f <> 0) by (rewrite <- conteudo_nil_iff, Hq; done).
  destruct (conteudo_cons f Hwf Hv) as (y & Hy & Hc).
  rewrite Hq in Hc. injection Hc as <- Hq'.
  eexists. split; [by apply dequeue_run|].
  destruct Hwf as (Hl & Hi & Ht & Hf).
  pose proof (Z.mod_pos_bound (inicio f + 1) MAX_FILA eq_refl).
  unfold fila_wf, conteudo. simpl. split_and!; try done || lia.
  rewrite Hf. unfold MAX_FILA in *.
  rewrite Z.add_mod_idemp_l by done. f_equal. lia.
Qed.

(** C2: [dequeue] implements [FilaSpec.uncons] and keeps the invariant: on an
    empty queue it changes nothing and returns 0, otherwise it returns 1 and
    the front piece leaves; the piece is stored through [out] only when [out]
    is not [NULL]. *)
Theorem dequeue_refines f out :
  fila_wf f ->
  res_wp (dequeue f out) (fun r =>
    fila_wf r.2 /\
    (r.1.1, conteudo r.2) =
      ((FilaSpec.uncons (conteudo f)).1.1, (FilaSpec.uncons (conteudo f)).2) /\
    r.1.2 = if out then (FilaSpec.uncons (conteudo f)).1.2 else None).
Proof.
  intros Hwf. destruct (conteudo f) as [|x q] eqn:Hq.
  - rewrite dequeue_nil by done. simpl. rewrite Hq. by destruct out.
  - destruct (dequeue_cons f out x q Hwf Hq) as (f1 & -> & Hwf1 & Hq1 & _).
    simpl. by rewrite Hq1.
Qed.

Lemma enqueue_refines_witness :
  fila_wf fila_fim_ex /\
  res_wp (enqueue fila_fim_ex (Build_Peca "J" 6)) (fun r =>
    fila_wf r.2 /\
    (r.1, conteudo r.2) = FilaSpec.snoc (conteudo fila_fim_ex) (Build_Peca "J" 6)).
Proof. split; [|apply enqueue_refines]; by_compute. Defined.

Lemma dequeue_refines_witness :
  fila_wf fila_ex /\
  res_wp (dequeue fila_ex true) (fun r =>
    fila_wf r.2 /\
    (r.1.1, conteudo r.2) =
      ((FilaSpec.uncons (conteudo fila_ex)).1.1,
       (FilaSpec.uncons (conteudo fila_ex)).2) /\
    r.1.2 = (FilaSpec.uncons (conteudo fila_ex)).1.2).
Proof. split; [|apply (dequeue_refines fila_ex true)]; by_compute. Defined.

Section reabastecer_lemmas.
Context `{R : Rand}.
Implicit Types (w : Mundo).

Lemma reabastecerFila_fuel_cheia n f w :
  filaCheia f = true -> reabastecerFila_fuel n f w = Ok (f, w).
Proof. intros H. destruct n; simpl; by rewrite H. Qed.

Lemma reabastecerFila_fuel_step n f w p w1 b f1 :
  filaCheia f = false -> gerarPeca w = Ok (p, w1) -> enqueue f p = Ok (b, f1) ->
  reabastecerFila_fuel (S n) f w = reabastecerFila_fuel n f1 w1.
Proof.
  intros Hc Hg He. simpl. rewrite Hc. unfold mbind, prog_bind.
  rewrite Hg. unfold lift. by rewrite He.
Qed.


(** More fuel never changes a defined result. *)
Lemma reabastecerFila_fuel_mono n m f w r :
  reabastecerFila_fuel n f w = Ok r -> (n <= m)%nat ->
  reabastecerFila_fuel m f w = Ok r.
Proof.
  destruct r as [f' w'].
  revert m f w. induction n as [|n IH]; intros m f w H Hle;
    destruct (filaCheia f) eqn:Hc.
  1,3: rewrite reabastecerFila_fuel_cheia in H |- * by done; done.
  - simpl in H. by rewrite Hc in H.
  - destruct m as [|m]; [lia|]. simpl in H. rewrite Hc in H.
    apply prog_bind_ok in H as (p & w1 & Hg & H).
    apply prog_bind_ok in H as ([b f1] & w2 & He & H).
    apply lift_ok in He as (He & ->).
    erewrite reabastecerFila_fuel_step by done. apply IH; [done|lia].
Qed.

(** One iteration of the loop on a queue with room: a piece numbered with
    the counter is generated and becomes the last element. *)
Lemma reabastecerFila_fuel_iter n f w :
  fila_wf f -> total f < MAX_FILA -> in_int (proxId w + 1) ->
  exists t f1,
    gerarPeca w = Ok ({| tipo := t; id := proxId w |}, apos_gerar w) /\
    reabastecerFila_fuel (S n) f w = reabastecerFila_fuel n f1 (apos_gerar w) /\
    fila_wf f1 /\ total f1 = total f + 1 /\
    conteudo f1 = conteudo f ++ [{| tipo := t; id := proxId w |}].
Proof.
  intros Hwf Hlt Hid. destruct (tipo_sorteado_some w) as (t & Hts & _).
  destruct (enqueue_snoc f {| tipo := t; id := proxId w |} Hwf Hlt)
    as (f1 & He & Hwf1 & Hq1 & Ht1).
  pose proof (gerarPeca_run w t Hid Hts) as Hg.
  exists t, f1. split_and!; try done.
  eapply reabastecerFila_fuel_step; [|done..].
  apply bool_decide_eq_false. lia.
Qed.

(** With room in the queue and none in the counter, the loop fails in its
    first iteration. *)
Lemma reabastecerFila_err f w :
  total f <> MAX_FILA -> ~ in_int (proxId w + 1) ->
  reabastecerFila f w = Err IntOverflow.
Proof.
  intros Ht Hid. unfold reabastecerFila. simpl. unfold filaCheia.
  rewrite bool_decide_eq_false_2 by done.
  by apply prog_bind_err, gerarPeca_err.
Qed.

(** [reabastecerFila] with enough fuel appends to the queue exactly the
    pieces the next [MAX_FILA - total] calls of [gerarPeca] return, and leaves
    the queue full and well formed. *)
Lemma reabastecerFila_fuel_gera n f w :
  fila_wf f -> (faltam f <= n)%nat ->
  1 <= proxId w -> proxId w + Z.of_nat (faltam f) <= INT_MAX ->
  wp (gerarPecas (faltam f)) w (fun ps w' =>
    exists f', reabastecerFila_fuel n f w = Ok (f', w') /\
      fila_wf f' /\ total f' = MAX_FILA /\ conteudo f' = conteudo f ++ ps).
Proof.
  revert f w. induction n as [|n IH]; intros f w Hwf Hn Hlo Hhi;
    destruct (filaCheia f) eqn:Hc.
  1,3: apply bool_decide_eq_true in Hc as Ht;
    replace (faltam f) with 0%nat by (unfold faltam; lia);
    apply wp_ret; exists f; rewrite reabastecerFila_fuel_cheia by done;
    by rewrite app_nil_r.
  - apply bool_decide_eq_false in Hc. destruct Hwf as (_ & _ & ? & _).
    unfold faltam in Hn. lia.
  - apply bool_decide_eq_false in Hc as Ht.
    assert (Hlt : total f < MAX_FILA) by (destruct Hwf as (_ & _ & ? & _); lia).
    destruct (reabastecerFila_fuel_iter n f w Hwf Hlt)
      as (t & f1 & Hg & Hstep & Hwf1 & Ht1 & Hq1);
      [unfold faltam in Hhi; int_lia|].
    assert (Hk : faltam f = S (faltam f1)) by (unfold faltam; lia).
    rewrite Hk in Hhi |- *. simpl gerarPecas. wp_step.
    apply wp_ok. eexists _, _. split; [exact Hg|].
    wp_step. eapply wp_mono; [apply (IH f1); simpl proxId; try done; lia|].
    intros ps w' (f' & Hrun & Hwf' & Htot & Hcont). wp_step.
    exists f'. by rewrite Hstep, Hcont, Hq1, <- app_assoc.
Qed.
End reabastecer_lemmas.

Lemma enqueue_lista_spec f ps :
  fila_wf f -> (length (conteudo f) + length ps <= Z.to_nat MAX_FILA)%nat ->
  res_wp (enqueue_lista f ps) (fun f' =>
    fila_wf f' /\ conteudo f' = conteudo f ++ ps).
Proof.
  revert f. induction ps as [|p ps IH]; intros f Hwf Hlen; simpl.
  - by rewrite app_nil_r.
  - destruct (enqueue_snoc f p Hwf) as (f1 & -> & Hwf1 & Hc & _).
    { rewrite (total_conteudo f Hwf). unfold MAX_FILA in *. simpl in Hlen. lia. }
    simpl in *.
    eapply res_wp_mono; [apply IH; [done|rewrite Hc, length_app; simpl; lia]|].
    intros f' (? & ->). by rewrite Hc, <- app_assoc.
Qed.

Lemma dequeue_n_spec n f :
  fila_wf f -> (n <= length (conteudo f))%nat ->
  res_wp (dequeue_n n f) (fun r =>
    fila_wf r.2 /\ r.1 = Some <$> take n (conteudo f) /\
    conteudo r.2 = drop n (conteudo f)).
Proof.
  revert f. induction n as [|n IH]; intros f Hwf Hlen; simpl; [done|].
  destruct (conteudo f) as [|x q] eqn:Hq; simpl in Hlen; [lia|].
  destruct (dequeue_cons f true x q Hwf Hq) as (f1 & -> & Hwf1 & Hc & _).
  simpl. wp_step.
  eapply res_wp_mono; [apply IH; [done|rewrite Hc; lia]|].
  intros [os f'] (? & Hos & Hcf). simpl in *. by rewrite Hos, Hcf, Hc.
Qed.

(** C34: FIFO: the pieces enqueued on a well-formed queue with room for them come
    out after the pieces already there, in the order they went in. *)
Theorem fila_fifo f ps :
  fila_wf f -> (length (conteudo f) + length ps <= Z.to_nat MAX_FILA)%nat ->
  res_wp (f' ← enqueue_lista f ps; dequeue_n (length (conteudo f ++ ps)) f')
    (fun r => r.1 = Some <$> (conteudo f ++ ps) /\ conteudo r.2 = [] /\
              fila_wf r.2).
Proof.
  intros Hwf Hlen. wp_step.
  eapply res_wp_mono; [by apply enqueue_lista_spec|].
  intros f' (Hwf' & Hc). rewrite <- Hc.
  eapply res_wp_mono; [by apply dequeue_n_spec|].
  intros [os f''] (? & Hos & Hcf). simpl in *.
  by rewrite Hos, Hcf, firstn_all, drop_all.
Qed.

Lemma fila_fifo_witness :
  fila_wf fila_ex /\
  (length (conteudo fila_ex) + length [Build_Peca "J" 6; Build_Peca "L" 7]
   <= Z.to_nat MAX_FILA)%nat /\
  res_wp (f' ← enqueue_lista fila_ex [Build_Peca "J" 6; Build_Peca "L" 7];
          dequeue_n (length (conteudo fila_ex ++ [Build_Peca "J" 6; Build_Peca "L" 7])) f')
    (fun r => r.1 = Some <$> (conteudo fila_ex ++ [Build_Peca "J" 6; Build_Peca "L" 7]) /\
              conteudo r.2 = [] /\ fila_wf r.2).
Proof. split; [|split; [|apply fila_fifo]]; by_compute. Defined.

(** [filaAt] returns the slot behind position [i] of the contents, and
    [NULL] for a position outside [0 .. total). *)
Theorem filaAt_spec f i :
  fila_wf f ->
  res_wp (filaAt f i) (fun o =>
    o ≫= (fun idx => fila_itens f !! Z.to_nat idx) =
    if decide (0 <= i) then conteudo f !! Z.to_nat i else None).
Proof.
  intros Hwf. pose proof (length_conteudo f Hwf) as Hlen.
  pose proof (lookup_conteudo f i Hwf) as Hlk.
  destruct Hwf as (Hl & Hi & Ht & Hf). unfold filaAt.
  case_decide as Hr.
  - simpl. case_decide; [|done]. symmetry. apply lookup_ge_None_2. lia.
  - pose proof (Z.mod_pos_bound (inicio f + i) MAX_FILA eq_refl).
    unfold MAX_FILA in *. autorewrite with cint. simpl.
    autorewrite with cint. simpl. rewrite arr_ptr_ok by lia. simpl.
    rewrite decide_True by lia. symmetry. apply Hlk. lia.
Qed.

Lemma filaAt_spec_witness :
  fila_wf fila_ex /\
  res_wp (filaAt fila_ex 2) (fun o =>
    o ≫= (fun idx => fila_itens fila_ex !! Z.to_nat idx) =
    if decide (0 <= 2) then conteudo fila_ex !! Z.to_nat 2 else None).
Proof. split; [|apply filaAt_spec]; by_compute. Defined.

Section reabastecer_corollaries.
Context `{R : Rand}.
Implicit Types (w : Mundo).

(** The rule of [reabastecerFila]: the queue comes back full and well
    formed, its old contents followed by new pieces numbered consecutively
    from the counter, and nothing is printed. *)
Lemma wp_reabastecerFila f w (Q : Fila -> Mundo -> Prop) :
  fila_wf f -> 1 <= proxId w -> proxId w + Z.of_nat (faltam f) <= INT_MAX ->
  (forall f' w' ps,
     fila_wf f' -> total f' = MAX_FILA -> conteudo f' = conteudo f ++ ps ->
     id <$> ps = seqZ (proxId w) (Z.of_nat (faltam f)) ->
     Forall (fun p => tipo p ∈ TIPOS) ps ->
     proxId w' = proxId w + Z.of_nat (faltam f) -> saida w' = saida w ->
     gerarPecas (faltam f) w = Ok (ps, w') ->
     Q f' w') ->
  wp (reabastecerFila f) w Q.
Proof.
  intros Hwf Hlo Hhi HQ.
  assert (Hn : (faltam f <= Z.to_nat MAX_FILA)%nat).
  { destruct Hwf as (_ & _ & ? & _). unfold faltam. lia. }
  pose proof (wp_and _ _ _ _
    (wp_gerarPecas (faltam f) w _ Hlo Hhi
       (fun _ _ H1 H2 H3 H4 => conj H1 (conj H2 (conj H3 H4))))
    (reabastecerFila_fuel_gera _ f w Hwf Hn Hlo Hhi)) as H.
  apply wp_ok in H
    as (ps & w' & Hg & (Hids & Hts & Hid & Hout) & f' & Hrun & Hwf' & Htot & Hc).
  apply wp_ok. exists f', w'. split; [done|]. by apply (HQ f' w' ps).
Qed.

(** C9: What the caller of [reabastecerFila] relies on: the loop ends, the queue
    comes back full and well formed, its old contents followed by
    [MAX_FILA - total] new pieces numbered consecutively from the counter,
    and nothing is printed. *)
Theorem reabastecerFila_spec f w :
  fila_wf f -> 1 <= proxId w -> proxId w + Z.of_nat (faltam f) <= INT_MAX ->
  wp (reabastecerFila f) w (fun f' w' =>
    fila_wf f' /\ total f' = MAX_FILA /\
    proxId w' = proxId w + Z.of_nat (faltam f) /\ saida w' = saida w /\
    exists ps, conteudo f' = conteudo f ++ ps /\
      id <$> ps = seqZ (proxId w) (Z.of_nat (faltam f)) /\
      Forall (fun p => tipo p ∈ TIPOS) ps).
Proof. intros Hwf Hlo Hhi. apply wp_reabastecerFila; eauto 10. Qed.

(** Termination of the loop of [reabastecerFila]: [MAX_FILA - total]
    iterations are enough, and any larger amount of fuel gives the same
    defined result. *)
Theorem reabastecerFila_fuel_enough n f w :
  fila_wf f -> (faltam f <= n)%nat ->
  1 <= proxId w -> proxId w + Z.of_nat (faltam f) <= INT_MAX ->
  reabastecerFila_fuel n f w = reabastecerFila_fuel (faltam f) f w /\
  is_ok (reabastecerFila_fuel n f w) = true.
Proof.
  intros Hwf Hn Hlo Hhi.
  pose proof (reabastecerFila_fuel_gera (faltam f) f w Hwf (le_n _) Hlo Hhi) as H.
  apply wp_ok in H as (ps & w' & _ & f' & Hrun & _).
  by rewrite Hrun, (reabastecerFila_fuel_mono _ n _ _ _ Hrun).
Qed.

(** The bound is tight: with fewer than [MAX_FILA - total] iterations the
    loop has not finished. *)
Theorem reabastecerFila_fuel_short n f w :
  fila_wf f -> (n < faltam f)%nat ->
  1 <= proxId w -> proxId w + Z.of_nat n <= INT_MAX ->
  reabastecerFila_fuel n f w = Err OutOfFuel.
Proof.
  revert f w. induction n as [|n IH]; intros f w Hwf Hn Hlo Hhi.
  - simpl. unfold filaCheia. rewrite bool_decide_eq_false_2; [done|].
    unfold faltam in Hn. lia.
  - destruct (reabastecerFila_fuel_iter n f w Hwf)
      as (t & f1 & _ & -> & Hwf1 & Ht1 & _);
      [unfold faltam in Hn; lia|int_lia|].
    apply IH; simpl proxId; [done|unfold faltam in *; lia|lia..].
Qed.

End reabastecer_corollaries.

Lemma reabastecerFila_spec_witness :
  fila_wf fila_ex /\ 1 <= proxId mundo_ex /\
  proxId mundo_ex + Z.of_nat (faltam fila_ex) <= INT_MAX /\
  wp (reabastecerFila fila_ex) mundo_ex (fun f' w' =>
    fila_wf f' /\ total f' = MAX_FILA /\
    proxId w' = proxId mundo_ex + Z.of_nat (faltam fila_ex) /\
    saida w' = saida mundo_ex /\
    exists ps, conteudo f' = conteudo fila_ex ++ ps /\
      id <$> ps = seqZ (proxId mundo_ex) (Z.of_nat (faltam fila_ex)) /\
      Forall (fun p => tipo p ∈ TIPOS) ps).
Proof.
  split; [|split; [|split; [|apply reabastecerFila_spec]]]; by_compute.
Defined.

Lemma reabastecerFila_fuel_enough_witness :
  fila_wf fila_ex /\ (faltam fila_ex <= 9)%nat /\ 1 <= proxId mundo_ex /\
  proxId mundo_ex + Z.of_nat (faltam fila_ex) <= INT_MAX /\
  reabastecerFila_fuel 9 fila_ex mundo_ex =
    reabastecerFila_fuel (faltam fila_ex) fila_ex mundo_ex /\
  is_ok (reabastecerFila_fuel 9 fila_ex mundo_ex) = true.
Proof.
  split; [|split; [|split; [|split; [|apply reabastecerFila_fuel_enough]]]];
    by_compute.
Defined.

Lemma reabastecerFila_fuel_short_witness :
  fila_wf fila_ex /\ (1 < faltam fila_ex)%nat /\ 1 <= proxId mundo_ex /\
  proxId mundo_ex + 1 <= INT_MAX /\
  reabastecerFila_fuel 1 fila_ex mundo_ex = Err OutOfFuel.
Proof.
  split; [|split; [|split; [|split; [|apply reabastecerFila_fuel_short]]]];
    by_compute.
Defined.
