(* ===== verification/Pilha.v ===== *)
(** * Pilha: the linear stack of capacity [MAX_PILHA]

    Models lines 12, 31-34 and 85-107 of [src/tetris.c]: the struct [Pilha]
    and [inicializarPilha], [pilhaVazia], [pilhaCheia], [push], [pop] and
    [topoPilha].

    The invariant [pilha_wf] bounds [topo] by [-1] and [MAX_PILHA - 1]; the
    abstraction [pilha_conteudo] is the prefix of the array up to [topo],
    base first.  [push] and [pop] are shown to implement [PilhaSpec], a stack
    that is a list of at most [MAX_PILHA] pieces growing at its end. *)

From Stdlib Require Import ZArith String Ascii.
From stdpp Require Import base tactics option list numbers strings.
From S2P Require Import Prelude Mundo Peca.

#[local] Open Scope Z_scope.

(** [#define MAX_PILHA 3] *)
Definition MAX_PILHA : Z := 3.

Record Pilha : Type := {
  pilha_itens : list Peca;  (* Peca itens[MAX_PILHA] *)
  topo : Z                  (* index of the top, -1 when empty *)
}.

Definition inicializarPilha (p : Pilha) : Pilha :=
  {| pilha_itens := pilha_itens p; topo := -1 |}.

Definition pilhaVazia (p : Pilha) : bool := bool_decide (topo p = -1).
Definition pilhaCheia (p : Pilha) : bool := bool_decide (topo p = MAX_PILHA - 1).

Definition push (p : Pilha) (x : Peca) : Res (bool * Pilha) :=
  if pilhaCheia p then mret (false, p) else
  t ← int_add (topo p) 1;
  its ← arr_set (pilha_itens p) t x;
  mret (true, {| pilha_itens := its; topo := t |}).

Definition pop (p : Pilha) (out : bool) : Res (bool * option Peca * Pilha) :=
  if pilhaVazia p then mret (false, None, p) else
  o ← (if out then Some <$> arr_get (pilha_itens p) (topo p) else mret None);
  t ← int_sub (topo p) 1;
  mret (true, o, {| pilha_itens := pilha_itens p; topo := t |}).

(** The result is the index of the slot the returned pointer designates,
    [None] for [NULL]. *)
Definition topoPilha (p : Pilha) : Res (option Z) :=
  if pilhaVazia p then mret None else
  Some <$> arr_ptr (pilha_itens p) (topo p).

(** ** Sequences of calls, to state the order of service *)

Fixpoint push_lista (p : Pilha) (xs : list Peca) : Res Pilha :=
  match xs with
  | [] => mret p
  | x :: xs' => r ← push p x; push_lista r.2 xs'
  end.

Fixpoint pop_n (n : nat) (p : Pilha) : Res (list (option Peca) * Pilha) :=
  match n with
  | O => mret ([], p)
  | S n' =>
      r ← pop p true;
      r' ← pop_n n' r.2;
      mret (r.1.2 :: r'.1, r'.2)
  end.

(** ** Invariant and abstraction *)

Definition pilha_wf (p : Pilha) : Prop :=
  length (pilha_itens p) = Z.to_nat MAX_PILHA /\
  -1 <= topo p <= MAX_PILHA - 1.

#[export] Instance pilha_wf_dec p : Decision (pilha_wf p).
Proof. unfold pilha_wf. apply _. Defined.

(** The pieces of the stack, base to top. *)
Definition pilha_conteudo (p : Pilha) : list Peca :=
  take (Z.to_nat (topo p + 1)) (pilha_itens p).

(** ** The abstract stack *)

Module PilhaSpec.
Definition vazia (s : list Peca) : bool := bool_decide (s = []).
Definition cheia (s : list Peca) : bool :=
  bool_decide (length s = Z.to_nat MAX_PILHA).
Definition empilha (s : list Peca) (x : Peca) : bool * list Peca :=
  if cheia s then (false, s) else (true, s ++ [x]).
Definition desempilha (s : list Peca) : bool * option Peca * list Peca :=
  match last s with
  | None => (false, None, s)
  | Some x => (true, Some x, removelast s)
  end.
End PilhaSpec.

(** ** A stack with two pieces, for the examples *)

Definition pilha_ex : Pilha :=
  {| pilha_itens := [Build_Peca "L" 8; Build_Peca "J" 9; Build_Peca "?" 0];
     topo := 1 |}.

(** ** Lemmas *)

Lemma length_pilha_conteudo p :
  pilha_wf p -> length (pilha_conteudo p) = Z.to_nat (topo p + 1).
Proof.
  intros (Hl & Ht). unfold pilha_conteudo, MAX_PILHA in *.
  rewrite length_take. lia.
Qed.

Lemma topo_pilha_conteudo p :
  pilha_wf p -> topo p = Z.of_nat (length (pilha_conteudo p)) - 1.
Proof. intros Hwf. rewrite length_pilha_conteudo by done. destruct Hwf. lia. Qed.

Lemma pilhaVazia_spec p :
  pilha_wf p -> pilhaVazia p = PilhaSpec.vazia (pilha_conteudo p).
Proof.
  intros Hwf. pose proof (topo_pilha_conteudo p Hwf).
  unfold pilhaVazia, PilhaSpec.vazia. apply bool_decide_ext.
  rewrite <- length_zero_iff_nil. lia.
Qed.

Lemma pilhaCheia_spec p :
  pilha_wf p -> pilhaCheia p = PilhaSpec.cheia (pilha_conteudo p).
Proof.
  intros Hwf. pose proof (topo_pilha_conteudo p Hwf).
  unfold pilhaCheia, PilhaSpec.cheia. apply bool_decide_ext.
  unfold MAX_PILHA. lia.
Qed.

Lemma inicializarPilha_wf p :
  length (pilha_itens p) = Z.to_nat MAX_PILHA -> pilha_wf (inicializarPilha p).
Proof. intros. unfold pilha_wf, MAX_PILHA. simpl. split; done || lia. Qed.

Lemma inicializarPilha_conteudo p : pilha_conteudo (inicializarPilha p) = [].
Proof. done. Qed.

Lemma push_full p x : pilhaCheia p = true -> push p x = Ok (false, p).
Proof. intros H. unfold push. by rewrite H. Qed.

Lemma push_run p x :
  pilha_wf p -> topo p <> MAX_PILHA - 1 ->
  push p x =
    Ok (true, {| pilha_itens := <[Z.to_nat (topo p + 1) := x]> (pilha_itens p);
                 topo := topo p + 1 |}).
Proof.
  intros (Hl & Ht) Hne. unfold push, pilhaCheia.
  rewrite bool_decide_eq_false_2 by done.
  unfold MAX_PILHA in *. autorewrite with cint. simpl. by autorewrite with cint.
Qed.

Lemma pilha_conteudo_nil_iff p : pilha_wf p -> pilha_conteudo p = [] <-> topo p = -1.
Proof.
  intros Hwf. pose proof (topo_pilha_conteudo p Hwf).
  rewrite <- length_zero_iff_nil. lia.
Qed.

(** [push] on a stack with room: the piece is the new top. *)
Lemma push_snoc p x :
  pilha_wf p -> topo p < MAX_PILHA - 1 ->
  exists p1, push p x = Ok (true, p1) /\
    pilha_wf p1 /\ pilha_conteudo p1 = pilha_conteudo p ++ [x].
Proof.
  intros Hwf Hlt. eexists. split; [apply push_run; [done|lia]|].
  destruct Hwf as (Hl & Ht). unfold pilha_wf, pilha_conteudo, MAX_PILHA in *.
  simpl. rewrite length_insert. split; [split; done || lia|].
  replace (Z.to_nat (topo p + 1 + 1)) with (S (Z.to_nat (topo p + 1))) by lia.
  destruct (lookup_lt_is_Some_2 (pilha_itens p) (Z.to_nat (topo p + 1)))
    as [y Hy]; [lia|].
  erewrite take_S_r by (rewrite list_lookup_insert_eq; [done|lia]).
  f_equal. apply take_insert_ge. lia.
Qed.

(** C3: [push] implements [PilhaSpec.empilha] and keeps the invariant: on a full
    stack it changes nothing and returns 0, otherwise it returns 1 and the
    piece is the new top. *)
Theorem push_refines p x :
  pilha_wf p ->
  res_wp (push p x) (fun r =>
    pilha_wf r.2 /\ (r.1, pilha_conteudo r.2) = PilhaSpec.empilha (pilha_conteudo p) x).
Proof.
  intros Hwf. unfold PilhaSpec.empilha. rewrite <- pilhaCheia_spec by done.
  destruct (pilhaCheia p) eqn:Hc; [by rewrite push_full|].
  apply bool_decide_eq_false in Hc.
  destruct (push_snoc p x Hwf) as (p1 & -> & Hwf1 & Hs).
  { destruct Hwf as (_ & ?). lia. }
  simpl. by rewrite Hs.
Qed.

Lemma pop_empty p out : pilhaVazia p = true -> pop p out = Ok (false, None, p).
Proof. intros H. unfold pop. by rewrite H. Qed.

Lemma pop_run p out x :
  pilha_wf p -> topo p <> -1 -> pilha_itens p !! Z.to_nat (topo p) = Some x ->
  pop p out =
    Ok (true, if out then Some x else None,
        {| pilha_itens := pilha_itens p; topo := topo p - 1 |}).
Proof.
  intros (Hl & Ht) Hne Hx. unfold pop, pilhaVazia.
  rewrite bool_decide_eq_false_2 by done.
  rewrite (arr_get_ok _ _ x) by (done || lia).
  unfold MAX_PILHA in *. destruct out; simpl; by autorewrite with cint.
Qed.

(** The top slot of a non-empty well-formed stack holds the last piece of
    the contents. *)
Lemma pilha_conteudo_snoc p :
  pilha_wf p -> topo p <> -1 ->
  exists x, pilha_itens p !! Z.to_nat (topo p) = Some x /\
    pilha_conteudo p = take (Z.to_nat (topo p)) (pilha_itens p) ++ [x].
Proof.
  intros (Hl & Ht) Hne. unfold MAX_PILHA in *.
  destruct (lookup_lt_is_Some_2 (pilha_itens p) (Z.to_nat (topo p)))
    as [x Hx]; [lia|].
  exists x. split; [done|]. unfold pilha_conteudo.
  replace (Z.to_nat (topo p + 1)) with (S (Z.to_nat (topo p))) by lia.
  by apply take_S_r.
Qed.

Lemma pop_nil p out :
  pilha_wf p -> pilha_conteudo p = [] -> pop p out = Ok (false, None, p).
Proof.
  intros Hwf Hs. apply pop_empty, bool_decide_eq_true.
  by apply pilha_conteudo_nil_iff.
Qed.

(** [pop] on a stack that holds [s ++ [x]]: [x] leaves, [s] stays. *)
Lemma pop_snoc p out s x :
  pilha_wf p -> pilha_conteudo p = s ++ [x] ->
  exists p1, pop p out = Ok (true, if out then Some x else None, p1) /\
    pilha_wf p1 /\ pilha_conteudo p1 = s.
Proof.
  intros Hwf Hs.
  assert (Hv : topo p <> -1).
  { rewrite <- pilha_conteudo_nil_iff, Hs by done. by destruct s. }
  destruct (pilha_conteudo_snoc p Hwf Hv) as (y & Hy & Hc).
  rewrite Hs in Hc. apply app_inj_tail in Hc as [-> ->].
  eexists. split; [by apply pop_run|].
  destruct Hwf as (Hl & Ht). unfold pilha_wf, pilha_conteudo. simpl.
  replace (topo p - 1 + 1) with (topo p) by lia.
  repeat split; done || lia.
Qed.

(** C4: [pop] implements [PilhaSpec.desempilha] and keeps the invariant: on an
    empty stack it changes nothing and returns 0, otherwise it returns 1 and
    the top piece leaves; the piece is stored through [out] only when [out]
    is not [NULL]. *)
Theorem pop_refines p out :
  pilha_wf p ->
  res_wp (pop p out) (fun r =>
    pilha_wf r.2 /\
    (r.1.1, pilha_conteudo r.2) =
      ((PilhaSpec.desempilha (pilha_conteudo p)).1.1,
       (PilhaSpec.desempilha (pilha_conteudo p)).2) /\
    r.1.2 = if out then (PilhaSpec.desempilha (pilha_conteudo p)).1.2 else None).
Proof.
  intros Hwf. unfold PilhaSpec.desempilha.
  destruct (pilha_conteudo p) as [|x s _] eqn:Hs using rev_ind.
  - rewrite pop_nil by done. simpl. rewrite Hs. by destruct out.
  - destruct (pop_snoc p out s x Hwf Hs) as (p1 & -> & Hwf1 & Hs1).
    rewrite last_snoc, removelast_last. simpl. by rewrite Hs1.
Qed.

Lemma push_refines_witness :
  pilha_wf pilha_ex /\
  res_wp (push pilha_ex (Build_Peca "T" 10)) (fun r =>
    pilha_wf r.2 /\
    (r.1, pilha_conteudo r.2) =
      PilhaSpec.empilha (pilha_conteudo pilha_ex) (Build_Peca "T" 10)).
Proof. split; [|apply push_refines]; by_compute. Defined.

Lemma pop_refines_witness :
  pilha_wf pilha_ex /\
  res_wp (pop pilha_ex true) (fun r =>
    pilha_wf r.2 /\
    (r.1.1, pilha_conteudo r.2) =
      ((PilhaSpec.desempilha (pilha_conteudo pilha_ex)).1.1,
       (PilhaSpec.desempilha (pilha_conteudo pilha_ex)).2) /\
    r.1.2 = (PilhaSpec.desempilha (pilha_conteudo pilha_ex)).1.2).
Proof. split; [|apply (pop_refines pilha_ex true)]; by_compute. Defined.

Lemma push_lista_spec p xs :
  pilha_wf p ->
  (length (pilha_conteudo p) + length xs <= Z.to_nat MAX_PILHA)%nat ->
  res_wp (push_lista p xs) (fun p' =>
    pilha_wf p' /\ pilha_conteudo p' = pilha_conteudo p ++ xs).
Proof.
  revert p. induction xs as [|x xs IH]; intros p Hwf Hlen; simpl.
  - by rewrite app_nil_r.
  - destruct (push_snoc p x Hwf) as (p1 & -> & Hwf1 & Hc).
    { rewrite (topo_pilha_conteudo p Hwf). unfold MAX_PILHA in *.
      simpl in Hlen. lia. }
    simpl in *.
    eapply res_wp_mono; [apply IH; [done|rewrite Hc, length_app; simpl; lia]|].
    intros p' (? & ->). by rewrite Hc, <- app_assoc.
Qed.

Lemma pop_n_spec n p :
  pilha_wf p -> (n <= length (pilha_conteudo p))%nat ->
  res_wp (pop_n n p) (fun r =>
    pilha_wf r.2 /\
    r.1 = Some <$> take n (reverse (pilha_conteudo p)) /\
    pilha_conteudo r.2 = take (length (pilha_conteudo p) - n) (pilha_conteudo p)).
Proof.
  revert p. induction n as [|n IH]; intros p Hwf Hlen; simpl.
  - by rewrite Nat.sub_0_r, firstn_all.
  - destruct (pilha_conteudo p) as [|x s _] eqn:Hs using rev_ind;
      simpl in *; [lia|].
    destruct (pop_snoc p true s x Hwf Hs) as (p1 & -> & Hwf1 & Hc).
    rewrite length_app in Hlen |- *. simpl in *. wp_step.
    eapply res_wp_mono; [apply IH; [done|rewrite Hc; lia]|].
    intros [os p'] (? & Hos & Hcp). simpl in *.
    rewrite Hos, Hcp, Hc, reverse_snoc. simpl.
    split_and!; [done..|]. rewrite take_app_le by lia. f_equal. lia.
Qed.

(** C35: LIFO: the pieces pushed on a well-formed stack with room for them come
    out in the reverse order, before the pieces already there. *)
Theorem pilha_lifo p xs :
  pilha_wf p ->
  (length (pilha_conteudo p) + length xs <= Z.to_nat MAX_PILHA)%nat ->
  res_wp (p' ← push_lista p xs; pop_n (length xs) p')
    (fun r => r.1 = Some <$> reverse xs /\
              pilha_conteudo r.2 = pilha_conteudo p /\ pilha_wf r.2).
Proof.
  intros Hwf Hlen. wp_step.
  eapply res_wp_mono; [by apply push_lista_spec|].
  intros p' (Hwf' & Hc).
  eapply res_wp_mono; [apply pop_n_spec; [done|rewrite Hc, length_app; lia]|].
  intros [os p''] (? & Hos & Hcp). simpl in *.
  rewrite Hos, Hcp, Hc, reverse_app, length_app.
  rewrite take_app_length' by (by rewrite length_reverse).
  rewrite take_app_length' by lia. done.
Qed.

Lemma pilha_lifo_witness :
  pilha_wf (inicializarPilha pilha_ex) /\
  (length (pilha_conteudo (inicializarPilha pilha_ex)) +
   length [Build_Peca "I" 1; Build_Peca "O" 2; Build_Peca "T" 3]
   <= Z.to_nat MAX_PILHA)%nat /\
  res_wp (p' ← push_lista (inicializarPilha pilha_ex)
                  [Build_Peca "I" 1; Build_Peca "O" 2; Build_Peca "T" 3];
          pop_n (length [Build_Peca "I" 1; Build_Peca "O" 2; Build_Peca "T" 3]) p')
    (fun r =>
       r.1 = Some <$> reverse [Build_Peca "I" 1; Build_Peca "O" 2; Build_Peca "T" 3] /\
       pilha_conteudo r.2 = pilha_conteudo (inicializarPilha pilha_ex) /\
       pilha_wf r.2).
Proof. split; [|split; [|apply pilha_lifo]]; by_compute. Defined.

(** [topoPilha] returns the slot of the last piece of the contents, and
    [NULL] on an empty stack. *)
Theorem topoPilha_spec p :
  pilha_wf p ->
  res_wp (topoPilha p) (fun o =>
    o ≫= (fun idx => pilha_itens p !! Z.to_nat idx) = last (pilha_conteudo p)).
Proof.
  intros Hwf. unfold topoPilha. destruct (pilhaVazia p) eqn:Hv.
  - rewrite pilhaVazia_spec in Hv by done. apply bool_decide_eq_true in Hv.
    by rewrite Hv.
  - apply bool_decide_eq_false in Hv.
    destruct (pilha_conteudo_snoc p Hwf Hv) as (x & Hx & ->).
    destruct Hwf as (Hl & Ht). unfold MAX_PILHA in *.
    rewrite arr_ptr_ok by lia. simpl. by rewrite last_snoc.
Qed.

Lemma topoPilha_spec_witness :
  pilha_wf pilha_ex /\
  res_wp (topoPilha pilha_ex) (fun o =>
    o ≫= (fun idx => pilha_itens pilha_ex !! Z.to_nat idx) =
    last (pilha_conteudo pilha_ex)).
Proof. split; [|apply topoPilha_spec]; by_compute. Defined.
