(* ===== verification/Troca.v ===== *)
(** * Troca: the two swaps between the queue and the stack

    Models lines 137-173 of [src/tetris.c]: [trocarFrenteComTopo] exchanges
    the front of the queue with the top of the stack, [trocarTres] exchanges
    the first three pieces of the queue with the three pieces of the stack,
    front with base.  Both test their preconditions first, print the message
    of the first test that fails and return 0 without writing.

    [TrocaSpec] gives the two operations on the abstract contents, with the
    failure each test stands for; the theorems show that the C functions
    implement them, keep both invariants and never read a slot outside the
    live contents. *)

From Stdlib Require Import ZArith String Ascii.
From stdpp Require Import base tactics option list numbers strings.
From S2P Require Import Prelude Mundo Peca Fila Pilha.

#[local] Open Scope Z_scope.

(** The precondition an operation found violated. *)
Inductive Falha : Type :=
  | QueueEmpty
  | QueueTooShort
  | StackEmpty
  | StackFull
  | StackWrongSize.

#[export] Instance Falha_eq_dec : EqDecision Falha.
Proof. solve_decision. Defined.

Definition set_fila_itens (its : list Peca) (f : Fila) : Fila :=
  {| fila_itens := its; inicio := inicio f; fim := fim f; total := total f |}.
Definition set_pilha_itens (its : list Peca) (p : Pilha) : Pilha :=
  {| pilha_itens := its; topo := topo p |}.

(** [tmp = a[i]; a[i] = b[j]; b[j] = tmp;] on two arrays. *)
Definition troca_slots (a b : list Peca) (i j : Z)
  : Res (list Peca * list Peca) :=
  tmp ← arr_get a i;
  x ← arr_get b j;
  a' ← arr_set a i x;
  b' ← arr_set b j tmp;
  mret (a', b').

Section troca.
Context `{R : Rand}.

Definition msg_fila_vazia : string := "Falha: fila vazia." ++ nl.
Definition msg_pilha_vazia : string := "Falha: pilha vazia." ++ nl.
Definition msg_pilha_tres : string :=
  "Falha: a pilha precisa ter exatamente 3 pecas." ++ nl.
Definition msg_fila_tres : string :=
  "Falha: a fila precisa ter pelo menos 3 pecas." ++ nl.

Definition trocarFrenteComTopo (f : Fila) (p : Pilha)
  : Prog Mundo (bool * Fila * Pilha) :=
  if filaVazia f then printf msg_fila_vazia;; mret (false, f, p) else
  if pilhaVazia p then printf msg_pilha_vazia;; mret (false, f, p) else
  let idxFrente := inicio f in
  let idxTopo := topo p in
  tmp ← lift (arr_get (fila_itens f) idxFrente);
  x ← lift (arr_get (pilha_itens p) idxTopo);
  fi ← lift (arr_set (fila_itens f) idxFrente x);
  pi ← lift (arr_set (pilha_itens p) idxTopo tmp);
  mret (true, set_fila_itens fi f, set_pilha_itens pi p).

(** The body of the loop of [trocarTres]. *)
Definition trocarTres_corpo (i : Z) (fp : Fila * Pilha) : Res (Fila * Pilha) :=
  s ← int_add (inicio fp.1) i;
  idxFila ← int_rem s MAX_FILA;
  let idxPilha := i in
  tmp ← arr_get (fila_itens fp.1) idxFila;
  x ← arr_get (pilha_itens fp.2) idxPilha;
  fi ← arr_set (fila_itens fp.1) idxFila x;
  pi ← arr_set (pilha_itens fp.2) idxPilha tmp;
  mret (set_fila_itens fi fp.1, set_pilha_itens pi fp.2).

Definition trocarTres (f : Fila) (p : Pilha)
  : Prog Mundo (bool * Fila * Pilha) :=
  n ← lift (int_add (topo p) 1);
  if bool_decide (n <> 3) then printf msg_pilha_tres;; mret (false, f, p) else
  if bool_decide (total f < 3) then printf msg_fila_tres;; mret (false, f, p) else
  fp ← lift (for_range 0 3 trocarTres_corpo (f, p));
  mret (true, fp.1, fp.2).
End troca.

(** ** The swaps on the abstract contents *)

Module TrocaSpec.
Definition frente_topo (q s : list Peca)
  : Falha + (list Peca * list Peca) :=
  match q, last s with
  | [], _ => inl QueueEmpty
  | _ :: _, None => inl StackEmpty
  | x :: q', Some y => inr (y :: q', removelast s ++ [x])
  end.

Definition tres (q s : list Peca) : Falha + (list Peca * list Peca) :=
  if bool_decide (length s <> 3%nat) then inl StackWrongSize
  else if bool_decide (length q < 3)%nat then inl QueueTooShort
  else inr (s ++ drop 3 q, take 3 q).

(** The message [main] and the swaps print for each failure. *)
Definition mensagem_troca (e : Falha) : string :=
  match e with
  | QueueEmpty => msg_fila_vazia
  | StackEmpty => msg_pilha_vazia
  | StackWrongSize => msg_pilha_tres
  | QueueTooShort => msg_fila_tres
  | StackFull => ""
  end.
End TrocaSpec.

(** The indices of the two structures, which no swap changes. *)
Definition indices (f : Fila) (p : Pilha) : Z * Z * Z * Z :=
  (inicio f, fim f, total f, topo p).

(** What a swap promises: the invariants and the indices are kept, the
    counter and the generator are untouched, and the outcome is the one
    [spec], a result of [TrocaSpec], gives on the contents: on failure
    nothing is written and the message is printed, on success the contents
    are the new ones and nothing is printed. *)
Definition troca_post `{R : Rand} (f : Fila) (p : Pilha) (w : Mundo)
    (spec : Falha + (list Peca * list Peca))
    (r : bool * Fila * Pilha) (w' : Mundo) : Prop :=
  fila_wf r.1.2 /\ pilha_wf r.2 /\ indices r.1.2 r.2 = indices f p /\
  proxId w' = proxId w /\ semente w' = semente w /\
  match spec with
  | inl e =>
      r = (false, f, p) /\
      saida w' = (saida w ++ TrocaSpec.mensagem_troca e)%string
  | inr (q, s) =>
      r.1.1 = true /\ conteudo r.1.2 = q /\ pilha_conteudo r.2 = s /\
      saida w' = saida w
  end.

(** ** Examples *)

Definition pilha_cheia_ex : Pilha :=
  {| pilha_itens := [Build_Peca "L" 8; Build_Peca "J" 9; Build_Peca "O" 10];
     topo := 2 |}.

(** ** Lemmas *)

(** Exchanging slot [i] of the view of a circular array with slot [j] of a
    prefix of another exchanges the two elements of the views. *)
Lemma troca_slots_spec (a b : list Peca) (ini tot top k j : nat) x y :
  (ini < length a)%nat -> (tot <= length a)%nat -> (top <= length b)%nat ->
  (k < tot)%nat -> (j < top)%nat ->
  circ a ini tot !! k = Some x -> take top b !! j = Some y ->
  exists a' b',
    troca_slots a b (Z.of_nat ((ini + k) mod length a)) (Z.of_nat j) = Ok (a', b') /\
    length a' = length a /\ length b' = length b /\
    circ a' ini tot = <[k := y]> (circ a ini tot) /\
    take top b' = <[j := x]> (take top b).
Proof.
  intros Hini Htot Htop Hk Hj Hx Hy.
  rewrite lookup_circ in Hx by lia. rewrite lookup_take_lt in Hy by lia.
  pose proof (Nat.mod_upper_bound (ini + k) (length a) ltac:(lia)).
  exists (<[((ini + k) mod length a)%nat := y]> a), (<[j := x]> b).
  unfold troca_slots.
  rewrite (arr_get_ok a _ x), (arr_get_ok b _ y)
    by (rewrite ?Nat2Z.id; done || lia).
  simpl. rewrite !arr_set_ok by lia. simpl. rewrite !Nat2Z.id, !length_insert.
  split_and!; try done.
  - by apply circ_insert.
  - by rewrite take_insert_lt by lia.
Qed.

(** The same on a well-formed queue and stack: exchanging position [i] of
    the queue with position [j] of the stack keeps both invariants. *)
Lemma troca_slots_conteudo f p i j x y :
  fila_wf f -> pilha_wf p -> 0 <= i < total f -> 0 <= j <= topo p ->
  conteudo f !! Z.to_nat i = Some x -> pilha_conteudo p !! Z.to_nat j = Some y ->
  exists a b,
    troca_slots (fila_itens f) (pilha_itens p) ((inicio f + i) mod MAX_FILA) j
      = Ok (a, b) /\
    fila_wf (set_fila_itens a f) /\ pilha_wf (set_pilha_itens b p) /\
    conteudo (set_fila_itens a f) = <[Z.to_nat i := y]> (conteudo f) /\
    pilha_conteudo (set_pilha_itens b p) = <[Z.to_nat j := x]> (pilha_conteudo p).
Proof.
  intros (Hfl & Hfi & Hft & Hff) (Hpl & Hpt) Hi Hj Hx Hy.
  unfold MAX_FILA, MAX_PILHA in *.
  destruct (troca_slots_spec (fila_itens f) (pilha_itens p)
    (Z.to_nat (inicio f)) (Z.to_nat (total f)) (Z.to_nat (topo p + 1))
    (Z.to_nat i) (Z.to_nat j) x y) as (a & b & Hrun & Hla & Hlb & Ha & Hb);
    try (done || lia).
  exists a, b. rewrite Hfl in Hrun.
  pose proof (Z.mod_pos_bound (inicio f + i) 5 eq_refl).
  rewrite <- Z_to_nat_mod_add, !Z2Nat.id in Hrun by lia.
  unfold fila_wf, pilha_wf, conteudo, pilha_conteudo, MAX_FILA, MAX_PILHA.
  simpl. rewrite Hla, Hlb. split_and!; done || lia.
Qed.

Lemma troca_slots_bind {B} (a b : list Peca) (i j : Z)
    (k : list Peca -> list Peca -> Res B) :
  (tmp ← arr_get a i; x ← arr_get b j; a' ← arr_set a i x;
   b' ← arr_set b j tmp; k a' b') =
  (ab ← troca_slots a b i j; k ab.1 ab.2).
Proof.
  unfold troca_slots, mbind, res_bind.
  destruct (arr_get a i) as [tmp|]; [|done].
  destruct (arr_get b j) as [x|]; [|done].
  destruct (arr_set a i x); [|done]. by destruct (arr_set b j tmp).
Qed.

(** One iteration of the loop of [trocarTres] exchanges position [i] of the
    queue with position [i] of the stack. *)
Lemma trocarTres_corpo_spec f p i x y :
  fila_wf f -> pilha_wf p -> 0 <= i < total f -> 0 <= i <= topo p ->
  conteudo f !! Z.to_nat i = Some x -> pilha_conteudo p !! Z.to_nat i = Some y ->
  res_wp (trocarTres_corpo i (f, p)) (fun fp =>
    fila_wf fp.1 /\ pilha_wf fp.2 /\ indices fp.1 fp.2 = indices f p /\
    conteudo fp.1 = <[Z.to_nat i := y]> (conteudo f) /\
    pilha_conteudo fp.2 = <[Z.to_nat i := x]> (pilha_conteudo p)).
Proof.
  intros Hf Hp Hi Hj Hx Hy.
  destruct (troca_slots_conteudo f p i i x y)
    as (a & b & Hrun & Hfa & Hpb & Ha & Hb); try done.
  destruct Hf as (_ & ? & ? & _). unfold trocarTres_corpo, MAX_FILA in *. simpl.
  autorewrite with cint. simpl. autorewrite with cint. simpl.
  by rewrite troca_slots_bind, Hrun.
Qed.

(** The loop of [trocarTres], by its invariant: after [i] iterations the
    first [i] pieces of the two contents have been exchanged. *)
Lemma trocarTres_laco f p :
  fila_wf f -> pilha_wf p -> 3 <= total f -> topo p = 2 ->
  res_wp (for_range 0 3 trocarTres_corpo (f, p)) (fun fp =>
    fila_wf fp.1 /\ pilha_wf fp.2 /\ indices fp.1 fp.2 = indices f p /\
    conteudo fp.1 = pilha_conteudo p ++ drop 3 (conteudo f) /\
    pilha_conteudo fp.2 = take 3 (conteudo f)).
Proof.
  intros Hf Hp Ht Htop.
  pose proof (length_conteudo f Hf) as Hlq.
  pose proof (length_pilha_conteudo p Hp) as Hls. rewrite Htop in Hls.
  eapply res_wp_mono.
  - apply (for_range_wp (fun i fp =>
      fila_wf fp.1 /\ pilha_wf fp.2 /\ indices fp.1 fp.2 = indices f p /\
      conteudo fp.1 =
        take (Z.to_nat i) (pilha_conteudo p) ++ drop (Z.to_nat i) (conteudo f) /\
      pilha_conteudo fp.2 =
        take (Z.to_nat i) (conteudo f) ++ drop (Z.to_nat i) (pilha_conteudo p)));
      [done|].
    intros i [fi pi] Hi (Hfi & Hpi & Hidx & Hq & Hs). simpl in *.
    injection Hidx as Hini Hfim Htot Htp.
    destruct (lookup_lt_is_Some_2 (conteudo f) (Z.to_nat i)) as [x Hx]; [lia|].
    destruct (lookup_lt_is_Some_2 (pilha_conteudo p) (Z.to_nat i)) as [y Hy];
      [simpl in *; lia|].
    eapply res_wp_mono;
      [apply (trocarTres_corpo_spec fi pi i x y); try done; try lia|].
    + by rewrite Hq, lookup_take_drop by (simpl in *; lia).
    + by rewrite Hs, lookup_take_drop by lia.
    + intros [f' p'] (? & ? & Hidx' & Hq' & Hs'). simpl in *.
      replace (Z.to_nat (i + 1)) with (S (Z.to_nat i)) by lia.
      rewrite Hq', Hs', Hq, Hs, !insert_take_drop by (done || simpl in *; lia).
      split_and!; try done. rewrite Hidx'. unfold indices. congruence.
  - intros [f' p'] (? & ? & ? & Hq & Hs). simpl in *.
    rewrite Hq, Hs. split_and!; try done.
    + by rewrite firstn_all2 by (simpl in *; lia).
    + rewrite drop_ge by (simpl in *; lia). by rewrite app_nil_r.
Qed.

Section troca_lemmas.
Context `{R : Rand}.
Implicit Types (w : Mundo) (f : Fila) (p : Pilha).

(** The array accesses of [trocarFrenteComTopo] are those of [troca_slots]. *)
Lemma trocarFrenteComTopo_slots f p w :
  filaVazia f = false -> pilhaVazia p = false ->
  trocarFrenteComTopo f p w =
    (ab ← lift (troca_slots (fila_itens f) (pilha_itens p) (inicio f) (topo p));
     mret (true, set_fila_itens ab.1 f, set_pilha_itens ab.2 p)) w.
Proof.
  intros Hf Hp. unfold trocarFrenteComTopo, troca_slots. rewrite Hf, Hp.
  unfold mbind, prog_bind, lift, res_bind.
  destruct (arr_get (fila_itens f) (inicio f)) as [tmp|]; [|done].
  destruct (arr_get (pilha_itens p) (topo p)) as [x|]; [|done].
  destruct (arr_set (fila_itens f) (inicio f) x); [|done].
  by destruct (arr_set (pilha_itens p) (topo p) tmp).
Qed.

Lemma trocarFrenteComTopo_fila_vazia f p w :
  filaVazia f = true ->
  trocarFrenteComTopo f p w =
    Ok (false, f, p, set_saida (saida w ++ msg_fila_vazia)%string w).
Proof. intros H. unfold trocarFrenteComTopo. by rewrite H. Qed.

Lemma trocarFrenteComTopo_pilha_vazia f p w :
  filaVazia f = false -> pilhaVazia p = true ->
  trocarFrenteComTopo f p w =
    Ok (false, f, p, set_saida (saida w ++ msg_pilha_vazia)%string w).
Proof. intros H1 H2. unfold trocarFrenteComTopo. by rewrite H1, H2. Qed.

(** The rule of [trocarFrenteComTopo]. *)
Lemma wp_trocarFrenteComTopo f p w (Q : bool * Fila * Pilha -> Mundo -> Prop) :
  fila_wf f -> pilha_wf p ->
  (forall r w',
     troca_post f p w (TrocaSpec.frente_topo (conteudo f) (pilha_conteudo p)) r w' ->
     Q r w') ->
  wp (trocarFrenteComTopo f p) w Q.
Proof.
  intros Hf Hp HQ. eapply wp_mono; [|exact HQ].
  unfold wp, troca_post, TrocaSpec.frente_topo.
  destruct (filaVazia f) eqn:Hfv.
  { rewrite trocarFrenteComTopo_fila_vazia by done.
    rewrite filaVazia_spec in Hfv by done. apply bool_decide_eq_true in Hfv.
    by rewrite Hfv. }
  pose proof (proj1 (bool_decide_eq_false _) Hfv) as Hft.
  destruct (conteudo_cons f Hf Hft) as (x & _ & Hq).
  set (q' := circ _ _ _) in Hq.
  destruct (pilhaVazia p) eqn:Hpv.
  { rewrite trocarFrenteComTopo_pilha_vazia by done.
    rewrite pilhaVazia_spec in Hpv by done. apply bool_decide_eq_true in Hpv.
    by rewrite Hq, Hpv. }
  pose proof (proj1 (bool_decide_eq_false _) Hpv) as Hpt.
  destruct (pilha_conteudo_snoc p Hp Hpt) as (y & _ & Hs).
  set (s' := take _ _) in Hs.
  assert (Hls : length s' = Z.to_nat (topo p)).
  { destruct Hp. unfold MAX_PILHA in *. subst s'. rewrite length_take. lia. }
  destruct (troca_slots_conteudo f p 0 (topo p) x y)
    as (a & b & Hrun & Hfa & Hpb & Ha & Hb); try done.
  { destruct Hf as (_ & _ & ? & _). lia. }
  { destruct Hp. lia. }
  { by rewrite Hq. }
  { by rewrite Hs, lookup_app_r, Hls, Nat.sub_diag by lia. }
  rewrite Z.add_0_r, Z.mod_small in Hrun by (by destruct Hf as (_ & ? & _)).
  rewrite trocarFrenteComTopo_slots by done.
  unfold mbind, prog_bind, lift. rewrite Hrun. simpl.
  rewrite Ha, Hb, Hq, Hs, last_snoc, removelast_last. split_and!; try done.
  by rewrite insert_app_r_alt, Hls, Nat.sub_diag by lia.
Qed.

(** The rule of [trocarTres]. *)
Lemma wp_trocarTres f p w (Q : bool * Fila * Pilha -> Mundo -> Prop) :
  fila_wf f -> pilha_wf p ->
  (forall r w',
     troca_post f p w (TrocaSpec.tres (conteudo f) (pilha_conteudo p)) r w' ->
     Q r w') ->
  wp (trocarTres f p) w Q.
Proof.
  intros Hf Hp HQ. eapply wp_mono; [|exact HQ].
  unfold troca_post, TrocaSpec.tres, trocarTres.
  pose proof (total_conteudo f Hf) as Hq.
  pose proof (topo_pilha_conteudo p Hp) as Hs.
  pose proof Hp as (_ & Ht). unfold MAX_PILHA in Ht.
  wp_step. rewrite int_add_ok by int_lia. wp_step. simpl.
  destruct (decide (topo p + 1 = 3)) as [Hn|Hn].
  2: { rewrite !bool_decide_eq_true_2 by lia. wp_step. apply wp_printf.
       by wp_step. }
  rewrite (bool_decide_eq_false_2 (_ <> 3)), (bool_decide_eq_false_2 (_ <> 3%nat))
    by lia.
  destruct (decide (total f < 3)) as [Hl|Hl].
  { rewrite !bool_decide_eq_true_2 by lia. wp_step. apply wp_printf.
    by wp_step. }
  rewrite (bool_decide_eq_false_2 (_ < 3)), (bool_decide_eq_false_2 (_ < 3)%nat)
    by lia.
  wp_step. wp_step. eapply res_wp_mono; [apply trocarTres_laco; done || lia|].
  intros [f' p'] (? & ? & ? & ? & ?). by wp_step.
Qed.

(** C6: [trocarFrenteComTopo] implements [TrocaSpec.frente_topo]: with an empty
    queue or an empty stack it writes nothing, prints the message of the
    first failing test and returns 0; otherwise the front of the queue and
    the top of the stack trade places and nothing else changes. *)
Theorem trocarFrenteComTopo_spec f p w :
  fila_wf f -> pilha_wf p ->
  wp (trocarFrenteComTopo f p) w
    (troca_post f p w (TrocaSpec.frente_topo (conteudo f) (pilha_conteudo p))).
Proof. intros Hf Hp. by apply wp_trocarFrenteComTopo. Qed.

(** C5: [trocarTres] implements [TrocaSpec.tres]: with a stack that does not
    hold exactly three pieces, or a queue with fewer than three, it writes
    nothing, prints the message of the first failing test and returns 0;
    otherwise the first three pieces of the queue become the stack, base to
    top, and the three pieces of the stack become the front of the queue, in
    that order. *)
Theorem trocarTres_spec f p w :
  fila_wf f -> pilha_wf p ->
  wp (trocarTres f p) w
    (troca_post f p w (TrocaSpec.tres (conteudo f) (pilha_conteudo p))).
Proof. intros Hf Hp. by apply wp_trocarTres. Qed.
End troca_lemmas.

Lemma trocarFrenteComTopo_spec_witness :
  fila_wf fila_ex /\ pilha_wf pilha_ex /\
  wp (trocarFrenteComTopo fila_ex pilha_ex) mundo_ex
    (troca_post fila_ex pilha_ex mundo_ex
       (TrocaSpec.frente_topo (conteudo fila_ex) (pilha_conteudo pilha_ex))).
Proof.
  split; [|split; [|apply trocarFrenteComTopo_spec]]; by_compute.
Defined.

Lemma trocarTres_spec_witness :
  fila_wf fila_ex /\ pilha_wf pilha_cheia_ex /\
  wp (trocarTres fila_ex pilha_cheia_ex) mundo_ex
    (troca_post fila_ex pilha_cheia_ex mundo_ex
       (TrocaSpec.tres (conteudo fila_ex) (pilha_conteudo pilha_cheia_ex))).
Proof. split; [|split; [|apply trocarTres_spec]]; by_compute. Defined.

