(* ===== verification/Menu.v ===== *)
(** * Menu: the operations of [main]

    Models, of [main] in [src/tetris.c], the declarations and the initial
    fill (lines 194-200) and the [switch] on the user's choice (lines
    226-281): one definition per [case], composed by [menu_switch].  The
    state of [main] between two choices is a [Jogo]: its two locals [fila]
    and [pilha].

    The theorems give each [case] on the abstract contents of the queue and
    the stack, with what it prints; show that [jogo_wf] (both invariants and a
    full queue) holds after the initial fill and is kept by every choice;
    and conclude that a run of any number of choices has no undefined
    behaviour while the counter of [gerarPeca] stays below [INT_MAX]. *)

From Stdlib Require Import ZArith String Ascii.
From stdpp Require Import base tactics option list numbers strings.
From S2P Require Import Prelude Mundo Peca Fila Pilha Troca.

#[local] Open Scope Z_scope.

(** The locals [fila] and [pilha] of [main]. *)
Record Jogo : Type := {
  fila : Fila;
  pilha : Pilha
}.

Definition msg_jogar_vazia : string := "Nao ha peca para jogar: fila vazia." ++ nl.
Definition msg_jogou (x : Peca) : string := "Jogou peca: " ++ fmt_peca x ++ nl.
Definition msg_reserva_cheia : string :=
  "Reserva cheia (pilha cheia). Nao foi possivel enviar." ++ nl.
Definition msg_enviar_vazia : string := "Fila vazia. Nada para enviar." ++ nl.
Definition msg_enviou (x : Peca) : string :=
  "Enviou " ++ fmt_peca x ++ " da fila para a reserva." ++ nl.
Definition msg_reserva_vazia : string := "Reserva vazia. Nada para usar." ++ nl.
Definition msg_usou (x : Peca) : string :=
  "Usou peca da reserva: " ++ fmt_peca x ++ nl.
Definition msg_troca : string :=
  "Troca realizada: frente da fila <-> topo da pilha." ++ nl.
Definition msg_troca_tres : string :=
  "Troca de 3 realizada entre fila (3 primeiros) e pilha (3 itens)." ++ nl.
Definition msg_saindo : string := "Saindo..." ++ nl.
Definition msg_invalida : string := "Opcao invalida." ++ nl.

Section menu.
Context `{R : Rand}.

(** Lines 194-200: the two structs are declared without initialiser ([f0] and
    [p0] are what the stack holds there), initialised, and the queue is
    filled. *)
Definition iniciar (f0 : Fila) (p0 : Pilha) : Prog Mundo Jogo :=
  let f := inicializarFila f0 in
  let p := inicializarPilha p0 in
  f' ← reabastecerFila f;
  mret {| fila := f'; pilha := p |}.

(** [case 1]: play the front piece and refill. *)
Definition caso_jogar (j : Jogo) : Prog Mundo Jogo :=
  r ← lift (dequeue (fila j) true);
  if negb r.1.1 then
    printf msg_jogar_vazia;;
    mret {| fila := r.2; pilha := pilha j |}
  else
    jogada ← lift (ler_local r.1.2);
    printf (msg_jogou jogada);;
    f' ← reabastecerFila r.2;
    mret {| fila := f'; pilha := pilha j |}.

(** [case 2]: send the front piece to the reserve and refill. *)
Definition caso_reservar (j : Jogo) : Prog Mundo Jogo :=
  if pilhaCheia (pilha j) then
    printf msg_reserva_cheia;;
    mret j
  else
    r ← lift (dequeue (fila j) true);
    if negb r.1.1 then
      printf msg_enviar_vazia;;
      mret {| fila := r.2; pilha := pilha j |}
    else
      frente ← lift (ler_local r.1.2);
      r' ← lift (push (pilha j) frente);
      printf (msg_enviou frente);;
      f' ← reabastecerFila r.2;
      mret {| fila := f'; pilha := r'.2 |}.

(** [case 3]: use the piece on top of the reserve. *)
Definition caso_usar (j : Jogo) : Prog Mundo Jogo :=
  r ← lift (pop (pilha j) true);
  if negb r.1.1 then
    printf msg_reserva_vazia;;
    mret {| fila := fila j; pilha := r.2 |}
  else
    usada ← lift (ler_local r.1.2);
    printf (msg_usou usada);;
    mret {| fila := fila j; pilha := r.2 |}.

(** [case 4] *)
Definition caso_trocar (j : Jogo) : Prog Mundo Jogo :=
  '(ok, f, p) ← trocarFrenteComTopo (fila j) (pilha j);
  (if ok : bool then printf msg_troca else mret tt);;
  mret {| fila := f; pilha := p |}.

(** [case 5] *)
Definition caso_trocar_tres (j : Jogo) : Prog Mundo Jogo :=
  '(ok, f, p) ← trocarTres (fila j) (pilha j);
  (if ok : bool then printf msg_troca_tres else mret tt);;
  mret {| fila := f; pilha := p |}.

(** [switch (opcao) { ... }] *)
Definition menu_switch (opcao : Z) (j : Jogo) : Prog Mundo Jogo :=
  if decide (opcao = 1) then caso_jogar j
  else if decide (opcao = 2) then caso_reservar j
  else if decide (opcao = 3) then caso_usar j
  else if decide (opcao = 4) then caso_trocar j
  else if decide (opcao = 5) then caso_trocar_tres j
  else if decide (opcao = 0) then printf msg_saindo;; mret j
  else printf msg_invalida;; mret j.

(** The choices of a list, one after the other. *)
Fixpoint menu_lista (ops : list Z) (j : Jogo) : Prog Mundo Jogo :=
  match ops with
  | [] => mret j
  | o :: ops' => j' ← menu_switch o j; menu_lista ops' j'
  end.
End menu.

(** ** Invariant and abstraction *)

(** Both structures are well formed. *)
Definition jogo_ok (j : Jogo) : Prop := fila_wf (fila j) /\ pilha_wf (pilha j).

(** What holds of [main]'s locals whenever the menu is shown: both
    structures are well formed and the queue is full. *)
Definition jogo_wf (j : Jogo) : Prop :=
  fila_wf (fila j) /\ pilha_wf (pilha j) /\ total (fila j) = MAX_FILA.

#[export] Instance jogo_ok_dec j : Decision (jogo_ok j).
Proof. unfold jogo_ok. apply _. Defined.

#[export] Instance jogo_wf_dec j : Decision (jogo_wf j).
Proof. unfold jogo_wf. apply _. Defined.

(** The queue front to back and the stack base to top. *)
Definition jogo_conteudo (j : Jogo) : list Peca * list Peca :=
  (conteudo (fila j), pilha_conteudo (pilha j)).

(** ** The choices on the abstract contents

    A state is the pair of the queue, front to back, and the stack, base to
    top.  The operations that take a piece return it with the state before
    the queue is refilled. *)

Module MenuSpec.
Definition jogar (c : list Peca * list Peca)
  : Falha + (Peca * (list Peca * list Peca)) :=
  match c.1 with
  | [] => inl QueueEmpty
  | x :: q => inr (x, (q, c.2))
  end.

Definition reservar (c : list Peca * list Peca)
  : Falha + (Peca * (list Peca * list Peca)) :=
  if bool_decide (length c.2 = Z.to_nat MAX_PILHA) then inl StackFull
  else match c.1 with
       | [] => inl QueueEmpty
       | x :: q => inr (x, (q, c.2 ++ [x]))
       end.

(** The message [case 2] prints for each failure. *)
Definition mensagem_reservar (e : Falha) : string :=
  match e with
  | StackFull => msg_reserva_cheia
  | _ => msg_enviar_vazia
  end.

Definition usar (c : list Peca * list Peca)
  : Falha + (Peca * (list Peca * list Peca)) :=
  match last c.2 with
  | None => inl StackEmpty
  | Some x => inr (x, (c.1, removelast c.2))
  end.
End MenuSpec.

Section menu_post.
Context `{R : Rand}.

(** [ps] are pieces [gerarPeca] returns from state [w] on. *)
Definition pecas_novas (w : Mundo) (ps : list Peca) : Prop :=
  id <$> ps = seqZ (proxId w) (Z.of_nat (length ps)) /\
  Forall (fun p => tipo p ∈ TIPOS) ps.

(** The outcome of a choice that printed [msg] and left the contents [c]
    without calling the generator. *)
Definition sem_repor (w : Mundo) (c : list Peca * list Peca) (msg : string)
    (j' : Jogo) (w' : Mundo) : Prop :=
  jogo_ok j' /\ jogo_conteudo j' = c /\
  proxId w' = proxId w /\ semente w' = semente w /\
  saida w' = (saida w ++ msg)%string.

(** The outcome of a choice that printed [msg], left the contents [c] and
    refilled the queue with the pieces [gerarPeca] returned after the
    message. *)
Definition repos (w : Mundo) (c : list Peca * list Peca) (msg : string)
    (j' : Jogo) (w' : Mundo) : Prop :=
  jogo_wf j' /\
  exists ps, jogo_conteudo j' = (c.1 ++ ps, c.2) /\ pecas_novas w ps /\
    proxId w' = proxId w + Z.of_nat (length ps) /\
    saida w' = (saida w ++ msg)%string /\
    gerarPecas (length ps) (set_saida (saida w ++ msg) w) = Ok (ps, w').
(** The outcome of a successful [case 2] on a full queue [x :: q] and a
    stack [s]: [x] went from the front of the queue to the top of the stack,
    one new piece [n] entered the queue, and [msg_enviou x] was printed. *)
Definition reservou (w : Mundo) (x : Peca) (q s : list Peca)
    (j' : Jogo) (w' : Mundo) : Prop :=
  jogo_wf j' /\
  exists n, jogo_conteudo j' = (q ++ [n], s ++ [x]) /\
    id n = proxId w /\ tipo n ∈ TIPOS /\
    proxId w' = proxId w + 1 /\ saida w' = (saida w ++ msg_enviou x)%string.

(** What every choice guarantees from a state [w]: the invariant, and at
    most one piece drawn. *)
Definition passo_ok (w : Mundo) (j' : Jogo) (w' : Mundo) : Prop :=
  jogo_wf j' /\ proxId w <= proxId w' <= proxId w + 1.

(** The choices that draw a piece when the queue is full: playing, and
    sending to a reserve that has room. *)
Definition sorteia (o : Z) (j : Jogo) : bool :=
  bool_decide (o = 1) || (bool_decide (o = 2) && negb (pilhaCheia (pilha j))).

(** The same guarantee with the exact number of pieces drawn. *)
Definition passo_exato (o : Z) (j : Jogo) (w : Mundo) (j' : Jogo) (w' : Mundo)
  : Prop :=
  jogo_wf j' /\ proxId w' = proxId w + (if sorteia o j then 1 else 0).

End menu_post.

(** ** Examples *)

Definition jogo_ex : Jogo :=
  {| fila := {| fila_itens := [Build_Peca "I" 4; Build_Peca "O" 5;
                               Build_Peca "T" 1; Build_Peca "S" 2;
                               Build_Peca "Z" 3];
                inicio := 2; fim := 2; total := 5 |};
     pilha := pilha_ex |}.

(** The state of the scenario of the specification: a full queue and an
    empty stack. *)
Definition jogo_cenario_ex : Jogo :=
  {| fila := {| fila_itens := [Build_Peca "I" 1; Build_Peca "O" 2;
                               Build_Peca "T" 3; Build_Peca "S" 4;
                               Build_Peca "Z" 5];
                inicio := 0; fim := 0; total := 5 |};
     pilha := inicializarPilha pilha_ex |}.

(** A full queue and a full reserve. *)
Definition jogo_cheio_ex : Jogo :=
  {| fila := fila jogo_cenario_ex; pilha := pilha_cheia_ex |}.

Definition mundo6_ex : Mundo (R := rand_lcg) :=
  @Build_Mundo rand_lcg 6 77 "".

(** ** Lemmas *)

Section menu_lemmas.
Context `{R : Rand}.
Implicit Types (w : Mundo) (j : Jogo) (f : Fila) (p : Pilha).

Lemma jogo_wf_ok j : jogo_wf j -> jogo_ok j.
Proof. by intros (? & ? & _). Qed.

Lemma jogo_eta j : {| fila := fila j; pilha := pilha j |} = j.
Proof. by destruct j. Qed.

(** Printing a message and refilling the queue. *)
Lemma wp_repor f p w msg :
  fila_wf f -> pilha_wf p ->
  1 <= proxId w -> proxId w + Z.of_nat (faltam f) <= INT_MAX ->
  wp (printf msg;; f' ← reabastecerFila f; mret {| fila := f'; pilha := p |}) w
    (repos w (conteudo f, pilha_conteudo p) msg).
Proof.
  intros Hf Hp Hlo Hhi. wp_step. apply wp_printf. wp_step.
  apply wp_reabastecerFila; [done..|].
  intros f' w' ps Hf' Htot Hq Hids Hts Hid Hout Hg. wp_step.
  assert (Hlen : length ps = faltam f).
  { apply (f_equal length) in Hids.
    rewrite length_fmap, length_seqZ in Hids. lia. }
  unfold repos, jogo_wf, jogo_conteudo, pecas_novas. simpl in *.
  split; [done|]. exists ps. rewrite Hlen, Hq. by split_and!.
Qed.

(** The rule of [iniciar]. *)
Lemma wp_iniciar f0 p0 w (Q : Jogo -> Mundo -> Prop) :
  length (fila_itens f0) = Z.to_nat MAX_FILA ->
  length (pilha_itens p0) = Z.to_nat MAX_PILHA ->
  1 <= proxId w -> proxId w + MAX_FILA <= INT_MAX ->
  (forall j w',
     jogo_wf j -> pilha_conteudo (pilha j) = [] ->
     length (conteudo (fila j)) = Z.to_nat MAX_FILA ->
     pecas_novas w (conteudo (fila j)) ->
     proxId w' = proxId w + MAX_FILA -> saida w' = saida w -> Q j w') ->
  wp (iniciar f0 p0) w Q.
Proof.
  intros Hlf Hlp Hlo Hhi HQ. unfold iniciar. wp_step.
  apply wp_reabastecerFila; [by apply inicializarFila_wf|done..|].
  intros f' w' ps Hf' Htot Hq Hids Hts Hid Hout _. wp_step.
  rewrite inicializarFila_conteudo in Hq. simpl in Hq. subst ps.
  pose proof (length_conteudo f' Hf') as Hlen. rewrite Htot in Hlen.
  apply HQ; simpl; try done. unfold pecas_novas. by rewrite Hlen.
Qed.

(** The initial fill: whatever the memory of the two structs holds, [main]
    reaches its loop with both structures well formed, the stack empty and
    the queue holding five new pieces, numbered from the counter on. *)
Theorem iniciar_spec f0 p0 w :
  length (fila_itens f0) = Z.to_nat MAX_FILA ->
  length (pilha_itens p0) = Z.to_nat MAX_PILHA ->
  1 <= proxId w -> proxId w + MAX_FILA <= INT_MAX ->
  wp (iniciar f0 p0) w (fun j w' =>
    jogo_wf j /\ pilha_conteudo (pilha j) = [] /\
    length (conteudo (fila j)) = Z.to_nat MAX_FILA /\
    pecas_novas w (conteudo (fila j)) /\
    proxId w' = proxId w + MAX_FILA /\ saida w' = saida w).
Proof. intros Hlf Hlp Hlo Hhi. by apply wp_iniciar. Qed.

(** The rule of [case 1]. *)
Lemma wp_caso_jogar j w (Q : Jogo -> Mundo -> Prop) :
  jogo_ok j -> 1 <= proxId w ->
  proxId w + Z.of_nat (faltam (fila j)) + 1 <= INT_MAX ->
  (forall j' w',
     match MenuSpec.jogar (jogo_conteudo j) with
     | inl _ => j' = j /\ sem_repor w (jogo_conteudo j) msg_jogar_vazia j' w'
     | inr (x, c) => repos w c (msg_jogou x) j' w'
     end -> Q j' w') ->
  wp (caso_jogar j) w Q.
Proof.
  intros [Hf Hp] Hlo Hhi HQ. eapply wp_mono; [|exact HQ].
  unfold MenuSpec.jogar, jogo_conteudo, caso_jogar.
  cbn [fst snd]. destruct (conteudo (fila j)) as [|x q] eqn:Hq.
  - wp_step. rewrite dequeue_nil by done. wp_step. cbn [fst snd negb res_wp].
    wp_step. apply wp_printf. wp_step. rewrite jogo_eta.
    unfold sem_repor, jogo_conteudo. by rewrite Hq.
  - destruct (dequeue_cons _ true x q Hf Hq) as (f1 & Hrun & Hf1 & Hq1 & Ht1).
    wp_step. rewrite Hrun. wp_step. cbn [fst snd negb res_wp]. wp_step.
    wp_step. cbn [ler_local res_wp]. rewrite <- Hq1. apply wp_repor; try done.
    unfold faltam in *. cbn [proxId]. lia.
Qed.

(** C29: [case 1] plays the front piece: it is printed, removed, and the queue
    is refilled at the back.  On an empty queue nothing changes but the
    message. *)
Theorem caso_jogar_spec j w :
  jogo_ok j -> 1 <= proxId w ->
  proxId w + Z.of_nat (faltam (fila j)) + 1 <= INT_MAX ->
  wp (caso_jogar j) w (fun j' w' =>
    match MenuSpec.jogar (jogo_conteudo j) with
    | inl _ => j' = j /\ sem_repor w (jogo_conteudo j) msg_jogar_vazia j' w'
    | inr (x, c) => repos w c (msg_jogou x) j' w'
    end).
Proof. intros Hok Hlo Hhi. by apply wp_caso_jogar. Qed.

(** The rule of [case 2]. *)
Lemma wp_caso_reservar j w (Q : Jogo -> Mundo -> Prop) :
  jogo_ok j -> 1 <= proxId w ->
  proxId w + Z.of_nat (faltam (fila j)) + 1 <= INT_MAX ->
  (forall j' w',
     match MenuSpec.reservar (jogo_conteudo j) with
     | inl e =>
         j' = j /\
         sem_repor w (jogo_conteudo j) (MenuSpec.mensagem_reservar e) j' w'
     | inr (x, c) => repos w c (msg_enviou x) j' w'
     end -> Q j' w') ->
  wp (caso_reservar j) w Q.
Proof.
  intros [Hf Hp] Hlo Hhi HQ. eapply wp_mono; [|exact HQ].
  unfold MenuSpec.reservar, jogo_conteudo, caso_reservar.
  cbn [fst snd]. fold (PilhaSpec.cheia (pilha_conteudo (pilha j))).
  rewrite <- pilhaCheia_spec by done. destruct (pilhaCheia (pilha j)) eqn:Hc.
  { wp_step. apply wp_printf. by wp_step. }
  apply bool_decide_eq_false in Hc.
  destruct (conteudo (fila j)) as [|x q] eqn:Hq.
  - wp_step. rewrite dequeue_nil by done. wp_step. cbn [fst snd negb res_wp].
    wp_step. apply wp_printf. wp_step. rewrite jogo_eta.
    unfold sem_repor, jogo_conteudo. by rewrite Hq.
  - destruct (dequeue_cons _ true x q Hf Hq) as (f1 & Hrun & Hf1 & Hq1 & Ht1).
    destruct (push_snoc (pilha j) x Hp) as (p1 & Hpush & Hp1 & Hs1).
    { destruct Hp. lia. }
    wp_step. rewrite Hrun. wp_step. cbn [fst snd negb res_wp]. wp_step.
    wp_step. cbn [ler_local res_wp]. wp_step. rewrite Hpush. wp_step.
    cbn [fst snd res_wp]. rewrite <- Hq1, <- Hs1. apply wp_repor; try done.
    unfold faltam in *. cbn [proxId]. lia.
Qed.

(** C10: [case 2] sends the front piece to the reserve.  A full reserve is
    tested first and leaves the queue untouched; otherwise the front piece
    goes on top of the stack and the queue is refilled. *)
Theorem caso_reservar_spec j w :
  jogo_ok j -> 1 <= proxId w ->
  proxId w + Z.of_nat (faltam (fila j)) + 1 <= INT_MAX ->
  wp (caso_reservar j) w (fun j' w' =>
    match MenuSpec.reservar (jogo_conteudo j) with
    | inl e =>
        j' = j /\
        sem_repor w (jogo_conteudo j) (MenuSpec.mensagem_reservar e) j' w'
    | inr (x, c) => repos w c (msg_enviou x) j' w'
    end).
Proof. intros Hok Hlo Hhi. by apply wp_caso_reservar. Qed.

(** The rule of [case 3]. *)
Lemma wp_caso_usar j w (Q : Jogo -> Mundo -> Prop) :
  jogo_ok j ->
  (forall j' w',
     match MenuSpec.usar (jogo_conteudo j) with
     | inl _ => j' = j /\ sem_repor w (jogo_conteudo j) msg_reserva_vazia j' w'
     | inr (x, c) => fila j' = fila j /\ sem_repor w c (msg_usou x) j' w'
     end -> Q j' w') ->
  wp (caso_usar j) w Q.
Proof.
  intros [Hf Hp] HQ. eapply wp_mono; [|exact HQ].
  unfold MenuSpec.usar, jogo_conteudo, caso_usar, sem_repor, jogo_ok.
  cbn [fst snd].
  destruct (pilha_conteudo (pilha j)) as [|x s _] eqn:Hs using rev_ind.
  - wp_step. rewrite pop_nil by done. wp_step. cbn [fst snd negb res_wp].
    wp_step. apply wp_printf. wp_step. rewrite jogo_eta.
    unfold jogo_conteudo. by rewrite Hs.
  - destruct (pop_snoc _ true s x Hp Hs) as (p1 & Hrun & Hp1 & Hs1).
    rewrite last_snoc, removelast_last.
    wp_step. rewrite Hrun. wp_step. cbn [fst snd negb res_wp]. wp_step.
    wp_step. cbn [ler_local res_wp]. wp_step. apply wp_printf. wp_step.
    unfold jogo_conteudo. simpl. by rewrite Hs1.
Qed.

(** C30: [case 3] uses the piece on top of the reserve: it is printed and
    removed; the queue is not touched and no piece is generated.  On an
    empty reserve nothing changes but the message. *)
Theorem caso_usar_spec j w :
  jogo_ok j ->
  wp (caso_usar j) w (fun j' w' =>
    match MenuSpec.usar (jogo_conteudo j) with
    | inl _ => j' = j /\ sem_repor w (jogo_conteudo j) msg_reserva_vazia j' w'
    | inr (x, c) => fila j' = fila j /\ sem_repor w c (msg_usou x) j' w'
    end).
Proof. intros Hok. by apply wp_caso_usar. Qed.

(** What [case 4] and [case 5] add to a swap: the message of success. *)
Lemma wp_caso_troca (m : Prog Mundo (bool * Fila * Pilha)) j w msg spec :
  wp m w (troca_post (fila j) (pilha j) w spec) ->
  wp ('(ok, f, p) ← m;
      (if ok : bool then printf msg else mret tt);;
      mret {| fila := f; pilha := p |}) w
    (fun j' w' =>
       indices (fila j') (pilha j') = indices (fila j) (pilha j) /\
       match spec with
       | inl e =>
           j' = j /\
           sem_repor w (jogo_conteudo j) (TrocaSpec.mensagem_troca e) j' w'
       | inr c => sem_repor w c msg j' w'
       end).
Proof.
  intros H. wp_step. eapply wp_mono; [exact H|].
  intros [[ok f'] p'] w' (Hf' & Hp' & Hidx & Hid & Hsem & Hspec).
  cbn [fst snd] in *. unfold sem_repor, jogo_ok, jogo_conteudo.
  destruct spec as [e|[q s]].
  - destruct Hspec as ([= -> -> ->] & Hout). wp_step. wp_step. wp_step.
    rewrite jogo_eta. by split_and!.
  - destruct Hspec as (-> & Hq & Hs & Hout). wp_step. apply wp_printf.
    wp_step. simpl. rewrite Hq, Hs, Hout. by split_and!.
Qed.

(** [case 4]: on success the front of the queue and the top of the stack
    trade places and the success is announced; on failure only the message
    of [trocarFrenteComTopo] is printed. *)
Theorem caso_trocar_spec j w :
  jogo_ok j ->
  wp (caso_trocar j) w (fun j' w' =>
    indices (fila j') (pilha j') = indices (fila j) (pilha j) /\
    match TrocaSpec.frente_topo (conteudo (fila j)) (pilha_conteudo (pilha j)) with
    | inl e =>
        j' = j /\
        sem_repor w (jogo_conteudo j) (TrocaSpec.mensagem_troca e) j' w'
    | inr c => sem_repor w c msg_troca j' w'
    end).
Proof. intros [Hf Hp]. by apply wp_caso_troca, wp_trocarFrenteComTopo. Qed.

(** [case 5]: on success the first three pieces of the queue and the three
    pieces of the stack trade places and the success is announced; on
    failure only the message of [trocarTres] is printed. *)
Theorem caso_trocar_tres_spec j w :
  jogo_ok j ->
  wp (caso_trocar_tres j) w (fun j' w' =>
    indices (fila j') (pilha j') = indices (fila j) (pilha j) /\
    match TrocaSpec.tres (conteudo (fila j)) (pilha_conteudo (pilha j)) with
    | inl e =>
        j' = j /\
        sem_repor w (jogo_conteudo j) (TrocaSpec.mensagem_troca e) j' w'
    | inr c => sem_repor w c msg_troca_tres j' w'
    end).
Proof. intros [Hf Hp]. by apply wp_caso_troca, wp_trocarTres. Qed.

Lemma jogo_wf_total j :
  jogo_ok j -> total (fila j) = MAX_FILA -> jogo_wf j.
Proof. by intros [? ?] ?. Qed.

Lemma jogo_wf_length j :
  jogo_wf j -> length (conteudo (fila j)) = Z.to_nat MAX_FILA.
Proof. intros (Hf & _ & Ht). by rewrite length_conteudo, Ht. Qed.

Lemma jogo_wf_faltam j : jogo_wf j -> faltam (fila j) = 0%nat.
Proof. intros (_ & _ & Ht). unfold faltam. rewrite Ht. done. Qed.

(** A choice that leaves the queue as long as it was keeps [jogo_wf]. *)
Lemma sem_repor_wf j w c msg j' w' :
  jogo_wf j -> length c.1 = length (conteudo (fila j)) ->
  sem_repor w c msg j' w' -> jogo_wf j' /\ proxId w' = proxId w.
Proof.
  intros Hwf Hlen ([Hf' Hp'] & Hc & Hid & _). split; [|done].
  apply jogo_wf_total; [done|]. rewrite (total_conteudo _ Hf').
  unfold jogo_conteudo in Hc. subst c. simpl in Hlen.
  rewrite Hlen, jogo_wf_length by done. done.
Qed.

(** A choice that took one piece of a full queue and refilled it drew
    exactly one new piece. *)
Lemma repos_wf j w c msg j' w' :
  jogo_wf j -> S (length c.1) = length (conteudo (fila j)) ->
  repos w c msg j' w' -> jogo_wf j' /\ proxId w' = proxId w + 1.
Proof.
  intros Hwf Hlen (Hwf' & ps & Hc & _ & Hid & _). split; [done|].
  pose proof (jogo_wf_length j Hwf) as Hl. pose proof (jogo_wf_length j' Hwf') as Hl'.
  unfold jogo_conteudo in Hc. injection Hc as Hq _.
  rewrite Hq, length_app in Hl'. lia.
Qed.

(** The piece that refill draws: its number is the counter's. *)
Lemma repos_um j w c msg j' w' :
  jogo_wf j -> S (length c.1) = length (conteudo (fila j)) ->
  repos w c msg j' w' ->
  exists n, jogo_conteudo j' = (c.1 ++ [n], c.2) /\
    id n = proxId w /\ tipo n ∈ TIPOS /\ proxId w' = proxId w + 1.
Proof.
  intros Hwf Hlen (Hwf' & ps & Hc & (Hids & Hts) & Hid & _).
  pose proof (jogo_wf_length j Hwf) as Hl.
  pose proof (jogo_wf_length j' Hwf') as Hl'.
  pose proof Hc as Hc'. unfold jogo_conteudo in Hc'. injection Hc' as Hq _.
  rewrite Hq, length_app in Hl'.
  destruct ps as [|n [|? ?]]; simpl in *; try lia.
  injection Hids as Hn. apply Forall_cons_1 in Hts as [Ht _].
  exists n. by rewrite Hc.
Qed.

(** The piece that refill draws, exactly: the type the generator gives in
    [w], which advances by one draw. *)
Lemma repos_sorteio j w c msg j' w' :
  jogo_wf j -> S (length c.1) = length (conteudo (fila j)) ->
  repos w c msg j' w' ->
  exists t, tipo_sorteado w = Some t /\
    jogo_conteudo j' = (c.1 ++ [{| tipo := t; id := proxId w |}], c.2) /\
    semente w' = (rand_step (semente w)).2.
Proof.
  intros Hwf Hlen (Hwf' & ps & Hc & _ & _ & _ & Hg).
  pose proof (jogo_wf_length j Hwf) as Hl.
  pose proof (jogo_wf_length j' Hwf') as Hl'.
  pose proof Hc as Hc'. unfold jogo_conteudo in Hc'. injection Hc' as Hq _.
  rewrite Hq, length_app in Hl'.
  destruct ps as [|n [|? ?]]; simpl length in *; try lia.
  apply gerarPecas_um in Hg as (t & Ht & [= ->] & ->). by exists t.
Qed.

Lemma sem_repor_indices_wf j w c msg j' w' :
  jogo_wf j -> indices (fila j') (pilha j') = indices (fila j) (pilha j) ->
  sem_repor w c msg j' w' -> jogo_wf j' /\ proxId w' = proxId w.
Proof.
  intros (_ & _ & Ht) [= _ _ Ht' _] (Hok & _ & Hid & _). split; [|done].
  apply jogo_wf_total; [done|congruence].
Qed.

Lemma caso_jogar_wf j w :
  jogo_wf j -> 1 <= proxId w -> proxId w + 1 <= INT_MAX ->
  wp (caso_jogar j) w (fun j' w' => jogo_wf j' /\ proxId w' = proxId w + 1).
Proof.
  intros Hwf Hlo Hhi. pose proof (jogo_wf_length j Hwf) as Hlen.
  apply wp_caso_jogar;
    [by apply jogo_wf_ok|done|rewrite jogo_wf_faltam by done; lia|].
  intros j' w'. unfold MenuSpec.jogar, jogo_conteudo. cbn [fst snd].
  destruct (conteudo (fila j)) as [|x q] eqn:Hq; [done|].
  apply (repos_wf j); [done|by rewrite Hq].
Qed.

Lemma caso_reservar_cheia j w :
  pilhaCheia (pilha j) = true ->
  caso_reservar j w = Ok (j, set_saida (saida w ++ msg_reserva_cheia)%string w).
Proof. intros H. unfold caso_reservar. by rewrite H. Qed.

Lemma caso_reservar_wf j w :
  jogo_wf j -> 1 <= proxId w -> pilhaCheia (pilha j) = false ->
  proxId w + 1 <= INT_MAX ->
  wp (caso_reservar j) w (fun j' w' => jogo_wf j' /\ proxId w' = proxId w + 1).
Proof.
  intros Hwf Hlo Hc Hhi. pose proof (jogo_wf_length j Hwf) as Hlen.
  pose proof Hwf as (_ & Hp & _).
  apply wp_caso_reservar;
    [by apply jogo_wf_ok|done|rewrite jogo_wf_faltam by done; lia|].
  intros j' w'. unfold MenuSpec.reservar, jogo_conteudo. cbn [fst snd].
  fold (PilhaSpec.cheia (pilha_conteudo (pilha j))).
  rewrite <- pilhaCheia_spec, Hc by done.
  destruct (conteudo (fila j)) as [|x q] eqn:Hq; [done|].
  apply (repos_wf j); [done|by rewrite Hq].
Qed.

Lemma caso_usar_wf j w :
  jogo_wf j ->
  wp (caso_usar j) w (fun j' w' => jogo_wf j' /\ proxId w' = proxId w).
Proof.
  intros Hwf. apply wp_caso_usar; [by apply jogo_wf_ok|].
  intros j' w'. unfold MenuSpec.usar, jogo_conteudo. cbn [fst snd].
  destruct (last _).
  - intros (_ & Hs). by eapply (sem_repor_wf j); [| |exact Hs].
  - by intros (-> & _ & _ & Hid & _).
Qed.

Lemma wp_troca_wf (m : Prog Mundo Jogo) j w spec msg :
  jogo_wf j ->
  wp m w (fun j' w' =>
    indices (fila j') (pilha j') = indices (fila j) (pilha j) /\
    match spec with
    | inl e =>
        j' = j /\
        sem_repor w (jogo_conteudo j) (TrocaSpec.mensagem_troca e) j' w'
    | inr c => sem_repor w c msg j' w'
    end) ->
  wp m w (fun j' w' => jogo_wf j' /\ proxId w' = proxId w).
Proof.
  intros Hwf H. eapply wp_mono; [exact H|]. intros j' w' (Hidx & Hs).
  destruct spec; [destruct Hs as [_ Hs]|]; by eapply (sem_repor_indices_wf j).
Qed.

Lemma sorteia_true o j :
  sorteia o j = true <-> o = 1 \/ (o = 2 /\ pilhaCheia (pilha j) = false).
Proof.
  unfold sorteia.
  by rewrite orb_true_iff, andb_true_iff, negb_true_iff, !bool_decide_eq_true.
Qed.

Lemma sorteia_false o j :
  sorteia o j = false <-> o <> 1 /\ (o = 2 -> pilhaCheia (pilha j) = true).
Proof.
  unfold sorteia.
  rewrite orb_false_iff, andb_false_iff, negb_false_iff, !bool_decide_eq_false.
  destruct (decide (o = 2)); tauto.
Qed.

(** The choices that draw nothing need no room in the counter. *)
Lemma wp_menu_switch_fixo opcao j w (Q : Jogo -> Mundo -> Prop) :
  jogo_wf j -> sorteia opcao j = false ->
  (forall j' w', jogo_wf j' -> proxId w' = proxId w -> Q j' w') ->
  wp (menu_switch opcao j) w Q.
Proof.
  intros Hwf Hs HQ. pose proof (jogo_wf_ok j Hwf) as [Hf Hp].
  apply (wp_mono _ _ (fun j' w' => jogo_wf j' /\ proxId w' = proxId w));
    [|intros j' w' [? ?]; by apply HQ].
  apply sorteia_false in Hs as [H1 H2].
  unfold menu_switch. repeat case_decide; subst.
  - done.
  - unfold wp. by rewrite caso_reservar_cheia by auto.
  - by apply caso_usar_wf.
  - eapply wp_troca_wf; [done|]. by apply wp_caso_troca, wp_trocarFrenteComTopo.
  - eapply wp_troca_wf; [done|]. by apply wp_caso_troca, wp_trocarTres.
  - wp_step. by apply wp_printf.
  - wp_step. by apply wp_printf.
Qed.

(** The choices that draw a piece draw exactly one. *)
Lemma wp_menu_switch_sorteia opcao j w (Q : Jogo -> Mundo -> Prop) :
  jogo_wf j -> sorteia opcao j = true ->
  1 <= proxId w -> proxId w + 1 <= INT_MAX ->
  (forall j' w', jogo_wf j' -> proxId w' = proxId w + 1 -> Q j' w') ->
  wp (menu_switch opcao j) w Q.
Proof.
  intros Hwf Hs Hlo Hhi HQ.
  apply (wp_mono _ _ (fun j' w' => jogo_wf j' /\ proxId w' = proxId w + 1));
    [|intros j' w' [? ?]; by apply HQ].
  apply sorteia_true in Hs as [->|[-> Hc]]; unfold menu_switch; simpl.
  - by apply caso_jogar_wf.
  - by apply caso_reservar_wf.
Qed.

(** The rule of [menu_switch] with the exact number of pieces drawn. *)
Lemma wp_menu_switch_exato opcao j w (Q : Jogo -> Mundo -> Prop) :
  jogo_wf j -> 1 <= proxId w ->
  (sorteia opcao j = true -> proxId w + 1 <= INT_MAX) ->
  (forall j' w', passo_exato opcao j w j' w' -> Q j' w') ->
  wp (menu_switch opcao j) w Q.
Proof.
  intros Hwf Hlo Hhi HQ. unfold passo_exato in HQ.
  destruct (sorteia opcao j) eqn:Hs.
  - apply wp_menu_switch_sorteia; auto.
  - apply wp_menu_switch_fixo; [done..|]. intros j' w' ? Hid. apply HQ.
    by rewrite Hid, Z.add_0_r.
Qed.

(** The rule of [menu_switch] on the states [main] shows the menu in. *)
Lemma wp_menu_switch opcao j w (Q : Jogo -> Mundo -> Prop) :
  jogo_wf j -> 1 <= proxId w -> proxId w + 1 <= INT_MAX ->
  (forall j' w', passo_ok w j' w' -> Q j' w') ->
  wp (menu_switch opcao j) w Q.
Proof.
  intros Hwf Hlo Hhi HQ. apply wp_menu_switch_exato; [done..|].
  intros j' w' [Hwf' Hid]. apply HQ. split; [done|].
  destruct (sorteia opcao j); lia.
Qed.

(** A choice that draws a piece when the counter has no room for the
    increment is undefined. *)
Lemma menu_switch_err opcao j w :
  jogo_wf j -> sorteia opcao j = true -> ~ in_int (proxId w + 1) ->
  menu_switch opcao j w = Err IntOverflow.
Proof.
  intros Hwf Hs Hid. pose proof Hwf as (Hf & Hp & Ht).
  pose proof (jogo_wf_length j Hwf) as Hlen.
  destruct (conteudo (fila j)) as [|x q] eqn:Hq; [done|].
  destruct (dequeue_cons _ true x q Hf Hq) as (f1 & Hrun & Hf1 & Hq1 & Ht1).
  assert (Hre : forall w1 p, proxId w1 = proxId w ->
    (f' ← reabastecerFila f1; mret {| fila := f'; pilha := p |}) w1
      = Err IntOverflow).
  { intros w1 p Hw1. apply prog_bind_err, reabastecerFila_err; [lia|].
    by rewrite Hw1. }
  apply sorteia_true in Hs as [->|[-> Hs]]; unfold menu_switch; simpl.
  - unfold caso_jogar. erewrite prog_bind_run by (by rewrite Hrun).
    cbn [fst snd negb]. erewrite prog_bind_run by done.
    erewrite prog_bind_run by done. by apply Hre.
  - unfold caso_reservar. rewrite Hs.
    destruct (push_snoc (pilha j) x Hp) as (p1 & Hpush & _).
    { apply bool_decide_eq_false in Hs. destruct Hp. lia. }
    erewrite prog_bind_run by (by rewrite Hrun).
    cbn [fst snd negb]. erewrite prog_bind_run by done.
    erewrite prog_bind_run by (by rewrite Hpush).
    erewrite prog_bind_run by done. by apply Hre.
Qed.

(** The rule of a run of choices. *)
Lemma wp_menu_lista ops j w (Q : Jogo -> Mundo -> Prop) :
  jogo_wf j -> 1 <= proxId w -> proxId w + Z.of_nat (length ops) <= INT_MAX ->
  (forall j' w',
     jogo_wf j' -> proxId w <= proxId w' <= proxId w + Z.of_nat (length ops) ->
     Q j' w') ->
  wp (menu_lista ops j) w Q.
Proof.
  revert j w Q. induction ops as [|o ops IH]; intros j w Q Hwf Hlo Hhi HQ.
  - apply wp_ret, HQ; [done|simpl; lia].
  - simpl menu_lista. simpl length in *. wp_step.
    apply wp_menu_switch; [done|lia..|]. intros j1 w1 (Hwf1 & Hid1).
    apply IH; [done|lia..|]. intros j' w' Hwf' Hid'. apply HQ; [done|lia].
Qed.

(** C7: Every choice, valid or not, is defined from a state of [jogo_wf] while
    the counter is below [INT_MAX], keeps [jogo_wf] (both invariants and a
    full queue), and draws at most one piece. *)
Theorem menu_switch_wf opcao j w :
  jogo_wf j -> 1 <= proxId w -> proxId w + 1 <= INT_MAX ->
  wp (menu_switch opcao j) w (passo_ok w).
Proof. intros Hwf Hlo Hhi. by apply wp_menu_switch. Qed.

(** No undefined behaviour in a run: any list of choices, from a state of
    [jogo_wf], is defined and ends in a state of [jogo_wf], as long as the
    counter has room for one piece per choice. *)
Theorem menu_lista_safe ops j w :
  jogo_wf j -> 1 <= proxId w -> proxId w + Z.of_nat (length ops) <= INT_MAX ->
  wp (menu_lista ops j) w (fun j' w' =>
    jogo_wf j' /\ proxId w <= proxId w' <= proxId w + Z.of_nat (length ops)).
Proof. intros Hwf Hlo Hhi. by apply wp_menu_lista. Qed.

(** C8: The whole of [main]'s work: after the initial fill, every sequence of
    at most [INT_MAX - 6] choices is defined and keeps [jogo_wf]. *)
Theorem main_safe f0 p0 s ops :
  length (fila_itens f0) = Z.to_nat MAX_FILA ->
  length (pilha_itens p0) = Z.to_nat MAX_PILHA ->
  Z.of_nat (length ops) <= INT_MAX - 6 ->
  wp (j ← iniciar f0 p0; menu_lista ops j) (mundo_inicial s) (fun j' w' =>
    jogo_wf j' /\ 6 <= proxId w' <= 6 + Z.of_nat (length ops)).
Proof.
  intros Hlf Hlp Hops. wp_step.
  apply wp_iniciar; [done || (simpl; int_lia)..|].
  intros j w Hwf _ _ _ Hid _. simpl in Hid. unfold MAX_FILA in Hid.
  apply wp_menu_lista; [done|int_lia..|].
  intros j' w' Hwf' Hid'. split; [done|lia].
Qed.

Lemma caso_reservar_ok j w x q s :
  jogo_wf j -> jogo_conteudo j = (x :: q, s) -> (length s < 3)%nat ->
  1 <= proxId w -> proxId w + 1 <= INT_MAX ->
  wp (caso_reservar j) w (reservou w x q s).
Proof.
  intros Hwf Hc Hs Hlo Hhi. pose proof (jogo_wf_length j Hwf) as Hlen.
  apply wp_caso_reservar;
    [by apply jogo_wf_ok|done|rewrite jogo_wf_faltam by done; lia|].
  intros j' w'. unfold MenuSpec.reservar. rewrite Hc. cbn [fst snd].
  rewrite bool_decide_eq_false_2 by (unfold MAX_PILHA; lia).
  intros Hr. pose proof Hr as (Hwf' & _ & _ & _ & _ & Hout & _).
  injection Hc as Hq _.
  destruct (repos_um j w (q, s ++ [x]) (msg_enviou x) j' w' Hwf)
    as (n & Hc' & Hn & Ht & Hid);
    [by rewrite Hq|done|].
  split; [done|]. by exists n.
Qed.

Lemma menu_switch_2 j : menu_switch 2 j = caso_reservar j.
Proof. done. Qed.

Lemma menu_switch_5 j : menu_switch 5 j = caso_trocar_tres j.
Proof. done. Qed.

(** Three reservations in a row from a full queue and an empty stack. *)
Lemma tres_reservas j w a b c d e :
  jogo_wf j -> jogo_conteudo j = ([a; b; c; d; e], []) ->
  1 <= proxId w -> proxId w + 3 <= INT_MAX ->
  wp (menu_lista [2; 2; 2] j) w (fun j' w' =>
    jogo_wf j' /\
    exists n1 n2 n3,
      jogo_conteudo j' = ([d; e; n1; n2; n3], [a; b; c]) /\
      id <$> [n1; n2; n3] = seqZ (proxId w) 3 /\
      Forall (fun x => tipo x ∈ TIPOS) [n1; n2; n3] /\
      proxId w' = proxId w + 3 /\
      saida w' =
        (saida w ++ msg_enviou a ++ msg_enviou b ++ msg_enviou c)%string).
Proof.
  intros Hwf Hc Hlo Hhi. cbn [menu_lista]. rewrite !menu_switch_2.
  wp_step. eapply wp_mono; [apply (caso_reservar_ok j w a [b; c; d; e] []); done || simpl; lia|].
  intros j1 w1 (Hwf1 & n1 & Hc1 & Hn1 & Ht1 & Hid1 & Ho1).
  wp_step. eapply wp_mono; [apply (caso_reservar_ok j1 w1 b [c; d; e; n1] [a]); done || simpl; lia|].
  intros j2 w2 (Hwf2 & n2 & Hc2 & Hn2 & Ht2 & Hid2 & Ho2).
  wp_step. eapply wp_mono; [apply (caso_reservar_ok j2 w2 c [d; e; n1; n2] [a; b]); done || simpl; lia|].
  intros j3 w3 (Hwf3 & n3 & Hc3 & Hn3 & Ht3 & Hid3 & Ho3).
  wp_step. split; [done|]. exists n1, n2, n3.
  rewrite Hc3, Ho3, Ho2, Ho1, Hid3, Hid2, Hid1, !string_app_assoc.
  split_and!; [done| |by rewrite !Forall_cons, Forall_nil|lia|done].
  cbn. rewrite Hn1, Hn2, Hn3, Hid2, Hid1, seqZ_3. repeat (f_equal; try lia).
Qed.

Lemma menu_lista_app ops1 ops2 j w :
  menu_lista (ops1 ++ ops2) j w =
  (j' ← menu_lista ops1 j; menu_lista ops2 j') w.
Proof.
  revert j w. induction ops1 as [|o ops1 IH]; intros j w; [done|].
  simpl. unfold mbind, prog_bind in *.
  destruct (menu_switch o j w) as [[j1 w1]|]; [apply IH|done].
Qed.

Lemma wp_menu_lista_app ops1 ops2 j w (Q : Jogo -> Mundo -> Prop) :
  wp (j' ← menu_lista ops1 j; menu_lista ops2 j') w Q ->
  wp (menu_lista (ops1 ++ ops2) j) w Q.
Proof. unfold wp. by rewrite menu_lista_app. Qed.

(** C36: The scenario of the specification: three pieces are sent to the
    reserve, a fourth attempt is refused because the reserve is full and
    changes nothing, and the swap of three puts the reserved pieces back at
    the front of the queue in their original order. *)
Theorem cenario_reserva j w a b c d e :
  jogo_wf j -> jogo_conteudo j = ([a; b; c; d; e], []) ->
  1 <= proxId w -> proxId w + 3 <= INT_MAX ->
  wp (menu_lista [2; 2; 2; 2; 5] j) w (fun j' w' =>
    jogo_wf j' /\
    exists n1 n2 n3,
      jogo_conteudo j' = ([a; b; c; n2; n3], [d; e; n1]) /\
      id <$> [n1; n2; n3] = seqZ (proxId w) 3 /\
      proxId w' = proxId w + 3 /\
      saida w' =
        (saida w ++ msg_enviou a ++ msg_enviou b ++ msg_enviou c ++
         msg_reserva_cheia ++ msg_troca_tres)%string).
Proof.
  intros Hwf Hc Hlo Hhi. apply (wp_menu_lista_app [2; 2; 2] [2; 5]). wp_step.
  eapply wp_mono; [by apply (tres_reservas j w a b c d e)|].
  intros j3 w3 (Hwf3 & n1 & n2 & n3 & Hc3 & Hids & _ & Hid3 & Ho3).
  injection Hc3 as Hq3 Hs3. pose proof Hwf3 as (Hf3 & Hp3 & _).
  cbn [menu_lista]. rewrite menu_switch_2. wp_step.
  unfold wp at 1. rewrite caso_reservar_cheia
    by (by rewrite pilhaCheia_spec, Hs3 by done).
  rewrite menu_switch_5.
  wp_step. eapply wp_mono; [by apply wp_caso_troca, wp_trocarTres|].
  intros j' w' (Hidx & H). rewrite Hq3, Hs3 in H. cbn in H.
  destruct H as (Hok' & Hc' & Hid' & _ & Ho'). wp_step.
  split.
  { apply jogo_wf_total; [done|]. injection Hidx as _ _ -> _.
    by destruct Hwf3 as (_ & _ & ?). }
  exists n1, n2, n3. cbn in Hc', Hid', Ho'.
  rewrite Hc', Hid', Hid3, Ho', Ho3, !string_app_assoc. by split_and!.
Qed.
End menu_lemmas.

(** ** Witnesses *)

Lemma iniciar_spec_witness :
  length (fila_itens fila_lixo_ex) = Z.to_nat MAX_FILA /\
  length (pilha_itens pilha_ex) = Z.to_nat MAX_PILHA /\
  1 <= proxId mundo_ex /\ proxId mundo_ex + MAX_FILA <= INT_MAX /\
  wp (iniciar fila_lixo_ex pilha_ex) mundo_ex (fun j w' =>
    jogo_wf j /\ pilha_conteudo (pilha j) = [] /\
    length (conteudo (fila j)) = Z.to_nat MAX_FILA /\
    pecas_novas mundo_ex (conteudo (fila j)) /\
    proxId w' = proxId mundo_ex + MAX_FILA /\ saida w' = saida mundo_ex).
Proof.
  split; [|split; [|split; [|split; [|apply iniciar_spec]]]]; by_compute.
Defined.

Lemma caso_jogar_spec_witness :
  jogo_ok jogo_ex /\ 1 <= proxId mundo6_ex /\
  proxId mundo6_ex + Z.of_nat (faltam (fila jogo_ex)) + 1 <= INT_MAX /\
  wp (caso_jogar jogo_ex) mundo6_ex (fun j' w' =>
    match MenuSpec.jogar (jogo_conteudo jogo_ex) with
    | inl _ =>
        j' = jogo_ex /\
        sem_repor mundo6_ex (jogo_conteudo jogo_ex) msg_jogar_vazia j' w'
    | inr (x, c) => repos mundo6_ex c (msg_jogou x) j' w'
    end).
Proof. split; [|split; [|split; [|apply caso_jogar_spec]]]; by_compute. Defined.

Lemma caso_reservar_spec_witness :
  jogo_ok jogo_cheio_ex /\ 1 <= proxId mundo6_ex /\
  proxId mundo6_ex + Z.of_nat (faltam (fila jogo_cheio_ex)) + 1 <= INT_MAX /\
  wp (caso_reservar jogo_cheio_ex) mundo6_ex (fun j' w' =>
    match MenuSpec.reservar (jogo_conteudo jogo_cheio_ex) with
    | inl e =>
        j' = jogo_cheio_ex /\
        sem_repor mundo6_ex (jogo_conteudo jogo_cheio_ex)
          (MenuSpec.mensagem_reservar e) j' w'
    | inr (x, c) => repos mundo6_ex c (msg_enviou x) j' w'
    end).
Proof.
  split; [|split; [|split; [|apply caso_reservar_spec]]]; by_compute.
Defined.

Lemma caso_usar_spec_witness :
  jogo_ok jogo_ex /\
  wp (caso_usar jogo_ex) mundo6_ex (fun j' w' =>
    match MenuSpec.usar (jogo_conteudo jogo_ex) with
    | inl _ =>
        j' = jogo_ex /\
        sem_repor mundo6_ex (jogo_conteudo jogo_ex) msg_reserva_vazia j' w'
    | inr (x, c) =>
        fila j' = fila jogo_ex /\ sem_repor mundo6_ex c (msg_usou x) j' w'
    end).
Proof. split; [|apply caso_usar_spec]; by_compute. Defined.

Lemma caso_trocar_spec_witness :
  jogo_ok jogo_ex /\
  wp (caso_trocar jogo_ex) mundo6_ex (fun j' w' =>
    indices (fila j') (pilha j') = indices (fila jogo_ex) (pilha jogo_ex) /\
    match TrocaSpec.frente_topo (conteudo (fila jogo_ex))
            (pilha_conteudo (pilha jogo_ex)) with
    | inl e =>
        j' = jogo_ex /\
        sem_repor mundo6_ex (jogo_conteudo jogo_ex)
          (TrocaSpec.mensagem_troca e) j' w'
    | inr c => sem_repor mundo6_ex c msg_troca j' w'
    end).
Proof. split; [|apply caso_trocar_spec]; by_compute. Defined.

Lemma caso_trocar_tres_spec_witness :
  jogo_ok jogo_ex /\
  wp (caso_trocar_tres jogo_ex) mundo6_ex (fun j' w' =>
    indices (fila j') (pilha j') = indices (fila jogo_ex) (pilha jogo_ex) /\
    match TrocaSpec.tres (conteudo (fila jogo_ex))
            (pilha_conteudo (pilha jogo_ex)) with
    | inl e =>
        j' = jogo_ex /\
        sem_repor mundo6_ex (jogo_conteudo jogo_ex)
          (TrocaSpec.mensagem_troca e) j' w'
    | inr c => sem_repor mundo6_ex c msg_troca_tres j' w'
    end).
Proof. split; [|apply caso_trocar_tres_spec]; by_compute. Defined.

Lemma menu_switch_wf_witness :
  jogo_wf jogo_ex /\ 1 <= proxId mundo6_ex /\ proxId mundo6_ex + 1 <= INT_MAX /\
  wp (menu_switch 2 jogo_ex) mundo6_ex (passo_ok mundo6_ex).
Proof. split; [|split; [|split; [|apply menu_switch_wf]]]; by_compute. Defined.

Lemma menu_lista_safe_witness :
  jogo_wf jogo_ex /\ 1 <= proxId mundo6_ex /\
  proxId mundo6_ex + Z.of_nat (length [1; 2; 2; 3; 4; 5; 9; 0]) <= INT_MAX /\
  wp (menu_lista [1; 2; 2; 3; 4; 5; 9; 0] jogo_ex) mundo6_ex (fun j' w' =>
    jogo_wf j' /\
    proxId mundo6_ex <= proxId w' <=
      proxId mundo6_ex + Z.of_nat (length [1; 2; 2; 3; 4; 5; 9; 0])).
Proof. split; [|split; [|split; [|apply menu_lista_safe]]]; by_compute. Defined.

Lemma main_safe_witness :
  length (fila_itens fila_lixo_ex) = Z.to_nat MAX_FILA /\
  length (pilha_itens pilha_ex) = Z.to_nat MAX_PILHA /\
  Z.of_nat (length [2; 2; 2; 2; 5; 1; 3]) <= INT_MAX - 6 /\
  wp (j ← iniciar fila_lixo_ex pilha_ex; menu_lista [2; 2; 2; 2; 5; 1; 3] j)
    (mundo_inicial (R := rand_lcg) 2024) (fun j' w' =>
    jogo_wf j' /\
    6 <= proxId w' <= 6 + Z.of_nat (length [2; 2; 2; 2; 5; 1; 3])).
Proof. split; [|split; [|split; [|apply main_safe]]]; by_compute. Defined.

Lemma cenario_reserva_witness :
  jogo_wf jogo_cenario_ex /\
  jogo_conteudo jogo_cenario_ex =
    ([Build_Peca "I" 1; Build_Peca "O" 2; Build_Peca "T" 3;
      Build_Peca "S" 4; Build_Peca "Z" 5], []) /\
  1 <= proxId mundo6_ex /\ proxId mundo6_ex + 3 <= INT_MAX /\
  wp (menu_lista [2; 2; 2; 2; 5] jogo_cenario_ex) mundo6_ex (fun j' w' =>
    jogo_wf j' /\
    exists n1 n2 n3,
      jogo_conteudo j' =
        ([Build_Peca "I" 1; Build_Peca "O" 2; Build_Peca "T" 3; n2; n3],
         [Build_Peca "S" 4; Build_Peca "Z" 5; n1]) /\
      id <$> [n1; n2; n3] = seqZ (proxId mundo6_ex) 3 /\
      proxId w' = proxId mundo6_ex + 3 /\
      saida w' =
        (saida mundo6_ex ++ msg_enviou (Build_Peca "I" 1) ++
         msg_enviou (Build_Peca "O" 2) ++ msg_enviou (Build_Peca "T" 3) ++
         msg_reserva_cheia ++ msg_troca_tres)%string).
Proof.
  split; [|split; [|split; [|split; [|apply cenario_reserva]]]]; by_compute.
Defined.
