(* ===== verification/Maquina.v ===== *)
(** * Maquina: the game as a state machine

    The loop of [main] (lines 204-288 of [src/tetris.c]) is a machine whose
    state is the pair of [main]'s locals and the process state, and whose
    steps are the choices of the menu: [passo] is the graph of [menu_switch]
    and [alcancavel] the states after the initial fill and after each run
    of the [switch], from any memory and any seed.  [alcancavel] is a
    little larger than the set of the states of the loop: a turn may follow
    the choice 0, after which the loop exits, and the output holds what the
    [switch] printed without the menu and the display.  [Jogo.v] and
    [Sessao.v] tie the loop to it.

    The machine the specification describes has no array and no index: its
    state is the queue front to back, the stack base to top and the next
    number.  [efeito] computes what a choice does to the two lists, with the
    operations of [MenuSpec] and [TrocaSpec]; [abs_passo] adds the piece
    that refills the queue, of any of the seven types.

    The theorems: every step of [main] is a step of the abstract machine
    between the abstractions of its states, so that every reachable state
    abstracts to a reachable abstract state; the invariant of the reachable
    states (well-formedness, a full queue, the counter within [int], and the
    numbers of the pieces in play distinct and below the counter); when
    a choice has a next state; that a step is a function of the game
    ([abs_exec], the abstract step on the type the generator draws) and
    that states with the same game are bisimilar, whatever their arrays. *)

From Stdlib Require Import ZArith String Ascii.
From stdpp Require Import base tactics option list numbers strings.
From S2P Require Import Prelude Mundo Peca Fila Pilha Troca Menu.

#[local] Open Scope Z_scope.

(** ** The abstract machine *)

(** The queue front to back and the stack base to top. *)
Definition Conteudo : Type := list Peca * list Peca.

Record Abs : Type := {
  pecas : Conteudo;
  prox : Z  (* the number of the next piece *)
}.

(** The pieces in play. *)
Definition em_jogo (c : Conteudo) : list Peca := c.1 ++ c.2.

(** What choice [o] does to the contents: [None] when it fails or is no
    operation, otherwise the contents it leaves and whether it took a piece
    of the queue, which is then to be refilled. *)
Definition efeito (o : Z) (c : Conteudo) : option (bool * Conteudo) :=
  if decide (o = 1) then
    match MenuSpec.jogar c with inr (_, c') => Some (true, c') | inl _ => None end
  else if decide (o = 2) then
    match MenuSpec.reservar c with inr (_, c') => Some (true, c') | inl _ => None end
  else if decide (o = 3) then
    match MenuSpec.usar c with inr (_, c') => Some (false, c') | inl _ => None end
  else if decide (o = 4) then
    match TrocaSpec.frente_topo c.1 c.2 with inr c' => Some (false, c') | inl _ => None end
  else if decide (o = 5) then
    match TrocaSpec.tres c.1 c.2 with inr c' => Some (false, c') | inl _ => None end
  else None.

(** A piece the generator may return when the next number is [n]. *)
Definition nova (n : Z) (y : Peca) : Prop := id y = n /\ tipo y ∈ TIPOS.

#[export] Instance nova_dec n y : Decision (nova n y).
Proof. unfold nova. apply _. Defined.

(** The contents after the piece [y] entered at the back of the queue. *)
Definition entra (y : Peca) (c : Conteudo) : Conteudo := (c.1 ++ [y], c.2).

Inductive abs_passo : Abs -> Z -> Abs -> Prop :=
  | abs_nada a o :
      efeito o (pecas a) = None -> abs_passo a o a
  | abs_fixo a o c :
      efeito o (pecas a) = Some (false, c) ->
      abs_passo a o {| pecas := c; prox := prox a |}
  | abs_repoe a o c y :
      efeito o (pecas a) = Some (true, c) -> nova (prox a) y ->
      abs_passo a o {| pecas := entra y c; prox := prox a + 1 |}.

(** The state after the initial fill: five pieces numbered from 1 in the
    queue, an empty stack. *)
Definition abs_inicial (a : Abs) : Prop :=
  id <$> (pecas a).1 = seqZ 1 MAX_FILA /\
  Forall (fun p => tipo p ∈ TIPOS) (pecas a).1 /\
  (pecas a).2 = [] /\ prox a = 1 + MAX_FILA.

Inductive abs_alcancavel : Abs -> Prop :=
  | abs_alc_inicio a : abs_inicial a -> abs_alcancavel a
  | abs_alc_passo a o a' :
      abs_alcancavel a -> abs_passo a o a' -> abs_alcancavel a'.

(** What holds of every state of the abstract machine: a full queue, a
    stack within its capacity, and pieces in play that are numbered
    distinctly, from 1 and below the next number, and typed with one of the
    seven letters. *)
Definition abs_inv (a : Abs) : Prop :=
  length (pecas a).1 = Z.to_nat MAX_FILA /\
  (length (pecas a).2 <= Z.to_nat MAX_PILHA)%nat /\
  NoDup (id <$> em_jogo (pecas a)) /\
  Forall (fun p => 1 <= id p < prox a /\ tipo p ∈ TIPOS) (em_jogo (pecas a)).

#[export] Instance abs_inv_dec a : Decision (abs_inv a).
Proof. unfold abs_inv. apply _. Defined.

(** ** The abstract machine with its draws resolved *)

(** The step of the abstract machine when the piece that refills the queue
    has the type [t]: a function. *)
Definition abs_exec (o : Z) (a : Abs) (t : ascii) : Abs :=
  match efeito o (pecas a) with
  | None => a
  | Some (false, c) => {| pecas := c; prox := prox a |}
  | Some (true, c) =>
      {| pecas := entra {| tipo := t; id := prox a |} c; prox := prox a + 1 |}
  end.

(** Whether choice [o] refills the queue, on the contents [c]. *)
Definition repoe (o : Z) (c : Conteudo) : bool :=
  match efeito o c with
  | Some (true, _) => true
  | _ => false
  end.

(** ** The machine of [main] *)

Section maquina.
Context `{R : Rand}.

(** [main]'s locals [fila] and [pilha], and the process state. *)
Definition Estado : Type := Jogo * Mundo.

(** One turn of the loop on the choice [o]: the graph of [menu_switch]. *)
Inductive passo : Estado -> Z -> Estado -> Prop :=
  | passo_switch j w o j' w' :
      menu_switch o j w = Ok (j', w') -> passo (j, w) o (j', w').

(** The states of [main] at the top and at the test of its loop, and a
    few more: the state the initial fill leaves, whatever the memory of the
    two structs held and whatever the seed, and the states a run of the
    [switch] leads to, on any choice (0 included, after which the loop
    exits) and with the output of the [switch] alone. *)
Inductive alcancavel : Estado -> Prop :=
  | alc_inicio f0 p0 s j w :
      length (fila_itens f0) = Z.to_nat MAX_FILA ->
      length (pilha_itens p0) = Z.to_nat MAX_PILHA ->
      iniciar f0 p0 (mundo_inicial s) = Ok (j, w) ->
      alcancavel (j, w)
  | alc_passo e o e' : alcancavel e -> passo e o e' -> alcancavel e'.

(** What the abstract machine sees of a state. *)
Definition abs (e : Estado) : Abs :=
  {| pecas := jogo_conteudo e.1; prox := proxId e.2 |}.

(** The invariant of [main]'s loop. *)
Definition inv (e : Estado) : Prop :=
  jogo_wf e.1 /\ 1 + MAX_FILA <= proxId e.2 <= INT_MAX.

#[export] Instance inv_dec e : Decision (inv e).
Proof. unfold inv. apply _. Defined.

(** What a turn on the choice [o] leaves, read off [efeito]: the same
    locals when the choice fails or is no operation, otherwise the contents
    [efeito] gives, with one piece drawn when the queue is to be refilled:
    the piece numbered with the counter, of the type the generator draws,
    and the generator after that draw. *)
Definition efeito_post (o : Z) (j : Jogo) (w : Mundo) (j' : Jogo) (w' : Mundo)
  : Prop :=
  jogo_wf j' /\
  match efeito o (jogo_conteudo j) with
  | None => j' = j /\ proxId w' = proxId w /\ semente w' = semente w
  | Some (false, c) =>
      jogo_conteudo j' = c /\ proxId w' = proxId w /\ semente w' = semente w
  | Some (true, c) =>
      exists y, jogo_conteudo j' = entra y c /\ nova (proxId w) y /\
        proxId w' = proxId w + 1 /\
        tipo_sorteado w = Some (tipo y) /\
        semente w' = (rand_step (semente w)).2
  end.

(** The generator after a turn on the choice [o]: one draw further when
    the queue was refilled. *)
Definition semente_apos (o : Z) (e : Estado) : rand_state :=
  if repoe o (jogo_conteudo e.1) then (rand_step (semente e.2)).2
  else semente e.2.

(** Two states of [main] that hold the same game: the same pieces in the
    same order, the same counter and the same generator.  The arrays may
    differ in where the queue starts and in their free slots, and the
    outputs may differ. *)
Definition mesmo_estado (e1 e2 : Estado) : Prop :=
  abs e1 = abs e2 /\ semente e1.2 = semente e2.2.

(** The state a run of choices ends in, for the examples. *)
Definition estado_apos (f0 : Fila) (p0 : Pilha) (s : rand_state)
    (ops : list Z) : Res Estado :=
  (j ← iniciar f0 p0; menu_lista ops j) (mundo_inicial s).
End maquina.

(** ** Examples *)

(** The abstract state of the scenario of the specification before its
    first choice. *)
Definition abs_ex : Abs :=
  {| pecas := ([ {| tipo := "I"; id := 1 |}; {| tipo := "O"; id := 2 |};
                 {| tipo := "T"; id := 3 |}; {| tipo := "S"; id := 4 |};
                 {| tipo := "Z"; id := 5 |} ], []);
     prox := 6 |}.

(** A session from a garbage memory: two pieces reserved, a swap, a piece
    played, a failed triple swap, a wrong choice. *)
Definition ops_ex : list Z := [2; 2; 4; 1; 5; 9].

Definition estado_ex : Estado (R := rand_lcg) :=
  match estado_apos (R := rand_lcg) fila_lixo_ex pilha_ex 2024 ops_ex with
  | Ok e => e
  | Err _ => (jogo_ex, mundo_ex)
  end.

(** The state [jogo_ex] with its queue stored from the first slot on, and
    another piece in the free slot of the stack. *)
Definition jogo_girado_ex : Jogo :=
  {| fila := {| fila_itens := [Build_Peca "T" 1; Build_Peca "S" 2;
                               Build_Peca "Z" 3; Build_Peca "I" 4;
                               Build_Peca "O" 5];
                inicio := 0; fim := 0; total := 5 |};
     pilha := {| pilha_itens := [Build_Peca "L" 8; Build_Peca "J" 9;
                                 Build_Peca "I" 7];
                 topo := 1 |} |}.

(** The state after the front piece of [jogo_ex] is sent to the reserve. *)
Definition estado_reserva_ex : Estado (R := rand_lcg) :=
  match menu_switch 2 jogo_ex mundo6_ex with
  | Ok e => e
  | Err _ => (jogo_ex, mundo6_ex)
  end.

(** ** The abstract machine: lemmas *)

Section abs_lemmas.
Implicit Types (a : Abs) (c : Conteudo) (o : Z).

(** No choice brings a piece into play: what a choice leaves is among what
    it found.  The stack stays within its capacity, and the queue loses a
    piece exactly when it is to be refilled. *)
Lemma efeito_spec o c b c' :
  efeito o c = Some (b, c') -> (length c.2 <= 3)%nat ->
  em_jogo c' ⊆+ em_jogo c /\
  length c.1 = (length c'.1 + (if b then 1 else 0))%nat /\
  (length c'.2 <= 3)%nat.
Proof.
  destruct c as [q s].
  unfold efeito, em_jogo, MenuSpec.jogar, MenuSpec.reservar, MenuSpec.usar,
    TrocaSpec.frente_topo, TrocaSpec.tres.
  cbn [fst snd]. intros H Hs. repeat case_decide; simplify_eq.
  - destruct q as [|x q]; simplify_eq. simpl.
    split_and!; [apply submseteq_cons|lia|done]. done.
  - case_bool_decide; [done|]. destruct q as [|x q]; simplify_eq. simpl.
    split_and!; [|lia|rewrite length_app; simpl; unfold MAX_PILHA in *; lia].
    apply Permutation_submseteq.
    by rewrite app_assoc, <- Permutation_cons_append.
  - destruct (last s) eqn:E; simplify_eq. apply last_Some in E as [s' ->].
    rewrite removelast_last. simpl.
    split_and!; [|lia|rewrite length_app in Hs; lia].
    by apply submseteq_skips_l, submseteq_inserts_r.
  - destruct q as [|x q]; [done|]. destruct (last s) eqn:E; simplify_eq.
    apply last_Some in E as [s' ->]. rewrite removelast_last. simpl.
    split_and!; [|lia|by rewrite !length_app in *].
    apply Permutation_submseteq.
    rewrite !app_assoc, <- !Permutation_cons_append. apply perm_swap.
  - repeat case_bool_decide; simplify_eq. simpl.
    split_and!; [|rewrite length_app, length_drop; lia|rewrite length_take; lia].
    apply Permutation_submseteq.
    by rewrite <- app_assoc, (comm app (drop 3 q)), take_drop, (comm app s).
Qed.
Lemma em_jogo_entra y c : em_jogo (entra y c) ≡ₚ y :: em_jogo c.
Proof.
  unfold em_jogo, entra. simpl.
  rewrite <- app_assoc. symmetry. apply Permutation_middle.
Qed.

Lemma abs_inicial_inv a : abs_inicial a -> abs_inv a.
Proof.
  destruct a as [[q s] n]. unfold abs_inicial, abs_inv, em_jogo.
  cbn [pecas prox fst snd]. intros (Hids & Hts & -> & ->).
  rewrite app_nil_r, Hids. split_and!.
  - by rewrite <- (length_fmap id), Hids.
  - simpl. lia.
  - apply NoDup_seqZ.
  - apply Forall_and. split; [|done].
    apply (Forall_fmap id (fun i => 1 <= i < 1 + MAX_FILA)). rewrite Hids.
    apply Forall_forall. intros i Hi%elem_of_seqZ. lia.
Qed.

(** The queue is not empty, so some number is below the next one. *)
Lemma abs_inv_prox a : abs_inv a -> 1 < prox a.
Proof.
  destruct a as [[q s] n]. unfold abs_inv, em_jogo. cbn [pecas prox fst snd].
  intros (Hq & _ & _ & Hall). destruct q as [|x q]; [done|].
  apply Forall_cons_1 in Hall as [[? ?] _]. lia.
Qed.

(** The invariant is kept by every step, which draws at most one piece. *)
Lemma abs_passo_inv a o a' :
  abs_inv a -> abs_passo a o a' -> abs_inv a' /\ prox a <= prox a' <= prox a + 1.
Proof.
  intros Ha Hp. pose proof (abs_inv_prox a Ha) as Hn.
  destruct Ha as (Hq & Hs & Hnd & Hall).
  destruct Hp as [a o _|a o c He|a o c y He [Hy Hty]];
    [by split; [|lia]|apply efeito_spec in He as (Hsub & Hlen & Hs');
                       [|done]..];
    (split; [|simpl; lia]); unfold abs_inv; cbn [pecas prox].
  - split_and!; [lia|done|by rewrite Hsub..].
  - rewrite em_jogo_entra, fmap_cons, NoDup_cons, Forall_cons.
    unfold entra. cbn [fst snd]. rewrite length_app. simpl.
    rewrite Forall_forall in Hall.
    split_and!; [lia|done| |by rewrite Hsub|lia|lia|done|].
    + intros (p & Hp & Hin)%list_elem_of_fmap.
      apply (elem_of_submseteq _ _ _ Hin), Hall in Hsub. lia.
    + apply Forall_forall. intros p Hin.
      apply (elem_of_submseteq _ _ _ Hin), Hall in Hsub. split; [lia|tauto].
Qed.

(** Every state of the abstract machine satisfies the invariant. *)
Lemma abs_alcancavel_inv a : abs_alcancavel a -> abs_inv a.
Proof.
  induction 1 as [a Hi|a o a' _ IH Hp]; [by apply abs_inicial_inv|].
  by apply (abs_passo_inv a o a').
Qed.

(** The abstract machine never blocks: every choice has a next state. *)
Lemma abs_passo_total a o : exists a', abs_passo a o a'.
Proof.
  destruct (efeito o (pecas a)) as [[[] c]|] eqn:He.
  - exists {| pecas := entra {| tipo := "I"; id := prox a |} c;
              prox := prox a + 1 |}.
    apply abs_repoe; [done|]. split; [done|]. simpl. unfold TIPOS. constructor.
  - eexists. by apply abs_fixo.
  - eexists. by apply abs_nada.
Qed.

End abs_lemmas.

(** ** The machine of [main]: lemmas *)

Section maquina_lemmas.
Context `{R : Rand}.
Implicit Types (j : Jogo) (w : Mundo) (e : Estado) (o : Z).

Lemma jogo_wf_pilha j : jogo_wf j -> (length (jogo_conteudo j).2 <= 3)%nat.
Proof.
  intros (_ & Hp & _). simpl. rewrite length_pilha_conteudo by done.
  destruct Hp. unfold MAX_PILHA in *. lia.
Qed.

(** [efeito_post] is a step of the abstract machine. *)
Lemma efeito_post_abs o j w j' w' :
  efeito_post o j w j' w' -> abs_passo (abs (j, w)) o (abs (j', w')).
Proof.
  unfold efeito_post, abs. cbn [fst snd]. intros [_ H].
  destruct (efeito o (jogo_conteudo j)) as [[[] c]|] eqn:He.
  - destruct H as (y & -> & Hy & -> & _).
    by apply (abs_repoe {| pecas := jogo_conteudo j |}).
  - destruct H as (-> & -> & _).
    by apply (abs_fixo {| pecas := jogo_conteudo j |}).
  - destruct H as (-> & -> & _). by apply abs_nada.
Qed.

(** The choices that take a piece of the queue: the outcome of [case 1]
    and [case 2] as [efeito_post], from what [op] gives on the contents. *)
Lemma repos_efeito o j w j' w' msg msg'
    (op : Conteudo -> Falha + (Peca * Conteudo)) :
  jogo_wf j ->
  efeito o (jogo_conteudo j) =
    match op (jogo_conteudo j) with
    | inr (_, c) => Some (true, c) | inl _ => None
    end ->
  match op (jogo_conteudo j) with
  | inl e => j' = j /\ sem_repor w (jogo_conteudo j) (msg e) j' w'
  | inr (x, c) => repos w c (msg' x) j' w'
  end -> efeito_post o j w j' w'.
Proof.
  intros Hwf He H. unfold efeito_post. rewrite He.
  destruct (op (jogo_conteudo j)) as [e|[x c]].
  - by destruct H as (-> & _ & _ & Hid & Hs & _).
  - pose proof H as [Hwf' _]. split; [done|].
    apply efeito_spec in He as (_ & Hlen & _); [|by apply jogo_wf_pilha].
    assert (Hl : S (length c.1) = length (conteudo (fila j)))
      by (simpl in Hlen; lia).
    pose proof (repos_wf j _ _ _ _ _ Hwf Hl H) as [_ Hid].
    apply (repos_sorteio j) in H as (t & Ht & Hc & Hs); [|done..].
    exists {| tipo := t; id := proxId w |}. split_and!; try done.
    split; [done|]. by eapply list_elem_of_lookup_2.
Qed.
(** The choices that leave the queue as long as it was. *)
Lemma sem_repor_efeito o j w j' w' msg c :
  jogo_wf j -> efeito o (jogo_conteudo j) = Some (false, c) ->
  sem_repor w c msg j' w' -> efeito_post o j w j' w'.
Proof.
  intros Hwf He H. unfold efeito_post. rewrite He.
  apply efeito_spec in He as (_ & Hlen & _); [|by apply jogo_wf_pilha].
  pose proof H as (_ & Hc & _ & Hs & _).
  apply (sem_repor_wf j) in H as [? ?]; [done|done|]. simpl in Hlen. lia.
Qed.

(** The choices that change nothing but the output. *)
Lemma efeito_nada o j w w' :
  jogo_wf j -> efeito o (jogo_conteudo j) = None ->
  proxId w' = proxId w -> semente w' = semente w ->
  efeito_post o j w j w'.
Proof. intros Hwf He Hid Hs. unfold efeito_post. by rewrite He. Qed.

Lemma falha_efeito o j w j' w' msg :
  jogo_wf j -> efeito o (jogo_conteudo j) = None ->
  j' = j /\ sem_repor w (jogo_conteudo j) msg j' w' -> efeito_post o j w j' w'.
Proof. intros Hwf He (-> & _ & _ & Hid & Hs & _). by apply efeito_nada. Qed.

(** A swap as [efeito_post], from the outcome [spec] on the contents. *)
Lemma troca_efeito o j w j' w' msg (spec : Falha + Conteudo) :
  jogo_wf j ->
  efeito o (jogo_conteudo j) =
    match spec with inr c => Some (false, c) | inl _ => None end ->
  match spec with
  | inl e =>
      j' = j /\ sem_repor w (jogo_conteudo j) (TrocaSpec.mensagem_troca e) j' w'
  | inr c => sem_repor w c msg j' w'
  end -> efeito_post o j w j' w'.
Proof.
  intros Hwf He H. destruct spec.
  - by eapply falha_efeito.
  - by eapply sem_repor_efeito.
Qed.

Lemma caso_reservar_efeito j w :
  jogo_wf j -> 1 <= proxId w ->
  (pilhaCheia (pilha j) = false -> proxId w + 1 <= INT_MAX) ->
  wp (caso_reservar j) w (efeito_post 2 j w).
Proof.
  intros Hwf Hlo Hhi. pose proof Hwf as (_ & Hp & _).
  destruct (pilhaCheia (pilha j)) eqn:Hc.
  - unfold wp. rewrite caso_reservar_cheia by done.
    apply efeito_nada; [done| |done|done].
    unfold efeito, MenuSpec.reservar. simpl.
    fold (PilhaSpec.cheia (pilha_conteudo (pilha j))).
    by rewrite <- pilhaCheia_spec, Hc.
  - apply wp_caso_reservar;
      [by apply jogo_wf_ok|done|rewrite jogo_wf_faltam by done; lia|].
    intros j' w'. by apply (repos_efeito 2).
Qed.

Lemma caso_usar_efeito j w :
  jogo_wf j -> wp (caso_usar j) w (efeito_post 3 j w).
Proof.
  intros Hwf. apply wp_caso_usar; [by apply jogo_wf_ok|]. intros j' w'.
  destruct (MenuSpec.usar (jogo_conteudo j)) as [e|[x c]] eqn:E.
  - apply falha_efeito; [done|]. unfold efeito. simpl. by rewrite E.
  - intros [_ H]. eapply sem_repor_efeito; [done| |exact H].
    unfold efeito. simpl. by rewrite E.
Qed.

(** The rule of [menu_switch] on the states [main] shows the menu in, with
    the outcome the abstract contents give. *)
Lemma wp_menu_switch_efeito o j w (Q : Jogo -> Mundo -> Prop) :
  jogo_wf j -> 1 <= proxId w ->
  (sorteia o j = true -> proxId w + 1 <= INT_MAX) ->
  (forall j' w', efeito_post o j w j' w' -> Q j' w') ->
  wp (menu_switch o j) w Q.
Proof.
  intros Hwf Hlo Hhi HQ. eapply wp_mono; [|exact HQ].
  pose proof (jogo_wf_ok j Hwf) as [Hf Hp]. rewrite sorteia_true in Hhi.
  unfold menu_switch. repeat case_decide; subst.
  - apply wp_caso_jogar; [done..|rewrite jogo_wf_faltam by done; lia|].
    intros j' w'. by apply (repos_efeito 1 _ _ _ _ (fun _ => msg_jogar_vazia)).
  - apply caso_reservar_efeito; auto.
  - by apply caso_usar_efeito.
  - eapply wp_mono; [by apply wp_caso_troca, wp_trocarFrenteComTopo|].
    intros j' w' [_ Hs]. by eapply (troca_efeito 4).
  - eapply wp_mono; [by apply wp_caso_troca, wp_trocarTres|].
    intros j' w' [_ Hs]. by eapply (troca_efeito 5).
  - wp_step. apply wp_printf. wp_step. by apply efeito_nada.
  - wp_step. apply wp_printf. wp_step. apply efeito_nada; [done| |done|done].
    unfold efeito. by repeat case_decide.
Qed.

(** Whether a choice draws depends on the contents alone. *)
Lemma sorteia_conteudo o j1 j2 :
  jogo_wf j1 -> jogo_wf j2 -> jogo_conteudo j1 = jogo_conteudo j2 ->
  sorteia o j1 = sorteia o j2.
Proof.
  intros (_ & Hp1 & _) (_ & Hp2 & _) [= _ Hs]. unfold sorteia.
  by rewrite !pilhaCheia_spec, Hs by done.
Qed.

(** [efeito_post] is the step [abs_exec] on the type the generator draws,
    and leaves the generator [semente_apos] gives. *)
Lemma efeito_post_exec o j w j' w' :
  efeito_post o j w j' w' ->
  exists t, tipo_sorteado w = Some t /\
    abs (j', w') = abs_exec o (abs (j, w)) t /\
    semente w' = semente_apos o (j, w).
Proof.
  unfold efeito_post, abs, abs_exec, semente_apos, repoe. cbn [fst snd pecas prox].
  intros [_ H]. destruct (tipo_sorteado_some w) as (t0 & Ht0 & _).
  destruct (efeito o (jogo_conteudo j)) as [[[] c]|].
  - destruct H as ([t n] & -> & [Hn _] & -> & Ht & ->). simpl in *. subst n.
    by exists t.
  - destruct H as (-> & -> & ->). by exists t0.
  - destruct H as (-> & -> & ->). by exists t0.
Qed.

(** The initial fill leaves a state of the invariant whose abstraction is
    initial. *)
Lemma inicio_post f0 p0 s j w :
  length (fila_itens f0) = Z.to_nat MAX_FILA ->
  length (pilha_itens p0) = Z.to_nat MAX_PILHA ->
  iniciar f0 p0 (mundo_inicial s) = Ok (j, w) ->
  inv (j, w) /\ abs_inicial (abs (j, w)).
Proof.
  intros Hlf Hlp.
  apply (wp_run _ _ (fun j w => inv (j, w) /\ abs_inicial (abs (j, w)))).
  apply wp_iniciar; [done || (simpl; int_lia)..|].
  intros j' w' Hwf Hs Hlen [Hids Hts] Hid _. simpl in Hid.
  unfold inv, abs_inicial, abs, jogo_conteudo. cbn [fst snd pecas prox].
  rewrite Hlen in Hids.
  split_and!; try done; rewrite Hid; unfold MAX_FILA; int_lia.
Qed.

(** A turn from a state of the invariant: the counter had room for the
    piece the choice drew, if it drew one, and the outcome is the one the
    abstract contents give. *)
Lemma passo_post o j w j' w' :
  inv (j, w) -> menu_switch o j w = Ok (j', w') ->
  (sorteia o j = true -> proxId w + 1 <= INT_MAX) /\
  efeito_post o j w j' w' /\ passo_exato o j w j' w'.
Proof.
  unfold inv, MAX_FILA. cbn [fst snd]. intros [Hwf Hid] Hrun.
  assert (Hhi : sorteia o j = true -> proxId w + 1 <= INT_MAX).
  { intros Hs. destruct (decide (proxId w + 1 <= INT_MAX)) as [|Hn]; [done|].
    rewrite menu_switch_err in Hrun; [done..|]. unfold in_int. lia. }
  split; [done|]. revert Hrun.
  apply (wp_run _ _ (fun j' w' =>
    efeito_post o j w j' w' /\ passo_exato o j w j' w')), wp_and.
  - apply wp_menu_switch_efeito; [done|lia|done..].
  - apply wp_menu_switch_exato; [done|lia|done..].
Qed.

(** A turn from a state of the invariant either overflows the counter or
    ends in a state of the invariant: no other error is possible. *)
Lemma wpe_menu_switch (E : Erro -> Prop) o j w (Q : Jogo -> Mundo -> Prop) :
  inv (j, w) -> E IntOverflow ->
  (forall j' w', inv (j', w') -> Q j' w') ->
  wpe E (menu_switch o j) w Q.
Proof.
  unfold inv, MAX_FILA. cbn [fst snd]. intros [Hwf Hid] HE HQ.
  destruct (decide (sorteia o j = true /\ ~ proxId w + 1 <= INT_MAX))
    as [[Hs Hn]|Hok].
  - unfold wpe. rewrite menu_switch_err; [done..|]. unfold in_int. lia.
  - apply wp_wpe, wp_menu_switch_exato; [done|lia| |].
    + intros Hs. destruct (decide (proxId w + 1 <= INT_MAX)); tauto.
    + intros j' w' [Hwf' Hid']. apply HQ. split; [done|]. simpl.
      destruct (sorteia o j); [|lia].
      destruct (decide (proxId w + 1 <= INT_MAX)); [lia|tauto].
Qed.

(** A turn from a state of the invariant is the step [abs_exec]. *)
Lemma passo_exec e o e' :
  inv e -> passo e o e' ->
  exists t, tipo_sorteado e.2 = Some t /\
    abs e' = abs_exec o (abs e) t /\ semente e'.2 = semente_apos o e.
Proof.
  intros He Hp. destruct Hp as [j w o j' w' Hrun].
  by apply efeito_post_exec, (passo_post o j w j' w' He Hrun).
Qed.

#[export] Instance mesmo_estado_equiv : Equivalence mesmo_estado.
Proof.
  unfold mesmo_estado. split.
  - by intros e.
  - by intros e1 e2 [-> ->].
  - by intros e1 e2 e3 [-> ->] [-> ->].
Qed.

(** Two states that hold the same game take the same turns. *)
Lemma passo_mesmo e1 e2 o e1' :
  inv e1 -> inv e2 -> mesmo_estado e1 e2 -> passo e1 o e1' ->
  exists e2', passo e2 o e2' /\ mesmo_estado e1' e2'.
Proof.
  intros H1 H2 [Ha Hs] Hp. pose proof (passo_exec _ _ _ H1 Hp) as (t & Ht & Ha1 & Hs1).
  destruct Hp as [j1 w1 o j1' w1' Hrun]. destruct e2 as [j2 w2].
  pose proof (f_equal pecas Ha) as Hc. pose proof (f_equal prox Ha) as Hid.
  clear Ha. cbn [fst snd abs pecas prox] in Hc, Hid, Hs.
  apply (passo_post o j1 w1 j1' w1' H1) in Hrun as (Hhi & _).
  destruct H2 as [Hwf2 Hid2]. pose proof H1 as [Hwf1 _]. cbn [fst snd] in *.
  destruct (wp_is_ok (menu_switch o j2) w2 (fun _ _ => True))
    as (j2' & w2' & Hrun2).
  { apply wp_menu_switch_exato; [done|unfold MAX_FILA in *; lia| |done].
    by rewrite <- Hid, <- (sorteia_conteudo o j1 j2). }
  exists (j2', w2'). split; [by constructor|].
  destruct (passo_exec (j2, w2) o (j2', w2') (conj Hwf2 Hid2)
              (passo_switch _ _ _ _ _ Hrun2)) as (t2 & Ht2 & Ha2 & Hs2).
  unfold tipo_sorteado in *. cbn [fst snd] in *. rewrite <- Hs, Ht in Ht2.
  injection Ht2 as <-. split.
  - rewrite Ha1, Ha2. unfold abs. cbn [fst snd]. by rewrite Hc, Hid.
  - cbn [snd]. rewrite Hs1, Hs2. unfold semente_apos. cbn [fst snd].
    by rewrite Hc, Hs.
Qed.

Lemma passo_inv e o e' : inv e -> passo e o e' -> inv e'.
Proof.
  intros He Hp. destruct Hp as [j w o j' w' Hrun].
  destruct (passo_post o j w j' w' He Hrun) as (Hhi & _ & Hwf' & Hid).
  destruct He as [_ Hn]. split; [done|]. cbn [fst snd] in *. rewrite Hid.
  destruct (sorteia o j); lia.
Qed.

Lemma passo_abs e o e' :
  inv e -> passo e o e' -> abs_passo (abs e) o (abs e').
Proof.
  intros He Hp. destruct Hp as [j w o j' w' Hrun].
  by apply efeito_post_abs, (passo_post o j w j' w' He Hrun).
Qed.

(** The invariant of the loop holds of every reachable state. *)
Lemma alc_inv e : alcancavel e -> inv e.
Proof.
  induction 1 as [f0 p0 s j w Hlf Hlp Hrun|e o e' _ IH Hp].
  - by apply (inicio_post f0 p0 s).
  - by apply (passo_inv e o e').
Qed.

(** The states a run of choices ends in are reachable. *)
Lemma menu_lista_alcancavel ops j w e :
  alcancavel (j, w) -> menu_lista ops j w = Ok e -> alcancavel e.
Proof.
  destruct e as [j' w']. revert j w.
  induction ops as [|o ops IH]; intros j w Halc Hrun.
  - by injection Hrun as <- <-.
  - simpl in Hrun. apply prog_bind_ok in Hrun as (j1 & w1 & H1 & Hrun).
    apply (IH j1 w1); [|done]. apply (alc_passo (j, w) o); [done|].
    by constructor.
Qed.

Lemma estado_apos_alcancavel f0 p0 s ops e :
  length (fila_itens f0) = Z.to_nat MAX_FILA ->
  length (pilha_itens p0) = Z.to_nat MAX_PILHA ->
  estado_apos f0 p0 s ops = Ok e -> alcancavel e.
Proof.
  intros Hlf Hlp Hrun. destruct e as [j' w'].
  apply prog_bind_ok in Hrun as (j & w & H0 & Hrun).
  apply (menu_lista_alcancavel ops j w); [|done].
  by apply (alc_inicio f0 p0 s).
Qed.
(** Every reachable state is the end of a run of choices. *)
Lemma alcancavel_estado_apos e :
  alcancavel e ->
  exists f0 p0 s ops,
    length (fila_itens f0) = Z.to_nat MAX_FILA /\
    length (pilha_itens p0) = Z.to_nat MAX_PILHA /\
    estado_apos f0 p0 s ops = Ok e.
Proof.
  induction 1 as [f0 p0 s j w Hlf Hlp Hrun|e o e' _ IH Hp].
  - exists f0, p0, s, []. split_and!; [done..|].
    apply prog_bind_ok. by exists j, w.
  - destruct IH as (f0 & p0 & s & ops & Hlf & Hlp & Hrun).
    destruct Hp as [j w o j' w' Hp].
    exists f0, p0, s, (ops ++ [o]). split_and!; [done..|].
    apply prog_bind_ok in Hrun as (j0 & w0 & H0 & Hrun).
    apply prog_bind_ok. exists j0, w0. split; [done|].
    rewrite menu_lista_app. apply prog_bind_ok. exists j, w. split; [done|].
    apply prog_bind_ok. by exists j', w'.
Qed.

(** Every reachable state abstracts to a state of the abstract machine. *)
Lemma alc_abs e : alcancavel e -> abs_alcancavel (abs e).
Proof.
  induction 1 as [f0 p0 s j w Hlf Hlp Hrun|e o e' Halc IH Hp].
  - by apply abs_alc_inicio, (inicio_post f0 p0 s).
  - apply (abs_alc_passo (abs e) o); [done|].
    apply passo_abs; [by apply alc_inv|done].
Qed.

(** C11: The loop of [main] refines the abstract machine: the abstraction of a
    reachable state, the queue front to back, the stack base to top and the
    counter, is a state of the abstract machine, and every turn of the loop
    from it is a step of the abstract machine on the same choice. *)
Theorem maquina_refina e :
  alcancavel e ->
  abs_alcancavel (abs e) /\
  forall o e', passo e o e' -> abs_passo (abs e) o (abs e').
Proof.
  intros Halc. split; [by apply alc_abs|].
  intros o e' Hp. apply passo_abs; [by apply alc_inv|done].
Qed.

(** C12: The invariant of the reachable states: whatever the memory held at
    the start, whatever the seed and whatever was chosen, [main] shows its
    menu with both structures well formed, the queue full, the counter
    between 6 and [INT_MAX], and the pieces in the queue and in the stack
    numbered distinctly, from 1 and below the counter, and typed with one of
    the seven letters. *)
Theorem alcancavel_inv e :
  alcancavel e -> inv e /\ abs_inv (abs e).
Proof.
  intros Halc. split; [by apply alc_inv|].
  by apply abs_alcancavel_inv, alc_abs.
Qed.

(** C13: When a turn has a next state: from a reachable state, a choice is
    defined exactly when it draws no piece or the counter is below
    [INT_MAX].  Playing a piece, or sending one to a reserve that has room,
    with the counter at [INT_MAX] is undefined; every other choice is
    defined in every reachable state. *)
Theorem passo_existe o e :
  alcancavel e ->
  (exists e', passo e o e') <->
  (sorteia o e.1 = true -> proxId e.2 < INT_MAX).
Proof.
  intros Halc. pose proof (alc_inv _ Halc) as Hinv. destruct e as [j w].
  cbn [fst snd]. split.
  - intros [e' Hp] Hs. inversion Hp as [? ? ? j' w' Hrun]; subst.
    apply (passo_post o j w j' w' Hinv) in Hrun as [Hhi _].
    apply Hhi in Hs. lia.
  - intros Hhi. destruct Hinv as [Hwf Hid]. unfold MAX_FILA in Hid.
    destruct (wp_is_ok (menu_switch o j) w (passo_exato o j w))
      as (j' & w' & Hrun).
    { apply wp_menu_switch_exato; [done|simpl in *; lia| |done].
      intros Hs. apply Hhi in Hs. lia. }
    exists (j', w'). by constructor.
Qed.

(** C16: The loop of [main] is a function of the game: a turn from a state of
    the menu is the step [abs_exec] of the abstract machine on the type the
    generator draws, and it leaves the generator one draw further exactly
    when the queue was refilled.  Where the queue starts in its array and
    what the free slots hold have no effect. *)
Theorem passo_executa e o e' :
  inv e -> passo e o e' ->
  exists t, tipo_sorteado e.2 = Some t /\
    abs e' = abs_exec o (abs e) t /\ semente e'.2 = semente_apos o e.
Proof. apply passo_exec. Qed.

(** C15: Representation independence: [mesmo_estado] is a bisimulation.  From
    two states of the menu that hold the same pieces in the same order, the
    same counter and the same generator, whatever their arrays and their
    outputs, a choice that has a next state in one has a next state in the
    other, and the two next states hold the same game again. *)
Theorem representacao e1 e2 o e1' :
  inv e1 -> inv e2 -> mesmo_estado e1 e2 -> passo e1 o e1' ->
  exists e2', passo e2 o e2' /\ mesmo_estado e1' e2'.
Proof. apply passo_mesmo. Qed.

End maquina_lemmas.

(** ** Witnesses *)

Lemma estado_ex_alcancavel : alcancavel estado_ex.
Proof.
  unfold estado_ex.
  assert (Hok : is_ok (estado_apos (R := rand_lcg)
                         fila_lixo_ex pilha_ex 2024 ops_ex) = true)
    by (vm_compute; reflexivity).
  destruct (estado_apos _ _ _ _) as [e|] eqn:E; [|done].
  by apply (estado_apos_alcancavel fila_lixo_ex pilha_ex _ _ _ eq_refl eq_refl E).
Defined.

Lemma maquina_refina_witness :
  abs_alcancavel (abs estado_ex) /\
  forall o e', passo estado_ex o e' -> abs_passo (abs estado_ex) o (abs e').
Proof. apply maquina_refina, estado_ex_alcancavel. Defined.

Lemma alcancavel_inv_witness : inv estado_ex /\ abs_inv (abs estado_ex).
Proof. apply alcancavel_inv, estado_ex_alcancavel. Defined.

Lemma passo_existe_witness : exists e', passo estado_ex 1 e'.
Proof.
  apply (passo_existe 1 estado_ex); [apply estado_ex_alcancavel|].
  intros _. by_compute.
Defined.

(** A defined turn is a step. *)
Lemma passo_ex (o : Z) (j : Jogo) (w : Mundo (R := rand_lcg)) :
  is_ok (menu_switch o j w) = true ->
  passo (j, w) o
    (match menu_switch o j w with Ok e => e | Err _ => (j, w) end).
Proof.
  intros Hok. destruct (menu_switch o j w) as [[j' w']|] eqn:E; [|done].
  by constructor.
Qed.

Lemma passo_executa_witness :
  exists t, tipo_sorteado (jogo_ex, mundo6_ex).2 = Some t /\
    abs estado_reserva_ex = abs_exec 2 (abs (jogo_ex, mundo6_ex)) t /\
    semente estado_reserva_ex.2 = semente_apos 2 (jogo_ex, mundo6_ex).
Proof.
  apply passo_executa; [by_compute|]. apply (passo_ex 2 jogo_ex mundo6_ex).
  vm_compute. reflexivity.
Defined.

Lemma representacao_witness :
  exists e2',
    passo (jogo_girado_ex, set_saida "Menu:" mundo6_ex) 2 e2' /\
    mesmo_estado estado_reserva_ex e2'.
Proof.
  apply (representacao (jogo_ex, mundo6_ex)); [by_compute..| |].
  - split; reflexivity.
  - apply (passo_ex 2 jogo_ex mundo6_ex). vm_compute. reflexivity.
Defined.
