(* ===== verification/Contador.v ===== *)
(** * Contador: the counter of a session

    [gerarPeca] numbers the pieces with a [static int] that it increments
    at every call (lines 38 and 41 of [src/tetris.c]), and the increment
    of [INT_MAX] is undefined.  This file says exactly how far a session
    can go.

    On a full queue, whether a choice of the menu draws a piece depends on
    the height of the stack alone, and so does the height it leaves:
    [sorteios] counts the pieces a run of choices draws.  The theorems:
    the counter after a run is the counter before it plus [sorteios], and
    the run is undefined exactly when that is not an [int]
    ([contador_exato]); a process can play [INT_MAX - 6] pieces and not
    one more ([jogadas_limite]). *)

From Stdlib Require Import ZArith String Ascii.
From stdpp Require Import base tactics option list numbers strings.
From S2P Require Import Prelude Mundo Peca Fila Pilha Troca Menu Maquina.

#[local] Open Scope Z_scope.

(** ** The pieces a run draws *)

(** Whether choice [o] draws a piece, on a stack of height [n]. *)
Definition sorteia_alt (o : Z) (n : nat) : bool :=
  bool_decide (o = 1) ||
  (bool_decide (o = 2) && bool_decide (n < Z.to_nat MAX_PILHA)%nat).

(** The height of the stack after choice [o], from height [n]. *)
Definition altura_apos (o : Z) (n : nat) : nat :=
  if decide (o = 2) then
    if decide (n < Z.to_nat MAX_PILHA)%nat then S n else n
  else if decide (o = 3) then pred n
  else n.

(** The pieces a run of choices draws, from a stack of height [n]. *)
Fixpoint sorteios (ops : list Z) (n : nat) : Z :=
  match ops with
  | [] => 0
  | o :: ops =>
      (if sorteia_alt o n then 1 else 0) + sorteios ops (altura_apos o n)
  end.

(** The height of the stack of [main]. *)
Definition altura (j : Jogo) : nat := length (jogo_conteudo j).2.

(** ** Examples *)

(** A state in which the counter has room for one more piece. *)
Definition mundo_quase_ex : Mundo (R := rand_lcg) :=
  @Build_Mundo rand_lcg (INT_MAX - 1) 2024 "".

(** ** Lemmas *)

Section sorteios_lemmas.
Implicit Types (c : Conteudo) (o : Z).

(** What [efeito] does to the height of the stack, and when it asks for a
    refill, on a non-empty queue. *)
Lemma efeito_altura o c :
  c.1 <> [] -> (length c.2 <= Z.to_nat MAX_PILHA)%nat ->
  match efeito o c with
  | Some (b, c') =>
      b = sorteia_alt o (length c.2) /\ length c'.2 = altura_apos o (length c.2)
  | None =>
      sorteia_alt o (length c.2) = false /\
      altura_apos o (length c.2) = length c.2
  end.
Proof.
  destruct c as [[|x q] s]; [done|]. intros _.
  unfold efeito, sorteia_alt, altura_apos, MenuSpec.jogar, MenuSpec.reservar,
    MenuSpec.usar, TrocaSpec.frente_topo, TrocaSpec.tres, MAX_PILHA.
  cbn [fst snd]. intros Hs.
  repeat case_decide; subst; repeat case_bool_decide; try done; try lia.
  all: try (destruct (last s) eqn:E;
            [apply last_Some in E as [s' ->]; rewrite removelast_last
            |apply last_None in E as ->]).
  all: cbn [fst snd]; rewrite ?length_app, ?length_take in *;
    cbn [length] in *; split; done || lia.
Qed.

Lemma sorteios_nonneg ops n : 0 <= sorteios ops n.
Proof.
  revert n. induction ops as [|o ops IH]; intros n; simpl; [done|].
  specialize (IH (altura_apos o n)). destruct (sorteia_alt o n); lia.
Qed.

Lemma sorteios_le ops n : sorteios ops n <= Z.of_nat (length ops).
Proof.
  revert n. induction ops as [|o ops IH]; intros n; simpl; [done|].
  specialize (IH (altura_apos o n)). destruct (sorteia_alt o n); lia.
Qed.

(** A run of [k] times the choice 1 draws [k] pieces. *)
Lemma sorteios_jogar k n : sorteios (replicate k 1) n = Z.of_nat k.
Proof.
  revert n. induction k as [|k IH]; intros n; [done|].
  change (sorteios (replicate (S k) 1) n) with (1 + sorteios (replicate k 1) n).
  rewrite IH. lia.
Qed.
End sorteios_lemmas.

Section contador_lemmas.
Context `{R : Rand}.
Implicit Types (j : Jogo) (w : Mundo) (e : Estado) (o : Z).

(** On the states of [main], [sorteia] reads the height of the stack. *)
Lemma sorteia_altura o j : jogo_wf j -> sorteia o j = sorteia_alt o (altura j).
Proof.
  intros (_ & Hp & _). unfold sorteia, sorteia_alt, altura. simpl.
  rewrite pilhaCheia_spec by done. unfold PilhaSpec.cheia.
  pose proof (length_pilha_conteudo _ Hp). destruct Hp as [_ Ht].
  do 2 f_equal. unfold MAX_PILHA in *.
  repeat case_bool_decide; done || lia.
Qed.

Lemma jogo_wf_fila j : jogo_wf j -> (jogo_conteudo j).1 <> [].
Proof.
  intros Hwf Hq. apply jogo_wf_length in Hwf. simpl in *. by rewrite Hq in Hwf.
Qed.

(** What [efeito_post] says of the height and of the counter. *)
Lemma efeito_post_contador o j w j' w' :
  jogo_wf j -> efeito_post o j w j' w' ->
  altura j' = altura_apos o (altura j) /\
  proxId w' = proxId w + (if sorteia_alt o (altura j) then 1 else 0).
Proof.
  intros Hwf [_ H]. unfold altura.
  pose proof (efeito_altura o (jogo_conteudo j) (jogo_wf_fila j Hwf)
                (jogo_wf_pilha j Hwf)) as Ha.
  destruct (efeito o (jogo_conteudo j)) as [[[] c]|]; destruct Ha as [Hb Hh].
  - destruct H as (y & -> & _ & -> & _). by rewrite <- Hb.
  - destruct H as (-> & -> & _). rewrite <- Hb. split; [done|lia].
  - destruct H as (-> & -> & _). rewrite Hb. split; [done|lia].
Qed.

(** The rule of [menu_switch] for the counter: the choice draws what
    [sorteia_alt] says of the height of the stack. *)
Lemma wp_menu_switch_contador o j w (Q : Jogo -> Mundo -> Prop) :
  jogo_wf j -> 1 <= proxId w ->
  (sorteia_alt o (altura j) = true -> proxId w + 1 <= INT_MAX) ->
  (forall j' w', jogo_wf j' -> altura j' = altura_apos o (altura j) ->
     proxId w' = proxId w + (if sorteia_alt o (altura j) then 1 else 0) ->
     Q j' w') ->
  wp (menu_switch o j) w Q.
Proof.
  intros Hwf Hlo Hhi HQ.
  apply wp_menu_switch_efeito; [done..|by rewrite sorteia_altura|].
  intros j' w' He. pose proof He as [Hwf' _].
  apply efeito_post_contador in He as [? ?]; auto.
Qed.

(** A run of choices the counter has room for. *)
Lemma wp_menu_lista_contador ops j w (Q : Jogo -> Mundo -> Prop) :
  jogo_wf j -> 1 <= proxId w ->
  proxId w + sorteios ops (altura j) <= INT_MAX ->
  (forall j' w', jogo_wf j' ->
     proxId w' = proxId w + sorteios ops (altura j) -> Q j' w') ->
  wp (menu_lista ops j) w Q.
Proof.
  revert j w. induction ops as [|o ops IH]; intros j w Hwf Hlo Hhi HQ.
  - apply wp_ret, HQ; [done|simpl; lia].
  - simpl in Hhi, HQ. simpl menu_lista. wp_step.
    pose proof (sorteios_nonneg ops (altura_apos o (altura j))).
    apply wp_menu_switch_contador; [done..|intros Hs; rewrite Hs in Hhi; lia|].
    intros j1 w1 Hwf1 Ha1 Hid1. rewrite <- Ha1 in *.
    apply IH; [done|destruct (sorteia_alt o (altura j)); lia|lia|].
    intros j' w' Hwf' Hid'. apply HQ; [done|lia].
Qed.

(** A run of choices that draws more pieces than the counter has room for
    ends in the overflow of the counter. *)
Lemma menu_lista_overflow ops j w :
  jogo_wf j -> 1 <= proxId w <= INT_MAX ->
  INT_MAX < proxId w + sorteios ops (altura j) ->
  menu_lista ops j w = Err IntOverflow.
Proof.
  revert j w. induction ops as [|o ops IH]; intros j w Hwf Hid Hov;
    [simpl in Hov; lia|].
  simpl in Hov. simpl menu_lista.
  destruct (decide (sorteia_alt o (altura j) = true /\ proxId w = INT_MAX))
    as [[Hs Hmax]|Hok].
  - apply prog_bind_err, menu_switch_err; [done|by rewrite sorteia_altura|].
    int_lia.
  - destruct (proj1 (wp_ok (menu_switch o j) w (fun j1 w1 =>
      jogo_wf j1 /\ altura j1 = altura_apos o (altura j) /\
      proxId w1 = proxId w + (if sorteia_alt o (altura j) then 1 else 0))))
      as (j1 & w1 & Hrun & Hwf1 & Ha1 & Hid1).
    { apply wp_menu_switch_contador; [done|lia| |done].
      intros Hs. destruct (decide (proxId w = INT_MAX)); [tauto|lia]. }
    erewrite prog_bind_run by exact Hrun. rewrite <- Ha1 in Hov.
    apply IH; [done| |lia].
    destruct (sorteia_alt o (altura j)); [|lia].
    destruct (decide (proxId w = INT_MAX)); [tauto|lia].
Qed.

(** The counter of a session: after the initial fill the counter is 6 and
    the stack is empty, so a run of choices is defined exactly when
    [6 + sorteios ops 0] is an [int]. *)
Lemma estado_apos_contador f0 p0 s ops :
  length (fila_itens f0) = Z.to_nat MAX_FILA ->
  length (pilha_itens p0) = Z.to_nat MAX_PILHA ->
  (6 + sorteios ops 0 <= INT_MAX ->
   res_wp (estado_apos f0 p0 s ops) (fun e =>
     inv e /\ proxId e.2 = 6 + sorteios ops 0)) /\
  (INT_MAX < 6 + sorteios ops 0 ->
   estado_apos f0 p0 s ops = Err IntOverflow).
Proof.
  intros Hlf Hlp. unfold estado_apos.
  destruct (proj1 (wp_ok (iniciar f0 p0) (mundo_inicial s) (fun j w =>
    jogo_wf j /\ altura j = 0%nat /\ proxId w = 6)))
    as (j & w & Hrun & Hwf & Ha & Hid).
  { apply wp_iniciar; [done || (simpl; int_lia)..|].
    intros j' w' Hwf' Hs _ _ Hid' _. unfold altura. simpl. by rewrite Hs. }
  erewrite prog_bind_run by exact Hrun. rewrite <- Ha, <- Hid.
  pose proof (sorteios_nonneg ops (altura j)). split; intros Hk.
  - apply res_wp_ok.
    destruct (proj1 (wp_ok (menu_lista ops j) w (fun j' w' =>
      jogo_wf j' /\ proxId w' = proxId w + sorteios ops (altura j))))
      as (j' & w' & -> & Hwf' & Hid').
    { apply wp_menu_lista_contador; [done|lia|done|done]. }
    exists (j', w'). unfold inv, MAX_FILA. cbn [fst snd].
    split_and!; done || lia.
  - apply menu_lista_overflow; [done|int_lia|done].
Qed.

(** C14: The counter of a run, exactly: from a state where [main] shows its
    menu, a run of choices draws the pieces [sorteios] counts on the height
    of the stack.  When the counter has room for them the run is defined and
    leaves the counter that much higher; when it has not, the run ends in
    the signed overflow of [proxId++]. *)
Theorem contador_exato ops j w :
  jogo_wf j -> 1 <= proxId w <= INT_MAX ->
  (proxId w + sorteios ops (altura j) <= INT_MAX ->
   wp (menu_lista ops j) w (fun j' w' =>
     jogo_wf j' /\ proxId w' = proxId w + sorteios ops (altura j))) /\
  (INT_MAX < proxId w + sorteios ops (altura j) ->
   menu_lista ops j w = Err IntOverflow).
Proof.
  intros Hwf Hid. split; intros H.
  - apply wp_menu_lista_contador; [done|lia|done|done].
  - by apply menu_lista_overflow.
Qed.

(** C26: The bound of a session, which is sharp: after the initial fill, whatever
    the memory held and whatever the seed, [INT_MAX - 6] pieces can be
    played, with the counter at [INT_MAX] after the last, and the next one
    overflows the counter. *)
Theorem jogadas_limite f0 p0 s k :
  length (fila_itens f0) = Z.to_nat MAX_FILA ->
  length (pilha_itens p0) = Z.to_nat MAX_PILHA ->
  (Z.of_nat k <= INT_MAX - 6 ->
   res_wp (estado_apos f0 p0 s (replicate k 1)) (fun e =>
     inv e /\ proxId e.2 = 6 + Z.of_nat k)) /\
  (INT_MAX - 6 < Z.of_nat k ->
   estado_apos f0 p0 s (replicate k 1) = Err IntOverflow).
Proof.
  intros Hlf Hlp.
  destruct (estado_apos_contador f0 p0 s (replicate k 1) Hlf Hlp) as [Hok Herr].
  rewrite sorteios_jogar in *. split; intros Hk; [apply Hok|apply Herr]; lia.
Qed.
End contador_lemmas.

(** ** Witnesses *)

Lemma contador_exato_witness :
  wp (menu_lista [2; 3; 1] jogo_cheio_ex) mundo_quase_ex (fun j' w' =>
    jogo_wf j' /\
    proxId w' = proxId mundo_quase_ex + sorteios [2; 3; 1] (altura jogo_cheio_ex))
  /\ menu_lista [2; 3; 1; 1] jogo_cheio_ex mundo_quase_ex = Err IntOverflow.
Proof.
  split;
    [apply (contador_exato [2; 3; 1] jogo_cheio_ex mundo_quase_ex)
    |apply (contador_exato [2; 3; 1; 1] jogo_cheio_ex mundo_quase_ex)];
    by_compute.
Defined.

(** Three pieces played on the garbage memory of the examples, and one
    piece more than the counter has room for. *)
Lemma jogadas_limite_witness :
  res_wp (estado_apos (R := rand_lcg) fila_lixo_ex pilha_ex 2024 (replicate 3 1))
    (fun e => inv e /\ proxId e.2 = 6 + Z.of_nat 3) /\
  estado_apos (R := rand_lcg) fila_lixo_ex pilha_ex 2024
    (replicate (Z.to_nat (INT_MAX - 5)) 1) = Err IntOverflow.
Proof.
  split.
  - apply (jogadas_limite (R := rand_lcg) fila_lixo_ex pilha_ex 2024 3); by_compute.
  - apply (jogadas_limite (R := rand_lcg) fila_lixo_ex pilha_ex 2024 (Z.to_nat (INT_MAX - 5)));
      [reflexivity..|].
    rewrite Z2Nat.id; int_lia.
Defined.
