(* ===== verification/Completo.v ===== *)
(** * Completo: the abstract machine has no state the code cannot reach

    [Maquina.v] shows that the loop of [main] refines the abstract machine
    [abs_passo].  This file shows the converse: the abstract machine is
    not coarser than the code.  The only thing the abstract machine leaves
    open is the type of the piece that refills the queue, and [gerarPeca]
    (lines 37-43 of [src/tetris.c]) takes it from [rand() % 7]: under the
    generator that replays a script, the script that holds the position in
    [TIPOS] of each type to draw makes [main] follow any abstract run, as
    long as the counter of that run is an [int].

    [indice] and [roteiro] build the script; [realiza] says that a state of
    the abstract machine is the abstraction of a reachable state of [main],
    with any script left to the generator.  The theorems: the initial fill
    realises every initial state ([iniciar_roteiro]), a turn realises every
    abstract step ([realiza_passo]), and so every reachable state of the
    abstract machine whose counter is at most [INT_MAX] is realised
    ([abs_completo]); with [alc_abs] of [Maquina.v], the abstractions of
    the reachable states of [main] are exactly those states
    ([maquina_exata]). *)

From Stdlib Require Import ZArith String Ascii.
From stdpp Require Import base tactics option list numbers strings.
From S2P Require Import Prelude Mundo Peca Fila Pilha Troca Menu Maquina Contador.

#[local] Open Scope Z_scope.

(** ** Scripts *)

(** The value [rand()] has to return for [gerarPeca] to draw the type [t]:
    the position of [t] in [TIPOS]. *)
Definition indice (t : ascii) : nat :=
  from_option fst 0%nat (list_find (fun x => x = t) TIPOS).

(** The script that draws the types of the pieces [ps], in their order. *)
Definition roteiro (ps : list Peca) : list nat :=
  (fun p => indice (tipo p)) <$> ps.

(** A state of the abstract machine is realised when [main], under the
    generator that replays a script, reaches a state that abstracts to it,
    with any script [k] left to replay. *)
Definition realiza (a : Abs) : Prop :=
  forall k : list nat, exists e : Estado (R := rand_script []),
    alcancavel e /\ abs e = a /\ semente e.2 = k.

(** ** Examples *)

(** The state of the abstract machine after the first piece of [abs_ex]
    went to the reserve and an ["L"] refilled the queue. *)
Definition abs_reserva_ex : Abs :=
  {| pecas := ([ {| tipo := "O"; id := 2 |}; {| tipo := "T"; id := 3 |};
                 {| tipo := "S"; id := 4 |}; {| tipo := "Z"; id := 5 |};
                 {| tipo := "L"; id := 6 |} ],
               [ {| tipo := "I"; id := 1 |} ]);
     prox := 7 |}.

(** ** Lemmas *)

Section geral.
Context `{R : Rand}.
Implicit Types (j : Jogo) (w : Mundo) (e : Estado) (o : Z).

(** On the states of [main], [repoe] on the contents is [sorteia]. *)
Lemma repoe_sorteia o j : jogo_wf j -> repoe o (jogo_conteudo j) = sorteia o j.
Proof.
  intros Hwf. rewrite sorteia_altura by done. unfold repoe, altura.
  pose proof (efeito_altura o (jogo_conteudo j) (jogo_wf_fila j Hwf)
                (jogo_wf_pilha j Hwf)) as H.
  destruct (efeito o (jogo_conteudo j)) as [[[] c]|]; by destruct H.
Qed.

(** A turn that does not overflow the counter has a next state, the one
    [efeito] gives. *)
Lemma passo_efeito o e :
  inv e -> (repoe o (jogo_conteudo e.1) = true -> proxId e.2 < INT_MAX) ->
  exists e', passo e o e' /\ efeito_post o e.1 e.2 e'.1 e'.2.
Proof.
  destruct e as [j w]. unfold inv, MAX_FILA. cbn [fst snd].
  intros [Hwf Hid] Hhi. rewrite repoe_sorteia in Hhi by done.
  destruct (proj1 (wp_ok (menu_switch o j) w (efeito_post o j w)))
    as (j' & w' & Hrun & Hpost).
  { apply wp_menu_switch_efeito; [done|lia| |done]. intros Hs. apply Hhi in Hs. lia. }
  exists (j', w'). split; [by constructor|done].
Qed.

(** The initial fill is a run of [gerarPecas] for the five pieces of the
    queue, and leaves the stack empty. *)
Lemma iniciar_gera f0 p0 w :
  length (fila_itens f0) = Z.to_nat MAX_FILA ->
  length (pilha_itens p0) = Z.to_nat MAX_PILHA ->
  1 <= proxId w -> proxId w + MAX_FILA <= INT_MAX ->
  wp (iniciar f0 p0) w (fun j w' =>
    gerarPecas (Z.to_nat MAX_FILA) w = Ok (conteudo (fila j), w') /\
    pilha_conteudo (pilha j) = []).
Proof.
  intros Hlf Hlp Hlo Hhi. unfold iniciar. wp_step.
  apply wp_reabastecerFila; [by apply inicializarFila_wf|done..|].
  intros f' w' ps _ _ Hq _ _ _ _ Hg. wp_step.
  rewrite inicializarFila_conteudo in Hq. simpl in Hq. by subst ps.
Qed.

(** The step with its draw resolved is a step of the abstract machine. *)
Lemma abs_exec_passo o a t : t ∈ TIPOS -> abs_passo a o (abs_exec o a t).
Proof.
  intros Ht. unfold abs_exec.
  destruct (efeito o (pecas a)) as [[[] c]|] eqn:He.
  - by apply abs_repoe.
  - by apply abs_fixo.
  - by apply abs_nada.
Qed.

(** The counter of the abstract machine never decreases. *)
Lemma abs_passo_prox a o a' : abs_passo a o a' -> prox a <= prox a'.
Proof. destruct 1; simpl; lia. Qed.
End geral.

Section roteiro_lemmas.
Implicit Types (w : Mundo (R := rand_script [])) (k : list nat).

(** With the position of [t] next in the script, [gerarPeca] draws [t]. *)
Lemma sorteio_roteiro w t k :
  t ∈ TIPOS -> semente w = indice t :: k ->
  tipo_sorteado w = Some t /\ (rand_step (semente w)).2 = k.
Proof.
  intros Ht Hs. unfold tipo_sorteado. rewrite Hs.
  repeat (apply elem_of_cons in Ht as [->|Ht]; [done|]).
  by apply elem_of_nil in Ht.
Qed.

(** With the script of the pieces [ps] next, [gerarPecas] returns [ps]. *)
Lemma gerarPecas_roteiro ps w k :
  Forall (fun p => tipo p ∈ TIPOS) ps ->
  id <$> ps = seqZ (proxId w) (Z.of_nat (length ps)) ->
  INT_MIN <= proxId w -> proxId w + Z.of_nat (length ps) <= INT_MAX ->
  semente w = roteiro ps ++ k ->
  exists w', gerarPecas (length ps) w = Ok (ps, w') /\
    proxId w' = proxId w + Z.of_nat (length ps) /\ semente w' = k.
Proof.
  revert w. induction ps as [|[t n] ps IH]; intros w Hts Hids Hlo Hhi Hs.
  - exists w. simpl in *. split_and!; [done|lia|done].
  - apply Forall_cons in Hts as [Ht Hts]. cbn [length] in *.
    rewrite Nat2Z.inj_succ, seqZ_cons in Hids by lia.
    injection Hids as -> Hids.
    destruct (sorteio_roteiro w t (roteiro ps ++ k) Ht Hs) as [Hd Hk].
    destruct (IH (apos_gerar w)) as (w' & Hrun & Hid & Hs'); [done|..].
    + etrans; [exact Hids|]. simpl. f_equal; lia.
    + simpl. lia.
    + simpl. lia.
    + done.
    + exists w'. simpl in Hid. split_and!; [|lia|done].
      simpl. apply prog_bind_ok.
      exists {| tipo := t; id := proxId w |}, (apos_gerar w). split.
      { apply gerarPeca_run; [unfold in_int; lia|done]. }
      apply prog_bind_ok. by exists ps, w'.
Qed.

(** The initial fill realises every initial state of the abstract
    machine: with the script of its queue, whatever the memory held. *)
Lemma iniciar_roteiro f0 p0 a k :
  length (fila_itens f0) = Z.to_nat MAX_FILA ->
  length (pilha_itens p0) = Z.to_nat MAX_PILHA ->
  abs_inicial a ->
  exists j w,
    iniciar f0 p0 (mundo_inicial (R := rand_script []) (roteiro (pecas a).1 ++ k))
      = Ok (j, w) /\
    abs (j, w) = a /\ semente w = k.
Proof.
  destruct a as [[q s] n]. unfold abs_inicial. cbn [pecas prox fst snd].
  intros Hlf Hlp (Hids & Hts & -> & ->).
  set (w0 := mundo_inicial (R := rand_script []) (roteiro q ++ k)).
  assert (Hlen : length q = Z.to_nat MAX_FILA).
  { apply (f_equal length) in Hids. by rewrite length_fmap, length_seqZ in Hids. }
  destruct (gerarPecas_roteiro q w0 k) as (w' & Hg & Hid & Hk);
    [done|by rewrite Hlen|by_compute|by rewrite Hlen|done|].
  pose proof (iniciar_gera f0 p0 w0 Hlf Hlp) as Hi.
  apply wp_ok in Hi as (j & w & Hrun & Hg' & Hp); [|done..].
  rewrite Hlen, Hg' in Hg. injection Hg as Hq Hw. subst w'.
  exists j, w. split_and!; [done| |done]. unfold abs, jogo_conteudo.
  cbn [fst snd]. rewrite Hq, Hp, Hid, Hlen. done.
Qed.

(** A step of the abstract machine is realised from a realised state: the
    script that makes [main] reach the state is extended by the draw of
    the piece the step adds. *)
Lemma realiza_passo a o a' :
  abs_passo a o a' -> prox a' <= INT_MAX -> realiza a -> realiza a'.
Proof.
  intros Hp Hhi Hr k. destruct Hp as [a o He|a o c He|a o c y He [Hid Ht]].
  - apply Hr.
  - destruct (Hr k) as (e & Halc & <- & Hk). cbn [abs pecas] in He.
    destruct (passo_efeito o e) as (e' & Hp & _ & Hpost);
      [by apply alc_inv|unfold repoe; by rewrite He|].
    rewrite He in Hpost. destruct Hpost as (Hc & Hn & Hs).
    exists e'. split_and!; [by apply (alc_passo e o)| |by rewrite Hs].
    unfold abs. by rewrite Hc, Hn.
  - destruct (Hr (indice (tipo y) :: k)) as (e & Halc & <- & Hk).
    cbn [abs pecas prox] in *.
    destruct (passo_efeito o e) as (e' & Hp & _ & Hpost);
      [by apply alc_inv|lia|].
    rewrite He in Hpost. destruct Hpost as (y' & Hc & [Hid' _] & Hn & Hd & Hs).
    destruct (sorteio_roteiro e.2 (tipo y) k Ht Hk) as [Hd' Hk'].
    assert (y' = y) as ->. { destruct y, y'. simpl in *. congruence. }
    exists e'. split_and!; [by apply (alc_passo e o)| |by rewrite Hs].
    unfold abs. by rewrite Hc, Hn.
Qed.

(** Every reachable state of the abstract machine whose counter is an
    [int] is realised. *)
Lemma abs_alcancavel_realiza a :
  abs_alcancavel a -> prox a <= INT_MAX -> realiza a.
Proof.
  induction 1 as [a Hi|a o a' _ IH Hp]; intros Hhi.
  - intros k.
    destruct (iniciar_roteiro fila_lixo_ex pilha_ex a k) as (j & w & Hrun & Ha & Hk);
      [done..|].
    exists (j, w). split; [|done].
    by apply (alc_inicio fila_lixo_ex pilha_ex _ j w eq_refl eq_refl Hrun).
  - apply (realiza_passo a o a'); [done..|]. apply IH.
    pose proof (abs_passo_prox a o a' Hp). lia.
Qed.

(** The states of the examples are states of the abstract machine. *)
Lemma abs_reserva_ex_alcancavel : abs_alcancavel abs_reserva_ex.
Proof.
  apply (abs_alc_passo abs_ex 2).
  - apply abs_alc_inicio. unfold abs_inicial. split_and!; by_compute.
  - apply (abs_exec_passo 2 abs_ex "L"). by_compute.
Qed.

(** ** Theorems *)

(** C18: The abstract machine is complete for the code: every state the
    abstract machine reaches with a counter that is an [int] is the
    abstraction of a state [main] reaches, under the generator that replays
    a script, whatever script [k] is left to replay after it.  The types
    the abstract machine chooses freely are all types [gerarPeca] can
    draw, in any order. *)
Theorem abs_completo a k :
  abs_alcancavel a -> prox a <= INT_MAX ->
  exists e : Estado (R := rand_script []),
    alcancavel e /\ abs e = a /\ semente e.2 = k.
Proof. intros Ha Hhi. by apply abs_alcancavel_realiza. Qed.

(** The abstractions of the states [main] reaches under the scripted
    generator are exactly the states the abstract machine reaches with a
    counter that is an [int]. *)
Theorem maquina_exata a :
  (exists e : Estado (R := rand_script []), alcancavel e /\ abs e = a) <->
  abs_alcancavel a /\ prox a <= INT_MAX.
Proof.
  split.
  - intros (e & Halc & <-). split; [by apply alc_abs|].
    apply alc_inv in Halc as [_ Hid]. simpl. lia.
  - intros [Ha Hhi].
    destruct (abs_alcancavel_realiza a Ha Hhi []) as (e & Halc & He & _).
    by exists e.
Qed.

End roteiro_lemmas.

(** ** Witnesses *)

Lemma abs_completo_witness :
  exists e : Estado (R := rand_script []),
    alcancavel e /\ abs e = abs_reserva_ex /\ semente e.2 = [3; 1; 4]%nat.
Proof.
  apply abs_completo; [apply abs_reserva_ex_alcancavel|by_compute].
Defined.
