(* ===== verification/Exibicao.v ===== *)
(** * Exibicao: what the program shows of the queue and the stack

    Models lines 110-134 of [src/tetris.c]: [mostrarFila], [mostrarPilha] and
    [mostrarEstado], with their [for] loops and every [printf].  The output
    is the string of [Mundo].

    The theorems give the text each function prints as a function of the
    abstract contents alone ([texto_fila], [texto_pilha]): on well-formed
    structures the display never reads a slot outside the live range, and
    what it shows is the queue front to back and the stack base to top. *)

From Stdlib Require Import ZArith String Ascii.
From stdpp Require Import base tactics option list numbers strings.
From S2P Require Import Prelude Mundo Peca Fila Pilha.

#[local] Open Scope Z_scope.

Section exibicao.
Context `{R : Rand}.

(** The body of the loop of [mostrarFila]: [printf("[%c#%d]%s", ...)] reads
    the slot once for the letter and once for the number. *)
Definition mostrarFila_corpo (f : Fila) (i : Z) : Prog Mundo unit :=
  s ← lift (int_add (inicio f) i);
  idx ← lift (int_rem s MAX_FILA);
  x ← lift (arr_get (fila_itens f) idx);
  y ← lift (arr_get (fila_itens f) idx);
  u ← lift (int_sub (total f) 1);
  printf ("[" ++ fmt_c (tipo x) ++ "#" ++ fmt_d (id y) ++ "]" ++
          (if bool_decide (i = u) then "" else " -> ")).

Definition mostrarFila (f : Fila) : Prog Mundo unit :=
  printf (nl ++ "Fila (frente -> tras) [" ++ fmt_d (total f) ++ "/" ++
          fmt_d MAX_FILA ++ "]: ");;
  if bool_decide (total f = 0) then printf ("(vazia)" ++ nl) else
  for_prog 0 (Z.to_nat (total f)) (mostrarFila_corpo f);;
  printf nl.

(** The body of the loop of [mostrarPilha]. *)
Definition mostrarPilha_corpo (p : Pilha) (i : Z) : Prog Mundo unit :=
  x ← lift (arr_get (pilha_itens p) i);
  y ← lift (arr_get (pilha_itens p) i);
  printf ("[" ++ fmt_c (tipo x) ++ "#" ++ fmt_d (id y) ++ "]" ++
          (if bool_decide (i = topo p) then "" else " , ")).

(** The loop [for (i = 0; i <= p->topo; i++)] runs [topo + 1] times; the
    first [printf] has already computed [p->topo + 1]. *)
Definition mostrarPilha (p : Pilha) : Prog Mundo unit :=
  n ← lift (int_add (topo p) 1);
  printf ("Pilha (base .. topo) [" ++ fmt_d n ++ "/" ++ fmt_d MAX_PILHA ++ "]: ");;
  if bool_decide (topo p = -1) then printf ("(vazia)" ++ nl) else
  for_prog 0 (Z.to_nat n) (mostrarPilha_corpo p);;
  (if bool_decide (topo p >= 0) then
     x ← lift (arr_get (pilha_itens p) (topo p));
     y ← lift (arr_get (pilha_itens p) (topo p));
     printf ("  <topo=[" ++ fmt_c (tipo x) ++ "#" ++ fmt_d (id y) ++ "]>")
   else mret tt);;
  printf nl.

Definition mostrarEstado (f : Fila) (p : Pilha) : Prog Mundo unit :=
  mostrarFila f;;
  mostrarPilha p;;
  printf nl.
End exibicao.

(** ** The text of a list of pieces *)

(** What iteration [k] of a loop over [n] pieces prints for piece [p]: the
    piece, and the separator unless it is the last. *)
Definition item_texto (sep : string) (n k : Z) (p : Peca) : string :=
  fmt_peca p ++ (if bool_decide (k = n - 1) then "" else sep).

(** What the iterations from [k] on print for the pieces [ps]. *)
Fixpoint itens_texto (sep : string) (n k : Z) (ps : list Peca) : string :=
  match ps with
  | [] => ""
  | p :: ps' => item_texto sep n k p ++ itens_texto sep n (k + 1) ps'
  end.

(** The pieces with [sep] between them. *)
Fixpoint lista_texto (sep : string) (ps : list Peca) : string :=
  match ps with
  | [] => ""
  | [p] => fmt_peca p
  | p :: ps' => fmt_peca p ++ sep ++ lista_texto sep ps'
  end.

(** A queue, front to back. *)
Definition texto_fila (q : list Peca) : string :=
  nl ++ "Fila (frente -> tras) [" ++ fmt_d (Z.of_nat (length q)) ++ "/" ++
  fmt_d MAX_FILA ++ "]: " ++
  match q with
  | [] => "(vazia)"
  | _ => lista_texto " -> " q
  end ++ nl.

(** A stack, base to top, and its top once more. *)
Definition texto_pilha (s : list Peca) : string :=
  "Pilha (base .. topo) [" ++ fmt_d (Z.of_nat (length s)) ++ "/" ++
  fmt_d MAX_PILHA ++ "]: " ++
  match last s with
  | None => "(vazia)"
  | Some t => lista_texto " , " s ++ "  <topo=" ++ fmt_peca t ++ ">"
  end ++ nl.

Definition texto_estado (q s : list Peca) : string :=
  texto_fila q ++ texto_pilha s ++ nl.

(** ** Examples *)

(** The contents of [fila_ex] at other slots of the array, the free slots
    holding other pieces. *)
Definition fila_gira_ex : Fila :=
  {| fila_itens := [Build_Peca "S" 2; Build_Peca "Z" 3; Build_Peca "J" 7;
                    Build_Peca "L" 6; Build_Peca "T" 1];
     inicio := 4; fim := 2; total := 3 |}.

(** The contents of [pilha_ex] over another free slot. *)
Definition pilha_lixo_ex : Pilha :=
  {| pilha_itens := [Build_Peca "L" 8; Build_Peca "J" 9; Build_Peca "I" 77];
     topo := 1 |}.

(** ** Lemmas *)

Section texto.
Implicit Types (sep : string) (ps : list Peca).

Lemma itens_texto_app sep n k ps1 ps2 :
  itens_texto sep n k (ps1 ++ ps2) =
  (itens_texto sep n k ps1 ++
   itens_texto sep n (k + Z.of_nat (length ps1)) ps2)%string.
Proof.
  revert k. induction ps1 as [|p ps1 IH]; intros k; simpl.
  - by rewrite Z.add_0_r.
  - rewrite IH, <- string_app_assoc. do 3 f_equal. lia.
Qed.

(** The loop prints the list with the separator between its pieces. *)
Lemma itens_texto_lista sep k ps :
  itens_texto sep (k + Z.of_nat (length ps)) k ps = lista_texto sep ps.
Proof.
  revert k. induction ps as [|p ps IH]; intros k; [done|].
  specialize (IH (k + 1)).
  replace (k + Z.of_nat (length (p :: ps)))
    with (k + 1 + Z.of_nat (length ps)) by (simpl length; lia).
  simpl itens_texto. rewrite IH. unfold item_texto. destruct ps as [|p' ps].
  - rewrite bool_decide_eq_true_2 by (simpl; lia).
    simpl. by rewrite !string_app_nil_r.
  - rewrite bool_decide_eq_false_2 by (simpl length; lia).
    by rewrite <- string_app_assoc.
Qed.

Lemma itens_texto_take sep n i ps p :
  ps !! i = Some p ->
  itens_texto sep n 0 (take (S i) ps) =
  (itens_texto sep n 0 (take i ps) ++ item_texto sep n (Z.of_nat i) p)%string.
Proof.
  intros Hp. rewrite (take_S_r _ _ p), itens_texto_app by done. simpl.
  rewrite string_app_nil_r, length_take_le; [done|].
  apply lookup_lt_Some in Hp. lia.
Qed.
End texto.

Section exibicao_lemmas.
Context `{R : Rand}.
Implicit Types (w : Mundo) (f : Fila) (p : Pilha).

(** One iteration of the loop of [mostrarFila] prints piece [i] of the
    contents. *)
Lemma wp_mostrarFila_corpo f i x w (Q : unit -> Mundo -> Prop) :
  fila_wf f -> 0 <= i < total f -> conteudo f !! Z.to_nat i = Some x ->
  Q tt (set_saida (saida w ++ item_texto " -> " (total f) i x)%string w) ->
  wp (mostrarFila_corpo f i) w Q.
Proof.
  intros Hwf Hi Hx HQ. rewrite lookup_conteudo in Hx by done.
  destruct Hwf as (Hl & Hini & Ht & _). unfold mostrarFila_corpo, MAX_FILA in *.
  pose proof (Z.mod_pos_bound (inicio f + i) 5 eq_refl).
  wp_step. wp_step. rewrite int_add_ok by int_lia. simpl.
  wp_step. wp_step. rewrite int_rem_ok by int_lia. simpl.
  wp_step. wp_step. rewrite (arr_get_ok (fila_itens f) _ x) by (done || lia).
  simpl. wp_step. wp_step. simpl.
  wp_step. wp_step. rewrite int_sub_ok by int_lia. simpl.
  apply wp_printf. unfold item_texto, fmt_peca in HQ.
  by str_assoc.
Qed.

(** The loop of [mostrarFila] prints the contents with [" -> "] between
    the pieces. *)
Lemma wp_mostrarFila_laco f w (Q : unit -> Mundo -> Prop) :
  fila_wf f ->
  Q tt (set_saida
          (saida w ++ itens_texto " -> " (total f) 0 (conteudo f))%string w) ->
  wp (for_prog 0 (Z.to_nat (total f)) (mostrarFila_corpo f)) w Q.
Proof.
  intros Hwf HQ. pose proof (length_conteudo f Hwf) as Hlen.
  pose proof Hwf as (_ & _ & Ht & _).
  eapply wp_mono.
  - apply (for_prog_wp (fun i w' =>
      w' = set_saida (saida w ++
             itens_texto " -> " (total f) 0 (take (Z.to_nat i) (conteudo f)))%string w)).
    { simpl. rewrite string_app_nil_r. by destruct w. }
    intros i w1 Hi ->.
    destruct (lookup_lt_is_Some_2 (conteudo f) (Z.to_nat i)) as [x Hx]; [lia|].
    apply (wp_mostrarFila_corpo f i x); [done|lia|done|].
    replace (Z.to_nat (i + 1)) with (S (Z.to_nat i)) by lia.
    rewrite (itens_texto_take _ _ _ _ x), Z2Nat.id by (done || lia).
    simpl. by rewrite string_app_assoc.
  - intros [] w' ->. rewrite Z.add_0_l, Z2Nat.id, firstn_all2 by lia. done.
Qed.
(** What a sequence of [printf]s leaves: only the last output matters. *)
Lemma set_saida_twice a b w : set_saida b (set_saida a w) = set_saida b w.
Proof. done. Qed.

(** The rule of [mostrarFila]. *)
Lemma wp_mostrarFila f w (Q : unit -> Mundo -> Prop) :
  fila_wf f ->
  Q tt (set_saida (saida w ++ texto_fila (conteudo f))%string w) ->
  wp (mostrarFila f) w Q.
Proof.
  intros Hwf HQ. pose proof (total_conteudo f Hwf) as Ht.
  unfold mostrarFila, texto_fila in *. wp_step. apply wp_printf.
  rewrite <- Ht in HQ. case_bool_decide as H0.
  - apply wp_printf. apply conteudo_nil_iff in H0; [|done].
    rewrite H0 in HQ. simpl saida. rewrite set_saida_twice.
    by str_assoc.
  - wp_step. apply wp_mostrarFila_laco; [done|]. apply wp_printf.
    simpl saida. rewrite !set_saida_twice.
    pose proof (itens_texto_lista " -> " 0 (conteudo f)) as Hl.
    rewrite Z.add_0_l, <- Ht in Hl. rewrite Hl.
    destruct (conteudo f) as [|x q] eqn:Hq; [simpl in Ht; lia|].
    by str_assoc.
Qed.

(** One iteration of the loop of [mostrarPilha] prints piece [i] of the
    contents. *)
Lemma wp_mostrarPilha_corpo p i x w (Q : unit -> Mundo -> Prop) :
  pilha_wf p -> 0 <= i <= topo p -> pilha_conteudo p !! Z.to_nat i = Some x ->
  Q tt (set_saida (saida w ++ item_texto " , " (topo p + 1) i x)%string w) ->
  wp (mostrarPilha_corpo p i) w Q.
Proof.
  intros [Hl Ht] Hi Hx HQ. unfold pilha_conteudo in Hx.
  rewrite lookup_take_lt in Hx by lia. unfold mostrarPilha_corpo.
  wp_step. wp_step. rewrite (arr_get_ok (pilha_itens p) _ x) by (done || lia).
  simpl. wp_step. wp_step. simpl. apply wp_printf.
  unfold item_texto, fmt_peca in HQ.
  replace (bool_decide (i = topo p + 1 - 1)) with (bool_decide (i = topo p))
    in HQ by (apply bool_decide_ext; lia).
  by str_assoc.
Qed.

(** The loop of [mostrarPilha] prints the contents with [" , "] between the
    pieces. *)
Lemma wp_mostrarPilha_laco p w (Q : unit -> Mundo -> Prop) :
  pilha_wf p ->
  Q tt (set_saida
          (saida w ++ itens_texto " , " (topo p + 1) 0 (pilha_conteudo p))%string w) ->
  wp (for_prog 0 (Z.to_nat (topo p + 1)) (mostrarPilha_corpo p)) w Q.
Proof.
  intros Hwf HQ. pose proof (length_pilha_conteudo p Hwf) as Hlen.
  pose proof Hwf as (_ & Ht).
  eapply wp_mono.
  - apply (for_prog_wp (fun i w' =>
      w' = set_saida (saida w ++
             itens_texto " , " (topo p + 1) 0
               (take (Z.to_nat i) (pilha_conteudo p)))%string w)).
    { simpl. rewrite string_app_nil_r. by destruct w. }
    intros i w1 Hi ->.
    destruct (lookup_lt_is_Some_2 (pilha_conteudo p) (Z.to_nat i)) as [x Hx];
      [lia|].
    apply (wp_mostrarPilha_corpo p i x); [done|lia|done|].
    replace (Z.to_nat (i + 1)) with (S (Z.to_nat i)) by lia.
    rewrite (itens_texto_take _ _ _ _ x), Z2Nat.id by (done || lia).
    simpl. by rewrite string_app_assoc.
  - intros [] w' ->. rewrite Z.add_0_l, Z2Nat.id, firstn_all2 by lia. done.
Qed.

(** The rule of [mostrarPilha]. *)
Lemma wp_mostrarPilha p w (Q : unit -> Mundo -> Prop) :
  pilha_wf p ->
  Q tt (set_saida (saida w ++ texto_pilha (pilha_conteudo p))%string w) ->
  wp (mostrarPilha p) w Q.
Proof.
  intros Hwf HQ. pose proof (topo_pilha_conteudo p Hwf) as Ht.
  pose proof Hwf as [_ Hr]. unfold MAX_PILHA in Hr.
  assert (Hn : Z.of_nat (length (pilha_conteudo p)) = topo p + 1) by lia.
  unfold mostrarPilha, texto_pilha in *. rewrite Hn in HQ.
  wp_step. wp_step. rewrite int_add_ok by int_lia. simpl.
  wp_step. apply wp_printf. case_bool_decide as H0.
  - apply wp_printf. apply pilha_conteudo_nil_iff in H0; [|done].
    rewrite H0 in HQ. simpl in HQ |- *. by str_assoc.
  - destruct (pilha_conteudo_snoc p Hwf H0) as (x & Hx & Hs).
    wp_step. apply wp_mostrarPilha_laco; [done|].
    rewrite bool_decide_eq_true_2 by lia.
    wp_step. wp_step. wp_step.
    rewrite (arr_get_ok (pilha_itens p) _ x) by (done || lia).
    simpl. wp_step. wp_step. simpl. apply wp_printf. apply wp_printf.
    pose proof (itens_texto_lista " , " 0 (pilha_conteudo p)) as Hl.
    rewrite Z.add_0_l, Hn in Hl. simpl saida. rewrite !set_saida_twice, Hl.
    assert (Hlast : last (pilha_conteudo p) = Some x)
      by (by rewrite Hs, last_snoc).
    rewrite Hlast in HQ. unfold fmt_peca in HQ. by str_assoc.
Qed.

(** The rule of [mostrarEstado]. *)
Lemma wp_mostrarEstado f p w (Q : unit -> Mundo -> Prop) :
  fila_wf f -> pilha_wf p ->
  Q tt (set_saida
          (saida w ++ texto_estado (conteudo f) (pilha_conteudo p))%string w) ->
  wp (mostrarEstado f p) w Q.
Proof.
  intros Hf Hp HQ. unfold mostrarEstado, texto_estado in *.
  wp_step. apply wp_mostrarFila; [done|].
  wp_step. apply wp_mostrarPilha; [done|]. apply wp_printf.
  simpl saida. rewrite !set_saida_twice. by str_assoc.
Qed.

(** On a well-formed queue [mostrarFila] is defined and prints exactly
    [texto_fila] of the contents: the count, then ["(vazia)"] or the pieces
    front to back with [" -> "] between them; nothing else of the process
    state changes. *)
Theorem mostrarFila_spec f w :
  fila_wf f ->
  wp (mostrarFila f) w (fun _ w' =>
    w' = set_saida (saida w ++ texto_fila (conteudo f))%string w).
Proof. intros Hwf. by apply wp_mostrarFila. Qed.

(** On a well-formed stack [mostrarPilha] is defined and prints exactly
    [texto_pilha] of the contents: the count, then ["(vazia)"] or the pieces
    base to top with [" , "] between them followed by the top once more;
    nothing else of the process state changes. *)
Theorem mostrarPilha_spec p w :
  pilha_wf p ->
  wp (mostrarPilha p) w (fun _ w' =>
    w' = set_saida (saida w ++ texto_pilha (pilha_conteudo p))%string w).
Proof. intros Hwf. by apply wp_mostrarPilha. Qed.

(** C40: [mostrarEstado] prints the queue, the stack and an empty line, and
    what it prints depends on the contents of the two structures only: two
    states with the same contents are shown alike, whatever their arrays
    hold outside the live slots. *)
Theorem mostrarEstado_spec f p f' p' w :
  fila_wf f -> pilha_wf p -> fila_wf f' -> pilha_wf p' ->
  conteudo f = conteudo f' -> pilha_conteudo p = pilha_conteudo p' ->
  mostrarEstado f p w = mostrarEstado f' p' w /\
  wp (mostrarEstado f p) w (fun _ w' =>
    w' = set_saida
           (saida w ++ texto_estado (conteudo f) (pilha_conteudo p))%string w).
Proof.
  intros Hf Hp Hf' Hp' Hq Hs.
  assert (H : forall g q, fila_wf g -> pilha_wf q ->
    mostrarEstado g q w =
    Ok (tt, set_saida
              (saida w ++ texto_estado (conteudo g) (pilha_conteudo q))%string w)).
  { intros g q Hg Hq'. pose proof (wp_mostrarEstado g q w (fun _ w' =>
      w' = set_saida (saida w ++ texto_estado (conteudo g) (pilha_conteudo q))%string w)
      Hg Hq' eq_refl) as H.
    apply wp_ok in H as ([] & w' & -> & ->). done. }
  split; [by rewrite !H, Hq, Hs|]. by apply wp_mostrarEstado.
Qed.
End exibicao_lemmas.

(** ** Witnesses *)

Lemma mostrarFila_spec_witness :
  fila_wf fila_ex /\
  wp (mostrarFila fila_ex) mundo_ex (fun _ w' =>
    w' = set_saida (saida mundo_ex ++ texto_fila (conteudo fila_ex))%string
           mundo_ex).
Proof. split; [|apply mostrarFila_spec]; by_compute. Defined.

Lemma mostrarPilha_spec_witness :
  pilha_wf pilha_ex /\
  wp (mostrarPilha pilha_ex) mundo_ex (fun _ w' =>
    w' = set_saida
           (saida mundo_ex ++ texto_pilha (pilha_conteudo pilha_ex))%string
           mundo_ex).
Proof. split; [|apply mostrarPilha_spec]; by_compute. Defined.

Lemma mostrarEstado_spec_witness :
  fila_wf fila_ex /\ pilha_wf pilha_ex /\
  fila_wf fila_gira_ex /\ pilha_wf pilha_lixo_ex /\
  conteudo fila_ex = conteudo fila_gira_ex /\
  pilha_conteudo pilha_ex = pilha_conteudo pilha_lixo_ex /\
  mostrarEstado fila_ex pilha_ex mundo_ex =
    mostrarEstado fila_gira_ex pilha_lixo_ex mundo_ex /\
  wp (mostrarEstado fila_ex pilha_ex) mundo_ex (fun _ w' =>
    w' = set_saida
           (saida mundo_ex ++
            texto_estado (conteudo fila_ex) (pilha_conteudo pilha_ex))%string
           mundo_ex).
Proof.
  split; [|split; [|split; [|split; [|split; [|split;
    [|apply mostrarEstado_spec]]]]]]; by_compute.
Defined.
