(* ===== verification/Saida.v ===== *)
(** * Saida: runs from states that differ in the output

    Every function of [src/tetris.c] writes standard output with [printf]
    and standard output is never read.  In the model the output is the
    field [saida] of [Mundo], so a rule proved from one process state has
    to be used from another that differs in what was printed before.  This
    file is the library that allows it: its lemmas are helpers of the
    proofs about the loop, none is a property of the program on its own.

    [mesmo_jogo] is the equivalence of the process states that differ in
    the output only.  [Cego m] says that [m] gives, from two such states,
    the same result, the same counter and generator and the same text
    appended, or the same error; it is a class with one instance per
    construct of the [Prog] monad and one per function the [switch] calls,
    found by instance resolution.  [cego_run], [cego_escrito] and
    [wp_cego] are what [Jogo.v], [Sessao.v] and [Texto.v] use of it:
    [escrito m w] is the text [m] appends to any output. *)

From Stdlib Require Import ZArith String Ascii.
From stdpp Require Import base tactics option list numbers strings.
From S2P Require Import Prelude Mundo Peca Fila Pilha Troca Menu.

#[local] Open Scope Z_scope.

Section saida.
Context `{R : Rand}.

(** Two process states that differ in the output only. *)
Definition mesmo_jogo (w1 w2 : Mundo) : Prop :=
  proxId w1 = proxId w2 /\ semente w1 = semente w2.

(** The outcomes of one program from [w1] and from [w2] agree: the same
    error, or the same value, the same counter and generator and the same
    text appended. *)
Definition res_cego {A} (w1 w2 : Mundo) (r1 r2 : Res (A * Mundo)) : Prop :=
  match r1, r2 with
  | Ok (a1, w1'), Ok (a2, w2') =>
      a1 = a2 /\ mesmo_jogo w1' w2' /\
      exists t, saida w1' = (saida w1 ++ t)%string /\
                saida w2' = (saida w2 ++ t)%string
  | Err e1, Err e2 => e1 = e2
  | _, _ => False
  end.

(** [m] does not read the output. *)
Class Cego {A} (m : Prog Mundo A) : Prop :=
  cego : forall w1 w2, mesmo_jogo w1 w2 -> res_cego w1 w2 (m w1) (m w2).

(** The text [m] prints from [w]. *)
Definition escrito {A} (m : Prog Mundo A) (w : Mundo) : string :=
  match m (set_saida "" w) with
  | Ok (_, w') => saida w'
  | Err _ => ""
  end.
End saida.

Infix "≡ₘ" := mesmo_jogo (at level 70, no associativity) : stdpp_scope.

#[export] Hint Extern 2 (Cego (match ?x with _ => _ end)) =>
  destruct x : typeclass_instances.

(** ** The constructs of the monad *)

Section cego_monad.
Context `{R : Rand}.

#[export] Instance mesmo_jogo_equiv : Equivalence mesmo_jogo.
Proof.
  unfold mesmo_jogo. split.
  - by intros w.
  - by intros w1 w2 [-> ->].
  - by intros w1 w2 w3 [-> ->] [-> ->].
Qed.

#[export] Instance proxId_proper : Proper (mesmo_jogo ==> eq) proxId.
Proof. by intros w1 w2 [? ?]. Qed.

#[export] Instance semente_proper : Proper (mesmo_jogo ==> eq) semente.
Proof. by intros w1 w2 [? ?]. Qed.

Lemma mesmo_jogo_set_saida o w : set_saida o w ≡ₘ w.
Proof. done. Qed.

(** A step that prints nothing. *)
Lemma res_cego_calado {A} (a : A) w1 w2 v1 v2 :
  v1 ≡ₘ v2 -> saida v1 = saida w1 -> saida v2 = saida w2 ->
  res_cego w1 w2 (Ok (a, v1)) (Ok (a, v2)).
Proof.
  intros Hv H1 H2. split_and!; [done..|]. exists "".
  by rewrite !string_app_nil_r.
Qed.

#[export] Instance cego_ret {A} (a : A) : Cego (mret a).
Proof. intros w1 w2 Hw. by apply res_cego_calado. Qed.

#[export] Instance cego_lift {A} (r : Res A) : Cego (lift r).
Proof.
  intros w1 w2 Hw. unfold lift. destruct r; [|done]. by apply res_cego_calado.
Qed.

#[export] Instance cego_bind {A B} (m : Prog Mundo A) (k : A -> Prog Mundo B) :
  Cego m -> (forall a, Cego (k a)) -> Cego (m ≫= k).
Proof.
  intros Hm Hk w1 w2 Hw. specialize (Hm w1 w2 Hw).
  unfold res_cego, mbind, prog_bind in *.
  destruct (m w1) as [[a1 w1']|e1], (m w2) as [[a2 w2']|e2]; try done.
  destruct Hm as (-> & Hw' & t & Ht1 & Ht2).
  specialize (Hk a2 w1' w2' Hw'). unfold res_cego in Hk.
  destruct (k a2 w1') as [[b1 v1]|], (k a2 w2') as [[b2 v2]|]; try done.
  destruct Hk as (-> & Hv & t' & Ht1' & Ht2'). split_and!; [done..|].
  exists (t ++ t')%string. by rewrite Ht1', Ht1, Ht2', Ht2, !string_app_assoc.
Qed.

#[export] Instance cego_printf t : Cego (printf t).
Proof. intros w1 w2 Hw. split_and!; [done..|]. by exists t. Qed.

#[export] Instance cego_rand : Cego rand.
Proof.
  intros w1 w2 [Hid Hs]. rewrite !rand_run, Hs. by apply res_cego_calado.
Qed.

#[export] Instance cego_gets_proxId : Cego (gets proxId).
Proof.
  intros w1 w2 Hw. unfold gets. rewrite (proxId_proper _ _ Hw).
  by apply res_cego_calado.
Qed.

#[export] Instance cego_set_proxId n : Cego (modify (set_proxId n)).
Proof. intros w1 w2 [Hid Hs]. by apply res_cego_calado. Qed.

#[export] Instance cego_for_prog lo n (body : Z -> Prog Mundo unit) :
  (forall i, Cego (body i)) -> Cego (for_prog lo n body).
Proof.
  intros Hb. revert lo. induction n as [|n IH]; intros lo; simpl; apply _.
Qed.
End cego_monad.

(** ** The functions of the source *)

Section cego_programas.
Context `{R : Rand}.

#[export] Instance cego_gerarPeca : Cego gerarPeca.
Proof. unfold gerarPeca. apply _. Qed.

#[export] Instance cego_reabastecerFila_fuel n f :
  Cego (reabastecerFila_fuel n f).
Proof. revert f. induction n as [|n IH]; intros f; simpl; apply _. Qed.

#[export] Instance cego_reabastecerFila f : Cego (reabastecerFila f).
Proof. unfold reabastecerFila. apply _. Qed.

#[export] Instance cego_trocarFrenteComTopo f p :
  Cego (trocarFrenteComTopo f p).
Proof. unfold trocarFrenteComTopo. apply _. Qed.

#[export] Instance cego_trocarTres f p : Cego (trocarTres f p).
Proof. unfold trocarTres. apply _. Qed.

#[export] Instance cego_caso_jogar j : Cego (caso_jogar j).
Proof. unfold caso_jogar. apply _. Qed.

#[export] Instance cego_caso_reservar j : Cego (caso_reservar j).
Proof. unfold caso_reservar. apply _. Qed.

#[export] Instance cego_caso_usar j : Cego (caso_usar j).
Proof. unfold caso_usar. apply _. Qed.

#[export] Instance cego_caso_trocar j : Cego (caso_trocar j).
Proof. unfold caso_trocar. apply _. Qed.

#[export] Instance cego_caso_trocar_tres j : Cego (caso_trocar_tres j).
Proof. unfold caso_trocar_tres. apply _. Qed.

#[export] Instance cego_menu_switch o j : Cego (menu_switch o j).
Proof. unfold menu_switch. apply _. Qed.

#[export] Instance cego_menu_lista ops j : Cego (menu_lista ops j).
Proof. revert j. induction ops as [|o ops IH]; intros j; simpl; apply _. Qed.

End cego_programas.

(** ** What follows for a run *)

Section cego_lemmas.
Context `{R : Rand} {A : Type}.
Implicit Types (m : Prog Mundo A) (w : Mundo).

(** A run from [w1] is a run from every state that differs from [w1] in
    the output only. *)
Lemma cego_run m `{!Cego m} w1 w2 a w1' :
  w1 ≡ₘ w2 -> m w1 = Ok (a, w1') ->
  exists w2', m w2 = Ok (a, w2') /\ w1' ≡ₘ w2' /\
    exists t, saida w1' = (saida w1 ++ t)%string /\
              saida w2' = (saida w2 ++ t)%string.
Proof.
  intros Hw Hrun. pose proof (cego w1 w2 Hw) as H. rewrite Hrun in H.
  unfold res_cego in H. destruct (m w2) as [[a2 w2']|]; [|done].
  destruct H as (-> & ? & ?). by exists w2'.
Qed.

(** The output only grows, by the text [escrito] computes. *)
Lemma cego_escrito m `{!Cego m} w a w' :
  m w = Ok (a, w') -> saida w' = (saida w ++ escrito m w)%string.
Proof.
  intros Hrun.
  destruct (cego_run m w (set_saida "" w) a w' (conj eq_refl eq_refl) Hrun)
    as (w2 & Hrun2 & _ & t & Ht & Ht2).
  unfold escrito. rewrite Hrun2, Ht2. by rewrite Ht.
Qed.

(** A rule proved from [w1] holds from [w2], for a postcondition that does
    not look at the output. *)
Lemma wp_cego m `{!Cego m} w1 w2 (Q : A -> Mundo -> Prop) :
  w1 ≡ₘ w2 -> wp m w1 (fun a w' => forall v, w' ≡ₘ v -> Q a v) -> wp m w2 Q.
Proof.
  intros Hw H. apply wp_ok in H as (a & w1' & Hrun & HQ).
  destruct (cego_run m w1 w2 a w1' Hw Hrun) as (w2' & Hrun2 & Hw' & _).
  apply wp_ok. exists a, w2'. auto.
Qed.
End cego_lemmas.
