(* ===== verification/Entrada.v ===== *)
(** * Entrada: standard input

    Models lines 176-188 of [src/tetris.c], [pausaEnter] and [limparEntrada],
    and the two functions of the libc they and [main] read with: [getchar]
    and [scanf("%d", ...)].

    Standard input is the string of the characters not yet read; its end is
    the end of file.  The state of the process becomes a [Proc]: the [Mundo]
    of the other files, the input, and the value of the clock that
    [time(NULL)] returns at line 192.  A program of the other files runs in
    it through [no_mundo], which leaves the input alone.

    [scanf_d] follows the C standard (7.21.6.2): white space is skipped, the
    longest prefix that is an optionally signed sequence of digits is
    consumed, a value that does not fit an [int] is undefined, and the call
    returns 1, 0 (no digits) or [EOF] (no characters).

    The loops of [limparEntrada] and [pausaEnter] read one character per
    iteration, so the length of the input plus one bounds them: they are
    total, with no assumption on the input. *)

From Stdlib Require Import ZArith String Ascii DecimalString DecimalZ.
From stdpp Require Import base tactics option list numbers strings.
From S2P Require Import Prelude Mundo.

#[local] Open Scope Z_scope.

(** [EOF] *)
Definition EOF : Z := -1.

(** [isspace] in the "C" locale. *)
Definition is_space (c : ascii) : bool :=
  bool_decide (c ∈ [" "; "009"; "010"; "011"; "012"; "013"]%char).

(** [isdigit] *)
Definition is_digit (c : ascii) : bool :=
  bool_decide (c ∈ ["0"; "1"; "2"; "3"; "4"; "5"; "6"; "7"; "8"; "9"]%char).

Fixpoint skip_space (s : string) : string :=
  match s with
  | String c s' => if is_space c then skip_space s' else s
  | EmptyString => EmptyString
  end.

(** The longest prefix of digits, and what follows it. *)
Fixpoint digitos (s : string) : string * string :=
  match s with
  | String c s' =>
      if is_digit c then (String c (digitos s').1, (digitos s').2)
      else (EmptyString, s)
  | EmptyString => (EmptyString, EmptyString)
  end.

(** An optional sign: is it a minus, and what follows it. *)
Definition sinal (s : string) : bool * string :=
  match s with
  | String c s' =>
      if decide (c = "-"%char) then (true, s')
      else if decide (c = "+"%char) then (false, s')
      else (false, s)
  | EmptyString => (false, EmptyString)
  end.

(** [scanf("%d", &x)] on the input [s]: the value returned, the value stored
    in [x] if any, and the input left. *)
Definition scanf_d_str (s : string) : Res (Z * option Z * string) :=
  match skip_space s with
  | EmptyString => Ok (EOF, None, EmptyString)
  | s0 =>
      let '(neg, s1) := sinal s0 in
      let '(d, r) := digitos s1 in
      match NilZero.uint_of_string d with
      | None => Ok (0, None, r)
      | Some u =>
          v ← int_of (if neg : bool then - Z.of_uint u else Z.of_uint u);
          Ok (1, Some v, r)
      end
  end.

Section entrada.
Context `{R : Rand}.

(** The state of the process: the counter, the generator and the output,
    and the input not yet read. *)
Record Proc : Type := {
  mundo : Mundo;
  entrada : string;
  relogio : Z  (* the calendar time, as [time] returns it *)
}.

Definition set_mundo (w : Mundo) (s : Proc) : Proc :=
  {| mundo := w; entrada := entrada s; relogio := relogio s |}.
Definition set_entrada (i : string) (s : Proc) : Proc :=
  {| mundo := mundo s; entrada := i; relogio := relogio s |}.

(** The process when [main] starts: the generator in the state [sd] the
    libc starts it in, the input [i] and the clock at [t]. *)
Definition proc_inicial (sd : rand_state) (i : string) (t : Z) : Proc :=
  {| mundo := mundo_inicial sd; entrada := i; relogio := t |}.

(** [time(NULL)] *)
Definition time_null : Prog Proc Z := gets relogio.

(** A program that does not read. *)
Definition no_mundo {A} (m : Prog Mundo A) : Prog Proc A :=
  fun s =>
    match m (mundo s) with
    | Ok (a, w) => Ok (a, set_mundo w s)
    | Err e => Err e
    end.

(** [getchar()]: the next character, or [EOF] ([None]) at the end. *)
Definition getchar : Prog Proc (option ascii) :=
  i ← gets entrada;
  match i with
  | String c i' => modify (set_entrada i');; mret (Some c)
  | EmptyString => mret None
  end.

Definition scanf_d : Prog Proc (Z * option Z) :=
  i ← gets entrada;
  r ← lift (scanf_d_str i);
  modify (set_entrada r.2);;
  mret r.1.

(** [while ((ch = getchar()) != '\n' && ch != EOF) { }] with at most [n]
    iterations. *)
Fixpoint limparEntrada_fuel (n : nat) : Prog Proc unit :=
  match n with
  | O => lift (Err OutOfFuel)
  | S n' =>
      ch ← getchar;
      if bool_decide (ch <> Some "010"%char /\ ch <> None)
      then limparEntrada_fuel n'
      else mret tt
  end.

(** The loop reads a character per iteration: one more than the length of
    the input is enough. *)
Definition limparEntrada : Prog Proc unit :=
  i ← gets entrada;
  limparEntrada_fuel (S (String.length i)).

Definition msg_pausa : string := nl ++ "Pressione ENTER para continuar...".

Definition pausaEnter : Prog Proc unit :=
  no_mundo (printf msg_pausa);;
  limparEntrada;;
  getchar;;
  mret tt.
End entrada.

Arguments Proc {R}.

(** ** What the loops leave of the input *)

(** The input after its first line. *)
Fixpoint apos_linha (s : string) : string :=
  match s with
  | String c s' => if bool_decide (c = "010"%char) then s' else apos_linha s'
  | EmptyString => EmptyString
  end.

(** The input after one more character. *)
Definition apos_char (s : string) : string :=
  match s with String _ s' => s' | EmptyString => EmptyString end.

(** ** Examples *)

Definition entrada_ex : string := "  -42abc" ++ nl ++ "7" ++ nl.

(** ** Lemmas *)

Section digitos.
Implicit Types (s r : string) (c : ascii) (d : Decimal.uint).

(** The digits of a number are digits. *)
Lemma digitos_string_of_uint d c r :
  is_digit c = false ->
  digitos (NilEmpty.string_of_uint d ++ String c r) =
    (NilEmpty.string_of_uint d, String c r).
Proof.
  intros Hc. induction d; simpl; rewrite ?Hc, ?IHd; done.
Qed.

Lemma string_of_uint_cons d :
  d <> Decimal.Nil ->
  exists c s, NilEmpty.string_of_uint d = String c s /\
    is_digit c = true /\ is_space c = false /\ c <> "-"%char /\ c <> "+"%char.
Proof. destruct d; [done|..]; intros _; eexists _, _; by split_and!. Qed.

Lemma pos_to_uint_nonnil p : Pos.to_uint p <> Decimal.Nil.
Proof.
  intros H. pose proof (DecimalPos.Unsigned.of_to p) as Hp.
  by rewrite H in Hp.
Qed.

(** Reading back the digits of a positive number. *)
Lemma digitos_pos p c r :
  is_digit c = false ->
  exists c0 s0,
    NilEmpty.string_of_uint (Pos.to_uint p) = String c0 s0 /\
    is_space c0 = false /\ c0 <> "-"%char /\ c0 <> "+"%char /\
    digitos (String c0 s0 ++ String c r) = (String c0 s0, String c r) /\
    NilZero.uint_of_string (String c0 s0) = Some (Pos.to_uint p).
Proof.
  intros Hc. pose proof (pos_to_uint_nonnil p) as Hn.
  destruct (string_of_uint_cons _ Hn) as (c0 & s0 & Hs & _ & Hsp & Hm & Hp).
  exists c0, s0. split_and!; try done.
  - by rewrite <- Hs, digitos_string_of_uint.
  - rewrite <- Hs. unfold NilZero.uint_of_string. rewrite Hs, <- Hs.
    by apply NilEmpty.usu.
Qed.
End digitos.

Lemma fmt_d_pos p :
  fmt_d (Z.pos p) = NilEmpty.string_of_uint (Pos.to_uint p).
Proof.
  unfold fmt_d. simpl. pose proof (pos_to_uint_nonnil p).
  by destruct (Pos.to_uint p).
Qed.

Lemma fmt_d_neg p :
  fmt_d (Z.neg p) = String "-" (NilEmpty.string_of_uint (Pos.to_uint p)).
Proof.
  unfold fmt_d. simpl. pose proof (pos_to_uint_nonnil p).
  by destruct (Pos.to_uint p).
Qed.

Lemma of_uint_pos p : Z.of_uint (Pos.to_uint p) = Z.pos p.
Proof. unfold Z.of_uint. by rewrite DecimalPos.Unsigned.of_to. Qed.

(** [scanf_d_str] on an input whose parts are known. *)
Lemma scanf_d_str_run s c0 s0 neg s1 d r u :
  skip_space s = String c0 s0 -> sinal (String c0 s0) = (neg, s1) ->
  digitos s1 = (d, r) -> NilZero.uint_of_string d = Some u ->
  scanf_d_str s =
    (v ← int_of (if neg then - Z.of_uint u else Z.of_uint u); Ok (1, Some v, r)).
Proof.
  intros Hs Hn Hd Hu. unfold scanf_d_str. by rewrite Hs, Hn, Hd, Hu.
Qed.

(** [scanf("%d")] reads back what [printf("%d")] writes, up to the first
    character that is not a digit. *)
Lemma scanf_d_str_fmt_d z c r :
  in_int z -> is_digit c = false ->
  scanf_d_str (fmt_d z ++ String c r) = Ok (1, Some z, String c r).
Proof.
  intros Hz Hc. destruct z as [|p|p].
  - unfold scanf_d_str. simpl. by rewrite Hc.
  - destruct (digitos_pos p c r Hc) as (c0 & s0 & Hs & Hsp & Hm & Hp & Hd & Hu).
    rewrite fmt_d_pos, Hs.
    erewrite (scanf_d_str_run _ c0 _ false); [|by simpl; rewrite Hsp| |done..].
    + by rewrite of_uint_pos, int_of_ok.
    + simpl. by rewrite !decide_False.
  - destruct (digitos_pos p c r Hc) as (c0 & s0 & Hs & Hsp & Hm & Hp & Hd & Hu).
    rewrite fmt_d_neg, Hs.
    erewrite (scanf_d_str_run _ "-" _ true); [|done..].
    by rewrite of_uint_pos, int_of_ok.
Qed.

(** A failed [scanf] does not return 1. *)
Lemma scanf_d_str_none i r i' : scanf_d_str i = Ok (r, None, i') -> r <> 1.
Proof.
  unfold scanf_d_str. destruct (skip_space i); [by intros [= <- _]|].
  destruct (sinal _) as [neg s1]. destruct (digitos s1) as [d i1].
  destruct (NilZero.uint_of_string d); [|by intros [= <- _]].
  by destruct (int_of _).
Qed.

Lemma scanf_d_str_eof : scanf_d_str "" = Ok (EOF, None, ""%string).
Proof. done. Qed.

(** A number that does not fit an [int] makes [scanf("%d")] undefined. *)
Lemma scanf_d_str_overflow z resto :
  ~ in_int z -> scanf_d_str (fmt_d z ++ nl ++ resto) = Err IntOverflow.
Proof.
  intros Hz. destruct z as [|p|p]; [by destruct Hz|..];
    destruct (digitos_pos p "010" resto eq_refl)
      as (c0 & s0 & Hs0 & Hsp & Hm & Hp & Hd & Hu).
  - rewrite fmt_d_pos, Hs0.
    erewrite (scanf_d_str_run _ c0 _ false); [|by simpl; rewrite Hsp| |done..].
    + by rewrite of_uint_pos, int_of_err.
    + simpl. by rewrite !decide_False.
  - rewrite fmt_d_neg, Hs0.
    erewrite (scanf_d_str_run _ "-" _ true); [|done..].
    by rewrite of_uint_pos, int_of_err.
Qed.

(** The same on a line. *)
Lemma scanf_d_str_linha z resto :
  in_int z ->
  scanf_d_str (fmt_d z ++ nl ++ resto) = Ok (1, Some z, (nl ++ resto)%string).
Proof. intros Hz. by apply (scanf_d_str_fmt_d z "010" resto). Qed.

Lemma apos_linha_nl resto : apos_linha (nl ++ resto) = resto.
Proof. done. Qed.

(** ** What a read consumes *)

Section leitura.
Implicit Types (i r : string) (c : ascii).

Lemma skip_space_length i : (String.length (skip_space i) <= String.length i)%nat.
Proof. induction i as [|c i IH]; simpl; [done|]. destruct (is_space c); simpl; lia. Qed.

Lemma digitos_length i : (String.length (digitos i).2 <= String.length i)%nat.
Proof. induction i as [|c i IH]; simpl; [done|]. destruct (is_digit c); simpl; lia. Qed.

Lemma sinal_length i : (String.length (sinal i).2 <= String.length i)%nat.
Proof. destruct i as [|c i]; simpl; [done|]. repeat case_decide; simpl; lia. Qed.

(** [scanf] leaves a suffix of the input. *)
Lemma scanf_d_str_length i x i' :
  scanf_d_str i = Ok (x, i') -> (String.length i' <= String.length i)%nat.
Proof.
  unfold scanf_d_str. pose proof (skip_space_length i) as Hs.
  destruct (skip_space i) as [|c i0]; [intros [= <- <-]; simpl; lia|].
  pose proof (sinal_length (String c i0)) as Hn.
  destruct (sinal _) as [neg i1]. pose proof (digitos_length i1) as Hd.
  destruct (digitos i1) as [d i2]. simpl in Hs, Hn, Hd.
  destruct (NilZero.uint_of_string d); [|intros [= <- <-]; lia].
  destruct (int_of _); [|done]. intros [= <- <-]. lia.
Qed.

Lemma apos_linha_length i : (String.length (apos_linha i) <= String.length i)%nat.
Proof. induction i as [|c i IH]; simpl; [done|]. case_bool_decide; lia. Qed.

(** A read and the line discarded after it consume a character at least,
    unless the input is at its end. *)
Lemma leitura_consome i x i' :
  i <> ""%string -> scanf_d_str i = Ok (x, i') ->
  (String.length (apos_linha i') < String.length i)%nat.
Proof.
  intros Hi Hr. apply scanf_d_str_length in Hr.
  destruct i' as [|c i']; [destruct i; simpl; [done|lia]|].
  pose proof (apos_linha_length i'). simpl in *. case_bool_decide; lia.
Qed.

(** Only a read at the end of the input returns [EOF]-like results on an
    empty input: a read that returns 1 found a character. *)
Lemma scanf_d_str_um i ov i' : scanf_d_str i = Ok (1, ov, i') -> i <> ""%string.
Proof. by intros Hr ->. Qed.
End leitura.

Section entrada_lemmas.
Context `{R : Rand}.
Implicit Types (s : Proc) (w : Mundo).

Lemma wp_no_mundo {A} (m : Prog Mundo A) s (Q : A -> Proc -> Prop) :
  wp m (mundo s) (fun a w => Q a (set_mundo w s)) -> wp (no_mundo m) s Q.
Proof. unfold wp, no_mundo. by destruct (m (mundo s)) as [[]|]. Qed.

Lemma no_mundo_eq {A} (m : Prog Mundo A) s :
  no_mundo m s =
    match m (mundo s) with
    | Ok (a, w) => Ok (a, set_mundo w s)
    | Err e => Err e
    end.
Proof. done. Qed.

Lemma wp_getchar s (Q : option ascii -> Proc -> Prop) :
  match entrada s with
  | String c i => Q (Some c) (set_entrada i s)
  | EmptyString => Q None s
  end ->
  wp getchar s Q.
Proof. unfold wp, getchar, mbind, prog_bind, gets. by destruct (entrada s). Qed.

Lemma wp_scanf_d s (Q : Z * option Z -> Proc -> Prop) :
  res_wp (scanf_d_str (entrada s)) (fun r => Q r.1 (set_entrada r.2 s)) ->
  wp scanf_d s Q.
Proof.
  unfold wp, scanf_d, mbind, prog_bind, gets, lift.
  by destruct (scanf_d_str (entrada s)) as [[]|].
Qed.

(** The only error of [scanf("%d")] is a number outside [int]. *)
Lemma scanf_d_str_erro i e : scanf_d_str i = Err e -> e = IntOverflow.
Proof.
  unfold scanf_d_str. destruct (skip_space i) as [|c i0]; [done|].
  destruct (sinal _) as [neg s1], (digitos s1) as [d r].
  destruct (NilZero.uint_of_string d) as [u|]; [|done].
  unfold int_of, mbind, res_bind. by case_decide; [|intros [= <-]].
Qed.

Lemma wpe_no_mundo {A} E (m : Prog Mundo A) s (Q : A -> Proc -> Prop) :
  wpe E m (mundo s) (fun a w => Q a (set_mundo w s)) -> wpe E (no_mundo m) s Q.
Proof. unfold wpe, no_mundo. by destruct (m (mundo s)) as [[]|]. Qed.

Lemma wpe_scanf_d (E : Erro -> Prop) s (Q : Z * option Z -> Proc -> Prop) :
  E IntOverflow ->
  (forall r i', scanf_d_str (entrada s) = Ok (r, i') ->
     Q r (set_entrada i' s)) ->
  wpe E scanf_d s Q.
Proof.
  intros HE HQ. unfold wpe, scanf_d, mbind, prog_bind, gets, lift.
  destruct (scanf_d_str (entrada s)) as [[r i']|e] eqn:Hr; [by apply HQ|].
  by apply scanf_d_str_erro in Hr as ->.
Qed.

(** The loop of [limparEntrada] with more fuel than characters: the input
    is left after its first line. *)
Lemma limparEntrada_fuel_run n s :
  (String.length (entrada s) < n)%nat ->
  limparEntrada_fuel n s = Ok (tt, set_entrada (apos_linha (entrada s)) s).
Proof.
  revert s. induction n as [|n IH]; intros [w i] Hn; [lia|].
  simpl in Hn. cbn [limparEntrada_fuel]. unfold mbind, prog_bind, getchar, gets.
  destruct i as [|c i]; simpl; [done|].
  destruct (decide (c = "010"%char)) as [->|Hc]; [done|].
  rewrite bool_decide_eq_true_2, bool_decide_eq_false_2 by naive_solver.
  simpl in Hn. by rewrite IH by (simpl; lia).
Qed.

Lemma limparEntrada_run s :
  limparEntrada s = Ok (tt, set_entrada (apos_linha (entrada s)) s).
Proof.
  unfold limparEntrada, mbind, prog_bind, gets.
  by rewrite limparEntrada_fuel_run by lia.
Qed.

Lemma wp_limparEntrada s (Q : unit -> Proc -> Prop) :
  Q tt (set_entrada (apos_linha (entrada s)) s) -> wp limparEntrada s Q.
Proof. intros HQ. unfold wp. by rewrite limparEntrada_run. Qed.
End entrada_lemmas.

(** The result of a program that reads, step by step. *)
Ltac prog_run :=
  repeat first
    [rewrite prog_bind_eq | rewrite no_mundo_eq | rewrite printf_run
    |rewrite limparEntrada_run].

(** One step of a weakest-precondition proof of a program that reads. *)
Ltac wp_io :=
  lazymatch goal with
  | |- wp limparEntrada _ _ => apply wp_limparEntrada
  | |- wp getchar _ _ => apply wp_getchar
  | |- wp scanf_d _ _ => apply wp_scanf_d
  | |- wp (no_mundo _) _ _ => apply wp_no_mundo
  | |- wp (printf _) _ _ => apply wp_printf
  | |- wp (srand _) _ _ => apply wp_srand
  | |- wp time_null _ _ => apply wp_gets
  | |- _ => wp_step
  end.

Section entrada_theorems.
Context `{R : Rand}.
Implicit Types (s : Proc) (w : Mundo).

(** C39: [limparEntrada] always ends: whatever the input holds, the loop stops
    at the first new line or at the end of the input, within the fuel the
    model gives it, and leaves the input after that line; the rest of the
    process state is untouched. *)
Theorem limparEntrada_spec s :
  limparEntrada s = Ok (tt, set_entrada (apos_linha (entrada s)) s).
Proof.
  pose proof (wp_limparEntrada s (fun _ s' =>
    s' = set_entrada (apos_linha (entrada s)) s) eq_refl) as H.
  by apply wp_ok in H as ([] & s' & -> & ->).
Qed.

(** [pausaEnter] prints its prompt, discards the input up to the first new
    line and then one more character, and always ends. *)
Theorem pausaEnter_spec s :
  pausaEnter s =
    Ok (tt, {| mundo := set_saida (saida (mundo s) ++ msg_pausa)%string (mundo s);
               entrada := apos_char (apos_linha (entrada s));
               relogio := relogio s |}).
Proof.
  pose proof (fun Q H => proj1 (wp_ok pausaEnter s Q) H) as Hwp.
  destruct (Hwp (fun _ s' => s' =
    {| mundo := set_saida (saida (mundo s) ++ msg_pausa)%string (mundo s);
       entrada := apos_char (apos_linha (entrada s));
       relogio := relogio s |}))
    as ([] & s' & -> & ->); [|done].
  unfold pausaEnter. repeat wp_io. simpl.
  by destruct (apos_linha (entrada s)); wp_io.
Qed.

(** C38: Reading a number the way [main] does, [scanf("%d")] followed by
    [limparEntrada], on a line that holds the decimal text of an [int]:
    the call returns 1, stores that number, and the input is left at the
    start of the next line. *)
Theorem ler_numero_spec z resto s :
  in_int z -> entrada s = (fmt_d z ++ nl ++ resto)%string ->
  wp (r ← scanf_d; limparEntrada;; mret r) s (fun r s' =>
    r = (1, Some z) /\ s' = set_entrada resto s).
Proof.
  intros Hz Hs. wp_io. wp_io.
  rewrite Hs, scanf_d_str_linha by done. cbn [res_wp fst snd].
  wp_io. wp_io. cbn [entrada set_entrada]. rewrite apos_linha_nl. by wp_io.
Qed.
End entrada_theorems.

(** ** Witnesses *)

Lemma ler_numero_spec_witness :
  in_int (-42) /\
  entrada (proc_inicial (R := rand_lcg) 1 ("-42" ++ nl ++ "7") 0) =
    (fmt_d (-42) ++ nl ++ "7")%string /\
  wp (r ← scanf_d; limparEntrada;; mret r)
    (proc_inicial (R := rand_lcg) 1 ("-42" ++ nl ++ "7") 0)
    (fun r s' =>
       r = (1, Some (-42)) /\
       s' = set_entrada "7"
              (proc_inicial (R := rand_lcg) 1 ("-42" ++ nl ++ "7") 0)).
Proof.
  split; [|split; [|apply (ler_numero_spec (-42) "7")]]; by_compute.
Defined.
