(* ===== verification/Jogo.v ===== *)
(** * Jogo: the menu loop of [main]

    Models lines 191-291 of [src/tetris.c]: the whole of [main].  [corpo] is
    the body of the [do ... while], from the title to the display after the
    choice; [laco] is the loop, on fuel, with the local [opcao] as an
    [option Z] that is [None] until [scanf] has stored a value in it; [main]
    is the initialisation followed by the loop.

    [continue] in a [do ... while] jumps to the test of the loop: when
    [scanf] fails, [corpo] ends with [opcao] as it was, and the test reads it.

    The theorems show that on any input [main] ends with status 0 or with
    one of three errors, none of them an access outside an array
    ([main_seguro]); that a session of well-formed lines ending with a line
    [0] ends with exit status 0 after one iteration per line
    ([main_termina]); that the loop ends such a session with the locals,
    the counter and the generator that the run [menu_lista] of the same
    choices gives ([laco_refina]), which are a state of the machine of
    [Maquina] ([laco_alcancavel]); that a first line that is not a number
    makes the test read the uninitialised [opcao] ([main_uninit]); and that
    once a choice other than [0] has been read, the end of the input makes
    the loop run for ever ([laco_eof]). *)

From Stdlib Require Import ZArith String Ascii.
From stdpp Require Import base tactics option list numbers strings.
From S2P Require Import Prelude Mundo Peca Fila Pilha Troca Menu Maquina.
From S2P Require Import Exibicao Saida Entrada.

#[local] Open Scope Z_scope.

Definition msg_titulo_1 : string := nl ++ "=============================" ++ nl.
Definition msg_titulo_2 : string := "  Desafio Tetris Stack (C)" ++ nl.
Definition msg_titulo_3 : string := "=============================" ++ nl.
Definition msg_menu_0 : string := "Menu:" ++ nl.
Definition msg_menu_1 : string :=
  " 1 - Jogar peca (remove da frente da fila)" ++ nl.
Definition msg_menu_2 : string :=
  " 2 - Enviar peca da fila para a reserva (pilha)" ++ nl.
Definition msg_menu_3 : string :=
  " 3 - Usar peca da reserva (pop da pilha)" ++ nl.
Definition msg_menu_4 : string :=
  " 4 - Trocar peca da frente com topo da pilha" ++ nl.
Definition msg_menu_5 : string :=
  " 5 - Trocar 3 primeiros da fila com os 3 da pilha" ++ nl.
Definition msg_menu_6 : string := " 0 - Sair" ++ nl.
Definition msg_escolha : string := "Escolha: ".
Definition msg_entrada_invalida : string := "Entrada invalida." ++ nl.

Section jogo.
Context `{R : Rand}.

(** Lines 205-216: the title, the state and the menu. *)
Definition mostrarMenu (j : Jogo) : Prog Mundo unit :=
  printf msg_titulo_1;;
  printf msg_titulo_2;;
  printf msg_titulo_3;;
  mostrarEstado (fila j) (pilha j);;
  printf msg_menu_0;;
  printf msg_menu_1;;
  printf msg_menu_2;;
  printf msg_menu_3;;
  printf msg_menu_4;;
  printf msg_menu_5;;
  printf msg_menu_6;;
  printf msg_escolha.

(** Lines 205-286: the body of the loop.  The result is the state of the
    locals [fila], [pilha] and [opcao] when the test of the loop is
    reached. *)
Definition corpo (j : Jogo) (opcao : option Z) : Prog Proc (Jogo * option Z) :=
  no_mundo (mostrarMenu j);;
  r ← scanf_d;
  let opcao := from_option Some opcao r.2 in
  if bool_decide (r.1 <> 1) then
    no_mundo (printf msg_entrada_invalida);;
    limparEntrada;;
    mret (j, opcao)
  else
    limparEntrada;;
    no_mundo (printf nl);;
    o ← lift (ler_local opcao);
    j' ← no_mundo (menu_switch o j);
    o' ← lift (ler_local opcao);
    (if bool_decide (o' <> 0)
     then no_mundo (mostrarEstado (fila j') (pilha j'))
     else mret tt);;
    mret (j', opcao).

(** [do { corpo } while (opcao != 0);] with at most [n] iterations. *)
Fixpoint laco (n : nat) (j : Jogo) (opcao : option Z) : Prog Proc Jogo :=
  match n with
  | O => lift (Err OutOfFuel)
  | S n' =>
      r ← corpo j opcao;
      o ← lift (ler_local r.2);
      if bool_decide (o <> 0) then laco n' r.1 r.2 else mret r.1
  end.

(** [main]: the generator is seeded with the clock, the two structs, which
    hold [f0] and [p0] when they are declared, are initialised and the
    queue filled, and the loop runs.  The result is the exit status. *)
Definition main (n : nat) (f0 : Fila) (p0 : Pilha) : Prog Proc Z :=
  t ← time_null;
  no_mundo (srand (to_unsigned t));;
  j ← no_mundo (iniciar f0 p0);
  laco n j None;;
  mret 0.
End jogo.

(** ** Sessions *)

(** The input of a user who types the numbers [ops], one per line. *)
Fixpoint linhas (ops : list Z) : string :=
  match ops with
  | [] => ""
  | o :: ops' => fmt_d o ++ nl ++ linhas ops'
  end.

(** The first read fails on the input [i]: [scanf] stores nothing. *)
Definition leitura_falha (i : string) : Prop :=
  exists r i', scanf_d_str i = Ok (r, None, i').

(** The errors [main] can end with: the read of [opcao] before anything
    was stored in it, an overflow (of the counter, or a number typed
    outside [int]), and, in the model, the end of the fuel. *)
Definition erros_main (e : Erro) : Prop :=
  e = UninitRead \/ e = IntOverflow \/ e = OutOfFuel.

#[export] Instance erros_main_dec e : Decision (erros_main e).
Proof. unfold erros_main. apply _. Defined.

(** ** Examples *)

(** The process at the start of [main], with the input of a session. *)
Definition proc_ex (i : string) : Proc (R := rand_lcg) :=
  proc_inicial (R := rand_lcg) 1 i 2024.

(** ** What the loop prints before it reads *)

Definition texto_menu (c : list Peca * list Peca) : string :=
  msg_titulo_1 ++ msg_titulo_2 ++ msg_titulo_3 ++ texto_estado c.1 c.2 ++
  msg_menu_0 ++ msg_menu_1 ++ msg_menu_2 ++ msg_menu_3 ++ msg_menu_4 ++
  msg_menu_5 ++ msg_menu_6 ++ msg_escolha.

(** The process state after the menu was shown and [t] printed. *)
Definition apos_menu `{R : Rand} (j : Jogo) (t : string) (s : Proc) : Mundo :=
  set_saida (saida (mundo s) ++ texto_menu (jogo_conteudo j) ++ t)%string
    (mundo s).

(** ** Lemmas *)

Section jogo_lemmas.
Context `{R : Rand}.
Implicit Types (s : Proc) (w : Mundo) (j : Jogo) (opcao : option Z).

Lemma wp_mostrarMenu j w (Q : unit -> Mundo -> Prop) :
  jogo_ok j ->
  Q tt (set_saida (saida w ++ texto_menu (jogo_conteudo j))%string w) ->
  wp (mostrarMenu j) w Q.
Proof.
  intros [Hf Hp] HQ. unfold mostrarMenu, texto_menu, jogo_conteudo in *.
  do 3 (wp_step; apply wp_printf). wp_step. apply wp_mostrarEstado; [done..|].
  do 7 (wp_step; apply wp_printf). apply wp_printf.
  simpl saida. rewrite !set_saida_twice. cbn [fst snd] in HQ. by str_assoc.
Qed.

(** An iteration whose read fails: the locals are as they were, the line is
    discarded, and only the output has changed. *)
Lemma wp_corpo_falha j opcao s r i' (Q : Jogo * option Z -> Proc -> Prop) :
  jogo_ok j -> scanf_d_str (entrada s) = Ok (r, None, i') ->
  Q (j, opcao)
    (set_entrada (apos_linha i') (set_mundo (apos_menu j msg_entrada_invalida s) s)) ->
  wp (corpo j opcao) s Q.
Proof.
  intros Hok Hr HQ. pose proof (scanf_d_str_none _ _ _ Hr) as Hr1.
  unfold corpo. wp_io. wp_io. apply wp_mostrarMenu; [done|].
  wp_io. wp_io. cbn [entrada set_mundo]. rewrite Hr. cbn [res_wp fst snd].
  rewrite bool_decide_eq_true_2 by done.
  wp_io. wp_io. wp_io. wp_io. wp_io. wp_io.
  unfold apos_menu in HQ. cbn. rewrite set_saida_twice.
  by rewrite <- string_app_assoc.
Qed.
(** An iteration that reads the number [v] from a line: the menu is
    printed, the line is read, and the switch runs on the state that this
    left. *)
Lemma wp_corpo_switch j opcao s v resto (Q : Jogo * option Z -> Proc -> Prop) :
  jogo_ok j -> in_int v -> entrada s = (fmt_d v ++ nl ++ resto)%string ->
  wp (menu_switch v j) (apos_menu j nl s) (fun j' w' =>
    jogo_ok j' /\
    forall s', mundo s' ≡ₘ w' -> entrada s' = resto -> Q (j', Some v) s') ->
  wp (corpo j opcao) s Q.
Proof.
  intros Hok Hv Hs Hsw.
  unfold corpo. wp_io. wp_io. apply wp_mostrarMenu; [done|].
  wp_io. wp_io. cbn [entrada set_mundo]. rewrite Hs, scanf_d_str_linha by done.
  cbn [res_wp fst snd from_option].
  rewrite bool_decide_eq_false_2 by (intros H; by apply H).
  repeat wp_io. cbn [res_wp ler_local]. wp_io. wp_io.
  cbn. rewrite set_saida_twice, <- string_app_assoc.
  eapply wp_mono; [exact Hsw|]. intros j' w' ([Hf' Hp'] & HQ).
  repeat wp_io. cbn [res_wp]. wp_io. case_bool_decide.
  - wp_io. apply wp_mostrarEstado; [done..|]. wp_io. by apply HQ.
  - wp_io. wp_io. by apply HQ.
Qed.

(** The same iteration, with the choice run from any state [w0] that
    differs from the state of the process in the output only. *)
Lemma wp_corpo_passo j opcao s w0 v resto
    (Q : Jogo * option Z -> Proc -> Prop) :
  jogo_wf j -> in_int v -> entrada s = (fmt_d v ++ nl ++ resto)%string ->
  mundo s ≡ₘ w0 -> 1 <= proxId w0 -> proxId w0 + 1 <= INT_MAX ->
  (forall j1 w1 s1,
     menu_switch v j w0 = Ok (j1, w1) -> jogo_wf j1 ->
     proxId w0 <= proxId w1 <= proxId w0 + 1 ->
     mundo s1 ≡ₘ w1 -> entrada s1 = resto -> Q (j1, Some v) s1) ->
  wp (corpo j opcao) s Q.
Proof.
  intros Hwf Hv Hs Hw Hlo Hhi HQ.
  apply (wp_corpo_switch j opcao s v resto); [by apply jogo_wf_ok|done..|].
  apply (wp_cego _ w0); [by rewrite <- Hw|].
  destruct (wp_is_ok (menu_switch v j) w0 (passo_ok w0)) as (j1 & w1 & Hrun);
    [by apply wp_menu_switch|].
  pose proof (wp_run _ _ _ _ _ (wp_menu_switch v j w0 _ Hwf Hlo Hhi
    (fun _ _ H => H)) Hrun) as [Hwf1 Hid1].
  apply wp_ok. exists j1, w1. split; [done|]. intros w1' Hw1.
  split; [by apply jogo_wf_ok|]. intros s1 Hs1 He1.
  apply (HQ j1 w1); [done..| |done]. by rewrite Hs1.
Qed.

(** An iteration that reads the number [v] from a line: the choice is run
    on the state, which keeps [jogo_wf], and the input is left at the next
    line. *)
Lemma wp_corpo_lido j opcao s v resto (Q : Jogo * option Z -> Proc -> Prop) :
  jogo_wf j -> in_int v -> entrada s = (fmt_d v ++ nl ++ resto)%string ->
  1 <= proxId (mundo s) -> proxId (mundo s) + 1 <= INT_MAX ->
  (forall j' s', jogo_wf j' -> entrada s' = resto ->
     proxId (mundo s) <= proxId (mundo s') <= proxId (mundo s) + 1 ->
     Q (j', Some v) s') ->
  wp (corpo j opcao) s Q.
Proof.
  intros Hwf Hv Hs Hlo Hhi HQ.
  apply (wp_corpo_passo j opcao s (mundo s) v resto); [done..|].
  intros j1 w1 s1 _ Hwf1 Hid1 Hs1 He1. apply HQ; [done..|]. by rewrite Hs1.
Qed.
(** One iteration of the loop, and its test. *)
Lemma laco_passo n j opcao s r s' o :
  corpo j opcao s = Ok (r, s') -> r.2 = Some o ->
  laco (S n) j opcao s =
    if bool_decide (o <> 0) then laco n r.1 r.2 s' else Ok (r.1, s').
Proof.
  intros Hc Ho. cbn [laco]. unfold mbind, prog_bind. rewrite Hc, Ho. simpl.
  by case_bool_decide.
Qed.

(** The loop on a session (lines that hold choices other than 0, then a
    line that holds 0) ends with the locals that the run [menu_lista] of
    the same choices ends with, and with its counter and generator. *)
Lemma wp_laco_lista ops n j opcao s w0 resto (Q : Jogo -> Proc -> Prop) :
  jogo_wf j -> Forall (fun o => in_int o /\ o <> 0) ops ->
  (length ops < n)%nat ->
  entrada s = (linhas (ops ++ [0]) ++ resto)%string ->
  mundo s ≡ₘ w0 -> 1 <= proxId w0 ->
  proxId w0 + Z.of_nat (length ops) + 1 <= INT_MAX ->
  (forall j' w' s',
     menu_lista (ops ++ [0]) j w0 = Ok (j', w') -> jogo_wf j' ->
     proxId w0 <= proxId w' <= proxId w0 + Z.of_nat (length ops) + 1 ->
     mundo s' ≡ₘ w' -> entrada s' = resto -> Q j' s') ->
  wp (laco n j opcao) s Q.
Proof.
  revert n j opcao s w0 Q. induction ops as [|o ops IH];
    intros n j opcao s w0 Q Hwf Hops Hn Hs Hw Hlo Hhi HQ;
    (destruct n as [|n]; [simpl in Hn; lia|]); cbn [laco]; wp_io.
  - apply (wp_corpo_passo j opcao s w0 0 resto); [done|int_lia|done..|lia|].
    intros j1 w1 s1 Hrun Hwf1 Hid1 Hs1 He1. repeat wp_io. cbn.
    apply (HQ j1 w1); [|done|simpl; lia|done..].
    simpl. by rewrite (prog_bind_run _ _ _ _ _ Hrun).
  - apply Forall_cons_1 in Hops as [[Ho Ho0] Hops]. simpl length in *.
    apply (wp_corpo_passo j opcao s w0 o (linhas (ops ++ [0]) ++ resto));
      [done|done|by rewrite Hs; simpl; str_assoc|done|done|lia|].
    intros j1 w1 s1 Hrun Hwf1 Hid1 Hs1 He1. wp_io. wp_io. cbn.
    rewrite bool_decide_eq_true_2 by done.
    apply (IH _ _ _ _ w1); [done|done|lia|done|done|lia..|].
    intros j' w' s' Hrun' Hwf' Hid' Hs' He'.
    apply (HQ j' w'); [|done|lia|done..].
    simpl. by rewrite (prog_bind_run _ _ _ _ _ Hrun).
Qed.

(** The rule of the loop on a session. *)
Lemma wp_laco ops n j opcao s resto (Q : Jogo -> Proc -> Prop) :
  jogo_wf j -> Forall (fun o => in_int o /\ o <> 0) ops ->
  (length ops < n)%nat ->
  entrada s = (linhas (ops ++ [0]) ++ resto)%string ->
  1 <= proxId (mundo s) ->
  proxId (mundo s) + Z.of_nat (length ops) + 1 <= INT_MAX ->
  (forall j' s', jogo_wf j' -> entrada s' = resto ->
     proxId (mundo s) <= proxId (mundo s')
       <= proxId (mundo s) + Z.of_nat (length ops) + 1 ->
     Q j' s') ->
  wp (laco n j opcao) s Q.
Proof.
  intros Hwf Hops Hn Hs Hlo Hhi HQ.
  apply (wp_laco_lista ops n j opcao s (mundo s) resto); [done..|].
  intros j' w' s' _ Hwf' Hid' Hs' He'. apply HQ; [done..|]. by rewrite Hs'.
Qed.
(** An iteration on any input, from a state of the invariant: it ends in
    a state of the invariant, or with one of the errors of [erros_main]. *)
Lemma wpe_corpo j opcao s (Q : Jogo * option Z -> Proc -> Prop) :
  inv (j, mundo s) ->
  (forall r s', inv (r.1, mundo s') -> Q r s') ->
  wpe erros_main (corpo j opcao) s Q.
Proof.
  intros Hinv HQ. pose proof Hinv as [Hwf _]. cbn [fst] in Hwf.
  unfold corpo. apply wpe_bind, wp_wpe. wp_io.
  apply wp_mostrarMenu; [by apply jogo_wf_ok|].
  apply wpe_bind, wpe_scanf_d; [by right; left|]. intros r i' Hr.
  cbn [fst snd]. case_bool_decide.
  { apply wp_wpe. repeat wp_io. by apply HQ. }
  apply wpe_bind, wp_wpe. wp_io. apply wpe_bind, wp_wpe. wp_io. wp_io.
  apply wpe_bind, wpe_lift. destruct (from_option Some opcao r.2) as [o|];
    [|by left]. cbn [ler_local].
  apply wpe_bind, wpe_no_mundo, wpe_menu_switch; [done|by right; left|].
  intros j' w' Hinv'. pose proof Hinv' as [(Hf' & Hp' & _) _].
  apply wp_wpe. repeat wp_io. cbn [res_wp]. wp_io. case_bool_decide.
  - wp_io. apply wp_mostrarEstado; [done..|]. wp_io. by apply HQ.
  - wp_io. wp_io. by apply HQ.
Qed.

(** The loop on any input and any fuel. *)
Lemma wpe_laco n j opcao s (Q : Jogo -> Proc -> Prop) :
  inv (j, mundo s) ->
  (forall j' s', inv (j', mundo s') -> Q j' s') ->
  wpe erros_main (laco n j opcao) s Q.
Proof.
  revert j opcao s. induction n as [|n IH]; intros j opcao s Hinv HQ;
    [by right; right|].
  cbn [laco]. apply wpe_bind, wpe_corpo; [done|]. intros [j1 o1] s1 Hinv1.
  apply wpe_bind, wpe_lift. destruct o1 as [o|]; [|by left]. cbn.
  case_bool_decide; [by apply IH|by apply HQ].
Qed.

(** The locals the loop ends a session with are a state of the machine of
    [Maquina], so that what holds of every reachable state holds of them. *)
Lemma laco_alcancavel ops n j opcao s resto :
  alcancavel (j, mundo s) -> Forall (fun o => in_int o /\ o <> 0) ops ->
  (length ops < n)%nat ->
  entrada s = (linhas (ops ++ [0]) ++ resto)%string ->
  proxId (mundo s) + Z.of_nat (length ops) + 1 <= INT_MAX ->
  wp (laco n j opcao) s (fun j' s' =>
    exists w', mundo s' ≡ₘ w' /\ alcancavel (j', w') /\ entrada s' = resto).
Proof.
  intros Halc Hops Hn Hs Hhi. destruct (alc_inv _ Halc) as [Hwf Hid].
  unfold MAX_FILA in Hid. cbn [fst snd] in *.
  apply (wp_laco_lista ops n j opcao s (mundo s) resto); [done..|lia|done|].
  intros j' w' s' Hrun _ _ Hs' He'. exists w'. split_and!; [done| |done].
  by apply (menu_lista_alcancavel (ops ++ [0]) j (mundo s)).
Qed.
End jogo_lemmas.

Section jogo_theorems.
Context `{R : Rand}.
Implicit Types (s : Proc) (w : Mundo) (j : Jogo) (opcao : option Z).

(** A session ends: on lines that hold choices other than 0 followed by a
    line that holds 0, the loop stops after one iteration per line, with no
    undefined behaviour, both invariants and a full queue, the input left
    after the session and at most one piece generated per choice. *)
Theorem laco_termina ops n j opcao s resto :
  jogo_wf j -> Forall (fun o => in_int o /\ o <> 0) ops ->
  (length ops < n)%nat ->
  entrada s = (linhas (ops ++ [0]) ++ resto)%string ->
  1 <= proxId (mundo s) ->
  proxId (mundo s) + Z.of_nat (length ops) + 1 <= INT_MAX ->
  wp (laco n j opcao) s (fun j' s' =>
    jogo_wf j' /\ entrada s' = resto /\
    proxId (mundo s) <= proxId (mundo s')
      <= proxId (mundo s) + Z.of_nat (length ops) + 1).
Proof.
  intros Hwf Hops Hn Hs Hlo Hhi. by apply (wp_laco ops n j opcao s resto).
Qed.

(** [main] on a session: from any contents of the two structs, any
    state of the generator and any time of the clock, the program reads the
    session and exits with status 0. *)
Theorem main_termina ops n f0 p0 sd t resto :
  length (fila_itens f0) = Z.to_nat MAX_FILA ->
  length (pilha_itens p0) = Z.to_nat MAX_PILHA ->
  Forall (fun o => in_int o /\ o <> 0) ops ->
  Z.of_nat (length ops) <= INT_MAX - 7 -> (length ops < n)%nat ->
  wp (main n f0 p0) (proc_inicial sd (linhas (ops ++ [0]) ++ resto) t)
    (fun r s' => r = 0 /\ entrada s' = resto /\
                 6 <= proxId (mundo s') <= 7 + Z.of_nat (length ops)).
Proof.
  intros Hlf Hlp Hops Hlen Hn. unfold main. do 7 wp_io.
  apply wp_iniciar; [done || (simpl; int_lia)..|].
  intros j w Hwf _ _ _ Hid _. simpl in Hid. unfold MAX_FILA in Hid.
  wp_io. apply (wp_laco ops _ _ _ _ resto); [done..|cbn; int_lia|cbn; int_lia|].
  intros j' s' Hwf' He Hid'. wp_io. cbn in Hid'. split_and!; [done..|lia|lia].
Qed.

(** C19: [main] on any input: whatever the memory of the two structs held,
    whatever the clock and whatever is typed, numbers or not, [main] ends
    with exit status 0 or with one of three errors: the read of [opcao]
    before anything was stored in it, an overflow (of the counter, or of
    a number typed outside [int]), or the loop still running when the
    fuel ends.  It never reads or writes outside an array and never
    divides by zero. *)
Theorem main_seguro n f0 p0 sd i t :
  length (fila_itens f0) = Z.to_nat MAX_FILA ->
  length (pilha_itens p0) = Z.to_nat MAX_PILHA ->
  wpe erros_main (main n f0 p0) (proc_inicial sd i t) (fun r _ => r = 0).
Proof.
  intros Hlf Hlp. unfold main.
  apply wpe_bind, wp_wpe. wp_io. apply wpe_bind, wp_wpe. wp_io. wp_io.
  apply wpe_bind, wp_wpe. wp_io.
  apply (wp_mono _ _ (fun j w => inv (j, w)));
    [apply wp_ok; cbn [mundo]|intros j w Hinv].
  - destruct (wp_is_ok (iniciar f0 p0)
      (mundo_inicial (rand_seed (to_unsigned t))) (fun _ _ => True))
      as (j & w & Hrun); [apply wp_iniciar; done || (simpl; int_lia)|].
    exists j, w. split; [done|]. by eapply (inicio_post f0 p0).
  - apply wpe_bind, wpe_laco; [done|]. intros j' s' _. by apply wp_wpe.
Qed.

(** The loop of [main] computes the run of the switch: on a session
    (lines that hold choices other than 0, then a line that holds 0) the
    loop ends with the locals that [menu_lista] gives for the same choices
    from the same counter and generator, and leaves that counter and that
    generator: the reading, the menu and the display change the output
    and the input only. *)
Theorem laco_refina ops n j opcao s resto :
  jogo_wf j -> Forall (fun o => in_int o /\ o <> 0) ops ->
  (length ops < n)%nat ->
  entrada s = (linhas (ops ++ [0]) ++ resto)%string ->
  1 <= proxId (mundo s) ->
  proxId (mundo s) + Z.of_nat (length ops) + 1 <= INT_MAX ->
  wp (laco n j opcao) s (fun j' s' =>
    exists w', menu_lista (ops ++ [0]) j (mundo s) = Ok (j', w') /\
               mundo s' ≡ₘ w' /\ entrada s' = resto).
Proof.
  intros Hwf Hops Hn Hs Hlo Hhi.
  apply (wp_laco_lista ops n j opcao s (mundo s) resto); [done..|].
  intros j' w' s' Hrun _ _ Hs' He'. by exists w'.
Qed.

(** C23: The end of the input after a choice other than 0: [scanf] fails for
    ever, [opcao] keeps its value and the loop never ends.  No amount of
    fuel lets it finish. *)
Theorem laco_eof n j v s :
  jogo_ok j -> v <> 0 -> entrada s = ""%string ->
  laco n j (Some v) s = Err OutOfFuel.
Proof.
  revert s. induction n as [|n IH]; intros s Hok Hv Hs; [done|].
  pose proof (wp_corpo_falha j (Some v) s EOF ""
    (fun r s' => r = (j, Some v) /\ entrada s' = ""%string) Hok) as H.
  rewrite Hs in H. specialize (H scanf_d_str_eof (conj eq_refl eq_refl)).
  apply wp_ok in H as ([j' o'] & s' & Hrun & [= -> ->] & Hs').
  rewrite (laco_passo n j (Some v) s _ s' v Hrun eq_refl).
  rewrite bool_decide_eq_true_2 by done. by apply IH.
Qed.

(** C25: A first line that is not a number: [scanf] stores nothing, [continue]
    jumps to the test of the loop, and the test reads [opcao], which was
    never initialised. *)
Theorem main_uninit n f0 p0 sd i t :
  length (fila_itens f0) = Z.to_nat MAX_FILA ->
  length (pilha_itens p0) = Z.to_nat MAX_PILHA ->
  leitura_falha i ->
  main (S n) f0 p0 (proc_inicial sd i t) = Err UninitRead.
Proof.
  intros Hlf Hlp (r & i' & Hr).
  apply wpe_err. unfold main. apply wpe_bind, wp_wpe. wp_io. apply wpe_bind, wp_wpe.
  wp_io. wp_io. apply wpe_bind, wp_wpe. wp_io.
  apply wp_iniciar; [done || (simpl; int_lia)..|].
  intros j w Hwf _ _ _ _ _. cbn [laco]. do 2 apply wpe_bind. apply wp_wpe.
  apply (wp_corpo_falha _ _ _ r i'); [by apply jogo_wf_ok|done|].
  by apply wpe_bind, wpe_lift.
Qed.
(** C37: A line that holds a number outside the range of [int]: the conversion
    of [scanf("%d")] is undefined, whatever the state of the game. *)
Theorem corpo_overflow j opcao s z resto :
  jogo_ok j -> ~ in_int z -> entrada s = (fmt_d z ++ nl ++ resto)%string ->
  corpo j opcao s = Err IntOverflow.
Proof.
  intros Hok Hz Hs.
  pose proof (wp_mostrarMenu j (mundo s) (fun _ _ => True) Hok I) as Hm.
  apply wp_ok in Hm as ([] & w & Hm & _).
  unfold corpo, mbind at 1, prog_bind at 1, no_mundo. rewrite Hm.
  unfold mbind at 1, prog_bind at 1, scanf_d, mbind at 1, prog_bind at 1, gets.
  unfold mbind at 1, prog_bind at 1, lift. cbn [entrada set_mundo].
  by rewrite Hs, scanf_d_str_overflow.
Qed.
End jogo_theorems.

(** ** Witnesses *)

Lemma laco_termina_witness :
  jogo_wf jogo_ex /\ Forall (fun o => in_int o /\ o <> 0) [1; 2; 9; 5] /\
  (length [1; 2; 9; 5]%Z < 7)%nat /\
  entrada (proc_ex (linhas [1; 2; 9; 5; 0] ++ "1")) =
    (linhas ([1; 2; 9; 5] ++ [0]) ++ "1")%string /\
  1 <= proxId (mundo (proc_ex (linhas [1; 2; 9; 5; 0] ++ "1"))) /\
  proxId (mundo (proc_ex (linhas [1; 2; 9; 5; 0] ++ "1"))) +
    Z.of_nat (length [1; 2; 9; 5]) + 1 <= INT_MAX /\
  wp (laco 7 jogo_ex None) (proc_ex (linhas [1; 2; 9; 5; 0] ++ "1"))
    (fun j' s' =>
       jogo_wf j' /\ entrada s' = "1"%string /\
       proxId (mundo (proc_ex (linhas [1; 2; 9; 5; 0] ++ "1")))
         <= proxId (mundo s')
         <= proxId (mundo (proc_ex (linhas [1; 2; 9; 5; 0] ++ "1"))) +
            Z.of_nat (length [1; 2; 9; 5]) + 1).
Proof.
  split; [|split; [|split; [|split; [|split; [|split;
    [|apply (laco_termina [1; 2; 9; 5])]]]]]]; by_compute.
Defined.

Lemma main_termina_witness :
  length (fila_itens fila_lixo_ex) = Z.to_nat MAX_FILA /\
  length (pilha_itens pilha_ex) = Z.to_nat MAX_PILHA /\
  Forall (fun o => in_int o /\ o <> 0) [2; 2; 5; -1] /\
  Z.of_nat (length [2; 2; 5; -1]) <= INT_MAX - 7 /\
  (length [2; 2; 5; -1]%Z < 5)%nat /\
  wp (main 5 fila_lixo_ex pilha_ex)
    (proc_ex (linhas ([2; 2; 5; -1] ++ [0]) ++ ""))
    (fun r s' => r = 0 /\ entrada s' = ""%string /\
                 6 <= proxId (mundo s') <= 7 + Z.of_nat (length [2; 2; 5; -1])).
Proof.
  split; [|split; [|split; [|split; [|split;
    [|apply (main_termina [2; 2; 5; -1])]]]]]; by_compute.
Defined.

Lemma laco_eof_witness :
  jogo_ok jogo_ex /\ 3 <> 0 /\ entrada (proc_ex "") = ""%string /\
  laco 50 jogo_ex (Some 3) (proc_ex "") = Err OutOfFuel.
Proof. split; [|split; [|split; [|apply laco_eof]]]; by_compute. Defined.

Lemma main_uninit_witness :
  length (fila_itens fila_lixo_ex) = Z.to_nat MAX_FILA /\
  length (pilha_itens pilha_ex) = Z.to_nat MAX_PILHA /\
  leitura_falha ("jogar" ++ nl) /\
  main 1 fila_lixo_ex pilha_ex (proc_ex ("jogar" ++ nl)) = Err UninitRead.
Proof.
  split; [by_compute|split; [by_compute|split;
    [by eexists _, _|apply (main_uninit 0); [by_compute..|by eexists _, _]]]].
Defined.

Lemma corpo_overflow_witness :
  jogo_ok jogo_ex /\ ~ in_int 2147483648 /\
  entrada (proc_ex ("2147483648" ++ nl)) =
    (fmt_d 2147483648 ++ nl ++ "")%string /\
  corpo jogo_ex None (proc_ex ("2147483648" ++ nl)) = Err IntOverflow.
Proof.
  split; [|split; [|split; [|apply (corpo_overflow _ _ _ 2147483648 "")]]];
    by_compute.
Defined.

Lemma laco_refina_witness :
  jogo_wf jogo_ex /\ Forall (fun o => in_int o /\ o <> 0) [1; 2; 9; 5] /\
  (length [1; 2; 9; 5] < 7)%nat /\
  entrada (proc_ex (linhas ([1; 2; 9; 5] ++ [0]) ++ "1")) =
    (linhas ([1; 2; 9; 5] ++ [0]) ++ "1")%string /\
  1 <= proxId (mundo (proc_ex (linhas ([1; 2; 9; 5] ++ [0]) ++ "1"))) /\
  proxId (mundo (proc_ex (linhas ([1; 2; 9; 5] ++ [0]) ++ "1")))
    + Z.of_nat (length [1; 2; 9; 5]) + 1 <= INT_MAX /\
  wp (laco 7 jogo_ex None) (proc_ex (linhas ([1; 2; 9; 5] ++ [0]) ++ "1"))
    (fun j' s' =>
       exists w',
         menu_lista ([1; 2; 9; 5] ++ [0]) jogo_ex
           (mundo (proc_ex (linhas ([1; 2; 9; 5] ++ [0]) ++ "1")))
           = Ok (j', w') /\
         mundo s' ≡ₘ w' /\ entrada s' = "1"%string).
Proof.
  split_and!; [by_compute|by_compute|by_compute|done|by_compute|by_compute|].
  apply (laco_refina [1; 2; 9; 5] 7 jogo_ex None _ "1");
    [by_compute|by_compute|by_compute|done|by_compute|by_compute].
Defined.

Lemma main_seguro_witness :
  length (fila_itens fila_lixo_ex) = Z.to_nat MAX_FILA /\
  length (pilha_itens pilha_ex) = Z.to_nat MAX_PILHA /\
  wpe erros_main (main 9 fila_lixo_ex pilha_ex)
    (proc_ex ("2" ++ nl ++ "x" ++ nl ++ nl ++ " -7 5" ++ nl ++ "0"))
    (fun r _ => r = 0).
Proof. split_and!; [done..|]. by apply main_seguro. Defined.
