(* ===== verification/Sessao.v ===== *)
(** * Sessao: the loop of [main] on any input

    The loop of [main] (lines 202-288 of [src/tetris.c]) reads its input
    without looking at the game: what [scanf] and [limparEntrada] consume
    and what the test [opcao != 0] decides depend on the characters typed
    and on nothing else.  This file separates the two.

    [analisa] reads an input the way the loop does and returns what the
    loop does with it: the events of its iterations (a choice that reaches
    the [switch], or a line that is not a number), how the loop ends and
    the input it leaves.  It is a function of the input alone.  [sessao]
    runs events on the game, with all that an iteration prints, and [corre]
    puts the end after them.

    The theorems: the loop is [corre] of [analisa], on every input, from
    every state and with every fuel ([laco_corre]); the events of a
    session end with the game that [menu_lista] gives for their choices
    and print [texto_sessao] ([sessao_refina]); [main] does what the
    analysis of its input says ([main_analisa]); the analysis of an input
    needs no more iterations than the input has characters and one, unless
    the loop never ends ([analisa_basta]); and so the input alone decides
    whether [main] exits, stops on an error or runs for ever
    ([main_classifica]). *)

From Stdlib Require Import ZArith String Ascii.
From stdpp Require Import base tactics option list numbers strings.
From S2P Require Import Prelude Mundo Peca Fila Pilha Troca Menu Maquina.
From S2P Require Import Exibicao Saida Entrada Jogo.

#[local] Open Scope Z_scope.

(** ** The analysis of the input *)

(** What an iteration of the loop does: it runs the [switch] on a choice,
    or it reports a line that is not a number. *)
Inductive Evento : Type :=
  | Escolha (v : Z)
  | Invalida.

(** How the loop ends after its events: the test finds [opcao] zero; or the
    loop stops with an error (at the test, which reads [opcao], or for want
    of fuel); or the menu is shown once more and the read stops with an
    error. *)
Inductive Fim : Type :=
  | Saiu
  | Parou (e : Erro)
  | LeituraParou (e : Erro).

#[export] Instance Evento_eq_dec : EqDecision Evento.
Proof. solve_decision. Defined.

#[export] Instance Fim_eq_dec : EqDecision Fim.
Proof. solve_decision. Defined.

Record Analise : Type := {
  eventos : list Evento;
  fim : Fim;
  resto : string  (* the input the loop leaves *)
}.

(** One more event before the analysis [a]. *)
Definition antes (ev : Evento) (a : Analise) : Analise :=
  {| eventos := ev :: eventos a; fim := fim a; resto := resto a |}.

(** The event of an iteration in which [scanf] returned [r] and [opcao]
    holds [opcao]: none when the [switch] would read an [opcao] that holds
    nothing. *)
Definition evento_de (r : Z) (opcao : option Z) : option Evento :=
  if bool_decide (r <> 1) then Some Invalida else Escolha <$> opcao.

(** At most [n] iterations of the loop on the input [i], with [opcao]
    holding [opcao] (nothing, when the loop starts): lines 218-223 and the
    test of line 288. *)
Fixpoint analisa (n : nat) (i : string) (opcao : option Z) : Analise :=
  match n with
  | O => {| eventos := []; fim := Parou OutOfFuel; resto := i |}
  | S n' =>
      match scanf_d_str i with
      | Err e => {| eventos := []; fim := LeituraParou e; resto := i |}
      | Ok (r, ov, i') =>
          let opcao' := from_option Some opcao ov in
          let i'' := apos_linha i' in
          match evento_de r opcao' with
          | None =>
              {| eventos := []; fim := LeituraParou UninitRead; resto := i'' |}
          | Some ev =>
              match opcao' with
              | None =>
                  {| eventos := [ev]; fim := Parou UninitRead; resto := i'' |}
              | Some o =>
                  if bool_decide (o <> 0) then antes ev (analisa n' i'' opcao')
                  else {| eventos := [ev]; fim := Saiu; resto := i'' |}
              end
          end
      end
  end.

(** The error a loop ends with, if any. *)
Definition desfecho (f : Fim) : option Erro :=
  match f with
  | Saiu => None
  | Parou e | LeituraParou e => Some e
  end.

(** The choices among the events: what the [switch] runs on. *)
Definition escolhas (evs : list Evento) : list Z :=
  omap (fun ev => match ev with Escolha v => Some v | Invalida => None end) evs.

(** ** The events on the game *)

Section sessao.
Context `{R : Rand}.

(** What an iteration does once a choice was read: the [switch] and the
    display (lines 225-286). *)
Definition apos_leitura (o : Z) (j : Jogo) : Prog Mundo Jogo :=
  printf nl;;
  j' ← menu_switch o j;
  (if bool_decide (o <> 0) then mostrarEstado (fila j') (pilha j')
   else mret tt);;
  mret j'.

(** One iteration of the loop without its reads: the menu, then the report
    of the line or the [switch] and the display (lines 205-286). *)
Definition evento (ev : Evento) (j : Jogo) : Prog Mundo Jogo :=
  mostrarMenu j;;
  match ev with
  | Invalida => printf msg_entrada_invalida;; mret j
  | Escolha o => apos_leitura o j
  end.

Fixpoint sessao (evs : list Evento) (j : Jogo) : Prog Mundo Jogo :=
  match evs with
  | [] => mret j
  | ev :: evs' => j' ← evento ev j; sessao evs' j'
  end.

(** The loop as its analysis says: the events, then the end. *)
Definition corre (a : Analise) (j : Jogo) : Prog Proc Jogo :=
  j' ← no_mundo (sessao (eventos a) j);
  match fim a with
  | Saiu => modify (set_entrada (resto a));; mret j'
  | Parou e => lift (Err e)
  | LeituraParou e => no_mundo (mostrarMenu j');; lift (Err e)
  end.

(** The process after an analysed session that left the game in [w]. *)
Definition apos_sessao (a : Analise) (w : Mundo) (s : Proc) : Proc :=
  {| mundo := w; entrada := resto a; relogio := relogio s |}.

(** What an event does to the game: the [switch], or nothing. *)
Definition passo_evento (ev : Evento) (j : Jogo) : Prog Mundo Jogo :=
  match ev with
  | Escolha o => menu_switch o j
  | Invalida => mret j
  end.

(** The text of an iteration on the event [ev], from the locals [j] to the
    locals [j1]: the menu, then the report of the line, or an empty line,
    what the [switch] prints and, unless the choice is 0, the state. *)
Definition texto_evento (ev : Evento) (j : Jogo) (w : Mundo) (j1 : Jogo)
  : string :=
  texto_menu (jogo_conteudo j) ++
  match ev with
  | Invalida => msg_entrada_invalida
  | Escolha o =>
      nl ++ escrito (menu_switch o j) w ++
      (if bool_decide (o <> 0)
       then texto_estado (jogo_conteudo j1).1 (jogo_conteudo j1).2
       else "")
  end.

(** The text of a session. *)
Fixpoint texto_sessao (evs : list Evento) (j : Jogo) (w : Mundo) : string :=
  match evs with
  | [] => ""
  | ev :: evs' =>
      match passo_evento ev j w with
      | Ok (j1, w1) => texto_evento ev j w j1 ++ texto_sessao evs' j1 w1
      | Err _ => ""
      end
  end.
End sessao.

(** ** Examples *)

(** A session with a line that is not a number, a line of two numbers and
    an empty line. *)
Definition entrada_sessao_ex : string :=
  "2" ++ nl ++ "x" ++ nl ++ nl ++ " -7 5" ++ nl ++ "0" ++ nl ++ "1".

(** Its events: the empty line is white space before the number of the
    next line, and the second number of a line is discarded with it. *)
Definition eventos_ex : list Evento :=
  [Escolha 2; Invalida; Escolha (-7); Escolha 0].

(** An input that ends after a choice other than 0. *)
Definition entrada_sem_fim_ex : string := "3" ++ nl.

(** An input whose first line is not a number. *)
Definition entrada_letras_ex : string := "jogar" ++ nl ++ "0" ++ nl.

(** ** Lemmas: the analysis *)

Section analise.
Implicit Types (i : string) (opcao : option Z) (a : Analise) (n m : nat).

(** The analysis at the end of the input, with a choice other than 0 in
    [opcao]: every iteration reports a failed read and the loop goes on. *)
Lemma analisa_vazia n o :
  o <> 0 ->
  analisa n "" (Some o) =
    {| eventos := replicate n Invalida; fim := Parou OutOfFuel; resto := "" |}.
Proof.
  intros Ho. induction n as [|n IH]; [done|]. cbn [analisa scanf_d_str skip_space].
  cbn. rewrite bool_decide_eq_true_2 by done. by rewrite IH.
Qed.

(** An analysis that did not run out of iterations is the analysis with
    any larger number of iterations. *)
Lemma analisa_mais n m i opcao :
  fim (analisa n i opcao) <> Parou OutOfFuel -> (n <= m)%nat ->
  analisa m i opcao = analisa n i opcao.
Proof.
  revert m i opcao. induction n as [|n IH]; intros m i opcao Hf Hm; [done|].
  destruct m as [|m]; [lia|]. cbn [analisa] in *.
  destruct (scanf_d_str i) as [[[r ov] i']|e]; [|done]. cbn zeta in *.
  destruct (evento_de r _) as [ev|]; [|done].
  destruct (from_option Some opcao ov) as [o|]; [|done].
  case_bool_decide; [|done]. by rewrite IH by (done || lia).
Qed.

(** An analysis with more iterations than the input has characters runs
    out of them only when the loop never ends. *)
Lemma analisa_diverge n i opcao :
  (String.length i < n)%nat -> fim (analisa n i opcao) = Parou OutOfFuel ->
  forall m, fim (analisa m i opcao) = Parou OutOfFuel.
Proof.
  revert i opcao. induction n as [|n IH]; intros i opcao Hn Hf; [lia|].
  intros [|m]; [done|]. cbn [analisa] in *.
  destruct (scanf_d_str i) as [[[r ov] i']|e] eqn:Hr; [|done]. cbn zeta in *.
  destruct (evento_de r _) as [ev|]; [|done].
  destruct (from_option Some opcao ov) as [o|] eqn:Ho; [|done].
  case_bool_decide; [|done]. cbn [antes fim] in *.
  destruct (decide (i = ""%string)) as [->|Hi].
  - injection Hr as <- <- <-. by rewrite analisa_vazia.
  - apply IH; [|done]. pose proof (leitura_consome i _ _ Hi Hr). lia.
Qed.

Lemma escolhas_escolha v evs : escolhas (Escolha v :: evs) = v :: escolhas evs.
Proof. done. Qed.

Lemma escolhas_invalida evs : escolhas (Invalida :: evs) = escolhas evs.
Proof. done. Qed.

Lemma escolhas_fmap ops : escolhas (Escolha <$> ops) = ops.
Proof. induction ops as [|o ops IH]; [done|]. by rewrite fmap_cons, escolhas_escolha, IH. Qed.

(** The loop runs the [switch] at most once per character of the input,
    however long it runs. *)
Lemma escolhas_analisa n i opcao :
  (length (escolhas (eventos (analisa n i opcao))) <= String.length i)%nat.
Proof.
  revert i opcao. induction n as [|n IH]; intros i opcao; [simpl; lia|].
  cbn [analisa]. destruct (scanf_d_str i) as [[[r ov] i']|e] eqn:Hr;
    [|simpl; lia]. cbn zeta.
  pose proof (scanf_d_str_length _ _ _ Hr) as Hl.
  pose proof (apos_linha_length i') as Hl'.
  assert (r = 1 -> (String.length (apos_linha i') < String.length i)%nat) as H1.
  { intros ->. eapply leitura_consome; [|done]. by eapply scanf_d_str_um. }
  specialize (IH (apos_linha i') (from_option Some opcao ov)).
  unfold evento_de. case_bool_decide as Hr1;
    destruct (from_option Some opcao ov) as [o|]; try (simpl; lia);
    cbn [fmap option_fmap option_map]; case_bool_decide;
    cbn [antes eventos]; rewrite ?escolhas_escolha, ?escolhas_invalida;
    simpl; lia.
Qed.

(** The events of at most [n] iterations. *)
Lemma eventos_analisa n i opcao :
  (length (eventos (analisa n i opcao)) <= n)%nat.
Proof.
  revert i opcao. induction n as [|n IH]; intros i opcao; [done|].
  cbn [analisa]. destruct (scanf_d_str i) as [[[r ov] i']|e]; [|simpl; lia].
  cbn zeta. destruct (evento_de r _) as [ev|]; [|simpl; lia].
  destruct (from_option Some opcao ov) as [o|]; [|simpl; lia].
  case_bool_decide; [|simpl; lia]. specialize (IH (apos_linha i') (Some o)).
  simpl. lia.
Qed.

(** The analysis of a session: lines that hold choices other than 0, then
    a line that holds 0. *)
Lemma analisa_linhas ops n opcao r :
  Forall (fun o => in_int o /\ o <> 0) ops -> (length ops < n)%nat ->
  analisa n (linhas (ops ++ [0]) ++ r) opcao =
    {| eventos := Escolha <$> (ops ++ [0]); fim := Saiu; resto := r |}.
Proof.
  revert n opcao. induction ops as [|o ops IH]; intros n opcao Hops Hn;
    (destruct n as [|n]; [simpl in Hn; lia|]); cbn [analisa].
  - change (linhas ([] ++ [0]) ++ r)%string with (fmt_d 0 ++ nl ++ r)%string.
    by rewrite scanf_d_str_linha by int_lia.
  - apply Forall_cons_1 in Hops as [[Ho Ho0] Hops]. simpl in Hn.
    replace (linhas ((o :: ops) ++ [0]) ++ r)%string
      with (fmt_d o ++ nl ++ (linhas (ops ++ [0]) ++ r))%string
      by (simpl; by str_assoc).
    rewrite scanf_d_str_linha by done. cbn zeta. cbn [from_option].
    unfold evento_de. rewrite bool_decide_eq_false_2 by (intros H; by apply H).
    cbn [fmap option_fmap option_map]. rewrite bool_decide_eq_true_2 by done.
    by rewrite apos_linha_nl, IH by (done || lia).
Qed.
End analise.

(** ** Lemmas: one iteration *)

Section sessao_lemmas.
Context `{R : Rand}.
Implicit Types (s : Proc) (w : Mundo) (j : Jogo) (opcao : option Z).
Implicit Types (a : Analise) (ev : Evento) (evs : list Evento).

(** The body of the loop, step by step: the menu, the read, and after the
    line was discarded either the report or the [switch]. *)
Lemma corpo_run j opcao s :
  corpo j opcao s =
    match mostrarMenu j (mundo s) with
    | Err e => Err e
    | Ok (_, w1) =>
        match scanf_d_str (entrada s) with
        | Err e => Err e
        | Ok (r, ov, i') =>
            let opcao' := from_option Some opcao ov in
            let s1 := set_entrada (apos_linha i') s in
            if bool_decide (r <> 1) then
              Ok ((j, opcao'),
                  set_mundo (set_saida (saida w1 ++ msg_entrada_invalida) w1) s1)
            else
              match opcao' with
              | None => Err UninitRead
              | Some o =>
                  match apos_leitura o j w1 with
                  | Err e => Err e
                  | Ok (j', w2) => Ok ((j', opcao'), set_mundo w2 s1)
                  end
              end
        end
    end.
Proof.
  unfold corpo. rewrite prog_bind_eq, no_mundo_eq.
  destruct (mostrarMenu j (mundo s)) as [[[] w1]|e]; [|done].
  rewrite prog_bind_eq. unfold scanf_d. rewrite !prog_bind_eq.
  unfold gets, lift. cbn [entrada set_mundo].
  destruct (scanf_d_str (entrada s)) as [[[r ov] i']|e]; [|done].
  unfold modify, mret, prog_ret. rewrite !prog_bind_eq. cbn [fst snd].
  case_bool_decide; [by prog_run|].
  prog_run. destruct (from_option Some opcao ov) as [o|]; [|done].
  cbn [ler_local]. prog_run. unfold apos_leitura. prog_run.
  cbn [mundo set_entrada set_mundo entrada].
  destruct (menu_switch o j _) as [[j' w2]|e]; [|done].
  prog_run. case_bool_decide; [|done].
  prog_run. cbn [mundo set_mundo].
  by destruct (mostrarEstado _ _ w2) as [[[] w3]|e].
Qed.

(** An event, step by step. *)
Lemma evento_run ev j w :
  evento ev j w =
    match mostrarMenu j w with
    | Err e => Err e
    | Ok (_, w1) =>
        match ev with
        | Invalida => Ok (j, set_saida (saida w1 ++ msg_entrada_invalida) w1)
        | Escolha o => apos_leitura o j w1
        end
    end.
Proof.
  unfold evento. rewrite prog_bind_eq.
  destruct (mostrarMenu j w) as [[[] w1]|e]; [|done]. by destruct ev.
Qed.

(** ** Lemmas: the events on the game *)

(** The choices of a list of events, run by [menu_lista], event by
    event. *)
Lemma menu_lista_escolhas ev evs j w :
  menu_lista (escolhas (ev :: evs)) j w =
    match passo_evento ev j w with
    | Ok (j1, w1) => menu_lista (escolhas evs) j1 w1
    | Err e => Err e
    end.
Proof. by destruct ev. Qed.

(** The rule of an event from the locals [j], with the game followed from
    a state [w0] that differs from the state of the process in the output
    only. *)
Lemma wp_evento ev j w w0 (Q : Jogo -> Mundo -> Prop) :
  jogo_wf j -> w ≡ₘ w0 -> 1 <= proxId w0 ->
  proxId w0 + Z.of_nat (length (escolhas [ev])) <= INT_MAX ->
  (forall j1 w1 w1',
     passo_evento ev j w0 = Ok (j1, w1') -> jogo_wf j1 ->
     proxId w0 <= proxId w1' <= proxId w0 + Z.of_nat (length (escolhas [ev])) ->
     w1 ≡ₘ w1' -> saida w1 = (saida w ++ texto_evento ev j w0 j1)%string ->
     Q j1 w1) ->
  wp (evento ev j) w Q.
Proof.
  intros Hwf Hw Hlo Hhi HQ. unfold evento. wp_step.
  apply wp_mostrarMenu; [by apply jogo_wf_ok|]. destruct ev as [o|].
  - unfold apos_leitura. wp_step. apply wp_printf. wp_step.
    rewrite set_saida_twice. simpl saida. simpl in Hhi, HQ.
    destruct (proj1 (wp_ok (menu_switch o j) w0 (passo_ok w0)))
      as (j1 & w1' & Hrun & Hwf1 & Hid1); [by apply wp_menu_switch|].
    destruct (cego_run (menu_switch o j) w0
                (set_saida ((saida w ++ texto_menu (jogo_conteudo j)) ++ nl) w)
                j1 w1') as (v & Hrunv & Hv & t & Ht0 & Htv);
      [by destruct Hw; split|done|].
    rewrite (cego_escrito _ _ _ _ Hrun) in Ht0.
    apply (strings.String.app_inj (saida w0)) in Ht0 as <-.
    apply wp_ok. exists j1, v. split; [done|]. pose proof Hwf1 as (Hf & Hp & _).
    wp_step. case_bool_decide.
    + apply wp_mostrarEstado; [done..|]. wp_step.
      apply (HQ j1 _ w1'); [done|done|lia| |].
      * etrans; [apply mesmo_jogo_set_saida|by symmetry].
      * simpl saida. rewrite Htv. simpl saida. unfold texto_evento.
        rewrite bool_decide_eq_true_2 by done. by str_assoc.
    + wp_step. wp_step. apply (HQ j1 _ w1'); [done|done|lia|by symmetry|].
      rewrite Htv. simpl saida. unfold texto_evento.
      rewrite (bool_decide_eq_false_2 (o <> 0)), string_app_nil_r by tauto.
      by str_assoc.
  - wp_step. apply wp_printf. wp_step. rewrite set_saida_twice.
    apply (HQ j _ w0); [done|done|simpl; lia|done|]. simpl.
    by str_assoc.
Qed.

(** The rule of a session: it ends with the locals, the counter and the
    generator that [menu_lista] gives for the choices among its events,
    and prints [texto_sessao]. *)
Lemma wp_sessao evs j w w0 (Q : Jogo -> Mundo -> Prop) :
  jogo_wf j -> w ≡ₘ w0 -> 1 <= proxId w0 ->
  proxId w0 + Z.of_nat (length (escolhas evs)) <= INT_MAX ->
  (forall j' w' w0',
     menu_lista (escolhas evs) j w0 = Ok (j', w0') -> jogo_wf j' ->
     proxId w0 <= proxId w0' <= proxId w0 + Z.of_nat (length (escolhas evs)) ->
     w' ≡ₘ w0' -> saida w' = (saida w ++ texto_sessao evs j w0)%string ->
     Q j' w') ->
  wp (sessao evs j) w Q.
Proof.
  revert j w w0 Q. induction evs as [|ev evs IH]; intros j w w0 Q Hwf Hw Hlo Hhi HQ.
  - apply wp_ret, (HQ j w w0); [done..|simpl; lia|done|].
    by rewrite string_app_nil_r.
  - cbn [sessao]. wp_step.
    assert (Hlen : length (escolhas (ev :: evs)) =
                   (length (escolhas [ev]) + length (escolhas evs))%nat)
      by (by destruct ev).
    rewrite Hlen in *.
    apply (wp_evento ev j w w0); [done..|lia|].
    intros j1 w1 w1' Hrun Hwf1 Hid1 Hw1 Ht1.
    apply (IH j1 w1 w1'); [done|done|lia|lia|].
    intros j' w' w0' Hrun' Hwf' Hid' Hw' Ht'.
    apply (HQ j' w' w0'); [|done|lia|done|].
    + by rewrite menu_lista_escolhas, Hrun.
    + cbn [texto_sessao]. rewrite Hrun, Ht', Ht1. by str_assoc.
Qed.

(** ** Lemmas: the loop *)

Lemma corre_run a j s :
  corre a j s =
    match sessao (eventos a) j (mundo s) with
    | Err e => Err e
    | Ok (j', w') =>
        match fim a with
        | Saiu => Ok (j', apos_sessao a w' s)
        | Parou e => Err e
        | LeituraParou e =>
            match mostrarMenu j' w' with Err e' => Err e' | Ok _ => Err e end
        end
    end.
Proof.
  unfold corre. prog_run.
  destruct (sessao (eventos a) j (mundo s)) as [[j' w']|e]; [|done].
  destruct (fim a); [done..|]. prog_run. cbn [mundo set_mundo].
  by destruct (mostrarMenu j' w') as [[]|].
Qed.

(** The loop on one more event. *)
Lemma corre_antes ev a j s :
  corre (antes ev a) j s =
    match evento ev j (mundo s) with
    | Err e => Err e
    | Ok (j', w') => corre a j' (set_mundo w' s)
    end.
Proof.
  rewrite corre_run. cbn [antes eventos fim sessao]. rewrite prog_bind_eq.
  destruct (evento ev j (mundo s)) as [[j' w']|e]; [|done].
  by rewrite corre_run.
Qed.

(** What the loop does is independent of the input the process holds:
    the analysis has read it. *)
Lemma corre_entrada a j s i : corre a j (set_entrada i s) = corre a j s.
Proof. by rewrite !corre_run. Qed.

(** The loop that ends after one event. *)
Lemma corre_um ev f i j s :
  corre {| eventos := [ev]; fim := f; resto := i |} j s =
    match evento ev j (mundo s) with
    | Err e => Err e
    | Ok (j', w') =>
        corre {| eventos := []; fim := f; resto := i |} j' (set_mundo w' s)
    end.
Proof. apply (corre_antes ev {| eventos := []; fim := f; resto := i |}). Qed.


(** The loop, as an equation. *)
Lemma laco_corre_eq n j opcao s :
  laco n j opcao s = corre (analisa n (entrada s) opcao) j s.
Proof.
  revert j opcao s. induction n as [|n IH]; intros j opcao s; [done|].
  cbn [laco analisa]. rewrite prog_bind_eq, corpo_run.
  destruct (scanf_d_str (entrada s)) as [[[r ov] i']|e];
    [|rewrite corre_run; cbn; by destruct (mostrarMenu j (mundo s)) as [[]|]].
  cbn zeta. unfold evento_de.
  destruct (from_option Some opcao ov) as [o|] eqn:Ho; case_bool_decide;
    cbn [fmap option_fmap option_map]; try case_bool_decide;
    rewrite ?corre_antes, ?corre_um, ?evento_run;
    try (rewrite corre_run; cbn [eventos fim sessao]; unfold mret, prog_ret);
    destruct (mostrarMenu j (mundo s)) as [[[] w1]|e]; try done.
  all: try (destruct (apos_leitura o j w1) as [[j' w2]|e]; [|done]).
  all: prog_run; unfold lift; cbn [ler_local fst snd];
    try case_bool_decide; try done.
  all: rewrite IH; exact (corre_entrada _ _ (set_mundo _ s) _).
Qed.

(** The loop from a state of the menu, when the counter has room for the
    choices of the analysis: the events run as [menu_lista] runs their
    choices, and the loop ends as the analysis says. *)
Lemma corre_wf a j s :
  jogo_wf j -> 1 <= proxId (mundo s) ->
  proxId (mundo s) + Z.of_nat (length (escolhas (eventos a))) <= INT_MAX ->
  exists j' w' w0',
    menu_lista (escolhas (eventos a)) j (mundo s) = Ok (j', w0') /\
    jogo_wf j' /\ w' ≡ₘ w0' /\
    saida w' = (saida (mundo s) ++ texto_sessao (eventos a) j (mundo s))%string /\
    corre a j s =
      match desfecho (fim a) with
      | None => Ok (j', apos_sessao a w' s)
      | Some e => Err e
      end.
Proof.
  intros Hwf Hlo Hhi.
  destruct (proj1 (wp_ok (sessao (eventos a) j) (mundo s) (fun j' w' =>
    exists w0', menu_lista (escolhas (eventos a)) j (mundo s) = Ok (j', w0') /\
      jogo_wf j' /\ w' ≡ₘ w0' /\
      saida w' = (saida (mundo s) ++ texto_sessao (eventos a) j (mundo s))%string)))
    as (j' & w' & Hrun & w0' & Hl & Hwf' & Hw' & Ht).
  { apply (wp_sessao _ _ _ (mundo s)); [done..|]. intros j' w' w0' ? ? ? ? ?.
    by exists w0'. }
  exists j', w', w0'. split_and!; [done..|]. rewrite corre_run, Hrun.
  destruct (fim a) as [|e|e]; [done..|]. cbn [desfecho].
  destruct (wp_is_ok (mostrarMenu j') w' (fun _ _ => True)) as ([] & w2 & ->);
    [by apply wp_mostrarMenu; [apply jogo_wf_ok|]|done].
Qed.

(** [main] is its initialisation followed by the loop of the analysis of
    its input. *)
Lemma main_run n f0 p0 sd i t j w :
  iniciar f0 p0 (mundo_inicial (rand_seed (to_unsigned t))) = Ok (j, w) ->
  main n f0 p0 (proc_inicial sd i t) =
    match corre (analisa n i None) j (set_mundo w (proc_inicial sd i t)) with
    | Ok (_, s') => Ok (0, s')
    | Err e => Err e
    end.
Proof.
  intros Hrun. unfold main. rewrite prog_bind_eq. unfold time_null, gets.
  rewrite prog_bind_eq, no_mundo_eq. unfold srand, modify.
  cbn [mundo proc_inicial relogio]. rewrite prog_bind_eq, no_mundo_eq.
  cbn [mundo set_mundo]. unfold set_semente, mundo_inicial in *.
  cbn [proxId saida] in *. rewrite Hrun, prog_bind_eq, laco_corre_eq.
  cbn [entrada set_mundo]. by destruct (corre _ _ _) as [[]|].
Qed.

(** What [main] does on an input, from the analysis of the input: the
    exit, with the game that [estado_apos] gives for the choices read, or
    the error of the analysis. *)
Lemma main_desfecho n f0 p0 sd i t :
  length (fila_itens f0) = Z.to_nat MAX_FILA ->
  length (pilha_itens p0) = Z.to_nat MAX_PILHA ->
  Z.of_nat (String.length i) <= INT_MAX - 6 ->
  match desfecho (fim (analisa n i None)) with
  | None =>
      exists s' e,
        main n f0 p0 (proc_inicial sd i t) = Ok (0, s') /\
        entrada s' = resto (analisa n i None) /\
        estado_apos f0 p0 (rand_seed (to_unsigned t))
          (escolhas (eventos (analisa n i None))) = Ok e /\
        alcancavel e /\ mundo s' ≡ₘ e.2
  | Some e => main n f0 p0 (proc_inicial sd i t) = Err e
  end.
Proof.
  intros Hlf Hlp Hi. set (a := analisa n i None).
  destruct (proj1 (wp_ok (iniciar f0 p0)
    (mundo_inicial (rand_seed (to_unsigned t))) (fun j w =>
      jogo_wf j /\ proxId w = 6))) as (j & w & Hrun & Hwf & Hid).
  { apply wp_iniciar; [done || (simpl; int_lia)..|].
    by intros j w Hwf _ _ _ Hid _. }
  pose proof (escolhas_analisa n i None) as Hesc. fold a in Hesc.
  destruct (corre_wf a j (set_mundo w (proc_inicial sd i t)) Hwf)
    as (j' & w' & w0' & Hl & Hwf' & Hw' & _ & Hc);
    [cbn [mundo set_mundo]; lia..|].
  rewrite (main_run n f0 p0 sd i t j w Hrun). fold a. rewrite Hc.
  destruct (desfecho (fim a)); [done|].
  assert (He : estado_apos f0 p0 (rand_seed (to_unsigned t))
                 (escolhas (eventos a)) = Ok (j', w0')).
  { unfold estado_apos. by rewrite prog_bind_eq, Hrun. }
  eexists _, (j', w0'). split_and!; [done|done|done| |done].
  by eapply estado_apos_alcancavel.
Qed.
End sessao_lemmas.

(** ** Theorems *)

Section sessao_theorems.
Context `{R : Rand}.
Implicit Types (s : Proc) (w : Mundo) (j : Jogo) (opcao : option Z).

(** C20: The loop is what its analysis says, on every input, from every state
    and with every fuel: the events that the analysis of the input gives
    run on the game, then the end that it gives. *)
Theorem laco_corre n j opcao s :
  laco n j opcao s = corre (analisa n (entrada s) opcao) j s.
Proof. apply laco_corre_eq. Qed.

(** The fuel of the analysis: one iteration more than the input has
    characters decides how the loop ends.  Either the analysis did not run
    out of iterations, and every larger number of iterations gives the same
    analysis; or it did, and then the loop never ends: it runs out of
    every number of iterations. *)
Theorem analisa_basta i opcao :
  (fim (analisa (S (String.length i)) i opcao) <> Parou OutOfFuel ->
   forall n, (String.length i < n)%nat ->
     analisa n i opcao = analisa (S (String.length i)) i opcao) /\
  (fim (analisa (S (String.length i)) i opcao) = Parou OutOfFuel ->
   forall n, fim (analisa n i opcao) = Parou OutOfFuel).
Proof.
  split.
  - intros Hf n Hn. apply analisa_mais; [done|lia].
  - apply analisa_diverge. lia.
Qed.

(** The analysis of a session reads its choices back: on lines that hold
    choices other than 0 and a line that holds 0, the events are the
    choices, the loop exits and the input is left after the session. *)
Theorem analisa_sessao ops n opcao r :
  Forall (fun o => in_int o /\ o <> 0) ops -> (length ops < n)%nat ->
  analisa n (linhas (ops ++ [0]) ++ r) opcao =
    {| eventos := Escolha <$> (ops ++ [0]); fim := Saiu; resto := r |}.
Proof. apply analisa_linhas. Qed.

(** A session on the game: from a state of the menu loop, the events of a
    session end with the locals, the counter and the generator that the
    run [menu_lista] of their choices gives, whatever lines that are not
    numbers came between them, and print [texto_sessao]. *)
Theorem sessao_refina evs j w :
  jogo_wf j -> 1 <= proxId w ->
  proxId w + Z.of_nat (length (escolhas evs)) <= INT_MAX ->
  wp (sessao evs j) w (fun j' w' =>
    exists w0', menu_lista (escolhas evs) j w = Ok (j', w0') /\
      jogo_wf j' /\ w' ≡ₘ w0' /\
      saida w' = (saida w ++ texto_sessao evs j w)%string).
Proof.
  intros Hwf Hlo Hhi. apply (wp_sessao _ _ _ w); [done..|].
  intros j' w' w0' ? ? ? ? ?. by exists w0'.
Qed.

(** C22: [main] on any input of less than [INT_MAX - 5] characters, from any
    memory, any generator, any clock and with any fuel: it does what the
    analysis of its input says.  It exits with status 0, the input left
    where the analysis left it and the game in the state of the machine
    that the choices read lead to; or it ends with the error of the
    analysis. *)
Theorem main_analisa n f0 p0 sd i t :
  length (fila_itens f0) = Z.to_nat MAX_FILA ->
  length (pilha_itens p0) = Z.to_nat MAX_PILHA ->
  Z.of_nat (String.length i) <= INT_MAX - 6 ->
  match desfecho (fim (analisa n i None)) with
  | None =>
      exists s' e,
        main n f0 p0 (proc_inicial sd i t) = Ok (0, s') /\
        entrada s' = resto (analisa n i None) /\
        estado_apos f0 p0 (rand_seed (to_unsigned t))
          (escolhas (eventos (analisa n i None))) = Ok e /\
        alcancavel e /\ mundo s' ≡ₘ e.2
  | Some e => main n f0 p0 (proc_inicial sd i t) = Err e
  end.
Proof. apply main_desfecho. Qed.

(** C21: The input alone decides how [main] ends.  With [a] the analysis of the
    input in one iteration more than it has characters: when [a] exits,
    [main] exits with status 0 with any fuel above the length of the input;
    when [a] stops on an error, so does [main] with any such fuel; and
    when [a] runs out of iterations, [main] never ends: it runs out of
    every fuel. *)
Theorem main_classifica f0 p0 sd i t :
  length (fila_itens f0) = Z.to_nat MAX_FILA ->
  length (pilha_itens p0) = Z.to_nat MAX_PILHA ->
  Z.of_nat (String.length i) <= INT_MAX - 6 ->
  match fim (analisa (S (String.length i)) i None) with
  | Saiu =>
      forall n, (String.length i < n)%nat ->
        exists s', main n f0 p0 (proc_inicial sd i t) = Ok (0, s')
  | Parou OutOfFuel =>
      forall n, main n f0 p0 (proc_inicial sd i t) = Err OutOfFuel
  | Parou e | LeituraParou e =>
      forall n, (String.length i < n)%nat ->
        main n f0 p0 (proc_inicial sd i t) = Err e
  end.
Proof.
  intros Hlf Hlp Hi.
  pose proof (fun n => main_desfecho n f0 p0 sd i t Hlf Hlp Hi) as Hm.
  assert (Hmais : forall n, (String.length i < n)%nat ->
    fim (analisa (S (String.length i)) i None) <> Parou OutOfFuel ->
    fim (analisa n i None) = fim (analisa (S (String.length i)) i None)).
  { intros n Hn Hf. by rewrite (analisa_mais _ n i None Hf) by lia. }
  pose proof (analisa_diverge (S (String.length i)) i None) as Hdiv.
  destruct (fim (analisa (S (String.length i)) i None)) as [|e|e] eqn:Hf.
  - intros n Hn. specialize (Hm n). rewrite Hmais in Hm by done.
    destruct Hm as (s' & _ & ? & _). by exists s'.
  - destruct (decide (e = OutOfFuel)) as [->|He].
    + intros n. specialize (Hm n). by rewrite Hdiv in Hm by (done || lia).
    + assert (forall n, (String.length i < n)%nat ->
        main n f0 p0 (proc_inicial sd i t) = Err e) as H.
      { intros n Hn. specialize (Hm n). by rewrite Hmais in Hm by congruence. }
      by destruct e.
  - intros n Hn. specialize (Hm n). by rewrite Hmais in Hm by done.
Qed.
End sessao_theorems.

(** ** Witnesses *)

Lemma analisa_ex :
  analisa 9 entrada_sessao_ex None =
    {| eventos := eventos_ex; fim := Saiu; resto := "1" |}.
Proof. vm_compute. reflexivity. Qed.

Lemma analisa_sessao_witness :
  Forall (fun o => in_int o /\ o <> 0) [1; 2; 9; 5] /\
  (length [1; 2; 9; 5] < 7)%nat /\
  analisa 7 (linhas ([1; 2; 9; 5] ++ [0]) ++ "1") None =
    {| eventos := Escolha <$> ([1; 2; 9; 5] ++ [0]); fim := Saiu; resto := "1" |}.
Proof. split_and!; [| |apply analisa_sessao]; by_compute. Defined.

Lemma sessao_refina_witness :
  wp (sessao eventos_ex jogo_cenario_ex) mundo6_ex (fun j' w' =>
    exists w0', menu_lista (escolhas eventos_ex) jogo_cenario_ex mundo6_ex
                  = Ok (j', w0') /\
      jogo_wf j' /\ w' ≡ₘ w0' /\
      saida w' =
        (saida mundo6_ex ++ texto_sessao eventos_ex jogo_cenario_ex mundo6_ex)%string).
Proof. apply sessao_refina; by_compute. Defined.

Lemma main_analisa_witness :
  exists s' e,
    main 9 fila_lixo_ex pilha_ex (proc_ex entrada_sessao_ex) = Ok (0, s') /\
    entrada s' = "1"%string /\
    estado_apos (R := rand_lcg) fila_lixo_ex pilha_ex
      (rand_seed (to_unsigned 2024)) (escolhas eventos_ex) = Ok e /\
    alcancavel e /\ mundo s' ≡ₘ e.2.
Proof.
  pose proof (main_analisa (R := rand_lcg) 9 fila_lixo_ex pilha_ex 1
                entrada_sessao_ex 2024 eq_refl eq_refl) as H.
  rewrite analisa_ex in H. cbn [desfecho fim resto eventos] in H.
  apply H. by_compute.
Defined.

Lemma fim_ex :
  fim (analisa (S (String.length entrada_sessao_ex)) entrada_sessao_ex None)
    = Saiu /\
  fim (analisa (S (String.length entrada_sem_fim_ex)) entrada_sem_fim_ex None)
    = Parou OutOfFuel /\
  fim (analisa (S (String.length entrada_letras_ex)) entrada_letras_ex None)
    = Parou UninitRead.
Proof. split_and!; vm_compute; reflexivity. Qed.

Lemma main_classifica_witness :
  (forall n, (String.length entrada_sessao_ex < n)%nat ->
     exists s', main n fila_lixo_ex pilha_ex (proc_ex entrada_sessao_ex)
                = Ok (0, s')) /\
  (forall n, main n fila_lixo_ex pilha_ex (proc_ex entrada_sem_fim_ex)
             = Err OutOfFuel) /\
  (forall n, (String.length entrada_letras_ex < n)%nat ->
     main n fila_lixo_ex pilha_ex (proc_ex entrada_letras_ex) = Err UninitRead).
Proof.
  destruct fim_ex as (H1 & H2 & H3).
  pose proof (main_classifica (R := rand_lcg) fila_lixo_ex pilha_ex 1
                entrada_sessao_ex 2024 eq_refl eq_refl) as M1.
  pose proof (main_classifica (R := rand_lcg) fila_lixo_ex pilha_ex 1
                entrada_sem_fim_ex 2024 eq_refl eq_refl) as M2.
  pose proof (main_classifica (R := rand_lcg) fila_lixo_ex pilha_ex 1
                entrada_letras_ex 2024 eq_refl eq_refl) as M3.
  rewrite H1 in M1. rewrite H2 in M2. rewrite H3 in M3.
  split_and!; [apply M1|apply M2|apply M3]; by_compute.
Defined.
