(* ===== verification/Texto.v ===== *)
(** * Texto: what [main] prints, as a function of its input and its seed

    [Sessao.v] gives the text of a session from the runs of the [switch];
    this file gives it from the game alone.  A [Partida] is what a player
    can know of a state of [main]: the queue front to back, the stack base
    to top, the counter and the generator.  [partida_passo] is a turn of
    the loop on a [Partida] (the step [abs_exec] of [Maquina.v] on the type
    the generator draws), [partida_inicial] is the [Partida] after the
    initial fill, [mensagem] is what the [switch] of lines 226-281 of
    [src/tetris.c] prints on a choice, and [texto_partida] is the text of
    a list of events: for each, the menu, then the report of the line or
    the message of the choice and the state it leaves.

    The theorems: a turn of [main] is [partida_passo] and prints [mensagem]
    ([menu_switch_mensagem]); the text of a session is [texto_partida] of
    its events ([sessao_texto]); and [main], on an input whose analysis
    exits, prints [texto_programa] of its input and of the seed the clock
    gives ([main_texto]).  No array, index or process state is left in
    that text: it is a function on lists and strings.  For the loop that
    does not end, [corpos] runs its body a given number of times:
    [corpos_eof] gives what it has printed after any number of iterations
    at the end of the input.

    The examples [saida_ex] and [saida_mensagens_ex] are texts the program
    built from [src/tetris.c] prints when its [rand] replays a script;
    [main_mensagens_ex] shows that [main] prints the second, which goes
    through every message [main] can reach, so that the wording of the
    messages is compared with the program's and not only with itself. *)

From Stdlib Require Import ZArith String Ascii.
From stdpp Require Import base tactics option list numbers strings.
From S2P Require Import Prelude Mundo Peca Fila Pilha Troca Menu Maquina Contador.
From S2P Require Import Completo Exibicao Saida Entrada Jogo Sessao.

#[local] Open Scope Z_scope.
#[local] Open Scope string_scope.

(** ** The message of a choice *)

(** What the [switch] prints on choice [o] when the queue and the stack
    hold [c]. *)
Definition mensagem (o : Z) (c : Conteudo) : string :=
  if decide (o = 1) then
    match MenuSpec.jogar c with
    | inr (x, _) => msg_jogou x
    | inl _ => msg_jogar_vazia
    end
  else if decide (o = 2) then
    match MenuSpec.reservar c with
    | inr (x, _) => msg_enviou x
    | inl e => MenuSpec.mensagem_reservar e
    end
  else if decide (o = 3) then
    match MenuSpec.usar c with
    | inr (x, _) => msg_usou x
    | inl _ => msg_reserva_vazia
    end
  else if decide (o = 4) then
    match TrocaSpec.frente_topo c.1 c.2 with
    | inr _ => msg_troca
    | inl e => TrocaSpec.mensagem_troca e
    end
  else if decide (o = 5) then
    match TrocaSpec.tres c.1 c.2 with
    | inr _ => msg_troca_tres
    | inl e => TrocaSpec.mensagem_troca e
    end
  else if decide (o = 0) then msg_saindo
  else msg_invalida.

(** ** The game a player sees *)

Section partida.
Context `{R : Rand}.

(** The type [gerarPeca] draws when the generator is in state [s]. *)
Definition tipo_de (s : rand_state) : ascii :=
  default "I"%char (TIPOS !! Z.to_nat ((rand_step s).1 mod QTD_TIPOS)).

(** The queue, the stack and the counter, and the generator. *)
Definition Partida : Type := Abs * rand_state.

Definition partida (e : Estado) : Partida := (abs e, semente e.2).

(** A turn on the choice [o]. *)
Definition partida_passo (o : Z) (p : Partida) : Partida :=
  (abs_exec o p.1 (tipo_de p.2),
   if repoe o (pecas p.1) then (rand_step p.2).2 else p.2).

(** The [n] pieces [gerarPeca] returns from the number [k] and the
    generator [s] on, and the generator after them. *)
Fixpoint sorteia_pecas (n : nat) (k : Z) (s : rand_state)
  : list Peca * rand_state :=
  match n with
  | O => ([], s)
  | S n' =>
      let r := sorteia_pecas n' (k + 1) (rand_step s).2 in
      ({| tipo := tipo_de s; id := k |} :: r.1, r.2)
  end.

(** The game after the initial fill, from the seed [s]. *)
Definition partida_inicial (s : rand_state) : Partida :=
  let r := sorteia_pecas (Z.to_nat MAX_FILA) 1 s in
  ({| pecas := (r.1, []); prox := 1 + MAX_FILA |}, r.2).

(** An event on the game: a choice is a turn, a line that is not a number
    changes nothing. *)
Definition partida_evento (ev : Evento) (p : Partida) : Partida :=
  match ev with
  | Escolha o => partida_passo o p
  | Invalida => p
  end.

(** The game after a list of events. *)
Fixpoint partida_apos (evs : list Evento) (p : Partida) : Partida :=
  match evs with
  | [] => p
  | ev :: evs' => partida_apos evs' (partida_evento ev p)
  end.

(** The text of an iteration on the event [ev]. *)
Definition texto_turno (ev : Evento) (p : Partida) : string :=
  texto_menu (pecas p.1) ++
  match ev with
  | Invalida => msg_entrada_invalida
  | Escolha o =>
      nl ++ mensagem o (pecas p.1) ++
      (if bool_decide (o <> 0)
       then texto_estado (pecas (partida_passo o p).1).1
                         (pecas (partida_passo o p).1).2
       else "")
  end.

(** The text of a list of events. *)
Fixpoint texto_partida (evs : list Evento) (p : Partida) : string :=
  match evs with
  | [] => ""
  | ev :: evs' => texto_turno ev p ++ texto_partida evs' (partida_evento ev p)
  end.

(** What [main] prints on the input [i] when [srand] leaves the generator
    in state [s]. *)
Definition texto_programa (i : string) (s : rand_state) : string :=
  texto_partida (eventos (analisa (S (String.length i)) i None))
    (partida_inicial s).

(** [n] iterations of the body of the loop, whatever its test says: what
    the [do ... while] has done when it has gone [n] times through its
    body. *)
Fixpoint corpos (n : nat) (j : Jogo) (opcao : option Z)
  : Prog Proc (Jogo * option Z) :=
  match n with
  | O => mret (j, opcao)
  | S n' => r ← corpo j opcao; corpos n' r.1 r.2
  end.
End partida.

(** [n] copies of a text. *)
Fixpoint repete (n : nat) (t : string) : string :=
  match n with
  | O => ""
  | S n' => t ++ repete n' t
  end.

(** ** Examples *)

(** A script for the initial fill of [abs_ex] and one more ["L"]. *)
Definition roteiro_ex : list nat := [0; 1; 2; 3; 4; 6; 5]%nat.

(** The text the program prints on the two lines [2] and [0] when [rand]
    replays [roteiro_ex], line by line. *)
Definition saida_ex : string :=
  nl ++
  "=============================" ++ nl ++
  "  Desafio Tetris Stack (C)" ++ nl ++
  "=============================" ++ nl ++
  nl ++
  "Fila (frente -> tras) [5/5]: [I#1] -> [O#2] -> [T#3] -> [S#4] -> [Z#5]" ++ nl ++
  "Pilha (base .. topo) [0/3]: (vazia)" ++ nl ++
  nl ++
  "Menu:" ++ nl ++
  " 1 - Jogar peca (remove da frente da fila)" ++ nl ++
  " 2 - Enviar peca da fila para a reserva (pilha)" ++ nl ++
  " 3 - Usar peca da reserva (pop da pilha)" ++ nl ++
  " 4 - Trocar peca da frente com topo da pilha" ++ nl ++
  " 5 - Trocar 3 primeiros da fila com os 3 da pilha" ++ nl ++
  " 0 - Sair" ++ nl ++
  "Escolha: " ++ nl ++
  "Enviou [I#1] da fila para a reserva." ++ nl ++
  nl ++
  "Fila (frente -> tras) [5/5]: [O#2] -> [T#3] -> [S#4] -> [Z#5] -> [L#6]" ++ nl ++
  "Pilha (base .. topo) [1/3]: [I#1]  <topo=[I#1]>" ++ nl ++
  nl ++
  nl ++
  "=============================" ++ nl ++
  "  Desafio Tetris Stack (C)" ++ nl ++
  "=============================" ++ nl ++
  nl ++
  "Fila (frente -> tras) [5/5]: [O#2] -> [T#3] -> [S#4] -> [Z#5] -> [L#6]" ++ nl ++
  "Pilha (base .. topo) [1/3]: [I#1]  <topo=[I#1]>" ++ nl ++
  nl ++
  "Menu:" ++ nl ++
  " 1 - Jogar peca (remove da frente da fila)" ++ nl ++
  " 2 - Enviar peca da fila para a reserva (pilha)" ++ nl ++
  " 3 - Usar peca da reserva (pop da pilha)" ++ nl ++
  " 4 - Trocar peca da frente com topo da pilha" ++ nl ++
  " 5 - Trocar 3 primeiros da fila com os 3 da pilha" ++ nl ++
  " 0 - Sair" ++ nl ++
  "Escolha: " ++ nl ++
  "Saindo..." ++ nl.

(** The input of a session that goes through every message [main] can
    print: the three failures on an empty reserve, a wrong choice, a line
    that is not a number, a piece played, sent, swapped and used, the
    reserve filled and refused, the triple swap and the exit. *)
Definition entrada_mensagens_ex : string :=
  "3" ++ nl ++ "4" ++ nl ++ "5" ++ nl ++ "9" ++ nl ++ "x" ++ nl ++
  "1" ++ nl ++ "2" ++ nl ++ "4" ++ nl ++ "3" ++ nl ++ "2" ++ nl ++
  "2" ++ nl ++ "2" ++ nl ++ "2" ++ nl ++ "5" ++ nl ++ "0" ++ nl.

(** The script of its draws. *)
Definition roteiro_mensagens_ex : list nat := [0; 1; 2; 3; 4; 5; 6; 0; 1; 2]%nat.

(** The title, the state in the two lines [f] and [p], and the menu, as
    the program prints them. *)
Definition menu_ex (f p : string) : string :=
  nl ++
  "=============================" ++ nl ++
  "  Desafio Tetris Stack (C)" ++ nl ++
  "=============================" ++ nl ++
  nl ++ f ++ nl ++ p ++ nl ++ nl ++
  "Menu:" ++ nl ++
  " 1 - Jogar peca (remove da frente da fila)" ++ nl ++
  " 2 - Enviar peca da fila para a reserva (pilha)" ++ nl ++
  " 3 - Usar peca da reserva (pop da pilha)" ++ nl ++
  " 4 - Trocar peca da frente com topo da pilha" ++ nl ++
  " 5 - Trocar 3 primeiros da fila com os 3 da pilha" ++ nl ++
  " 0 - Sair" ++ nl ++
  "Escolha: ".

(** An iteration as the program prints it: the menu over the state [f],
    [p], the message [m] of the choice and the state [f'], [p'] it
    leaves. *)
Definition turno_ex (f p m f' p' : string) : string :=
  menu_ex f p ++ nl ++ m ++ nl ++ nl ++ f' ++ nl ++ p' ++ nl ++ nl.

(** The text the program prints on [entrada_mensagens_ex] when [rand]
    replays [roteiro_mensagens_ex]. *)
Definition saida_mensagens_ex : string :=
  turno_ex
    "Fila (frente -> tras) [5/5]: [I#1] -> [O#2] -> [T#3] -> [S#4] -> [Z#5]"
    "Pilha (base .. topo) [0/3]: (vazia)"
    "Reserva vazia. Nada para usar."
    "Fila (frente -> tras) [5/5]: [I#1] -> [O#2] -> [T#3] -> [S#4] -> [Z#5]"
    "Pilha (base .. topo) [0/3]: (vazia)" ++
  turno_ex
    "Fila (frente -> tras) [5/5]: [I#1] -> [O#2] -> [T#3] -> [S#4] -> [Z#5]"
    "Pilha (base .. topo) [0/3]: (vazia)"
    "Falha: pilha vazia."
    "Fila (frente -> tras) [5/5]: [I#1] -> [O#2] -> [T#3] -> [S#4] -> [Z#5]"
    "Pilha (base .. topo) [0/3]: (vazia)" ++
  turno_ex
    "Fila (frente -> tras) [5/5]: [I#1] -> [O#2] -> [T#3] -> [S#4] -> [Z#5]"
    "Pilha (base .. topo) [0/3]: (vazia)"
    "Falha: a pilha precisa ter exatamente 3 pecas."
    "Fila (frente -> tras) [5/5]: [I#1] -> [O#2] -> [T#3] -> [S#4] -> [Z#5]"
    "Pilha (base .. topo) [0/3]: (vazia)" ++
  turno_ex
    "Fila (frente -> tras) [5/5]: [I#1] -> [O#2] -> [T#3] -> [S#4] -> [Z#5]"
    "Pilha (base .. topo) [0/3]: (vazia)"
    "Opcao invalida."
    "Fila (frente -> tras) [5/5]: [I#1] -> [O#2] -> [T#3] -> [S#4] -> [Z#5]"
    "Pilha (base .. topo) [0/3]: (vazia)" ++
  menu_ex
    "Fila (frente -> tras) [5/5]: [I#1] -> [O#2] -> [T#3] -> [S#4] -> [Z#5]"
    "Pilha (base .. topo) [0/3]: (vazia)" ++
  "Entrada invalida." ++ nl ++
  turno_ex
    "Fila (frente -> tras) [5/5]: [I#1] -> [O#2] -> [T#3] -> [S#4] -> [Z#5]"
    "Pilha (base .. topo) [0/3]: (vazia)"
    "Jogou peca: [I#1]"
    "Fila (frente -> tras) [5/5]: [O#2] -> [T#3] -> [S#4] -> [Z#5] -> [J#6]"
    "Pilha (base .. topo) [0/3]: (vazia)" ++
  turno_ex
    "Fila (frente -> tras) [5/5]: [O#2] -> [T#3] -> [S#4] -> [Z#5] -> [J#6]"
    "Pilha (base .. topo) [0/3]: (vazia)"
    "Enviou [O#2] da fila para a reserva."
    "Fila (frente -> tras) [5/5]: [T#3] -> [S#4] -> [Z#5] -> [J#6] -> [L#7]"
    "Pilha (base .. topo) [1/3]: [O#2]  <topo=[O#2]>" ++
  turno_ex
    "Fila (frente -> tras) [5/5]: [T#3] -> [S#4] -> [Z#5] -> [J#6] -> [L#7]"
    "Pilha (base .. topo) [1/3]: [O#2]  <topo=[O#2]>"
    "Troca realizada: frente da fila <-> topo da pilha."
    "Fila (frente -> tras) [5/5]: [O#2] -> [S#4] -> [Z#5] -> [J#6] -> [L#7]"
    "Pilha (base .. topo) [1/3]: [T#3]  <topo=[T#3]>" ++
  turno_ex
    "Fila (frente -> tras) [5/5]: [O#2] -> [S#4] -> [Z#5] -> [J#6] -> [L#7]"
    "Pilha (base .. topo) [1/3]: [T#3]  <topo=[T#3]>"
    "Usou peca da reserva: [T#3]"
    "Fila (frente -> tras) [5/5]: [O#2] -> [S#4] -> [Z#5] -> [J#6] -> [L#7]"
    "Pilha (base .. topo) [0/3]: (vazia)" ++
  turno_ex
    "Fila (frente -> tras) [5/5]: [O#2] -> [S#4] -> [Z#5] -> [J#6] -> [L#7]"
    "Pilha (base .. topo) [0/3]: (vazia)"
    "Enviou [O#2] da fila para a reserva."
    "Fila (frente -> tras) [5/5]: [S#4] -> [Z#5] -> [J#6] -> [L#7] -> [I#8]"
    "Pilha (base .. topo) [1/3]: [O#2]  <topo=[O#2]>" ++
  turno_ex
    "Fila (frente -> tras) [5/5]: [S#4] -> [Z#5] -> [J#6] -> [L#7] -> [I#8]"
    "Pilha (base .. topo) [1/3]: [O#2]  <topo=[O#2]>"
    "Enviou [S#4] da fila para a reserva."
    "Fila (frente -> tras) [5/5]: [Z#5] -> [J#6] -> [L#7] -> [I#8] -> [O#9]"
    "Pilha (base .. topo) [2/3]: [O#2] , [S#4]  <topo=[S#4]>" ++
  turno_ex
    "Fila (frente -> tras) [5/5]: [Z#5] -> [J#6] -> [L#7] -> [I#8] -> [O#9]"
    "Pilha (base .. topo) [2/3]: [O#2] , [S#4]  <topo=[S#4]>"
    "Enviou [Z#5] da fila para a reserva."
    "Fila (frente -> tras) [5/5]: [J#6] -> [L#7] -> [I#8] -> [O#9] -> [T#10]"
    "Pilha (base .. topo) [3/3]: [O#2] , [S#4] , [Z#5]  <topo=[Z#5]>" ++
  turno_ex
    "Fila (frente -> tras) [5/5]: [J#6] -> [L#7] -> [I#8] -> [O#9] -> [T#10]"
    "Pilha (base .. topo) [3/3]: [O#2] , [S#4] , [Z#5]  <topo=[Z#5]>"
    "Reserva cheia (pilha cheia). Nao foi possivel enviar."
    "Fila (frente -> tras) [5/5]: [J#6] -> [L#7] -> [I#8] -> [O#9] -> [T#10]"
    "Pilha (base .. topo) [3/3]: [O#2] , [S#4] , [Z#5]  <topo=[Z#5]>" ++
  turno_ex
    "Fila (frente -> tras) [5/5]: [J#6] -> [L#7] -> [I#8] -> [O#9] -> [T#10]"
    "Pilha (base .. topo) [3/3]: [O#2] , [S#4] , [Z#5]  <topo=[Z#5]>"
    "Troca de 3 realizada entre fila (3 primeiros) e pilha (3 itens)."
    "Fila (frente -> tras) [5/5]: [O#2] -> [S#4] -> [Z#5] -> [O#9] -> [T#10]"
    "Pilha (base .. topo) [3/3]: [J#6] , [L#7] , [I#8]  <topo=[I#8]>" ++
  menu_ex
    "Fila (frente -> tras) [5/5]: [O#2] -> [S#4] -> [Z#5] -> [O#9] -> [T#10]"
    "Pilha (base .. topo) [3/3]: [J#6] , [L#7] , [I#8]  <topo=[I#8]>" ++ nl ++
  "Saindo..." ++ nl.

(** A game whose queue is empty, which [main] never reaches. *)
Definition jogo_vazio_ex : Jogo :=
  {| fila := fila_vazia_ex; pilha := pilha_cheia_ex |}.

(** ** Lemmas: the message *)

Lemma sem_repor_saida `{R : Rand} (w : Mundo) c msg j' w' :
  sem_repor w c msg j' w' -> saida w' = saida w ++ msg.
Proof. by intros (_ & _ & _ & _ & ?). Qed.

Lemma repos_saida `{R : Rand} (w : Mundo) c msg j' w' :
  repos w c msg j' w' -> saida w' = saida w ++ msg.
Proof. by intros (_ & ps & _ & _ & _ & ? & _). Qed.

(** The text of a case of the [switch], from its outcome [r] on the
    contents. *)
Ltac saida_caso r :=
  destruct r as [?|[? ?]]; cbn [fst snd];
  intuition eauto using sem_repor_saida, repos_saida.

Section mensagem_lemmas.
Context `{R : Rand}.
Implicit Types (j : Jogo) (w : Mundo) (e : Estado) (o : Z).

(** The rule of the [switch] for what it prints. *)
Lemma wp_menu_switch_mensagem o j w :
  jogo_wf j -> 1 <= proxId w ->
  (sorteia o j = true -> proxId w + 1 <= INT_MAX) ->
  wp (menu_switch o j) w (fun _ w' =>
    saida w' = saida w ++ mensagem o (jogo_conteudo j)).
Proof.
  intros Hwf Hlo Hhi. pose proof (jogo_wf_ok j Hwf) as [Hf Hp].
  rewrite sorteia_true in Hhi. unfold menu_switch, mensagem.
  repeat case_decide; subst.
  - apply wp_caso_jogar; [done..|rewrite jogo_wf_faltam by done; lia|].
    intros j' w'. saida_caso (MenuSpec.jogar (jogo_conteudo j)).
  - destruct (pilhaCheia (pilha j)) eqn:Hc.
    + unfold wp. rewrite caso_reservar_cheia by done.
      unfold MenuSpec.reservar, jogo_conteudo. cbn [fst snd].
      fold (PilhaSpec.cheia (pilha_conteudo (pilha j))).
      by rewrite <- pilhaCheia_spec, Hc.
    + apply wp_caso_reservar; [done..|rewrite jogo_wf_faltam by done; lia|].
      intros j' w'. saida_caso (MenuSpec.reservar (jogo_conteudo j)).
  - apply wp_caso_usar; [done|].
    intros j' w'. saida_caso (MenuSpec.usar (jogo_conteudo j)).
  - eapply wp_mono; [by apply wp_caso_troca, wp_trocarFrenteComTopo|].
    intros j' w' [_ Hs]. revert Hs. cbn [jogo_conteudo fst snd].
    saida_caso (TrocaSpec.frente_topo (conteudo (fila j)) (pilha_conteudo (pilha j))).
  - eapply wp_mono; [by apply wp_caso_troca, wp_trocarTres|].
    intros j' w' [_ Hs]. revert Hs. cbn [jogo_conteudo fst snd].
    saida_caso (TrocaSpec.tres (conteudo (fila j)) (pilha_conteudo (pilha j))).
  - wp_step. apply wp_printf. by wp_step.
  - wp_step. apply wp_printf. by wp_step.
Qed.
End mensagem_lemmas.

(** ** Lemmas: the game *)

Section partida_lemmas.
Context `{R : Rand}.
Implicit Types (j : Jogo) (w : Mundo) (e : Estado) (o : Z).

Lemma tipo_sorteado_de w : tipo_sorteado w = Some (tipo_de (semente w)).
Proof.
  destruct (tipo_sorteado_some w) as (t & Ht & _). rewrite Ht.
  unfold tipo_sorteado in Ht. unfold tipo_de. by rewrite Ht.
Qed.

(** Two states hold the same game exactly when they show the same
    [Partida]; what follows of a [Partida] is independent of the arrays. *)
Lemma mesmo_estado_partida e1 e2 : mesmo_estado e1 e2 <-> partida e1 = partida e2.
Proof.
  unfold mesmo_estado, partida. split; [by intros [-> ->]|].
  intros H. split; [exact (f_equal fst H)|exact (f_equal snd H)].
Qed.

#[export] Instance partida_proper : Proper (mesmo_estado ==> eq) partida.
Proof. intros e1 e2. apply mesmo_estado_partida. Qed.

(** A turn of [main] from a state of the menu is [partida_passo]. *)
Lemma passo_partida e o e' :
  inv e -> passo e o e' -> partida e' = partida_passo o (partida e).
Proof.
  intros He Hp. destruct (passo_exec e o e' He Hp) as (t & Ht & Ha & Hs).
  rewrite tipo_sorteado_de in Ht. injection Ht as <-.
  unfold partida, partida_passo. by rewrite Ha, Hs.
Qed.

(** A run of [gerarPecas] returns the pieces of [sorteia_pecas]. *)
Lemma gerarPecas_sorteia n w ps w' :
  gerarPecas n w = Ok (ps, w') ->
  (ps, semente w') = sorteia_pecas n (proxId w) (semente w).
Proof.
  revert w ps w'. induction n as [|n IH]; intros w ps w' Hrun.
  - by injection Hrun as <- <-.
  - simpl in Hrun. apply prog_bind_ok in Hrun as (x & w1 & Hg & Hrun).
    apply prog_bind_ok in Hrun as (qs & w2 & Hgs & [= <- <-]).
    apply gerarPeca_ok in Hg as (t & Ht & -> & ->).
    apply IH in Hgs. rewrite tipo_sorteado_de in Ht. injection Ht as <-.
    cbn [sorteia_pecas]. simpl in Hgs. by rewrite <- Hgs.
Qed.

(** The initial fill leaves [partida_inicial], whatever the memory held. *)
Lemma iniciar_partida f0 p0 s j w :
  length (fila_itens f0) = Z.to_nat MAX_FILA ->
  length (pilha_itens p0) = Z.to_nat MAX_PILHA ->
  iniciar f0 p0 (mundo_inicial s) = Ok (j, w) ->
  partida (j, w) = partida_inicial s.
Proof.
  intros Hlf Hlp Hrun.
  pose proof (inicio_post f0 p0 s j w Hlf Hlp Hrun) as [_ (_ & _ & Hp & Hid)].
  assert (Hq : gerarPecas (Z.to_nat MAX_FILA) (mundo_inicial s)
                 = Ok (conteudo (fila j), w)).
  { revert Hrun. apply (wp_run _ _ (fun j w' =>
      gerarPecas (Z.to_nat MAX_FILA) (mundo_inicial s)
        = Ok (conteudo (fila j), w'))).
    eapply wp_mono; [by apply iniciar_gera|]. by intros j' w' [? _]. }
  apply gerarPecas_sorteia in Hq.
  unfold partida, partida_inicial, abs, jogo_conteudo in *.
  cbn [fst snd pecas prox proxId semente mundo_inicial] in *.
  by rewrite <- Hq, Hp, Hid.
Qed.

(** What the [switch] prints from a state of the menu is [mensagem]. *)
Lemma escrito_menu_switch o j w j' w' :
  inv (j, w) -> menu_switch o j w = Ok (j', w') ->
  escrito (menu_switch o j) w = mensagem o (jogo_conteudo j).
Proof.
  intros He Hrun. destruct (passo_post o j w j' w' He Hrun) as (Hhi & _).
  destruct He as [Hwf Hid]. unfold MAX_FILA in Hid. cbn [fst snd] in *.
  assert (Hlo : 1 <= proxId w) by lia.
  pose proof (wp_run _ _ _ _ _
    (wp_menu_switch_mensagem o j w Hwf Hlo Hhi) Hrun) as Ht.
  cbn beta in Ht. rewrite (cego_escrito _ _ _ _ Hrun) in Ht.
  by apply (strings.String.app_inj (saida w)) in Ht.
Qed.

(** An event from a state of the menu: the game it leaves and its text. *)
Lemma evento_partida ev j w j1 w1 :
  inv (j, w) -> passo_evento ev j w = Ok (j1, w1) ->
  inv (j1, w1) /\ partida (j1, w1) = partida_evento ev (partida (j, w)) /\
  texto_evento ev j w j1 = texto_turno ev (partida (j, w)).
Proof.
  intros He Hrun. destruct ev as [o|].
  - assert (Hp : passo (j, w) o (j1, w1)) by (by constructor).
    pose proof (passo_partida _ _ _ He Hp) as Hpar.
    split_and!; [by apply (passo_inv (j, w) o)|done|].
    unfold texto_evento, texto_turno.
    rewrite (escrito_menu_switch o j w j1 w1) by done.
    cbn [partida_evento] in Hpar. by rewrite <- Hpar.
  - by injection Hrun as <- <-.
Qed.

(** A session from a state of the menu: the game it leaves and its text. *)
Lemma sessao_partida evs j w e :
  inv (j, w) -> menu_lista (escolhas evs) j w = Ok e ->
  partida e = partida_apos evs (partida (j, w)) /\
  texto_sessao evs j w = texto_partida evs (partida (j, w)).
Proof.
  revert j w. induction evs as [|ev evs IH]; intros j w He Hrun.
  - by injection Hrun as <-.
  - rewrite menu_lista_escolhas in Hrun.
    cbn [texto_sessao texto_partida partida_apos].
    destruct (passo_evento ev j w) as [[j1 w1]|] eqn:H1; [|done].
    destruct (evento_partida ev j w j1 w1 He H1) as (He1 & Hp1 & Ht1).
    destruct (IH j1 w1 He1 Hrun) as [Hp Ht].
    by rewrite Ht1, Ht, Hp, Hp1.
Qed.
End partida_lemmas.

(** ** Lemmas: the program *)

Section programa_lemmas.
Context `{R : Rand}.
Implicit Types (j : Jogo) (w : Mundo) (e : Estado) (o : Z).

(** The initial fill from the state [srand] leaves: a state of the menu
    that holds [partida_inicial], with nothing printed. *)
Lemma iniciar_inicial f0 p0 s :
  length (fila_itens f0) = Z.to_nat MAX_FILA ->
  length (pilha_itens p0) = Z.to_nat MAX_PILHA ->
  exists j w,
    iniciar f0 p0 (mundo_inicial s) = Ok (j, w) /\ inv (j, w) /\
    partida (j, w) = partida_inicial s /\ saida w = "".
Proof.
  intros Hlf Hlp.
  destruct (proj1 (wp_ok (iniciar f0 p0) (mundo_inicial s)
    (fun _ w => saida w = ""))) as (j & w & Hrun & Hout).
  { apply wp_iniciar; [done || (simpl; int_lia)..|]. by intros. }
  exists j, w. split_and!; [done| |by apply (iniciar_partida f0 p0)|done].
  by apply (inicio_post f0 p0 s).
Qed.

(** What [main] prints and the game it leaves, on an input whose analysis
    exits. *)
Lemma main_saida n f0 p0 sd i t :
  length (fila_itens f0) = Z.to_nat MAX_FILA ->
  length (pilha_itens p0) = Z.to_nat MAX_PILHA ->
  Z.of_nat (String.length i) <= INT_MAX - 6 ->
  fim (analisa n i None) = Saiu ->
  exists s',
    main n f0 p0 (proc_inicial sd i t) = Ok (0, s') /\
    saida (mundo s') =
      texto_partida (eventos (analisa n i None))
        (partida_inicial (rand_seed (to_unsigned t))) /\
    (proxId (mundo s'), semente (mundo s')) =
      (let p := partida_apos (eventos (analisa n i None))
                  (partida_inicial (rand_seed (to_unsigned t))) in
       (prox p.1, p.2)).
Proof.
  intros Hlf Hlp Hi Hf. set (a := analisa n i None) in *.
  destruct (iniciar_inicial f0 p0 (rand_seed (to_unsigned t)) Hlf Hlp)
    as (j & w & Hrun & He & Hp0 & Hout).
  pose proof He as [Hwf _]. cbn [fst] in Hwf.
  pose proof (f_equal (fun p => prox p.1) Hp0) as Hid.
  cbn [partida partida_inicial abs prox fst snd] in Hid. unfold MAX_FILA in Hid.
  pose proof (escolhas_analisa n i None) as Hesc. fold a in Hesc.
  destruct (corre_wf a j (set_mundo w (proc_inicial sd i t)) Hwf)
    as (j' & w' & w0' & Hl & _ & [Hid' Hs'] & Ht & Hc);
    [cbn [mundo set_mundo]; lia..|].
  rewrite (main_run n f0 p0 sd i t j w Hrun). fold a. rewrite Hc, Hf.
  cbn [desfecho mundo set_mundo] in *.
  destruct (sessao_partida (eventos a) j w (j', w0') He Hl) as [Hp Htx].
  rewrite Hp0 in Hp, Htx. eexists. split; [done|]. cbn [mundo apos_sessao].
  rewrite Ht, Hout, Htx, Hid', Hs', <- Hp. done.
Qed.

(** At the end of the input an iteration prints the menu and the report
    of an invalid line, and changes nothing else. *)
Lemma wp_corpos_eof n j opcao s (Q : Jogo * option Z -> Proc -> Prop) :
  jogo_ok j -> entrada s = "" ->
  (forall s', entrada s' = "" -> relogio s' = relogio s ->
     mundo s' ≡ₘ mundo s ->
     saida (mundo s') =
       saida (mundo s) ++
       repete n (texto_menu (jogo_conteudo j) ++ msg_entrada_invalida) ->
     Q (j, opcao) s') ->
  wp (corpos n j opcao) s Q.
Proof.
  intros Hok. revert s Q. induction n as [|n IH]; intros s Q Hs HQ.
  - apply wp_ret, HQ; [done..|]. by rewrite string_app_nil_r.
  - cbn [corpos]. wp_step. apply (wp_corpo_falha j opcao s EOF ""); [done|..].
    { by rewrite Hs. }
    apply IH; [done|]. intros s' Hs' Hr' Hw' Ht'. apply HQ; [done..| |].
    + etrans; [exact Hw'|]. apply mesmo_jogo_set_saida.
    + rewrite Ht'. cbn [repete]. unfold apos_menu. simpl. by str_assoc.
Qed.
End programa_lemmas.

(** ** Theorems *)

Section texto_theorems.
Context `{R : Rand}.
Implicit Types (j : Jogo) (w : Mundo) (e : Estado) (o : Z).

(** C27: A turn of [main], as a player sees it: from a state of the menu,
    the [switch] on the choice [o] appends [mensagem o] of the contents to
    the output, and leaves the game [partida_passo] gives: the contents
    after the choice, refilled with a piece of the type the generator
    draws, the counter and the generator after it. *)
Theorem menu_switch_mensagem e o e' :
  inv e -> passo e o e' ->
  saida e'.2 = saida e.2 ++ mensagem o (pecas (abs e)) /\
  partida e' = partida_passo o (partida e).
Proof.
  intros He Hp. split; [|by apply passo_partida].
  destruct Hp as [j w o j' w' Hrun]. cbn [fst snd abs pecas].
  rewrite (cego_escrito _ _ _ _ Hrun). f_equal.
  by apply (escrito_menu_switch o j w j' w').
Qed.

(** C28: The text of a session: from a state of the menu, when the counter
    has room for the choices, the events of a session append
    [texto_partida] to the output and leave the game [partida_apos]
    gives, both functions of the game at the start. *)
Theorem sessao_texto evs j w :
  inv (j, w) -> proxId w + Z.of_nat (length (escolhas evs)) <= INT_MAX ->
  wp (sessao evs j) w (fun j' w' =>
    saida w' = saida w ++ texto_partida evs (partida (j, w)) /\
    partida (j', w') = partida_apos evs (partida (j, w))).
Proof.
  intros He Hhi. pose proof He as [Hwf Hid]. unfold MAX_FILA in Hid.
  cbn [fst snd] in *. apply (wp_sessao _ _ _ w); [done|done|lia|done|].
  intros j' w' w0' Hrun _ _ [Hid' Hs'] Ht.
  destruct (sessao_partida evs j w (j', w0') He Hrun) as [Hp Htx].
  rewrite Ht, Htx, <- Hp. unfold partida, abs. cbn [fst snd].
  by rewrite Hid', Hs'.
Qed.

(** C17: What [main] prints: on an input of less than [INT_MAX - 5]
    characters whose analysis exits, from any memory and any generator,
    with fuel above the length of the input, [main] returns 0 and its
    output is [texto_programa] of the input and of the seed [srand] sets
    from the clock: the text of the events of the input on the game that
    starts with the first five pieces the generator draws. *)
Theorem main_texto n f0 p0 sd i t :
  length (fila_itens f0) = Z.to_nat MAX_FILA ->
  length (pilha_itens p0) = Z.to_nat MAX_PILHA ->
  Z.of_nat (String.length i) <= INT_MAX - 6 ->
  (String.length i < n)%nat ->
  fim (analisa (S (String.length i)) i None) = Saiu ->
  exists s',
    main n f0 p0 (proc_inicial sd i t) = Ok (0, s') /\
    saida (mundo s') = texto_programa i (rand_seed (to_unsigned t)).
Proof.
  intros Hlf Hlp Hi Hn Hf.
  assert (Ha : analisa n i None = analisa (S (String.length i)) i None).
  { apply analisa_mais; [by rewrite Hf|lia]. }
  rewrite <- Ha in Hf.
  destruct (main_saida n f0 p0 sd i t Hlf Hlp Hi Hf) as (s' & Hrun & Ht & _).
  exists s'. split; [done|]. unfold texto_programa. by rewrite <- Ha.
Qed.

(** C24: What the loop prints when the input has ended: every iteration
    finds the end of the input, prints the menu and [Entrada invalida.]
    and leaves the locals, [opcao], the counter and the generator as they
    were.  After [n] iterations the output holds [n] more copies of that
    text; with [opcao] other than 0 the test sends the loop through its
    body again each time ([laco_eof]). *)
Theorem corpos_eof n j opcao s :
  jogo_ok j -> entrada s = "" ->
  wp (corpos n j opcao) s (fun r s' =>
    r = (j, opcao) /\ entrada s' = "" /\ mundo s' ≡ₘ mundo s /\
    saida (mundo s') =
      saida (mundo s) ++
      repete n (texto_menu (jogo_conteudo j) ++ msg_entrada_invalida)).
Proof. intros Hok Hs. by apply wp_corpos_eof. Qed.
End texto_theorems.

(** ** Witnesses *)

Lemma menu_switch_mensagem_witness :
  saida estado_reserva_ex.2 =
    saida (jogo_ex, mundo6_ex).2 ++ mensagem 2 (pecas (abs (jogo_ex, mundo6_ex))) /\
  partida estado_reserva_ex = partida_passo 2 (partida (jogo_ex, mundo6_ex)).
Proof.
  apply menu_switch_mensagem; [by_compute|]. apply (passo_ex 2 jogo_ex mundo6_ex).
  vm_compute. reflexivity.
Defined.

Lemma sessao_texto_witness :
  wp (sessao eventos_ex jogo_cenario_ex) mundo6_ex (fun j' w' =>
    saida w' =
      saida mundo6_ex ++ texto_partida eventos_ex (partida (jogo_cenario_ex, mundo6_ex)) /\
    partida (j', w') = partida_apos eventos_ex (partida (jogo_cenario_ex, mundo6_ex))).
Proof. apply sessao_texto; by_compute. Defined.

Lemma main_texto_witness :
  exists s',
    main 15 fila_lixo_ex pilha_ex (proc_inicial (R := rand_lcg) 1 entrada_sessao_ex 2024)
      = Ok (0, s') /\
    saida (mundo s') =
      texto_programa entrada_sessao_ex (rand_seed (to_unsigned 2024)).
Proof.
  apply (main_texto (R := rand_lcg) 15 fila_lixo_ex pilha_ex 1
           entrada_sessao_ex 2024 eq_refl eq_refl);
    [by_compute|by_compute|apply fim_ex].
Defined.

Lemma corpos_eof_witness :
  wp (corpos 3 jogo_cenario_ex (Some 3)) (proc_ex "") (fun r s' =>
    r = (jogo_cenario_ex, Some 3) /\ entrada s' = "" /\
    mundo s' ≡ₘ mundo (proc_ex "") /\
    saida (mundo s') =
      saida (mundo (proc_ex "")) ++
      repete 3 (texto_menu (jogo_conteudo jogo_cenario_ex) ++ msg_entrada_invalida)).
Proof. apply corpos_eof; [by_compute|done]. Defined.

(** The text of the session that sends the first piece to the reserve and
    exits, with the generator that replays [roteiro_ex]. *)
Lemma texto_programa_ex :
  texto_programa (R := rand_script roteiro_ex) ("2" ++ nl ++ "0" ++ nl) roteiro_ex =
    texto_menu (pecas abs_ex) ++ nl ++
    msg_enviou {| tipo := "I"; id := 1 |} ++
    texto_estado (pecas abs_reserva_ex).1 (pecas abs_reserva_ex).2 ++
    texto_menu (pecas abs_reserva_ex) ++ nl ++ msg_saindo.
Proof. vm_compute. reflexivity. Qed.

(** The same text, as the program prints it. *)
Lemma texto_programa_saida_ex :
  texto_programa (R := rand_script roteiro_ex) ("2" ++ nl ++ "0" ++ nl) roteiro_ex
    = saida_ex.
Proof. vm_compute. reflexivity. Qed.

(** [main] on the session of every message prints what the program
    prints: the wording of each message [main] can reach is the
    program's. *)
Lemma main_mensagens_ex :
  exists s',
    main 16 fila_lixo_ex pilha_ex
      (proc_inicial (R := rand_script roteiro_mensagens_ex) []
         entrada_mensagens_ex 0) = Ok (0, s') /\
    saida (mundo s') = saida_mensagens_ex.
Proof.
  destruct (main_saida (R := rand_script roteiro_mensagens_ex) 16
              fila_lixo_ex pilha_ex [] entrada_mensagens_ex 0 eq_refl eq_refl)
    as (s' & Hrun & Ht & _).
  - by_compute.
  - vm_compute. reflexivity.
  - exists s'. split; [done|]. rewrite Ht. vm_compute. reflexivity.
Qed.

(** The four messages that [main] cannot reach, since its queue is never
    empty: what the two cases and the two swaps print on an empty queue. *)
Lemma mensagens_fila_vazia_ex :
  escrito (caso_jogar jogo_vazio_ex) mundo6_ex
    = "Nao ha peca para jogar: fila vazia." ++ nl /\
  escrito (caso_reservar {| fila := fila_vazia_ex; pilha := pilha_ex |}) mundo6_ex
    = "Fila vazia. Nada para enviar." ++ nl /\
  escrito (trocarFrenteComTopo fila_vazia_ex pilha_cheia_ex) mundo6_ex
    = "Falha: fila vazia." ++ nl /\
  escrito (trocarTres fila_vazia_ex pilha_cheia_ex) mundo6_ex
    = "Falha: a fila precisa ter pelo menos 3 pecas." ++ nl.
Proof. split_and!; vm_compute; reflexivity. Qed.
